(* ===== verification/_CoqProject ===== *)
-Q . S2P
Prelude.v
CString.v
Hash.v
ConcurrentMap.v
ConcurrentMapSpec.v
MapReaders.v
MapReadersSpec.v
InternalQueue.v
InternalQueueSpec.v
RingFifoSpec.v
MetricTypes.v
CircularQueue.v
CircularQueueSpec.v
StackRing.v
StackRingSpec.v
ListenerSim.v
LinkableProfiler.v
LinkableProfilerSpec.v
SignalHandler.v
ProcScanner.v
ProcScannerSpec.v
Messages.v
CollectorController.v
CollectorControllerSpec.v
Metrics.v
MetricsSpec.v
MetricsDuty.v
MetricsDutySpec.v
Options.v
OptionsSpec.v
SymbolTable.v
SymbolTableSpec.v
Utf8.v
Utf8Spec.v
LogWriter.v
LogWriterSpec.v
Varint.v
ZeroCopyStream.v
CodedStream.v
CodedStreamSpec.v
WireFormat.v
WireFormatSpec.v
OutputStream.v
CodedOutput.v
CodedOutputSpec.v
Delimited.v
DelimitedSpec.v
FileStream.v
FileStreamSpec.v
FileInput.v
FileInputSpec.v
CombinedStreams.v
CombinedStreamsSpec.v
FieldSkipper.v
FieldSkipperSpec.v
ProtocolHandler.v
ProtocolHandlerSpec.v
Network.v
NetworkSpec.v
Processor.v
ProcessorSpec.v
CPUDataReader.v
CPUDataReaderSpec.v
EventRing.v
EventRingSpec.v
Prometheus.v
PrometheusSpec.v
Profiler.v
ProfilerSpec.v
Agent.v
AgentSpec.v
AgentFlowSpec.v
AgentWireSpec.v
EventsDisabled.v
Startup.v
StartupSpec.v
PrometheusAgent.v
PrometheusAgentSpec.v
MetricsAgent.v
MetricsAgentSpec.v
