(* ===== verification/Prelude.v ===== *)
(** * Verification of the Opsian OCaml profiling agent

    The agent is loaded into an OCaml program.  Timers of the kernel send the
    profiling signals [SIGPROF] and [SIGALRM]; the signal handler walks the stack
    of the interrupted thread and pushes the trace into a lock-free ring.  A
    metrics thread reads counters of the process, of the machine and of the OCaml
    runtime, and pushes samples.  The processor thread keeps the connection to
    the collector, pops the rings, symbolises the traces and sends everything as
    Protocol Buffers messages; in Prometheus mode it sums the traces in a tree
    that an HTTP server prints.  The sources are the C and C++ files of [lib/].

    ** Files

    For a component [X] the file [X.v] holds the model, one definition per
    operation and in the order of the source, and [XSpec.v] the theorems.

    - [Prelude.v]: machine integers, bits, cyclic arithmetic, the type [outcome]
      of a call (undefined behaviour, a wait for ever and an exception are values)
      and the lemmas and tactics all files share.
    - [CString.v]: the functions of [string.h] and [std::string] the code uses.
    - [Hash.v] ([concurrent_map.h]): the integer mixing functions.
    - [ConcurrentMap.v] ([concurrent_map.h]): the linear probing table of
      integer keys, cell by cell; calls do not overlap.  [MapReaders.v]: the same
      with reads between the single stores of a writer.
    - [InternalQueue.v] ([internal_queue.h]): the bounded ring with many producers
      and one consumer: first the member functions run to completion, which the
      other files use, then the same split at their atomic accesses.  Its safety is
      in [InternalQueueSpec.v], that it is a queue in [RingFifoSpec.v].
    - [MetricTypes.v] ([metric_types.h], [circular_queue.h]): the data in the rings and
      the classes [QueueListener] and [MetricDataListener].
    - [CircularQueue.v] ([circular_queue.cpp]): the three rings, the frame buffers,
      pushing and popping; the class [HasQueue] says where a state keeps them.
      [StackRing.v]: the stack queue split at its single loads and stores, for any
      number of pushing threads.  [ListenerSim.v]: popping through two views of
      one state, and histories of listeners, those that may fail included.
    - [LinkableProfiler.v] ([linkable_profiler.c]): the stack walk.
      [Profiler.v] ([profiler.cpp]): the signal handler.
    - [SignalHandler.v] ([signal_handler.cpp]), [ProcScanner.v] ([proc_scanner.cpp]): the
      process timer, the signal actions, and one timer per thread.
    - [Messages.v] ([data.proto]): the messages, one inductive type per [oneof].
    - [CollectorController.v] ([collector_controller.cpp]): the life cycle of the
      connection, over the classes [NetworkApi] and [MetricsApi].
    - [Metrics.v], [MetricsDuty.v] ([metrics.cpp]): the listener that numbers metrics,
      and the metrics thread between the calls of the processor thread.
    - [CPUDataReader.v] ([cpudata_reader.cpp]), [EventRing.v] ([event_ring_reader.cpp],
      [events.enabled.cpp]): the two sources of metrics.
    - [Options.v] ([lib_opsian.cpp]): the options, and substitution in strings.
    - [Utf8.v] ([structurally_valid.cc]): the check of UTF-8 by a table of states.
    - [SymbolTable.v] ([symbol_table.cpp]), [LogWriter.v] ([log_writer.cpp]): locations of
      program counters, and the listener that turns items into messages; what a
      turn of the processor makes of the rings is in [ProcessorSpec.v].
    - [ZeroCopyStream.v] ([zero_copy_stream.h]): the class of input streams, its laws,
      and the stream over an array.  [Varint.v], [CodedStream.v] ([coded_stream.cc],
      [coded_stream.h]): varints, and the reader over such a stream with its
      chunks, limits and levels.  [WireFormat.v] ([wire_format_lite]): tags, scalars,
      and the fields a parser skips.
    - [OutputStream.v] ([zero_copy_stream.h]): the class of output streams, its laws, and
      the stream into an array.  [CodedOutput.v] ([coded_stream.cc]): the writer over
      such a stream.  [Delimited.v] ([delimited_message_util.cc]): messages preceded
      by their length.  [FieldSkipper.v] ([wire_format_lite.cc]): skipping with a copy,
      and unknown values of enumerations.
    - [FileStream.v], [FileInput.v] ([zero_copy_stream_impl.cc],
      [zero_copy_stream_impl_lite.cc]): the streams over files, such as the log
      of the agent, for writing and for reading.  [CombinedStreams.v]
      ([zero_copy_stream_impl.cc]): streams one after the other, and a part of one.
    - [ProtocolHandler.v] ([protocol_handler.cpp]): the framing of what the collector
      sends.
    - [Network.v] ([network.cpp]): the socket and its timeouts.
    - [Processor.v] ([processor.cpp]): the loop of the processor thread, over the
      class [ProcessorApi].
    - [Prometheus.v] ([prometheus_exporter.cpp]): the tree, the replies, the port.
    - [Agent.v] ([profiler.cpp]): the components wired together; the theorems are in
      [AgentSpec.v], [AgentFlowSpec.v] and [AgentWireSpec.v].
    - [PrometheusAgent.v] ([profiler.cpp], [prometheus_exporter.cpp]): the agent in
      Prometheus mode, with the sessions of the HTTP server.
    - [MetricsAgent.v] ([profiler.cpp], [metrics.cpp]): the agent with the real metrics
      component and its thread, which share the queues and the thread scanner with it.
    - [EventsDisabled.v] ([events.disabled.cpp]): the metrics of an OCaml without
      runtime events.
    - [Startup.v] ([lib_opsian.cpp], [debug_logger.cpp], [globals.cpp.in]): the start, the
      callbacks around a fork, and the text logs.

    ** How the parts meet

    A method that reaches several objects acts on a state [W] that holds them
    all, and classes say what the caller needs of it.  [pop] works for every
    [QueueListener]; [LawfulListener] is the contract under which its theorems
    hold; the log writer meets it, and so does every listener that returns for
    what it accepts ([ListenerSim.history_lawful]), [Agent.profiler] among them.
    The controller is proved against every network and metrics component;
    [Network.v] and [Metrics.v] are such components.  The log writer asks
    [Utf8.v] whether a name may be sent, and the protocol handler reads the length
    of a message with [CodedStream.v] over the bytes it has; the network writes each
    message with [Delimited.v], over [CodedOutput.v].  [Agent.profiler] is one record
    with everything in it; [AgentSpec.v] shows that each of its steps is a
    sequence of steps of the controller, so that what holds of every reachable
    controller holds inside the agent.  [AgentWireSpec.v] puts the real network of
    [Network.v] into the agent, inside a wrapper that keeps a log for the proof.
    [MetricsAgent.v] does the same with the metrics of [Metrics.v]: the class
    [MetricsApi] is what the controller sees of them, and their thread takes its
    own steps between those of the agent.

    ** What the theorems show

    - The ring refines a queue of reserved and filled places under every
      interleaving of producers and the consumer: what is delivered is what was
      pushed, in order, each once; it stays within its slots.  The three rings
      refine three lists, and popping hands over the heads of these lists.
    - No trace that the processor reads is torn, under every interleaving of the
      single stores of the pushing threads and the loads of the consumer, as long as
      no thread sleeps in a push while the counters of the ring go all the way
      round, and traces fit their buffers.
    - The table of [2^n] cells refines a finite map bounded by its load, whatever
      the hash function.
    - The stack walk stores the frames in order and stops within its array,
      with the one exception stated by the theorems; the handler pushes that walk,
      or a sample without frames and a notification when the walk failed, or counts
      the sample as lost.
    - A turn over the rings puts on the connection and into the log file, in order,
      exactly the envelopes of the items: a trace becomes one sample with the
      locations of its frames, and every function and file number in it was announced
      before on this connection.
    - The controller backs off between 1 s and 60 s, supervises the collector,
      sets the rates it is asked for, and its timers and flags fit its state; the network never claims a connection
      without a socket; messages arrive one by one whatever their boundaries.
    - Every option sets its own field of the configuration; identifiers, varints and
      scalars of the wire format survive their round trips.
    - The check of UTF-8 accepts the encodings of sequences of Unicode scalar
      values and nothing else, so every thread name that is sent is one.
    - What a reader of a stream sees depends on the bytes and the limits only, not
      on the chunks; skipping passes exactly the well-formed fields.
    - A read of the table that overlaps assignments answers what the table held at
      some moment meanwhile, and no read waits; with an overlapping erasure it may
      be wrong, as two theorems show.
    - What a writer writes arrives on every lawful output stream, or the writer
      reports an error; delimited messages survive their round trip; a copy of
      skipped fields parses as the same fields.
    - A log that was written to a file and closed is read back as the same messages,
      from a regular file or a pipe, whatever parts the system transfers and however
      signals interrupt it; a part of a stream leaves exactly the rest.
    - Readings of the metric sources report each source once, line by line and
      batch by batch; metrics are numbered without gaps and announced before their
      samples; no reader is used that is not there; a scan gives each thread its
      timer, unless the kernel refuses one.
    - The agent as a whole: a signal becomes a sample at the collector; a
      handshake takes the agent into operation; every reachable agent is sane;
      on every connection it says hello first, and gives the numbers of functions
      and files before the samples that use them; in Prometheus mode a signal is one
      more count in the answer to the next scrape; a reading of the metrics thread
      becomes names and samples at the collector, and the thread disturbs nothing.
    - The start succeeds exactly if its files and the host name are there; a
      forked child reads its options as a process of its own would.

    Some theorems show what the code does not do: they are the counterparts of
    the hypotheses above (a walk longer than the frame buffers, a message that
    does not fit the buffer, an error of libbacktrace).

    ** Bounds and fuel

    - Integers have their width: [u32], [u64], [i32] and [i64] reduce; signed
      overflow is [Undefined] (only the [int] of lost runtime events wraps, and the
      theorem about it bounds the losses).
    - [LinkableProfiler.unwind_loop] has one turn more than the array has slots, and
      every turn but the last stores a frame: [linkable_handle_total].
    - The loops of [ConcurrentMap] visit each cell once, [m_sizeMask + 1] turns; that
      none of them runs out is part of [concurrent_map_refines].
    - [ProtocolHandler.serve] reads twice per message.  [Processor.run_loop] runs a
      number of turns; it goes on for ever in the code, and the theorems are
      about every number.
    - [Metrics.eliminate] has one clock reading per poll; a list that is too short
      gives [Blocked], which stands for a loop that is still running.
    - Varints are at most ten bytes long.  [CodedStream.NextNonEmpty] has a turn for
      every [Next] that can succeed, [copy_loop] two more than bytes, [refill] three;
      [WireFormat.SkipMessage] has one per tag, and more bytes than tags are never
      needed ([SkipField_exact]).
      [FileStream.write_turns] has a turn for every byte and every interruption before
      it; [FileInput.default_Skip] one more than reads that can give bytes.
      [CodedOutput.turns] bounds the buffers a write can need; a packed list has a turn
      per value.  [Utf8.DoAgain] has one round more than bytes.
    - [substitute_option] has a turn for every
      character, and every turn but the last uses up an occurrence of the
      non-empty text it searches.

    ** Parameters

    libunwind and the OCaml frame tables ([Unwinder]), libbacktrace ([Backtrace]),
    the thread library ([ThreadNames]: the name, and where its buffer is, which the
    check of UTF-8 looks at), input and output streams ([ZeroCopyInputStream],
    [ZeroCopyOutputStream]), the kernel
    ([Kernel], [TimerKernel], [TextSystem], [FileDevice], [InputDevice]), Asio and the peer ([Asio]), Boost's string functions ([Boost]), the generated message
    parsers and serialisers ([CollectorParser], [Serializable], [Parsable]) and the exporter's sockets ([Binding]) are classes.
    A theorem that relies on one of them names what it relies on, and its witness
    gives an instance.

    ** Not modelled

    The lines the components write to the text logs (the logs themselves are in
    [Startup.v]; that a line of the error log with a conversion is undefined
    behaviour counts where the options are parsed and at the start, and is left
    out elsewhere), certificates and TLS, creating, naming and
    joining threads, the OCaml runtime lock, the memory profiler that the sources have commented out,
    and of Protocol Buffers the generated code, the streams over strings and iostreams,
    reflection and descriptors.  Memory is sequentially consistent:
    the rings use release and acquire orders which, on the one word that
    publishes a slot, the model takes as the order of the steps.  Handlers that
    run inside a blocking network call ([run_one]) run after it.

    ** Plan

    Left: streams over strings and over the iostreams of C++, which the agent does
    not use; the readers of [CPUDataReader.v] and [EventRing.v] as the sources of the
    metrics component inside the agent. *)
From Stdlib Require Export ZArith Lia.
From stdpp Require Export base gmap list strings numbers.

#[global] Open Scope Z_scope.

(** ** Machine integers

    A [w]-bit unsigned integer is a [Z] in [0, 2^w); every C or C++ operation
    that may leave that range is followed by one of these reductions. *)

Definition u32 (z : Z) : Z := z mod 2 ^ 32.
Definition u64 (z : Z) : Z := z mod 2 ^ 64.

(** Two's complement reading of the low [w] bits. *)
Definition signed (w z : Z) : Z :=
  let m := z mod 2 ^ w in if m <? 2 ^ (w - 1) then m else m - 2 ^ w.
Definition i32 (z : Z) : Z := signed 32 z.
Definition i64 (z : Z) : Z := signed 64 z.

Definition INT_MAX : Z := 2 ^ 31 - 1.
Definition INT_MIN : Z := - 2 ^ 31.
Definition ULONG_MAX : Z := 2 ^ 64 - 1.

Create HintDb opsian.

Lemma u32_range z : 0 <= u32 z < 2 ^ 32.
Proof. apply Z.mod_pos_bound. lia. Qed.

Lemma u64_range z : 0 <= u64 z < 2 ^ 64.
Proof. apply Z.mod_pos_bound. lia. Qed.

Lemma u32_small z : 0 <= z < 2 ^ 32 -> u32 z = z.
Proof. intros. by apply Z.mod_small. Qed.

Lemma u64_small z : 0 <= z < 2 ^ 64 -> u64 z = z.
Proof. intros. by apply Z.mod_small. Qed.

Lemma signed_small w z :
  0 < w -> - 2 ^ (w - 1) <= z < 2 ^ (w - 1) -> signed w z = z.
Proof.
  intros Hw Hz. unfold signed.
  assert (2 ^ w = 2 * 2 ^ (w - 1)) as E.
  { rewrite <- Z.pow_succ_r by lia. f_equal. lia. }
  pose proof (Z.pow_pos_nonneg 2 (w - 1) ltac:(lia) ltac:(lia)).
  destruct (Z.le_gt_cases 0 z).
  - rewrite Z.mod_small by lia. destruct (Z.ltb_spec z (2 ^ (w - 1))); lia.
  - rewrite <- (Z.mod_unique z (2 ^ w) (-1) (z + 2 ^ w)) by lia.
    destruct (Z.ltb_spec (z + 2 ^ w) (2 ^ (w - 1))); lia.
Qed.

Lemma signed_range w z :
  0 < w -> - 2 ^ (w - 1) <= signed w z < 2 ^ (w - 1).
Proof.
  intros Hw. unfold signed.
  assert (2 ^ w = 2 * 2 ^ (w - 1)) as E.
  { rewrite <- Z.pow_succ_r by lia. f_equal. lia. }
  pose proof (Z.pow_pos_nonneg 2 (w - 1) ltac:(lia) ltac:(lia)).
  pose proof (Z.mod_pos_bound z (2 ^ w) ltac:(lia)).
  destruct (Z.ltb_spec (z mod 2 ^ w) (2 ^ (w - 1))); lia.
Qed.

Lemma i64_small z : - 2 ^ 63 <= z < 2 ^ 63 -> i64 z = z.
Proof. intros. apply signed_small; lia. Qed.

#[export] Hint Resolve u32_range u64_range u32_small u64_small : opsian.

(** ** Bits *)

Lemma testbit_above w z i : 0 <= z < 2 ^ w -> w <= i -> Z.testbit z i = false.
Proof.
  intros Hz Hi. destruct (Z.lt_ge_cases w 0) as [Hw|Hw].
  { rewrite Z.pow_neg_r in Hz by lia. lia. }
  rewrite <- (Z.mod_small z (2 ^ w)) by lia.
  by rewrite Z.mod_pow2_bits_high by lia.
Qed.

Lemma bits_bound w z :
  0 <= w -> 0 <= z -> (forall i, w <= i -> Z.testbit z i = false) -> z < 2 ^ w.
Proof.
  intros Hw Hz Hb. rewrite <- (Z.mod_small z (2 ^ w)) at 1.
  - apply Z.mod_pos_bound. lia.
  - split; [done|]. destruct (Z.lt_ge_cases z (2 ^ w)) as [|Hge]; [done|].
    exfalso. pose proof (Z.log2_le_pow2 z w ltac:(lia)) as [Hlog _].
    specialize (Hlog Hge). specialize (Hb _ Hlog).
    rewrite Z.bit_log2 in Hb by lia. done.
Qed.

Lemma lxor_range w a b :
  0 <= w -> 0 <= a < 2 ^ w -> 0 <= b < 2 ^ w -> 0 <= Z.lxor a b < 2 ^ w.
Proof.
  intros Hw Ha Hb. split.
  - apply Z.lxor_nonneg. lia.
  - apply bits_bound; [done| apply Z.lxor_nonneg; lia |].
    intros i Hi. by rewrite Z.lxor_spec, (testbit_above w a), (testbit_above w b).
Qed.

Lemma shiftr_range w a s : 0 <= s -> 0 <= a < 2 ^ w -> 0 <= Z.shiftr a s < 2 ^ w.
Proof.
  intros Hs Ha. rewrite Z.shiftr_div_pow2 by done.
  pose proof (Z.pow_pos_nonneg 2 s ltac:(lia) Hs).
  split; [apply Z.div_pos; lia|].
  apply Z.le_lt_trans with a; [|lia]. apply Z.div_le_upper_bound; nia.
Qed.

#[export] Hint Resolve lxor_range shiftr_range : opsian.

(** ** Bytes *)

Definition byte (b : Z) : Prop := 0 <= b < 256.

(** A fact of every byte is checked by running through them. *)
Lemma all_bytes (P : Z -> bool) : forallb P (seqZ 0 256) = true -> forall b, byte b -> P b = true.
Proof.
  intros HP b Hb. rewrite forallb_forall in HP. apply HP. apply list_elem_of_In, elem_of_seqZ.
  unfold byte in Hb. lia.
Qed.

Definition string_bytes (s : string) : list Z :=
  (fun c => Z.of_N (Ascii.N_of_ascii c)) <$> String.list_ascii_of_string s.

Lemma string_bytes_length s : length (string_bytes s) = String.length s.
Proof. unfold string_bytes. rewrite length_fmap. induction s; simpl; auto. Qed.

Lemma string_bytes_range s : Forall byte (string_bytes s).
Proof.
  apply Forall_fmap, Forall_true. intros c. unfold compose, byte.
  pose proof (Ascii.N_ascii_bounded c). lia.
Qed.

(** ** Bounded search and cyclic arithmetic *)

(** Either the least index below [N] with property [P], or no index has it. *)
Lemma least_or_none (P : Z -> Prop) `{forall z, Decision (P z)} N :
  (exists D, 0 <= D < N /\ P D /\ forall d, 0 <= d < D -> ~ P d)
  \/ (forall d, 0 <= d < N -> ~ P d).
Proof.
  destruct (Z.le_gt_cases N 0) as [|HN]; [right; lia|].
  assert (0 <= N) as HN0 by lia. clear HN. revert N HN0.
  refine (natlike_ind _ _ _); [right; lia|].
  intros N HN [(D & HD & HP & Hl)|Hno].
  - left. exists D. eauto with lia.
  - destruct (decide (P N)) as [HP|HP].
    + left. exists N. split_and!; [lia..|done|]. intros d Hd. apply Hno. lia.
    + right. intros d Hd. destruct (decide (d = N)) as [->|]; [done|]. apply Hno. lia.
Qed.

Lemma mod_cases c x :
  0 < c -> - c <= x < 2 * c ->
  (0 <= x < c /\ x mod c = x) \/ (c <= x /\ x mod c = x - c) \/ (x < 0 /\ x mod c = x + c).
Proof.
  intros Hc Hx.
  destruct (Z.lt_ge_cases x 0); [|destruct (Z.lt_ge_cases x c)].
  - right; right. split; [done|]. symmetry. apply Z.mod_unique with (-1); lia.
  - left. split; [done|]. apply Z.mod_small. lia.
  - right; left. split; [done|]. symmetry. apply Z.mod_unique with 1; lia.
Qed.

(** Splits the innermost [x mod c] of the goal or of a hypothesis, for an [x]
    between [-c] and [2 * c]. *)
Ltac mod_split c :=
  match goal with
  | |- context [?x mod c] =>
      lazymatch x with context [_ mod c] => fail | _ => idtac end;
      let H := fresh "Hmod" in let E := fresh "Emod" in
      destruct (mod_cases c x ltac:(lia) ltac:(lia)) as [[H E]|[[H E]|[H E]]];
      rewrite ?E in *; clear E
  | _ : context [?x mod c] |- _ =>
      lazymatch x with context [_ mod c] => fail | _ => idtac end;
      let H := fresh "Hmod" in let E := fresh "Emod" in
      destruct (mod_cases c x ltac:(lia) ltac:(lia)) as [[H E]|[[H E]|[H E]]];
      rewrite ?E in *; clear E
  end.

Ltac cyclic c := repeat (mod_split c; try lia); try lia.

(** ** Outcomes of a call

    [Undefined]: undefined behaviour of C or C++ (an access out of bounds, a
    signed overflow).  [Blocked]: the call waits for another thread for ever.
    [Throws]: an exception of the C++ library leaves the call. *)
Inductive outcome (A : Type) :=
| Ok (a : A)
| Undefined
| Blocked
| Throws (what : string).
Arguments Ok {A}.
Arguments Undefined {A}.
Arguments Blocked {A}.
Arguments Throws {A}.

#[export] Instance outcome_ret : MRet outcome := fun A a => Ok a.
#[export] Instance outcome_bind : MBind outcome := fun A B f o =>
  match o with
  | Ok a => f a
  | Undefined => Undefined
  | Blocked => Blocked
  | Throws e => Throws e
  end.

(** A load or store that must be in bounds. *)
Definition in_bounds {A} (o : option A) : outcome A :=
  match o with Some a => Ok a | None => Undefined end.

(** Without reducing what is inside, as [injection] may. *)
Lemma ok_inj {A} (a b : A) : Ok a = Ok b -> a = b.
Proof. by injection 1. Qed.

Lemma bind_ok {A B} (o : outcome A) (f : A -> outcome B) b :
  o ≫= f = Ok b -> exists a, o = Ok a /\ f a = Ok b.
Proof. destruct o; simpl; try done. eauto. Qed.

(** Two calls that end alike, with related results. *)
Definition outcome_rel {A B} (R : A -> B -> Prop) (o : outcome A) (o' : outcome B) : Prop :=
  match o, o' with
  | Ok a, Ok b => R a b
  | Undefined, Undefined | Blocked, Blocked => True
  | Throws e, Throws e' => e = e'
  | _, _ => False
  end.

Lemma outcome_rel_bind {A B C D} (R : A -> B -> Prop) (S : C -> D -> Prop) o o' f g :
  outcome_rel R o o' -> (forall a b, R a b -> outcome_rel S (f a) (g b)) -> outcome_rel S (o ≫= f) (o' ≫= g).
Proof. intros Ho Hf. destruct o, o'; simpl in *; try done. by apply Hf. Qed.

Lemma outcome_rel_in_bounds {A} (o : option A) : outcome_rel eq (in_bounds o) (in_bounds o).
Proof. by destruct o. Qed.

Lemma outcome_rel_refl {A} (o : outcome A) : outcome_rel eq o o.
Proof. by destruct o. Qed.
