(* ===== verification/CString.v ===== *)
(** * C and C++ strings

    A C string is a [string] without its terminating zero, a pointer into it is
    an offset.  The functions of the C and C++ libraries that the agent calls. *)
From S2P Require Import Prelude.
From Stdlib Require Import Ascii.

Definition code (c : ascii) : Z := Z.of_nat (nat_of_ascii c).

(** What a pointer [n] characters into [s] points to. *)
Fixpoint skip (n : nat) (s : string) : string :=
  match n, s with
  | S n, String _ s => skip n s
  | _, _ => s
  end.

Fixpoint take_string (n : nat) (s : string) : string :=
  match n, s with
  | S n, String c s => String c (take_string n s)
  | _, _ => EmptyString
  end.

(** [strchr (s, c)] as an offset from [s]. *)
Fixpoint strchr (s : string) (c : ascii) : option nat :=
  match s with
  | EmptyString => None
  | String c' s => if Ascii.eqb c' c then Some O else S <$> strchr s c
  end.

(** [strstr (s, p) == s]: the first occurrence of [p] is the beginning of [s]. *)
Definition strstr_at_start (s p : string) : bool := String.prefix p s.

Definition digit (base : Z) (c : ascii) : option Z :=
  let n := code c in
  let v := if (48 <=? n) && (n <=? 57) then n - 48
           else if (97 <=? n) && (n <=? 122) then n - 87
           else if (65 <=? n) && (n <=? 90) then n - 55 else 99 in
  if v <? base then Some v else None.

Fixpoint digits (base acc : Z) (s : string) : Z :=
  match s with
  | EmptyString => acc
  | String c s => match digit base c with Some d => digits base (acc * base + d) s | None => acc end
  end.

Definition isspace (c : ascii) : bool := (code c =? 32) || (9 <=? code c) && (code c <=? 13).

(** [strtol (s, NULL, base)] for base 10 and for base 0, where a prefix of the
    digits announces the base; the result is clamped to a [long]. *)
Definition magnitude (base : Z) (s : string) : Z :=
  if base =? 10 then digits 10 0 s
  else
    match s with
    | String "0" (String x s') =>
        if Ascii.eqb x "x" || Ascii.eqb x "X" then digits 16 0 s' else digits 8 0 (String x s')
    | _ => digits 10 0 s
    end.

Fixpoint strtol (base : Z) (s : string) : Z :=
  match s with
  | String c s' =>
      if isspace c then strtol base s'
      else
        let v := if Ascii.eqb c "-" then - magnitude base s'
                 else if Ascii.eqb c "+" then magnitude base s' else magnitude base s in
        Z.max (- 2 ^ 63) (Z.min (2 ^ 63 - 1) v)
  | EmptyString => 0
  end.

(** [atoi] converts as [strtol] in base 10 and narrows to an [int]. *)
Definition atoi (s : string) : Z := i32 (strtol 10 s).

(** [std::getline (stream, segment, c)] until the stream is empty: the segments,
    without a last empty one. *)
Fixpoint getlines (c : ascii) (segment : string) (s : string) : list string :=
  match s with
  | EmptyString => match segment with EmptyString => [] | _ => [segment] end
  | String c' s => if Ascii.eqb c' c then segment :: getlines c EmptyString s
                   else getlines c (segment +:+ String c' EmptyString) s
  end.

(** The position after the last [c], 0 if there is none ([find_last_of]). *)
Fixpoint after_last (c : ascii) (s : string) : string :=
  match s with
  | EmptyString => EmptyString
  | String c' s' =>
      match strchr s' c with
      | Some _ => after_last c s'
      | None => if Ascii.eqb c' c then s' else s
      end
  end.

(** [value.find (search, pos)]. *)
Fixpoint find_from (search : string) (n : nat) (s : string) : option nat :=
  if String.prefix search s then Some n
  else match s with EmptyString => None | String _ s => find_from search (S n) s end.

Definition find (value search : string) (pos : nat) : option nat := find_from search pos (skip pos value).

(** [value.replace (pos, len, by_)]. *)
Definition replace (value : string) (pos len : nat) (by_ : string) : string :=
  take_string pos value +:+ by_ +:+ skip (pos + len) value.
