(* ===== verification/Hash.v ===== *)
(** * Integer mixing functions ([lib/concurrent_map.h])

    The finalisers of MurmurHash3 and their inverses, at 32 and 64 bits.  The
    map stores only keys, so nothing depends on [dehash], but a hash that is a
    bijection never makes two keys collide before masking. *)
From S2P Require Import Prelude.

Definition avalanche32 (h : Z) : Z :=
  let h := Z.lxor h (Z.shiftr h 16) in
  let h := u32 (h * 0x85ebca6b) in
  let h := Z.lxor h (Z.shiftr h 13) in
  let h := u32 (h * 0xc2b2ae35) in
  Z.lxor h (Z.shiftr h 16).

Definition deavalanche32 (h : Z) : Z :=
  let h := Z.lxor h (Z.shiftr h 16) in
  let h := u32 (h * 0x7ed1b41d) in
  let h := Z.lxor h (Z.shiftr (Z.lxor h (Z.shiftr h 13)) 13) in
  let h := u32 (h * 0xa5cb9243) in
  Z.lxor h (Z.shiftr h 16).

Definition avalanche64 (h : Z) : Z :=
  let h := Z.lxor h (Z.shiftr h 33) in
  let h := u64 (h * 0xff51afd7ed558ccd) in
  let h := Z.lxor h (Z.shiftr h 33) in
  let h := u64 (h * 0xc4ceb9fe1a85ec53) in
  Z.lxor h (Z.shiftr h 33).

Definition deavalanche64 (h : Z) : Z :=
  let h := Z.lxor h (Z.shiftr h 33) in
  let h := u64 (h * 0x9cb4b2f8129337db) in
  let h := Z.lxor h (Z.shiftr h 33) in
  let h := u64 (h * 0x4f74430c22a54005) in
  Z.lxor h (Z.shiftr h 33).

Definition isPowerOf2 (v : Z) : bool := Z.land v (u64 (v - 1)) =? 0.

(** [DefaultKeyTraits<T>] for [T = uint64_t]. *)
Definition hash (key : Z) : Z := avalanche64 key.
Definition dehash (h : Z) : Z := deavalanche64 h.

(** ** Inverses of the two kinds of step *)

(** A xor-shift by at least half the width is an involution. *)
Lemma xorshift_involutive w s x :
  0 <= s -> w <= 2 * s -> 0 <= x < 2 ^ w ->
  let y := Z.lxor x (Z.shiftr x s) in Z.lxor y (Z.shiftr y s) = x.
Proof.
  intros Hs Hw Hx y. subst y. apply Z.bits_inj'. intros i Hi.
  rewrite !Z.lxor_spec, !Z.shiftr_spec, Z.lxor_spec, Z.shiftr_spec by lia.
  rewrite (testbit_above w x (i + s + s)) by lia.
  rewrite xorb_false_r, xorb_assoc, xorb_nilpotent. apply xorb_false_r.
Qed.

(** The two-round inverse of a xor-shift by at least a third of the width. *)
Lemma xorshift_inverse3 w s x :
  0 <= s -> w <= 3 * s -> 0 <= x < 2 ^ w ->
  let y := Z.lxor x (Z.shiftr x s) in
  Z.lxor y (Z.shiftr (Z.lxor y (Z.shiftr y s)) s) = x.
Proof.
  intros Hs Hw Hx y. subst y. apply Z.bits_inj'. intros i Hi.
  rewrite ?Z.lxor_spec, ?Z.shiftr_spec, ?Z.lxor_spec, ?Z.shiftr_spec,
    ?Z.lxor_spec, ?Z.shiftr_spec by lia.
  rewrite (testbit_above w x (i + s + s + s)) by lia.
  destruct (Z.testbit x i), (Z.testbit x (i + s)), (Z.testbit x (i + s + s)); done.
Qed.

Lemma xorshift_inverse3' w s x :
  0 <= s -> w <= 3 * s -> 0 <= x < 2 ^ w ->
  let y := Z.lxor x (Z.shiftr (Z.lxor x (Z.shiftr x s)) s) in
  Z.lxor y (Z.shiftr y s) = x.
Proof.
  intros Hs Hw Hx y. subst y. apply Z.bits_inj'. intros i Hi.
  rewrite ?Z.lxor_spec, ?Z.shiftr_spec, ?Z.lxor_spec, ?Z.shiftr_spec,
    ?Z.lxor_spec, ?Z.shiftr_spec by lia.
  rewrite (testbit_above w x (i + s + s + s)) by lia.
  destruct (Z.testbit x i), (Z.testbit x (i + s)), (Z.testbit x (i + s + s)); done.
Qed.

(** Multiplying by [a] then by its inverse modulo [2^w]. *)
Lemma mulmod_inverse w a b x :
  0 <= x < 2 ^ w -> (a * b) mod 2 ^ w = 1 mod 2 ^ w ->
  ((x * a) mod 2 ^ w * b) mod 2 ^ w = x.
Proof.
  intros Hx Hab. rewrite Z.mul_mod_idemp_l by lia.
  rewrite <- Z.mul_assoc, <- Z.mul_mod_idemp_r, Hab, Z.mul_mod_idemp_r by lia.
  rewrite Z.mul_1_r. by apply Z.mod_small.
Qed.

Lemma u32_mul_inverse a b x :
  0 <= x < 2 ^ 32 -> u32 (a * b) = 1 -> u32 (u32 (x * a) * b) = x.
Proof. intros Hx Hab. unfold u32 in *. by apply mulmod_inverse. Qed.

Lemma u64_mul_inverse a b x :
  0 <= x < 2 ^ 64 -> u64 (a * b) = 1 -> u64 (u64 (x * a) * b) = x.
Proof. intros Hx Hab. unfold u64 in *. by apply mulmod_inverse. Qed.

Ltac word_range :=
  repeat first
    [ done | lia | apply u32_range | apply u64_range
    | apply (lxor_range 32) | apply (lxor_range 64)
    | apply shiftr_range ].

(** The 32-bit mixing function is undone by its inverse, in both orders:
    [avalanche] and [deavalanche] are mutually inverse on every 32-bit word. *)
Theorem avalanche32_bijective h :
  0 <= h < 2 ^ 32 ->
  deavalanche32 (avalanche32 h) = h /\ avalanche32 (deavalanche32 h) = h.
Proof.
  intros Hh. unfold avalanche32, deavalanche32. split.
  - rewrite (xorshift_involutive 32) by word_range.
    rewrite u32_mul_inverse by (reflexivity || word_range).
    rewrite (xorshift_inverse3 32) by word_range.
    rewrite u32_mul_inverse by (reflexivity || word_range).
    by rewrite (xorshift_involutive 32) by word_range.
  - rewrite (xorshift_involutive 32) by word_range.
    rewrite u32_mul_inverse by (reflexivity || word_range).
    rewrite (xorshift_inverse3' 32) by word_range.
    rewrite u32_mul_inverse by (reflexivity || word_range).
    by rewrite (xorshift_involutive 32) by word_range.
Qed.

Lemma avalanche32_bijective_witness :
  0 <= 0xdeadbeef < 2 ^ 32 /\ deavalanche32 (avalanche32 0xdeadbeef) = 0xdeadbeef.
Proof.
  split; [lia|]. apply (avalanche32_bijective 0xdeadbeef). lia.
Defined.

(** The 64-bit hash of a key determines the key: [dehash (hash k) = k] and
    conversely, so distinct keys never share a full hash. *)
Theorem hash_dehash k :
  0 <= k < 2 ^ 64 -> dehash (hash k) = k /\ hash (dehash k) = k.
Proof.
  intros Hk. unfold hash, dehash, avalanche64, deavalanche64. split;
    do 2 (rewrite (xorshift_involutive 64) by word_range;
          rewrite u64_mul_inverse by (reflexivity || word_range));
    by rewrite (xorshift_involutive 64) by word_range.
Qed.

Lemma hash_dehash_witness :
  0 <= 42 < 2 ^ 64 /\ dehash (hash 42) = 42.
Proof. split; [lia|]. apply (hash_dehash 42). lia. Defined.

Lemma hash_range k : 0 <= k < 2 ^ 64 -> 0 <= hash k < 2 ^ 64.
Proof. intros. unfold hash, avalanche64. word_range. Qed.
