(* ===== verification/ConcurrentMap.v ===== *)
(** * The open-addressing map ([lib/concurrent_map.h], class [ConcurrentMap])

    A power-of-two array of cells, linear probing from the key's home cell,
    and backward-shift deletion.  The code assumes that [assign] and [erase]
    exclude each other; here every operation runs to completion, so the
    compare-and-swap of [assign] sees the key it has just loaded.  The
    template parameter [KeyTraits::hash] is the section variable [khash]. *)
From S2P Require Import Prelude Hash.

Record cell := Cell { ckey : Z; cvalue : Z }.

Record cmap := CMap {
  size : Z;
  maxLoad : Z;
  m_cells : list cell;
  m_sizeMask : Z
}.

Definition NullKey : Z := 0.
Definition NullValue : Z := 0.
Definition null_cell : cell := Cell NullKey NullValue.

(** [m_cells + idx]: every index used is masked, hence in range. *)
Definition cell_at (m : cmap) (idx : Z) : cell :=
  default null_cell (m_cells m !! Z.to_nat idx).

Definition set_cell (idx : Z) (c : cell) (m : cmap) : cmap :=
  CMap (size m) (maxLoad m) (<[Z.to_nat idx := c]> (m_cells m)) (m_sizeMask m).

Definition store_key (idx key : Z) (m : cmap) : cmap :=
  set_cell idx (Cell key (cvalue (cell_at m idx))) m.

Definition store_value (idx value : Z) (m : cmap) : cmap :=
  set_cell idx (Cell (ckey (cell_at m idx)) value) m.

Definition fetch_add (m : cmap) : cmap :=
  CMap (u64 (size m + 1)) (maxLoad m) (m_cells m) (m_sizeMask m).

Definition fetch_sub (m : cmap) : cmap :=
  CMap (u64 (size m - 1)) (maxLoad m) (m_cells m) (m_sizeMask m).

(** The value is erased first, to protect a concurrent [get]. *)
Definition nullOutCell (idx : Z) (m : cmap) : cmap :=
  store_key idx NullKey (store_value idx NullValue m).

Fixpoint clear_from (fuel : nat) (idx : Z) (m : cmap) : cmap :=
  match fuel with
  | O => m
  | S fuel =>
      if idx <=? m_sizeMask m
      then clear_from fuel (idx + 1)
             (store_key idx NullKey (store_value idx NullValue m))
      else m
  end.

Definition clear (m : cmap) : cmap :=
  let m := clear_from (Z.to_nat (m_sizeMask m + 1)) 0 m in
  CMap 0 (maxLoad m) (m_cells m) (m_sizeMask m).

(** [new Cell[capacity]] leaves the cells' contents arbitrary: [garbage]. *)
Definition new_map (capacity load : Z) (garbage : list cell) : cmap :=
  clear (CMap 0 load garbage (u64 (capacity - 1))).

Fixpoint isClear_from (fuel : nat) (idx : Z) (m : cmap) : bool :=
  match fuel with
  | O => true
  | S fuel =>
      if idx <=? m_sizeMask m then
        if negb (ckey (cell_at m idx) =? NullKey) then false
        else if negb (cvalue (cell_at m idx) =? NullValue) then false
        else isClear_from fuel (idx + 1) m
      else true
  end.

Definition isClear (m : cmap) : bool :=
  isClear_from (Z.to_nat (m_sizeMask m + 1)) 0 m.

Section Operations.
  Context (khash : Z -> Z).

(** [idx++; idx &= m_sizeMask;] *)
Definition next_index (m : cmap) (idx : Z) : Z :=
  Z.land (u64 (idx + 1)) (m_sizeMask m).

Definition predecessorIndex (m : cmap) (key : Z) : Z :=
  Z.land (u64 (khash key - 1)) (m_sizeMask m).

(** One turn of the loop probes one cell; the loop ends at the predecessor,
    so [m_sizeMask + 1] turns always suffice. *)
Definition probe_fuel (m : cmap) : nat := Z.to_nat (m_sizeMask m + 1).

Fixpoint assign_loop (fuel : nat) (predecessor idx key value : Z) (m : cmap)
    : option (bool * cmap) :=
  match fuel with
  | O => None
  | S fuel =>
      let idx := next_index m idx in
      if predecessor =? idx then Some (false, m)
      else
        let probedKey := ckey (cell_at m idx) in
        if probedKey =? key then Some (true, store_value idx value (fetch_sub m))
        else if negb (probedKey =? NullKey)
        then assign_loop fuel predecessor idx key value m
        else Some (true, store_value idx value (store_key idx key m))
  end.

Definition assign (key value : Z) (m : cmap) : option (bool * cmap) :=
  if (key =? NullKey) || (value =? NullValue) then Some (false, m)
  else
    let previousSize := size m in
    let m := fetch_add m in
    if maxLoad m <=? previousSize then Some (false, fetch_sub m)
    else
      let predecessor := predecessorIndex m key in
      assign_loop (probe_fuel m) predecessor predecessor key value m.

Fixpoint get_loop (fuel : nat) (predecessor idx key : Z) (m : cmap) : option Z :=
  match fuel with
  | O => None
  | S fuel =>
      let idx := next_index m idx in
      if predecessor =? idx then Some 0 (* [return false;] *)
      else
        let probedKey := ckey (cell_at m idx) in
        let loadedValue := cvalue (cell_at m idx) in
        let reProbedKey := ckey (cell_at m idx) in
        if (probedKey =? key) && (reProbedKey =? probedKey) then Some loadedValue
        else if probedKey =? NullKey then Some NullValue
        else get_loop fuel predecessor idx key m
  end.

Definition get (key : Z) (m : cmap) : option Z :=
  if key =? NullKey then Some NullValue
  else
    let predecessor := predecessorIndex m key in
    get_loop (probe_fuel m) predecessor predecessor key m.

(** The key at [index] may fill the hole at [deleteIndex]: the hole lies on
    the (cyclic) probe path from the key's home to [index]. *)
Definition fills_hole (hashed deleteIndex index : Z) : bool :=
  ((index <? hashed) && ((hashed <=? deleteIndex) || (deleteIndex <=? index)))
  || ((hashed <=? deleteIndex) && (deleteIndex <=? index)).

Fixpoint compact_loop (fuel : nat) (initialDeleteIndex deleteIndex index : Z) (m : cmap)
    : option (bool * cmap) :=
  match fuel with
  | O => None
  | S fuel =>
      let index := next_index m index in
      if index =? initialDeleteIndex then Some (false, m)
      else
        let key := ckey (cell_at m index) in
        if key =? NullKey then Some (true, fetch_sub m)
        else
          let hashed := Z.land (khash key) (m_sizeMask m) in
          if fills_hole hashed deleteIndex index then
            let value := cvalue (cell_at m index) in
            let m := store_value deleteIndex value m in
            let m := store_key deleteIndex key m in
            let m := nullOutCell index m in
            compact_loop fuel initialDeleteIndex index index m
          else compact_loop fuel initialDeleteIndex deleteIndex index m
  end.

Definition compactChain (initialDeleteIndex : Z) (m : cmap) : option (bool * cmap) :=
  compact_loop (probe_fuel m) initialDeleteIndex initialDeleteIndex initialDeleteIndex m.

Fixpoint erase_loop (fuel : nat) (predecessor idx key : Z) (m : cmap)
    : option (bool * cmap) :=
  match fuel with
  | O => None
  | S fuel =>
      let idx := next_index m idx in
      if predecessor =? idx then Some (false, m)
      else
        let probedKey := ckey (cell_at m idx) in
        if probedKey =? key then compactChain idx (nullOutCell idx m)
        else if probedKey =? NullKey then Some (false, m)
        else erase_loop fuel predecessor idx key m
  end.

Definition erase (key : Z) (m : cmap) : option (bool * cmap) :=
  if key =? NullKey then Some (false, m)
  else
    let predecessor := predecessorIndex m key in
    erase_loop (probe_fuel m) predecessor predecessor key m.
End Operations.
