(* ===== verification/ConcurrentMapSpec.v ===== *)
(** * The open-addressing map is a finite map

    Invariant of the table, and the refinement of [get], [assign] and [erase]
    to lookup, insertion and deletion in a [gmap]. *)
From S2P Require Import Prelude Hash ConcurrentMap.

(** ** Abstraction *)

Definition cap (m : cmap) : Z := m_sizeMask m + 1.
Definition kat (m : cmap) (i : Z) : Z := ckey (cell_at m i).
Definition vat (m : cmap) (i : Z) : Z := cvalue (cell_at m i).

Definition occupied (c : cell) : Prop := ckey c <> NullKey.
#[export] Instance occupied_dec c : Decision (occupied c).
Proof. unfold occupied. apply _. Defined.

Definition count (l : list cell) : Z := Z.of_nat (length (filter occupied l)).

(** The finite map a table stands for. *)
Definition to_map (m : cmap) : gmap Z Z :=
  list_to_map ((fun c => (ckey c, cvalue c)) <$> filter occupied (m_cells m)).

(** ** Counting cells *)

Definition occ (c : cell) : Z := if decide (occupied c) then 1 else 0.

Lemma occ_bound c : 0 <= occ c <= 1.
Proof. unfold occ. case_decide; lia. Qed.

Lemma count_cons c l : count (c :: l) = occ c + count l.
Proof. unfold count, occ. rewrite filter_cons. case_decide; simpl; lia. Qed.

Lemma count_insert l i c c' :
  l !! i = Some c -> count (<[i := c']> l) = count l - occ c + occ c'.
Proof.
  revert i. induction l as [|x l IH]; intros [|i] Hi; simplify_eq/=;
    rewrite !count_cons; [lia|]. rewrite (IH _ Hi). lia.
Qed.

Lemma count_le_length l : 0 <= count l <= Z.of_nat (length l).
Proof.
  induction l as [|x l IH]; [done|]. rewrite count_cons. pose proof (occ_bound x).
  simpl. lia.
Qed.

Lemma count_free l :
  count l < Z.of_nat (length l) -> exists i c, l !! i = Some c /\ ~ occupied c.
Proof.
  induction l as [|x l IH]; [done|]. rewrite count_cons. unfold occ.
  case_decide as Hx; simpl; intros Hlt.
  - destruct IH as (i & c & ? & ?); [lia|]. by exists (S i), c.
  - by exists 0%nat, x.
Qed.

Lemma count_free_not_at l p :
  count l + 1 < Z.of_nat (length l) ->
  exists i c, i <> p /\ l !! i = Some c /\ ~ occupied c.
Proof.
  intros Hlt. destruct (l !! p) as [c|] eqn:Hp.
  - destruct (count_free (<[p := Cell 1 1]> l)) as (i & c' & Hi & Hc').
    { rewrite (count_insert _ _ _ _ Hp), length_insert.
      pose proof (occ_bound c). pose proof (occ_bound (Cell 1 1)). lia. }
    exists i, c'. destruct (decide (i = p)) as [->|Hne].
    + rewrite list_lookup_insert_eq in Hi by eauto using lookup_lt_Some.
      simplify_eq. by destruct Hc'.
    + by rewrite list_lookup_insert_ne in Hi by done.
  - destruct (count_free l) as (i & c & Hi & Hc); [lia|].
    exists i, c. split; [|done]. by intros ->; simplify_eq.
Qed.

(** ** Geometry: indices *)

Record geom (m : cmap) : Prop := {
  geom_pow : exists n, 0 <= n <= 64 /\ m_sizeMask m = 2 ^ n - 1;
  geom_len : Z.of_nat (length (m_cells m)) = cap m
}.

Lemma geom_cap m : geom m -> 0 < cap m.
Proof.
  intros [(n & Hn & E) _]. unfold cap. rewrite E.
  pose proof (Z.pow_pos_nonneg 2 n). lia.
Qed.

Lemma geom_mask m x : geom m -> Z.land (u64 x) (m_sizeMask m) = x mod cap m.
Proof.
  intros [(n & Hn & E) _]. unfold cap. rewrite E.
  replace (2 ^ n - 1) with (Z.ones n) by (rewrite Z.ones_equiv; lia).
  rewrite Z.land_ones by lia. unfold u64.
  replace (Z.ones n + 1) with (2 ^ n) by (rewrite Z.ones_equiv; lia).
  apply Z.mod_mod_divide.
  exists (2 ^ (64 - n)). rewrite <- Z.pow_add_r by lia. f_equal. lia.
Qed.

Lemma geom_land m x : geom m -> Z.land x (m_sizeMask m) = x mod cap m.
Proof.
  intros [(n & Hn & E) _]. unfold cap. rewrite E.
  replace (2 ^ n - 1) with (Z.ones n) by (rewrite Z.ones_equiv; lia).
  rewrite Z.land_ones, Z.ones_equiv by lia. f_equal. lia.
Qed.

Lemma cell_at_lookup m i :
  geom m -> 0 <= i < cap m -> m_cells m !! Z.to_nat i = Some (cell_at m i).
Proof.
  intros Hg Hi. unfold cell_at.
  destruct (lookup_lt_is_Some_2 (m_cells m) (Z.to_nat i)) as [c Hc].
  { pose proof (geom_len m Hg). lia. }
  by rewrite Hc.
Qed.

Lemma cell_at_set m i j c :
  geom m -> 0 <= i < cap m -> 0 <= j ->
  cell_at (set_cell i c m) j = if decide (i = j) then c else cell_at m j.
Proof.
  intros Hg Hi Hj. unfold cell_at, set_cell; simpl. case_decide as E.
  - subst. rewrite list_lookup_insert_eq; [done|]. pose proof (geom_len m Hg). lia.
  - rewrite list_lookup_insert_ne; [done|]. lia.
Qed.

Lemma geom_set m i c : geom m -> geom (set_cell i c m).
Proof. intros [? ?]. split; [done|]. unfold cap; simpl. by rewrite length_insert. Qed.

Lemma cap_set m i c : cap (set_cell i c m) = cap m.
Proof. done. Qed.

#[export] Hint Resolve geom_cap geom_set : opsian.

(** ** Probe sequences *)

Section Probing.
Context (khash : Z -> Z).

Definition home (m : cmap) (k : Z) : Z := khash k mod cap m.

(** The [d]-th cell of the probe sequence of [k]. *)
Definition slot (m : cmap) (k d : Z) : Z := (home m k + d) mod cap m.

Lemma home_range m k : geom m -> 0 <= home m k < cap m.
Proof. intros Hg. apply Z.mod_pos_bound. by apply geom_cap. Qed.

Lemma slot_range m k d : geom m -> 0 <= slot m k d < cap m.
Proof. intros Hg. apply Z.mod_pos_bound. by apply geom_cap. Qed.

Lemma predecessor_slot m k : geom m -> predecessorIndex khash m k = slot m k (-1).
Proof.
  intros Hg. unfold predecessorIndex, slot, home. rewrite geom_mask by done.
  pose proof (geom_cap m Hg). rewrite Z.add_mod_idemp_l by lia. f_equal.
Qed.

Lemma next_index_slot m k d : geom m -> next_index m (slot m k d) = slot m k (d + 1).
Proof.
  intros Hg. unfold next_index, slot. rewrite geom_mask by done.
  pose proof (geom_cap m Hg). rewrite Z.add_mod_idemp_l by lia. f_equal. lia.
Qed.

Lemma next_index_mod m i : geom m -> next_index m i = (i + 1) mod cap m.
Proof. intros Hg. unfold next_index. by rewrite geom_mask. Qed.

Lemma slot_inj m k d d' :
  geom m -> -1 <= d < cap m - 1 -> -1 <= d' < cap m - 1 ->
  slot m k d = slot m k d' -> d = d'.
Proof.
  intros Hg Hd Hd' E. unfold slot in E. pose proof (home_range m k Hg).
  pose proof (geom_cap m Hg). cyclic (cap m).
Qed.

Lemma before_predecessor m k d :
  geom m -> 0 <= d < cap m - 1 -> (slot m k (-1) =? slot m k d) = false.
Proof. intros Hg Hd. apply Z.eqb_neq. intros E. apply slot_inj in E; [lia|done|lia|lia]. Qed.

(** Where a scan for [k] stops: at [k] or at a free cell. *)
Definition stops (m : cmap) (k d : Z) : Prop :=
  kat m (slot m k d) = k \/ kat m (slot m k d) = NullKey.

#[local] Instance stops_dec m k d : Decision (stops m k d).
Proof. unfold stops. apply _. Defined.

Lemma stop_or_full m k :
  (exists D, 0 <= D < cap m - 1 /\ stops m k D /\ forall d, 0 <= d < D -> ~ stops m k d)
  \/ (forall d, 0 <= d < cap m - 1 -> ~ stops m k d).
Proof. apply least_or_none. apply _. Qed.

Lemma not_stops m k d :
  ~ stops m k d -> kat m (slot m k d) <> k /\ kat m (slot m k d) <> NullKey.
Proof. unfold stops. tauto. Qed.

(** Steps one turn of a probing loop standing before cell [d]. *)
Ltac probe_step Hg :=
  rewrite next_index_slot by done;
  match goal with |- context [?a + -1 + 1] => replace (a + -1 + 1) with a by lia | _ => idtac end;
  match goal with
  | |- context [slot ?m ?k (-1) =? slot ?m ?k ?d] =>
      destruct (Z.eqb_spec (slot m k (-1)) (slot m k d)) as [E|_];
      [apply slot_inj in E; [lia|done|lia|lia]|]
  end.

Lemma get_loop_stop m k D :
  geom m -> 0 <= D < cap m - 1 -> stops m k D ->
  (forall d, 0 <= d < D -> ~ stops m k d) ->
  forall fuel d, 0 <= d <= D -> (Z.to_nat (D - d) < fuel)%nat ->
  get_loop fuel (slot m k (-1)) (slot m k (d + -1)) k m =
    Some (if kat m (slot m k D) =? k then vat m (slot m k D) else NullValue).
Proof.
  intros Hg HD Hstop Hleast fuel. induction fuel as [|fuel IH]; [lia|].
  intros d Hd Hf. simpl. probe_step Hg. fold (kat m (slot m k d)).
  rewrite Z.eqb_refl, andb_true_r. destruct (Z.eq_dec d D) as [->|].
  - destruct (Z.eqb_spec (kat m (slot m k D)) k); [done|].
    destruct Hstop as [ | -> ]; done.
  - destruct (not_stops m k d) as [Hk H0]; [apply Hleast; lia|].
    apply Z.eqb_neq in Hk, H0. rewrite Hk, H0.
    replace d with (d + 1 + -1) at 1 by lia. apply IH; lia.
Qed.

Lemma get_loop_full m k :
  geom m -> (forall d, 0 <= d < cap m - 1 -> ~ stops m k d) ->
  forall fuel d, 0 <= d < cap m -> (Z.to_nat (cap m - 1 - d) < fuel)%nat ->
  get_loop fuel (slot m k (-1)) (slot m k (d + -1)) k m = Some NullValue.
Proof.
  intros Hg Hfull fuel. induction fuel as [|fuel IH]; [lia|].
  intros d Hd Hf. simpl. destruct (Z.eq_dec d (cap m - 1)) as [->|].
  - rewrite next_index_slot by done.
    replace (cap m - 1 + -1 + 1) with (-1 + 1 * cap m) by lia.
    unfold slot at 2. rewrite Z.add_assoc, Z.mod_add by (pose proof (geom_cap m Hg); lia).
    fold (slot m k (-1)). by rewrite Z.eqb_refl.
  - probe_step Hg. fold (kat m (slot m k d)).
    destruct (not_stops m k d) as [Hk H0]; [apply Hfull; lia|].
    apply Z.eqb_neq in Hk, H0. rewrite Hk, H0. simpl.
    replace d with (d + 1 + -1) at 1 by lia. apply IH; lia.
Qed.

Lemma assign_loop_stop m k v D :
  geom m -> 0 <= D < cap m - 1 -> stops m k D ->
  (forall d, 0 <= d < D -> ~ stops m k d) ->
  forall fuel d, 0 <= d <= D -> (Z.to_nat (D - d) < fuel)%nat ->
  assign_loop fuel (slot m k (-1)) (slot m k (d + -1)) k v m =
    Some (true,
      if kat m (slot m k D) =? k then store_value (slot m k D) v (fetch_sub m)
      else store_value (slot m k D) v (store_key (slot m k D) k m)).
Proof.
  intros Hg HD Hstop Hleast fuel. induction fuel as [|fuel IH]; [lia|].
  intros d Hd Hf. simpl. probe_step Hg. fold (kat m (slot m k d)).
  destruct (Z.eq_dec d D) as [->|].
  - destruct (Z.eqb_spec (kat m (slot m k D)) k); [done|].
    destruct Hstop as [ | ->]; done.
  - destruct (not_stops m k d) as [Hk H0]; [apply Hleast; lia|].
    apply Z.eqb_neq in Hk, H0. rewrite Hk, H0.
    replace d with (d + 1 + -1) at 1 by lia. apply IH; lia.
Qed.

Lemma erase_loop_stop m k D :
  geom m -> 0 <= D < cap m - 1 -> stops m k D ->
  (forall d, 0 <= d < D -> ~ stops m k d) ->
  forall fuel d, 0 <= d <= D -> (Z.to_nat (D - d) < fuel)%nat ->
  erase_loop khash fuel (slot m k (-1)) (slot m k (d + -1)) k m =
    if kat m (slot m k D) =? k
    then compactChain khash (slot m k D) (nullOutCell (slot m k D) m)
    else Some (false, m).
Proof.
  intros Hg HD Hstop Hleast fuel. induction fuel as [|fuel IH]; [lia|].
  intros d Hd Hf. simpl. probe_step Hg. fold (kat m (slot m k d)).
  destruct (Z.eq_dec d D) as [->|].
  - destruct (Z.eqb_spec (kat m (slot m k D)) k); [done|].
    destruct Hstop as [ | ->]; done.
  - destruct (not_stops m k d) as [Hk H0]; [apply Hleast; lia|].
    apply Z.eqb_neq in Hk, H0. rewrite Hk, H0.
    replace d with (d + 1 + -1) at 1 by lia. apply IH; lia.
Qed.

Lemma erase_loop_full m k :
  geom m -> (forall d, 0 <= d < cap m - 1 -> ~ stops m k d) ->
  forall fuel d, 0 <= d < cap m -> (Z.to_nat (cap m - 1 - d) < fuel)%nat ->
  erase_loop khash fuel (slot m k (-1)) (slot m k (d + -1)) k m = Some (false, m).
Proof.
  intros Hg Hfull fuel. induction fuel as [|fuel IH]; [lia|].
  intros d Hd Hf. simpl. destruct (Z.eq_dec d (cap m - 1)) as [->|].
  - rewrite next_index_slot by done.
    replace (cap m - 1 + -1 + 1) with (-1 + 1 * cap m) by lia.
    unfold slot at 2. rewrite Z.add_assoc, Z.mod_add by (pose proof (geom_cap m Hg); lia).
    fold (slot m k (-1)). by rewrite Z.eqb_refl.
  - probe_step Hg. fold (kat m (slot m k d)).
    destruct (not_stops m k d) as [Hk H0]; [apply Hfull; lia|].
    apply Z.eqb_neq in Hk, H0. rewrite Hk, H0.
    replace d with (d + 1 + -1) at 1 by lia. apply IH; lia.
Qed.

(** ** The invariant *)

(** [dist m k i]: how far the cell [i] is from the home of [k]. *)
Definition dist (m : cmap) (k i : Z) : Z := (i - home m k) mod cap m.

Record shape (m : cmap) : Prop := {
  shape_distinct : forall i j, 0 <= i < cap m -> 0 <= j < cap m ->
    kat m i = kat m j -> kat m i <> NullKey -> i = j;
  shape_value : forall i, 0 <= i < cap m -> kat m i = NullKey <-> vat m i = NullValue
}.

(** Every cell between a key's home and the key itself is occupied. *)
Definition reachable (m : cmap) : Prop :=
  forall i, 0 <= i < cap m -> kat m i <> NullKey ->
  forall d, 0 <= d < dist m (kat m i) i -> kat m (slot m (kat m i) d) <> NullKey.

(** The cells' invariant, without the size counter. *)
Record table (m : cmap) : Prop := {
  table_geom : geom m;
  table_load : 0 <= maxLoad m < cap m;
  table_count : count (m_cells m) <= maxLoad m;
  table_shape : shape m;
  table_reach : reachable m
}.

Definition distinct_keys (m : cmap) : Prop :=
  forall i j, 0 <= i < cap m -> 0 <= j < cap m -> kat m i = kat m j -> kat m i <> NullKey -> i = j.

(** What a scan relies on; it also holds while a write is half done. *)
Record scannable (m : cmap) : Prop := {
  scan_geom : geom m;
  scan_free : count (m_cells m) < cap m;
  scan_distinct : distinct_keys m;
  scan_reach : reachable m
}.

Lemma table_scan m : table m -> scannable m.
Proof. intros [Hg Hl Hc [Hd _] Hr]. split; [done|lia|done|done]. Qed.

Definition wf (m : cmap) : Prop := table m /\ size m = count (m_cells m).

Definition mapsto (m : cmap) (k v : Z) : Prop :=
  k <> NullKey /\ exists i, 0 <= i < cap m /\ kat m i = k /\ vat m i = v.

Lemma occupied_pairs_NoDup m :
  geom m -> distinct_keys m ->
  NoDup (((fun c => (ckey c, cvalue c)) <$> filter occupied (m_cells m)).*1).
Proof.
  intros Hg Hs. rewrite <- list_fmap_compose.
  assert (forall i j c c', m_cells m !! i = Some c -> m_cells m !! j = Some c' ->
            occupied c -> ckey c = ckey c' -> i = j) as Hinj.
  { intros i j c c' Hi Hj Hc E. pose proof (geom_len m Hg).
    pose proof (lookup_lt_Some _ _ _ Hi). pose proof (lookup_lt_Some _ _ _ Hj).
    assert (forall p x, m_cells m !! p = Some x -> kat m (Z.of_nat p) = ckey x) as Hk.
    { intros p x Hp. unfold kat, cell_at. by rewrite Nat2Z.id, Hp. }
    apply Nat2Z.inj. apply Hs; [lia..| |].
    - by rewrite (Hk _ _ Hi), (Hk _ _ Hj).
    - by rewrite (Hk _ _ Hi). }
  clear Hg Hs. induction (m_cells m) as [|c l IH]; [constructor|].
  assert (NoDup (((λ c : cell, (ckey c, cvalue c).1) <$> filter occupied l))) as Hl.
  { apply IH. intros i j x x' Hi Hj Hx E.
    specialize (Hinj (S i) (S j) x x' Hi Hj Hx E). congruence. }
  rewrite filter_cons. case_decide as Hc; [|done].
  apply NoDup_cons_2; [|done]. intros Hin.
  apply list_elem_of_fmap in Hin as (x & E & Hx).
  apply list_elem_of_filter in Hx as [Hx Hin].
  apply list_elem_of_lookup in Hin as [j Hj].
  by specialize (Hinj 0%nat (S j) c x eq_refl Hj Hc E).
Qed.

Lemma distinct_to_map m k v :
  geom m -> distinct_keys m -> to_map m !! k = Some v <-> mapsto m k v.
Proof.
  intros Hg Hs. unfold to_map.
  rewrite <- elem_of_list_to_map by (by apply occupied_pairs_NoDup).
  rewrite list_elem_of_fmap. pose proof (geom_len m Hg) as Hlen. split.
  - intros ([k' v'] & E & Hin). simplify_eq/=.
    apply list_elem_of_filter in Hin as [Hocc Hin].
    apply list_elem_of_lookup in Hin as [i Hi].
    split; [done|]. exists (Z.of_nat i). pose proof (lookup_lt_Some _ _ _ Hi).
    unfold kat, vat, cell_at. rewrite Nat2Z.id, Hi. split_and!; [lia..|done|done].
  - intros (Hk & i & Hi & <- & <-). exists (cell_at m i). split; [done|].
    apply list_elem_of_filter. split; [done|]. apply list_elem_of_lookup.
    exists (Z.to_nat i). by apply cell_at_lookup.
Qed.

Lemma to_map_mapsto m k v :
  geom m -> shape m -> to_map m !! k = Some v <-> mapsto m k v.
Proof. intros Hg [Hd _]. by apply distinct_to_map. Qed.

(** Two tables with the same bindings are the same map. *)
Lemma to_map_ext m (M : gmap Z Z) :
  geom m -> shape m -> (forall k v, mapsto m k v <-> M !! k = Some v) -> to_map m = M.
Proof.
  intros Hg Hs HM. apply map_eq. intros k. apply option_eq. intros v.
  rewrite to_map_mapsto by done. apply HM.
Qed.


(** ** Where a present key is found *)

Lemma table_free m : scannable m -> exists j, 0 <= j < cap m /\ kat m j = NullKey.
Proof.
  intros [Hg Hc _ _]. pose proof (geom_len m Hg).
  destruct (count_free (m_cells m)) as (i & c & Hi & Hn); [lia|].
  exists (Z.of_nat i). pose proof (lookup_lt_Some _ _ _ Hi). split; [lia|].
  unfold kat, cell_at. rewrite Nat2Z.id, Hi. simpl.
  destruct (decide (ckey c = NullKey)); [done|]. by destruct Hn.
Qed.

Lemma slot_dist m k i : geom m -> 0 <= i < cap m -> slot m k (dist m k i) = i.
Proof.
  intros Hg Hi. unfold slot, dist. pose proof (home_range m k Hg).
  pose proof (geom_cap m Hg). cyclic (cap m).
Qed.

Lemma dist_slot m k d : geom m -> 0 <= d < cap m -> dist m k (slot m k d) = d.
Proof.
  intros Hg Hi. unfold slot, dist. pose proof (home_range m k Hg).
  pose proof (geom_cap m Hg). cyclic (cap m).
Qed.

Lemma dist_range m k i : geom m -> 0 <= dist m k i < cap m.
Proof. intros Hg. apply Z.mod_pos_bound. by apply geom_cap. Qed.

Lemma present_stop m k i :
  scannable m -> 0 <= i < cap m -> kat m i = k -> k <> NullKey ->
  let D := dist m k i in
  0 <= D < cap m - 1 /\ slot m k D = i /\ forall d, 0 <= d < D -> ~ stops m k d.
Proof.
  intros Ht Hi Hk Hk0 D. pose proof (scan_geom m Ht) as Hg.
  pose proof (dist_range m k i Hg) as HD.
  assert (slot m k D = i) as HDi by (by apply slot_dist).
  assert (forall d, 0 <= d < D -> ~ stops m k d) as Hno.
  { intros d Hd [E|E].
    - assert (slot m k d = i) as E'.
      { apply (scan_distinct m Ht); [by apply slot_range|done|congruence|congruence]. }
      apply (f_equal (dist m k)) in E'. rewrite dist_slot in E' by (done || lia). lia.
    - subst k. by apply (scan_reach m Ht i Hi Hk0 d Hd). }
  split_and!; [lia| |done|done].
  assert (D <> cap m - 1); [|lia]. intros HDc.
  destruct (table_free m Ht) as (j & Hj & Hj0).
  pose proof (dist_range m k j Hg).
  destruct (Z.eq_dec (dist m k j) D) as [E|].
  - apply (f_equal (slot m k)) in E. rewrite slot_dist, HDi in E by done. congruence.
  - apply (Hno (dist m k j)); [lia|]. right. by rewrite slot_dist.
Qed.

(** A scan that ends on a free cell proves the key absent. *)
Lemma free_stop_absent m k D v :
  scannable m -> 0 <= D < cap m - 1 -> kat m (slot m k D) = NullKey ->
  (forall d, 0 <= d < D -> ~ stops m k d) -> ~ mapsto m k v.
Proof.
  intros Ht HD Hstop Hleast (Hk & i & Hi & Hki & _).
  destruct (present_stop m k i Ht Hi Hki Hk) as (HD' & HDi & Hleast').
  destruct (Z.lt_trichotomy D (dist m k i)) as [|[->|]].
  - apply (Hleast' D); [lia|]. by right.
  - congruence.
  - apply (Hleast (dist m k i)); [lia|]. left. congruence.
Qed.

Lemma full_absent m k v :
  scannable m -> (forall d, 0 <= d < cap m - 1 -> ~ stops m k d) -> ~ mapsto m k v.
Proof.
  intros Ht Hfull (Hk & i & Hi & Hki & _).
  destruct (present_stop m k i Ht Hi Hki Hk) as (HD & HDi & _).
  apply (Hfull _ HD). left. congruence.
Qed.

Lemma to_map_absent m k :
  geom m -> distinct_keys m -> (forall v, ~ mapsto m k v) -> to_map m !! k = None.
Proof.
  intros Hg Hs Hno. destruct (to_map m !! k) as [v|] eqn:E; [|done].
  apply distinct_to_map in E; [|done..]. by destruct (Hno v).
Qed.

Lemma get_correct m k : table m -> get khash k m = Some (default NullValue (to_map m !! k)).
Proof.
  intros Ht. pose proof (table_geom m Ht) as Hg. pose proof (table_shape m Ht) as Hs.
  pose proof (shape_distinct m Hs) as Hdist.
  pose proof (geom_cap m Hg). unfold get. destruct (Z.eqb_spec k NullKey) as [->|Hk].
  - rewrite to_map_absent; [done..|]. by intros v [? _].
  - rewrite predecessor_slot by done. unfold probe_fuel. fold (cap m).
    replace (slot m k (-1)) with (slot m k (0 + -1)) at 2 by done.
    destruct (stop_or_full m k) as [(D & HD & Hstop & Hleast)|Hfull].
    + rewrite (get_loop_stop m k D) by (done || lia).
      destruct (Z.eqb_spec (kat m (slot m k D)) k) as [E|E].
      * assert (to_map m !! k = Some (vat m (slot m k D))) as ->; [|done].
        apply to_map_mapsto; [done..|]. split; [done|].
        exists (slot m k D). split; [by apply slot_range|done].
      * destruct Hstop as [ | Hnull]; [done|].
        rewrite to_map_absent; [done..|]. intros v. by apply (free_stop_absent m k D v (table_scan m Ht)).
    + rewrite get_loop_full by (done || lia). rewrite to_map_absent; [done..|].
      intros v. apply full_absent; [by apply table_scan|done].
Qed.

(** ** Writing one cell *)

Lemma store_both m i k v :
  geom m -> 0 <= i < cap m -> store_value i v (store_key i k m) = set_cell i (Cell k v) m.
Proof.
  intros Hg Hi. unfold store_value, store_key.
  rewrite cell_at_set by (done || lia). rewrite decide_True by done.
  unfold set_cell; simpl. by rewrite list_insert_insert_eq.
Qed.

Lemma store_both' m i k v :
  geom m -> 0 <= i < cap m -> store_key i k (store_value i v m) = set_cell i (Cell k v) m.
Proof.
  intros Hg Hi. unfold store_value, store_key.
  rewrite cell_at_set by (done || lia). rewrite decide_True by done.
  unfold set_cell; simpl. by rewrite list_insert_insert_eq.
Qed.

Lemma nullOutCell_set m i :
  geom m -> 0 <= i < cap m -> nullOutCell i m = set_cell i null_cell m.
Proof. intros. unfold nullOutCell. by apply store_both'. Qed.

Lemma kat_set m i j c :
  geom m -> 0 <= i < cap m -> 0 <= j ->
  kat (set_cell i c m) j = if decide (i = j) then ckey c else kat m j.
Proof. intros. unfold kat. rewrite cell_at_set by done. by case_decide. Qed.

Lemma vat_set m i j c :
  geom m -> 0 <= i < cap m -> 0 <= j ->
  vat (set_cell i c m) j = if decide (i = j) then cvalue c else vat m j.
Proof. intros. unfold vat. rewrite cell_at_set by done. by case_decide. Qed.

Lemma count_set m i c :
  geom m -> 0 <= i < cap m ->
  count (m_cells (set_cell i c m)) = count (m_cells m) - occ (cell_at m i) + occ c.
Proof. intros Hg Hi. simpl. apply count_insert. by apply cell_at_lookup. Qed.

Lemma occ_key m i : occ (cell_at m i) = if decide (kat m i = NullKey) then 0 else 1.
Proof. unfold occ, occupied, kat. repeat case_decide; tauto. Qed.

Lemma slot_set m i c k d : slot (set_cell i c m) k d = slot m k d.
Proof. done. Qed.

Lemma dist_set m i c k j : dist (set_cell i c m) k j = dist m k j.
Proof. done. Qed.

(** Writing a binding for a key that no other cell holds. *)
Lemma shape_set m i k v :
  geom m -> shape m -> 0 <= i < cap m -> (k = NullKey <-> v = NullValue) ->
  (forall j, 0 <= j < cap m -> k <> NullKey -> kat m j = k -> j = i) ->
  shape (set_cell i (Cell k v) m).
Proof.
  intros Hg [Hd Hv] Hi Hkv Hother. split.
  - intros j j' Hj Hj'. rewrite cap_set in *. rewrite !kat_set by (done || lia).
    repeat case_decide; simpl; subst; try done; intros E Hn.
    + symmetry. by apply Hother.
    + apply Hother; [done|congruence|done].
    + by apply Hd.
  - intros j Hj. rewrite cap_set in *. rewrite kat_set, vat_set by (done || lia).
    case_decide; [done|]. by apply Hv.
Qed.

Lemma mapsto_set m i k v k' v' :
  geom m -> 0 <= i < cap m ->
  (forall j, 0 <= j < cap m -> kat m j = k -> j = i) ->
  (kat m i = k \/ kat m i = NullKey) -> k <> NullKey ->
  mapsto (set_cell i (Cell k v) m) k' v' <->
  (if decide (k' = k) then v' = v else mapsto m k' v').
Proof.
  intros Hg Hi Hother Hold Hk. unfold mapsto. rewrite cap_set. split.
  - intros (Hk' & j & Hj & Ek & Ev). rewrite kat_set in Ek by (done || lia).
    rewrite vat_set in Ev by (done || lia). case_decide; simplify_eq/=.
    + by rewrite decide_True.
    + rewrite decide_False; [eauto|]. intros E. by destruct (Hother j Hj E).
  - case_decide as E; subst.
    + intros ->. split; [done|]. exists i. rewrite kat_set, vat_set by (done || lia).
      by rewrite !decide_True.
    + intros (Hk' & j & Hj & Ek & Ev). split; [done|]. exists j.
      rewrite kat_set, vat_set by (done || lia).
      rewrite !decide_False; [done|..]; intros ->; destruct Hold; congruence.
Qed.

(** A write that leaves no new free cell and puts [k] where a scan for it
    arrives keeps every key reachable. *)
Lemma reachable_set m i k v :
  geom m -> reachable m -> 0 <= i < cap m -> k <> NullKey ->
  (forall d, 0 <= d < dist m k i -> kat m (slot m k d) <> NullKey) ->
  reachable (set_cell i (Cell k v) m).
Proof.
  intros Hg Hr Hi Hk Hpath j Hj. rewrite cap_set in Hj.
  rewrite kat_set by (done || lia).
  case_decide as E; simpl; intros Hn d Hd;
    rewrite slot_set; rewrite dist_set in Hd;
    (rewrite kat_set; [|done|done|by apply slot_range]);
    (case_decide; [done|]).
  - subst j. by apply Hpath.
  - by apply (Hr j Hj Hn).
Qed.

Lemma table_set m i k v :
  table m -> 0 <= i < cap m -> k <> NullKey -> v <> NullValue ->
  (forall j, 0 <= j < cap m -> kat m j = k -> j = i) ->
  (forall d, 0 <= d < dist m k i -> kat m (slot m k d) <> NullKey) ->
  count (m_cells (set_cell i (Cell k v) m)) <= maxLoad m ->
  table (set_cell i (Cell k v) m).
Proof.
  intros [Hg Hl Hc Hs Hr] Hi Hk Hv Hother Hpath Hc'. split; [by apply geom_set|done|done| |].
  - apply shape_set; try done. intros j Hj _. by apply Hother.
  - by apply reachable_set.
Qed.

(** ** [assign] *)

Lemma table_fetch_add m : table m -> table (fetch_add m).
Proof. intros [[? ?] ? ? [? ?] ?]. by split. Qed.

Lemma table_fetch_sub m : table m -> table (fetch_sub m).
Proof. intros [[? ?] ? ? [? ?] ?]. by split. Qed.

Lemma cap_bound m : geom m -> cap m <= 2 ^ 64.
Proof.
  intros [(n & Hn & E) _]. unfold cap. rewrite E.
  pose proof (Z.pow_le_mono_r 2 n 64). lia.
Qed.

Lemma size_range m : wf m -> 0 <= size m <= maxLoad m /\ maxLoad m < 2 ^ 64 - 0.
Proof.
  intros [Ht E]. pose proof (cap_bound m (table_geom m Ht)).
  pose proof (table_load m Ht). pose proof (table_count m Ht).
  pose proof (count_le_length (m_cells m)). lia.
Qed.

Lemma size_fetch_add m : wf m -> size (fetch_add m) = u64 (size m + 1).
Proof. done. Qed.

Lemma fetch_sub_add m : wf m -> fetch_sub (fetch_add m) = m.
Proof.
  intros Hw. pose proof (size_range m Hw). unfold fetch_sub, fetch_add; simpl.
  destruct m as [sz ml cs mk]; simpl in *. f_equal. unfold u64.
  rewrite Zminus_mod_idemp_l. replace (sz + 1 - 1) with sz by lia.
  apply Z.mod_small. lia.
Qed.

(** With two free cells a scan always stops before the predecessor. *)
Lemma room_stops m k :
  geom m -> count (m_cells m) + 1 < cap m ->
  exists D, 0 <= D < cap m - 1 /\ stops m k D /\ forall d, 0 <= d < D -> ~ stops m k d.
Proof.
  intros Hg Hc. pose proof (geom_len m Hg) as Hlen.
  destruct (stop_or_full m k) as [?|Hfull]; [done|]. exfalso.
  destruct (count_free_not_at (m_cells m) (Z.to_nat (slot m k (-1)))) as (i & c & Hne & Hi & Hn);
    [lia|].
  pose proof (lookup_lt_Some _ _ _ Hi). pose proof (dist_range m k (Z.of_nat i) Hg).
  assert (0 <= Z.of_nat i < cap m) as Hir by lia.
  pose proof (slot_dist m k _ Hg Hir) as Hs.
  apply (Hfull (dist m k (Z.of_nat i))).
  - assert (dist m k (Z.of_nat i) <> cap m - 1); [|lia]. intros E. apply Hne.
    rewrite E in Hs. unfold slot in *.
    replace (home m k + (cap m - 1)) with (home m k + -1 + 1 * cap m) in Hs by lia.
    rewrite Z.mod_add in Hs by lia. rewrite Hs. lia.
  - right. rewrite Hs. unfold kat, cell_at. rewrite Nat2Z.id, Hi. simpl.
    destruct (decide (ckey c = NullKey)); [done|]. by destruct Hn.
Qed.

Lemma to_map_set m i k v :
  geom m -> shape m -> 0 <= i < cap m -> k <> NullKey -> v <> NullValue ->
  (forall j, 0 <= j < cap m -> kat m j = k -> j = i) ->
  (kat m i = k \/ kat m i = NullKey) ->
  to_map (set_cell i (Cell k v) m) = <[k := v]> (to_map m).
Proof.
  intros Hg Hs Hi Hk Hv Hother Hold. apply to_map_ext.
  - by apply geom_set.
  - apply shape_set; try done. intros j Hj _. by apply Hother.
  - intros k' v'. rewrite mapsto_set by done. rewrite lookup_insert.
    case_decide as E; [subst k'; rewrite decide_True by done; split; congruence|].
    rewrite decide_False by congruence. by rewrite to_map_mapsto.
Qed.

(** What one successful write leaves, whatever cell the scan stopped at. *)
Lemma assign_write m k v i n :
  table m -> 0 <= i < cap m -> k <> NullKey -> v <> NullValue ->
  (forall j, 0 <= j < cap m -> kat m j = k -> j = i) ->
  (kat m i = k \/ kat m i = NullKey) ->
  (forall d, 0 <= d < dist m k i -> kat m (slot m k d) <> NullKey) ->
  n = count (m_cells m) + (if decide (kat m i = NullKey) then 1 else 0) ->
  n <= maxLoad m -> size m = n ->
  wf (set_cell i (Cell k v) m) /\
  to_map (set_cell i (Cell k v) m) = <[k := v]> (to_map m).
Proof.
  intros Ht Hi Hk Hv Hother Hold Hpath Hn Hle Hsize.
  pose proof (table_geom m Ht) as Hg. pose proof (table_shape m Ht).
  assert (count (m_cells (set_cell i (Cell k v) m)) = n) as Hcount.
  { rewrite count_set, occ_key by done. unfold occ, occupied; simpl.
    rewrite (decide_True (P := k <> NullKey)) by done. subst n. case_decide; lia. }
  split; [split|].
  - apply table_set; try done. lia.
  - rewrite Hcount. done.
  - by apply to_map_set.
Qed.

Lemma assign_correct m k v :
  wf m -> k <> NullKey -> v <> NullValue -> size m < maxLoad m ->
  exists m', assign khash k v m = Some (true, m') /\ wf m' /\
    maxLoad m' = maxLoad m /\ to_map m' = <[k := v]> (to_map m).
Proof.
  intros Hw Hk Hv Hlt. pose proof (size_range m Hw) as Hsz.
  pose proof (fetch_sub_add m Hw) as Hsa. destruct Hw as [Ht Hsize].
  unfold assign. apply Z.eqb_neq in Hk as Hk', Hv as Hv'. rewrite Hk', Hv'. simpl.
  destruct (Z.leb_spec (maxLoad m) (size m)); [lia|].
  pose proof (table_fetch_add m Ht) as Hta. set (mf := fetch_add m) in *.
  pose proof (table_geom mf Hta) as Hg. pose proof (geom_cap mf Hg).
  rewrite predecessor_slot by done. unfold probe_fuel. fold (cap mf).
  destruct (room_stops mf k Hg) as (D & HD & Hstop & Hleast).
  { pose proof (table_load m Ht) as Hl. change (count (m_cells mf)) with (count (m_cells m)).
    change (cap mf) with (cap m). lia. }
  pose proof (assign_loop_stop mf k v D Hg HD Hstop Hleast (Z.to_nat (cap mf)) 0
                ltac:(lia) ltac:(lia)) as Hloop.
  change (0 + -1) with (-1) in Hloop. rewrite Hloop.
  pose proof (slot_range mf k D Hg) as Hi. eexists. split; [done|].
  assert (forall d, 0 <= d < dist mf k (slot mf k D) -> kat mf (slot mf k d) <> NullKey) as Hpath.
  { intros d. rewrite dist_slot by (done || lia). intros Hd E. apply (Hleast d Hd). by right. }
  destruct (Z.eqb_spec (kat mf (slot mf k D)) k) as [E|E].
  - rewrite Hsa. change (kat mf) with (kat m) in *. change (slot mf) with (slot m) in *.
    change (cap mf) with (cap m) in *. change (dist mf) with (dist m) in *.
    assert (store_value (slot m k D) v m = set_cell (slot m k D) (Cell k v) m) as ->.
    { unfold store_value. do 2 f_equal. exact E. }
    destruct (assign_write m k v (slot m k D) (size m)) as [? ?]; try done; [| |lia].
    + intros j Hj Ej. apply (shape_distinct m (table_shape m Ht)); congruence.
    + rewrite decide_False by congruence. lia.
  - destruct Hstop as [|Hnull]; [done|].
    rewrite store_both by done.
    destruct (assign_write mf k v (slot mf k D) (size m + 1)) as [? ?]; try done.
    + intros j Hj Ej. exfalso. apply (free_stop_absent mf k D (vat mf j) (table_scan mf Hta) HD Hnull Hleast).
      split; [done|]. by exists j.
    + by right.
    + rewrite decide_True by done. change (m_cells mf) with (m_cells m). lia.
    + change (maxLoad mf) with (maxLoad m). lia.
    + apply u64_small. lia.
Qed.

(** ** [compactChain]

    The walk starts at the erased cell [s].  After it has looked at the
    offsets up to [b], the only cell that may cut a probe path is the hole at
    offset [a], and only for keys the walk has not reached yet. *)

Definition at_offset (m : cmap) (s o : Z) : Z := (s + o) mod cap m.
Definition offset (m : cmap) (s i : Z) : Z := (i - s) mod cap m.

Record chain (m : cmap) (s a b : Z) : Prop := {
  chain_geom : geom m;
  chain_start : 0 <= s < cap m;
  chain_order : 0 <= a <= b /\ b < cap m;
  chain_shape : shape m;
  chain_hole : kat m (at_offset m s a) = NullKey;
  chain_between : forall o, a < o <= b -> kat m (at_offset m s o) <> NullKey;
  chain_reach : forall i, 0 <= i < cap m -> kat m i <> NullKey ->
    forall d, 0 <= d < dist m (kat m i) i ->
    kat m (slot m (kat m i) d) <> NullKey
    \/ (slot m (kat m i) d = at_offset m s a /\ ~ (a < offset m s i <= b));
  chain_free : exists z, b < z < cap m /\ kat m (at_offset m s z) = NullKey
}.

Lemma at_offset_range m s o : geom m -> 0 <= at_offset m s o < cap m.
Proof. intros Hg. apply Z.mod_pos_bound. by apply geom_cap. Qed.

Lemma at_offset_offset m s i :
  geom m -> 0 <= s < cap m -> 0 <= i < cap m -> at_offset m s (offset m s i) = i.
Proof. intros Hg Hs Hi. unfold at_offset, offset. cyclic (cap m). Qed.

Lemma offset_at_offset m s o :
  geom m -> 0 <= s < cap m -> 0 <= o < cap m -> offset m s (at_offset m s o) = o.
Proof. intros Hg Hs Hi. unfold at_offset, offset. cyclic (cap m). Qed.

Lemma offset_range m s i : geom m -> 0 <= offset m s i < cap m.
Proof. intros Hg. apply Z.mod_pos_bound. by apply geom_cap. Qed.

Lemma next_at_offset m s o : geom m -> next_index m (at_offset m s o) = at_offset m s (o + 1).
Proof.
  intros Hg. rewrite next_index_mod by done. unfold at_offset.
  pose proof (geom_cap m Hg). rewrite Z.add_mod_idemp_l by lia. f_equal. lia.
Qed.

Lemma fills_hole_spec m k s a j :
  geom m -> 0 <= s < cap m -> 0 <= a < j -> j < cap m ->
  fills_hole (home m k) (at_offset m s a) (at_offset m s j) = true <->
  dist m k (at_offset m s a) < dist m k (at_offset m s j).
Proof.
  intros Hg Hs Ha Hj. pose proof (home_range m k Hg). pose proof (geom_cap m Hg).
  unfold fills_hole, dist, at_offset.
  rewrite orb_true_iff, !andb_true_iff, orb_true_iff, !Z.leb_le, Z.ltb_lt.
  cyclic (cap m).
Qed.

(** The end of the chain: a free cell after the hole. *)
Lemma chain_end m s a b :
  chain m s a b -> kat m (at_offset m s (b + 1)) = NullKey -> reachable m.
Proof.
  intros [Hg Hs Hab Hsh Hhole Hbet Hreach (z & Hz & _)] Hend i Hi Hn d Hd.
  destruct (Hreach i Hi Hn d Hd) as [|[Eslot Hout]]; [done|].
  exfalso. set (k := kat m i) in *. pose proof (offset_range m s i Hg) as Ho.
  assert (offset m s i <> a) as Hoa.
  { intros <-. by rewrite at_offset_offset in Hhole. }
  assert (offset m s i <> b + 1) as Hob.
  { intros E. by rewrite <- E, at_offset_offset in Hend. }
  pose proof (home_range m k Hg) as Hh. pose proof (dist_range m k i Hg) as Hdi.
  assert (d + (b + 1 - a) < dist m k i
          /\ slot m k (d + (b + 1 - a)) = at_offset m s (b + 1)) as [Hlt Eend].
  { revert Eslot Hd Hdi Hout Ho Hoa Hob. unfold slot, at_offset, offset, dist.
    intros. pose proof (geom_cap m Hg). cyclic (cap m). }
  assert (0 <= d + (b + 1 - a)) as Hge by lia.
  destruct (Hreach i Hi Hn (d + (b + 1 - a)) (conj Hge Hlt)) as [Hne|[E _]];
    subst k.
  - congruence.
  - rewrite Eend in E. apply (f_equal (offset m s)) in E.
    rewrite !offset_at_offset in E by (done || lia). lia.
Qed.

(** A key that may stay: its probe path avoids the hole. *)
Lemma chain_keep m s a b :
  chain m s a b -> let j := at_offset m s (b + 1) in
  kat m j <> NullKey -> fills_hole (home m (kat m j)) (at_offset m s a) j = false ->
  chain m s a (b + 1).
Proof.
  intros [Hg Hs Hab Hsh Hhole Hbet Hreach (z & Hz & Hz0)] j Hj Hfill.
  assert (z <> b + 1) by (by intros ->).
  split; try done; [lia| | |].
  - intros o Ho. destruct (Z.eq_dec o (b + 1)) as [->|]; [done|]. apply Hbet. lia.
  - intros i Hi Hn d Hd. destruct (Hreach i Hi Hn d Hd) as [|[Eslot Hout]]; [by left|].
    right. split; [done|]. intros Hin.
    assert (offset m s i = b + 1) as Eo by lia.
    assert (i = j) as -> by (unfold j; by rewrite <- Eo, at_offset_offset).
    apply not_true_iff_false in Hfill. apply Hfill. subst j.
    apply fills_hole_spec; [done|done|lia|lia|].
    rewrite <- Eslot, dist_slot; [lia|done|].
    pose proof (dist_range m (kat m (at_offset m s (b + 1))) (at_offset m s (b + 1)) Hg). lia.
  - exists z. split; [lia|done].
Qed.

(** Moving the binding of cell [j] into the hole [h]. *)
Definition move (m : cmap) (h j : Z) : cmap :=
  set_cell j null_cell (set_cell h (Cell (kat m j) (vat m j)) m).

Lemma kat_move m h j i :
  geom m -> 0 <= h < cap m -> 0 <= j < cap m -> 0 <= i ->
  kat (move m h j) i =
    if decide (j = i) then NullKey else if decide (h = i) then kat m j else kat m i.
Proof.
  intros Hg Hh Hj Hi. unfold move.
  rewrite kat_set by (by auto with opsian || done). by rewrite kat_set.
Qed.

Lemma vat_move m h j i :
  geom m -> 0 <= h < cap m -> 0 <= j < cap m -> 0 <= i ->
  vat (move m h j) i =
    if decide (j = i) then NullValue else if decide (h = i) then vat m j else vat m i.
Proof.
  intros Hg Hh Hj Hi. unfold move.
  rewrite vat_set by (by auto with opsian || done). by rewrite vat_set.
Qed.

Section Move.
Context (m : cmap) (h j : Z).
Context (Hg : geom m) (Hs : shape m).
Context (Hh : 0 <= h < cap m) (Hj : 0 <= j < cap m).
Context (Hh0 : kat m h = NullKey) (Hj0 : kat m j <> NullKey).

Lemma move_shape : shape (move m h j).
Proof using All.
  destruct Hs as [Hd Hv]. split.
  - intros i i' Hi Hi'. change (cap (move m h j)) with (cap m) in *.
    rewrite !kat_move by (done || lia).
    repeat case_decide; simplify_eq; try done; intros E Hn.
    + assert (j = i') by by apply Hd. done.
    + assert (i = j) by by apply Hd. done.
    + by apply Hd.
  - intros i Hi. change (cap (move m h j)) with (cap m) in *.
    rewrite kat_move, vat_move by (done || lia).
    repeat case_decide; try done; by apply Hv.
Qed.

Lemma move_count : count (m_cells (move m h j)) = count (m_cells m).
Proof using All.
  unfold move. rewrite count_set by (by auto with opsian || done).
  rewrite count_set, !occ_key, kat_set by (done || lia).
  rewrite (decide_False (P := h = j)) by congruence.
  rewrite (decide_True (P := kat m h = NullKey)) by done.
  rewrite (decide_False (P := kat m j = NullKey)) by done.
  unfold occ, occupied; simpl. rewrite (decide_True (P := kat m j <> NullKey)) by done.
  lia.
Qed.

Lemma move_mapsto k v : mapsto (move m h j) k v <-> mapsto m k v.
Proof using All.
  unfold mapsto. change (cap (move m h j)) with (cap m). split.
  - intros (Hk & i & Hi & Ek & Ev). split; [done|].
    rewrite kat_move in Ek by (done || lia). rewrite vat_move in Ev by (done || lia).
    repeat case_decide; simplify_eq; [by exists j|by exists i].
  - intros (Hk & i & Hi & Ek & Ev). split; [done|].
    destruct (decide (i = j)) as [->|Hij].
    + exists h. rewrite kat_move, vat_move by (done || lia).
      repeat case_decide; split_and!; congruence || lia.
    + exists i. rewrite kat_move, vat_move by (done || lia).
      repeat case_decide; split_and!; congruence || lia.
Qed.
End Move.

Lemma chain_move m s a b :
  chain m s a b -> let h := at_offset m s a in let j := at_offset m s (b + 1) in
  kat m j <> NullKey -> fills_hole (home m (kat m j)) h j = true ->
  chain (move m h j) s (b + 1) (b + 1).
Proof.
  intros [Hg Hs Hab Hsh Hhole Hbet Hreach (z & Hz & Hz0)] h j Hj Hfill.
  assert (z <> b + 1) by (by intros ->).
  pose proof (at_offset_range m s a Hg) as Hhr. fold h in Hhr, Hhole.
  pose proof (at_offset_range m s (b + 1) Hg) as Hjr. fold j in Hjr.
  apply fills_hole_spec in Hfill; [|done|done|lia|lia]. fold h j in Hfill.
  pose proof (dist_range m (kat m j) j Hg) as Hdj.
  split; try done; [by repeat apply geom_set|change (cap (move m h j)) with (cap m); lia|..].
  - by apply move_shape.
  - change (at_offset (move m h j) s (b + 1)) with j.
    rewrite kat_move by (done || lia). by rewrite decide_True.
  - lia.
  - intros i Hi Hn d Hd. change (cap (move m h j)) with (cap m) in *.
    pose proof (kat_move m h j i Hg Hhr Hjr (proj1 Hi)) as Ek.
    destruct (decide (j = i)) as [|Hji]; [done|]. rewrite Ek in *. clear Ek.
    change (dist (move m h j)) with (dist m) in Hd.
    change (slot (move m h j)) with (slot m).
    change (at_offset (move m h j)) with (at_offset m). fold j.
    destruct (decide (j = slot m (if decide (h = i) then kat m j else kat m i) d)) as [Ej|Ej].
    { right. split; [by symmetry|]. lia. }
    left. rewrite kat_move; [|done..|by apply slot_range]. rewrite decide_False by done.
    destruct (decide (h = i)) as [Ehi|Ehi]; (case_decide as Eh; [done|]).
    + rewrite <- Ehi in Hd.
      destruct (Hreach j Hjr Hj d ltac:(lia)) as [|[E _]]; [done|by destruct Eh].
    + destruct (Hreach i Hi Hn d Hd) as [|[E _]]; [done|by destruct Eh].
  - exists z. change (cap (move m h j)) with (cap m). split; [lia|].
    change (at_offset (move m h j)) with (at_offset m).
    rewrite kat_move; [|done..|by apply at_offset_range].
    rewrite !decide_False; [done|..]; intros E; apply (f_equal (offset m s)) in E;
      unfold h, j in E; rewrite !offset_at_offset in E by (done || lia); lia.
Qed.

Lemma compact_loop_correct s :
  forall fuel m a b, chain m s a b -> (Z.to_nat (cap m - b) <= fuel)%nat ->
  exists m', compact_loop khash fuel s (at_offset m s a) (at_offset m s b) m
               = Some (true, fetch_sub m')
    /\ geom m' /\ shape m' /\ reachable m' /\ size m' = size m /\ maxLoad m' = maxLoad m
    /\ cap m' = cap m /\ count (m_cells m') = count (m_cells m)
    /\ forall k v, mapsto m' k v <-> mapsto m k v.
Proof.
  intros fuel. induction fuel as [|fuel IH]; intros m a b Hc Hf.
  { pose proof (chain_order _ _ _ _ Hc). lia. }
  pose proof (chain_geom _ _ _ _ Hc) as Hg. pose proof (chain_start _ _ _ _ Hc) as Hs.
  pose proof (chain_order _ _ _ _ Hc) as Hab. pose proof (chain_shape _ _ _ _ Hc) as Hsh.
  pose proof (chain_hole _ _ _ _ Hc) as Hhole.
  destruct (chain_free _ _ _ _ Hc) as (z & Hz & _).
  simpl. rewrite next_at_offset by done. set (h := at_offset m s a) in *.
  set (j := at_offset m s (b + 1)).
  destruct (Z.eqb_spec j s) as [E|_].
  { apply (f_equal (offset m s)) in E. unfold j in E.
    rewrite offset_at_offset in E by (done || lia). unfold offset in E.
    rewrite Z.sub_diag in E. rewrite Z.mod_0_l in E; lia. }
  fold (kat m j). destruct (Z.eqb_spec (kat m j) NullKey) as [E|E].
  { exists m. split_and!; try done. by apply (chain_end m s a b). }
  rewrite geom_land by done. fold (home m (kat m j)).
  pose proof (at_offset_range m s a Hg) as Hhr. pose proof (at_offset_range m s (b + 1) Hg) as Hjr.
  destruct (fills_hole (home m (kat m j)) h j) eqn:Efill.
  - rewrite store_both', nullOutCell_set by (by auto with opsian || done).
    fold (vat m j) (move m h j).
    pose proof (chain_move m s a b Hc E Efill) as Hc'. fold h j in Hc'.
    destruct (IH (move m h j) (b + 1) (b + 1) Hc') as (m' & Hrun & Hrest).
    { change (cap (move m h j)) with (cap m). lia. }
    exists m'. split; [exact Hrun|]. destruct Hrest as (?&?&?&?&?&?&Hcount&Hm).
    rewrite Hcount, move_count by done. split_and!; try done.
    intros k v. rewrite Hm. by apply move_mapsto.
  - pose proof (chain_keep m s a b Hc E Efill) as Hc'. apply IH; [done|lia].
Qed.

(** ** [erase] *)

Lemma erased_mapsto m i k v :
  geom m -> shape m -> 0 <= i < cap m ->
  mapsto (set_cell i null_cell m) k v <-> mapsto m k v /\ k <> kat m i.
Proof.
  intros Hg Hs Hi. unfold mapsto. rewrite cap_set. split.
  - intros (Hk & j & Hj & Ek & Ev). rewrite kat_set in Ek by (done || lia).
    rewrite vat_set in Ev by (done || lia). case_decide as E; [by simplify_eq|].
    split; [by eauto|]. intros ->. apply E. by apply (shape_distinct m Hs); congruence.
  - intros [(Hk & j & Hj & Ek & Ev) Hne]. split; [done|]. exists j.
    rewrite kat_set, vat_set by (done || lia). by rewrite !decide_False by congruence.
Qed.

Lemma chain_start_erase m i :
  table m -> 0 <= i < cap m -> kat m i <> NullKey ->
  chain (set_cell i null_cell m) i 0 0.
Proof.
  intros Ht Hi Hk. pose proof (table_geom m Ht) as Hg.
  assert (at_offset m i 0 = i) as E0.
  { unfold at_offset. rewrite Z.add_0_r. by apply Z.mod_small. }
  split; rewrite ?cap_set; change (at_offset (set_cell i null_cell m)) with (at_offset m).
  - by apply geom_set.
  - done.
  - lia.
  - apply shape_set; try done. by apply table_shape.
  - rewrite E0, kat_set by (done || lia). by rewrite decide_True.
  - lia.
  - intros j Hj. rewrite slot_set || idtac.
    pose proof (kat_set m i j null_cell Hg Hi (proj1 Hj)) as Ek. rewrite Ek. clear Ek.
    case_decide as E; [done|]. intros Hn d Hd. rewrite dist_set in Hd. rewrite !slot_set.
    rewrite kat_set; [|done|done|by apply slot_range].
    case_decide as E'; [right; split; [congruence|lia]|left].
    by apply (table_reach m Ht j Hj Hn).
  - destruct (table_free m (table_scan m Ht)) as (j & Hj & Hj0).
    pose proof (offset_range m i j Hg).
    assert (at_offset m i (offset m i j) = j) as E by (by apply at_offset_offset).
    exists (offset m i j). rewrite E, kat_set by (done || lia).
    assert (i <> j) by congruence. rewrite decide_False by done.
    split; [|done]. destruct (Z.eq_dec (offset m i j) 0) as [E'|]; [|lia].
    rewrite E', E0 in E. done.
Qed.

Lemma erase_correct m k v :
  wf m -> to_map m !! k = Some v ->
  exists m', erase khash k m = Some (true, m') /\ wf m' /\ maxLoad m' = maxLoad m /\
    to_map m' = delete k (to_map m).
Proof.
  intros Hw Hkv. pose proof (size_range m Hw) as Hsz. destruct Hw as [Ht Hsize].
  pose proof (table_geom m Ht) as Hg. pose proof (table_shape m Ht) as Hs.
  apply to_map_mapsto in Hkv; [|done..]. destruct Hkv as (Hk & i & Hi & Hki & _).
  destruct (present_stop m k i (table_scan m Ht) Hi Hki Hk) as (HD & HDi & Hleast).
  unfold erase. destruct (Z.eqb_spec k NullKey) as [|_]; [done|].
  rewrite predecessor_slot by done. unfold probe_fuel. fold (cap m).
  assert (stops m k (dist m k i)) as Hstop by (left; congruence).
  pose proof (erase_loop_stop m k _ Hg HD Hstop Hleast (Z.to_nat (cap m)) 0
                ltac:(lia) ltac:(lia)) as Hloop.
  change (0 + -1) with (-1) in Hloop. rewrite Hloop, HDi.
  rewrite (proj2 (Z.eqb_eq _ _) Hki), nullOutCell_set by done.
  assert (kat m i <> NullKey) as Hn by congruence.
  pose proof (chain_start_erase m i Ht Hi Hn) as Hc.
  unfold compactChain, probe_fuel. fold (cap (set_cell i null_cell m)).
  destruct (compact_loop_correct i (Z.to_nat (cap (set_cell i null_cell m))) _ 0 0 Hc)
    as (m' & Hrun & Hg' & Hs' & Hr' & Hsize' & Hml & Hcap & Hcount & Hmap);
    [rewrite cap_set; lia|].
  unfold at_offset in Hrun. rewrite Z.add_0_r, Z.mod_small in Hrun by (rewrite cap_set; done).
  exists (fetch_sub m'). split; [exact Hrun|].
  rewrite count_set, occ_key, decide_False in Hcount by done.
  change (occ null_cell) with 0 in Hcount. pose proof (table_load m Ht).
  pose proof (table_count m Ht). pose proof (count_le_length (m_cells m')).
  split_and!; [split| |].
  - apply table_fetch_sub. split; try done; rewrite ?Hml; simpl; [|lia].
    by rewrite Hcap, cap_set.
  - simpl. rewrite Hsize'. simpl. rewrite u64_small; lia.
  - done.
  - change (to_map (fetch_sub m')) with (to_map m'). apply to_map_ext; [done..|].
    intros k' v'. rewrite Hmap, erased_mapsto, <- to_map_mapsto by done.
    rewrite lookup_delete_Some, Hki. clear. naive_solver.
Qed.

Lemma erase_absent m k :
  table m -> to_map m !! k = None -> erase khash k m = Some (false, m).
Proof.
  intros Ht Hno. pose proof (table_geom m Ht) as Hg. pose proof (table_shape m Ht) as Hs.
  pose proof (geom_cap m Hg).
  unfold erase. destruct (Z.eqb_spec k NullKey) as [|Hk]; [done|].
  rewrite predecessor_slot by done. unfold probe_fuel. fold (cap m).
  destruct (stop_or_full m k) as [(D & HD & Hstop & Hleast)|Hfull].
  - pose proof (erase_loop_stop m k D Hg HD Hstop Hleast (Z.to_nat (cap m)) 0
                  ltac:(lia) ltac:(lia)) as Hloop.
    change (0 + -1) with (-1) in Hloop. rewrite Hloop.
    destruct (Z.eqb_spec (kat m (slot m k D)) k) as [E|]; [|done].
    assert (mapsto m k (vat m (slot m k D))) as Hm.
    { split; [done|]. exists (slot m k D). split; [by apply slot_range|done]. }
    apply to_map_mapsto in Hm; [congruence|done..].
  - pose proof (erase_loop_full m k Hg Hfull (Z.to_nat (cap m)) 0
                  ltac:(lia) ltac:(lia)) as Hloop.
    change (0 + -1) with (-1) in Hloop. exact Hloop.
Qed.

(** ** Construction *)

Lemma clear_from_spec n : forall fuel m idx,
  geom m -> cap m = n -> 0 <= idx -> Z.of_nat fuel = n - idx ->
  let m' := clear_from fuel idx m in
  geom m' /\ m_sizeMask m' = m_sizeMask m /\ maxLoad m' = maxLoad m /\
  forall j, 0 <= j < n -> cell_at m' j = if decide (idx <= j) then null_cell else cell_at m j.
Proof.
  induction fuel as [|fuel IH]; intros m idx Hg Hn Hidx Hf; simpl.
  { split_and!; try done. intros j Hj. rewrite decide_False by lia. done. }
  destruct (Z.leb_spec idx (m_sizeMask m)); [|unfold cap in Hn; lia].
  rewrite store_both' by (done || lia).
  destruct (IH (set_cell idx (Cell NullKey NullValue) m) (idx + 1)) as (? & ? & ? & Hcells);
    [by apply geom_set|done|lia|lia|].
  split_and!; try done. intros j Hj. rewrite Hcells by done.
  rewrite cell_at_set by (done || lia). repeat case_decide; done || lia.
Qed.

Lemma all_null_count l :
  (forall i c, l !! i = Some c -> c = null_cell) -> count l = 0.
Proof.
  induction l as [|c l IH]; intros Hl; [done|]. rewrite count_cons.
  rewrite (Hl 0%nat c) by done. rewrite IH; [done|]. intros i c' Hi. by apply (Hl (S i)).
Qed.

Lemma clear_cells m : geom m -> forall j, 0 <= j < cap m -> cell_at (clear m) j = null_cell.
Proof.
  intros Hg j Hj. pose proof (geom_cap m Hg).
  destruct (clear_from_spec (cap m) (Z.to_nat (cap m)) m 0 Hg eq_refl) as (? & ? & ? & Hc);
    [lia|lia|].
  change (cell_at (clear m) j) with (cell_at (clear_from (Z.to_nat (cap m)) 0 m) j).
  rewrite Hc by done. by rewrite decide_True by lia.
Qed.

Lemma clear_geom m :
  geom m -> geom (clear m) /\ cap (clear m) = cap m /\ maxLoad (clear m) = maxLoad m.
Proof.
  intros Hg. pose proof (geom_cap m Hg).
  destruct (clear_from_spec (cap m) (Z.to_nat (cap m)) m 0 Hg eq_refl) as (Hg' & Hm & ? & _);
    [lia|lia|].
  unfold clear. fold (cap m). destruct Hg' as [Hp Hl]. split_and!; [|unfold cap in *; cbn [m_sizeMask]; by rewrite Hm|done].
  split; [exact Hp|exact Hl].
Qed.

Lemma clear_wf m :
  geom m -> 0 <= maxLoad m < cap m -> wf (clear m) /\ to_map (clear m) = ∅.
Proof.
  intros Hg Hl. pose proof (clear_cells m Hg) as Hcells.
  destruct (clear_geom m Hg) as (Hg' & Hcap & Hml).
  assert (shape (clear m)) as Hs.
  { split; rewrite Hcap; unfold kat, vat.
    - intros i j Hi Hj. rewrite Hcells by done. intros _ []. done.
    - intros i Hi. by rewrite Hcells. }
  assert (count (m_cells (clear m)) = 0) as Hcount.
  { apply all_null_count. intros i c Hi. pose proof (lookup_lt_Some _ _ _ Hi).
    pose proof (geom_len _ Hg'). rewrite <- (Hcells (Z.of_nat i)) by lia.
    unfold cell_at. by rewrite Nat2Z.id, Hi. }
  split.
  - split; [|by rewrite Hcount]. split; try done; [by rewrite Hcap, Hml|rewrite Hcount, Hml; lia|].
    intros i Hi Hn. rewrite Hcap in Hi. unfold kat in Hn. by rewrite Hcells in Hn.
  - apply to_map_ext; [done..|]. intros k v. rewrite lookup_empty. split; [|done].
    intros (Hk & i & Hi & Ek & _). rewrite Hcap in Hi. unfold kat in Ek.
    rewrite Hcells in Ek by done. by subst k.
Qed.

Lemma isClear_from_spec : forall fuel m idx, 0 <= idx ->
  (forall j, idx <= j <= m_sizeMask m -> cell_at m j = null_cell) ->
  isClear_from fuel idx m = true.
Proof.
  induction fuel as [|fuel IH]; intros m idx Hidx Hc; [done|]. simpl.
  destruct (Z.leb_spec idx (m_sizeMask m)); [|done].
  rewrite Hc by lia. simpl. apply IH; [lia|]. intros j Hj. apply Hc. lia.
Qed.

Lemma new_map_geom n load garbage :
  0 <= n < 64 -> Z.of_nat (length garbage) = 2 ^ n ->
  geom (CMap 0 load garbage (u64 (2 ^ n - 1))) /\
  cap (CMap 0 load garbage (u64 (2 ^ n - 1))) = 2 ^ n.
Proof.
  intros Hn Hlen. pose proof (Z.pow_pos_nonneg 2 n). pose proof (Z.pow_lt_mono_r 2 n 64).
  assert (u64 (2 ^ n - 1) = 2 ^ n - 1) as E by (apply u64_small; lia).
  assert (cap (CMap 0 load garbage (u64 (2 ^ n - 1))) = 2 ^ n) as Hcap.
  { unfold cap; simpl. lia. }
  split; [|done]. split; [exists n; simpl; split; [lia|done]|by rewrite Hcap].
Qed.

Lemma size_to_map m : geom m -> shape m -> Z.of_nat (base.size (to_map m)) = count (m_cells m).
Proof.
  intros Hg Hs. unfold to_map, count. f_equal.
  rewrite map_size_list_to_map by (apply occupied_pairs_NoDup; [done|exact (shape_distinct m Hs)]).
  by rewrite length_fmap.
Qed.
End Probing.

(** ** Abstract specification: a bounded finite map *)

Inductive op := OAssign (key value : Z) | OGet (key : Z) | OErase (key : Z).
Inductive answer := ABool (b : bool) | AValue (v : Z).

Definition spec_step (load : Z) (M : gmap Z Z) (o : op) : answer * gmap Z Z :=
  match o with
  | OAssign k v =>
      if (k =? 0) || (v =? 0) || (load <=? Z.of_nat (base.size M)) then (ABool false, M)
      else (ABool true, <[k := v]> M)
  | OGet k => (AValue (default 0 (M !! k)), M)
  | OErase k => (ABool (bool_decide (is_Some (M !! k))), delete k M)
  end.

Definition map_step (khash : Z -> Z) (m : cmap) (o : op) : option (answer * cmap) :=
  match o with
  | OAssign k v => '(b, m') ← assign khash k v m; Some (ABool b, m')
  | OGet k => v ← get khash k m; Some (AValue v, m)
  | OErase k => '(b, m') ← erase khash k m; Some (ABool b, m')
  end.

Fixpoint spec_run (load : Z) (M : gmap Z Z) (os : list op) : list answer :=
  match os with
  | [] => []
  | o :: os => let '(a, M') := spec_step load M o in a :: spec_run load M' os
  end.

Fixpoint map_run (khash : Z -> Z) (m : cmap) (os : list op) : option (list answer) :=
  match os with
  | [] => Some []
  | o :: os => '(a, m') ← map_step khash m o; l ← map_run khash m' os; Some (a :: l)
  end.

Lemma map_step_refines khash m o :
  wf khash m ->
  exists m', map_step khash m o = Some ((spec_step (maxLoad m) (to_map m) o).1, m')
    /\ wf khash m' /\ maxLoad m' = maxLoad m
    /\ to_map m' = (spec_step (maxLoad m) (to_map m) o).2.
Proof.
  intros Hw. pose proof Hw as [Ht Hsize].
  pose proof (size_to_map m (table_geom _ m Ht) (table_shape _ m Ht)) as Hsm.
  destruct o as [k v|k|k]; simpl.
  - rewrite Hsm, <- Hsize.
    destruct (Z.eqb_spec k 0) as [->|Hk]; [by exists m|].
    destruct (Z.eqb_spec v 0) as [->|Hv]; simpl.
    { unfold assign. change NullValue with 0. rewrite orb_true_r. by exists m. }
    destruct (Z.leb_spec (maxLoad m) (size m)) as [Hfull|Hroom]; simpl.
    + unfold assign. apply Z.eqb_neq in Hk, Hv. change NullKey with 0. change NullValue with 0.
      rewrite Hk, Hv. simpl. apply Z.leb_le in Hfull. rewrite Hfull.
      rewrite (fetch_sub_add khash m Hw). by exists m.
    + destruct (assign_correct khash m k v Hw Hk Hv Hroom) as (m' & -> & Hw' & Hml & Hmap).
      by exists m'.
  - rewrite (get_correct khash m k Ht). by exists m.
  - destruct (to_map m !! k) as [v|] eqn:E.
    + destruct (erase_correct khash m k v Hw E) as (m' & -> & Hw' & Hml & Hmap).
      by exists m'.
    + rewrite (erase_absent khash m k Ht E). exists m. by rewrite delete_id.
Qed.

Lemma map_run_refines khash load : forall os m,
  wf khash m -> maxLoad m = load ->
  map_run khash m os = Some (spec_run load (to_map m) os).
Proof.
  induction os as [|o os IH]; intros m Hw Hl; [done|]. simpl.
  destruct (map_step_refines khash m o Hw) as (m' & -> & Hw' & Hml & Hmap).
  rewrite Hl in *. simpl. rewrite (IH m' Hw') by done. rewrite Hmap.
  by destruct (spec_step load (to_map m) o).
Qed.

Lemma new_map_wf khash n load garbage :
  0 <= n < 64 -> Z.of_nat (length garbage) = 2 ^ n -> 0 <= load < 2 ^ n ->
  wf khash (new_map (2 ^ n) load garbage)
  /\ to_map (new_map (2 ^ n) load garbage) = ∅
  /\ maxLoad (new_map (2 ^ n) load garbage) = load.
Proof.
  intros Hn Hlen Hl. destruct (new_map_geom n load garbage Hn Hlen) as [Hg Hcap].
  destruct (clear_wf khash _ Hg) as [Hw Hempty]; [by rewrite Hcap|].
  destruct (clear_geom _ Hg) as (_ & _ & Hml). done.
Qed.

(** ** Properties *)

(** C4. A freshly built map of [2^n] cells answers every sequence of [assign],
    [get] and [erase] calls exactly as a finite map bounded by [maxLoad] does,
    whatever the hash function: linear probing, the compaction of [erase] and
    the size counter never lose, duplicate or invent a binding, and every loop
    ends within [m_sizeMask + 1] turns. *)
Theorem concurrent_map_refines (khash : Z -> Z) (n load : Z) (garbage : list cell) os :
  0 <= n < 64 -> Z.of_nat (length garbage) = 2 ^ n -> 0 <= load < 2 ^ n ->
  map_run khash (new_map (2 ^ n) load garbage) os = Some (spec_run load ∅ os).
Proof.
  intros Hn Hlen Hl. destruct (new_map_wf khash n load garbage Hn Hlen Hl) as (Hw & He & Hml).
  rewrite <- He. by apply map_run_refines.
Qed.

Lemma concurrent_map_refines_witness :
  map_run hash (new_map (2 ^ 2) 3 (replicate 4 (Cell 9 9)))
    [OAssign 3 30; OAssign 7 70; OAssign 11 5; OErase 3; OGet 7; OGet 11; OGet 3]
  = Some (spec_run 3 ∅ [OAssign 3 30; OAssign 7 70; OAssign 11 5; OErase 3; OGet 7; OGet 11; OGet 3])
  /\ spec_run 3 ∅ [OAssign 3 30; OAssign 7 70; OAssign 11 5; OErase 3; OGet 7; OGet 11; OGet 3]
     = [ABool true; ABool true; ABool true; ABool true; AValue 70; AValue 5; AValue 0].
Proof.
  split; [|by vm_compute].
  apply (concurrent_map_refines hash 2 3 (replicate 4 (Cell 9 9))); [lia|by vm_compute|lia].
Defined.

(** [erase] of a present key removes that key and nothing else, and leaves a
    table that satisfies the invariant: the backward shift of [compactChain]
    keeps every other key on its probe path. *)
Theorem erase_removes_only (khash : Z -> Z) m k v :
  wf khash m -> to_map m !! k = Some v ->
  exists m', erase khash k m = Some (true, m') /\ wf khash m' /\ to_map m' = delete k (to_map m).
Proof.
  intros Hw Hk. destruct (erase_correct khash m k v Hw Hk) as (m' & ? & ? & _ & ?). by exists m'.
Qed.

Definition example_map : cmap :=
  CMap 3 3 [Cell 7 70; Cell 4 40; null_cell; Cell 3 30] 3.

Lemma example_map_wf : wf (fun k => k) example_map.
Proof.
  assert (forall P : Z -> Prop, P 0 -> P 1 -> P 2 -> P 3 -> forall i, 0 <= i < 4 -> P i) as all4.
  { intros P ? ? ? ? i Hi. assert (i = 0 \/ i = 1 \/ i = 2 \/ i = 3) as [ -> | [ -> | [ -> | -> ] ] ] by lia; done. }
  split; [|done]. split; [split; [by exists 2|done]|done|done|split|].
  - intros i j Hi Hj. revert j Hj. pattern i. revert i Hi.
    apply all4; intros j Hj; pattern j; revert j Hj; apply all4; by vm_compute.
  - intros i Hi. pattern i. revert i Hi. apply all4; by vm_compute.
  - intros i Hi. pattern i. revert i Hi. apply all4; intros Hn d; vm_compute in Hn; try done;
      unfold dist, slot, home, cap, kat; vm_compute (cell_at _ _); simpl; intros Hd.
    all: match type of Hd with _ <= _ < ?e => let v := eval vm_compute in e in change e with v in Hd end.
    all: try lia; assert (d = 0 \/ d = 1) as [ -> | -> ] by lia; by vm_compute.
Qed.

Lemma erase_removes_only_witness :
  to_map example_map !! 3 = Some 30 /\
  exists m', erase (fun k => k) 3 example_map = Some (true, m') /\ wf (fun k => k) m'
    /\ to_map m' = delete 3 (to_map example_map).
Proof.
  split; [by vm_compute|].
  apply (erase_removes_only (fun k => k) example_map 3 30 example_map_wf). by vm_compute.
Defined.

(** At the load limit [assign] returns [false] and changes nothing, even when
    the key is already in the map and its update would not make the map grow. *)
Theorem assign_at_limit (khash : Z -> Z) m k v :
  wf khash m -> maxLoad m <= size m -> assign khash k v m = Some (false, m).
Proof.
  intros Hw Hl. unfold assign. destruct ((k =? NullKey) || (v =? NullValue)); [done|].
  apply Z.leb_le in Hl. simpl. rewrite Hl. by rewrite (fetch_sub_add khash m Hw).
Qed.

Lemma assign_at_limit_witness :
  maxLoad example_map <= size example_map
  /\ to_map example_map !! 3 = Some 30
  /\ assign (fun k => k) 3 31 example_map = Some (false, example_map).
Proof.
  split; [by vm_compute|]. split; [by vm_compute|].
  apply (assign_at_limit (fun k => k) example_map 3 31 example_map_wf). by vm_compute.
Defined.

(** The constructor leaves an empty, well-formed map whatever the
    allocated cells contained, and [isClear] reports it. *)
Theorem new_map_is_clear (khash : Z -> Z) n load garbage :
  0 <= n < 64 -> Z.of_nat (length garbage) = 2 ^ n -> 0 <= load < 2 ^ n ->
  wf khash (new_map (2 ^ n) load garbage) /\ to_map (new_map (2 ^ n) load garbage) = ∅
  /\ isClear (new_map (2 ^ n) load garbage) = true.
Proof.
  intros Hn Hlen Hl. destruct (new_map_wf khash n load garbage Hn Hlen Hl) as (Hw & He & _).
  split_and!; [done..|]. destruct (new_map_geom n load garbage Hn Hlen) as [Hg Hcap].
  apply isClear_from_spec; [done|]. intros j Hj. apply clear_cells; [done|].
  destruct (clear_geom _ Hg) as (_ & Hc & _). unfold cap in *.
  change (m_sizeMask (new_map (2 ^ n) load garbage) + 1) with
    (m_sizeMask (clear (CMap 0 load garbage (u64 (2 ^ n - 1)))) + 1) in *.
  unfold new_map in Hj. lia.
Qed.

Lemma new_map_is_clear_witness :
  isClear (new_map (2 ^ 2) 3 (replicate 4 (Cell 9 9))) = true.
Proof. apply (new_map_is_clear hash 2 3); [lia|by vm_compute|lia]. Defined.
