(* ===== verification/MapReaders.v ===== *)
(** * Reading the map while it is written ([lib/concurrent_map.h])

    The comment of the class lets [get] run while [assign] or [erase] does; the
    two writers exclude each other.  Here the writers are split into their stores
    and [get] into its loads, each an atomic access; a reader writes nothing, so
    one of them stands for any number.  What a writer loads is its own, since
    nobody else writes: its stores are a function of the table it starts from. *)
From S2P Require Import Prelude Hash ConcurrentMap.

(** ** The writers, store by store *)

Inductive store :=
  | StoreKey (idx key : Z)
  | StoreValue (idx value : Z)
  | AddSize
  | SubSize.

Definition apply_store (s : store) (m : cmap) : cmap :=
  match s with
  | StoreKey idx key => store_key idx key m
  | StoreValue idx value => store_value idx value m
  | AddSize => fetch_add m
  | SubSize => fetch_sub m
  end.

Fixpoint apply_stores (l : list store) (m : cmap) : cmap :=
  match l with
  | [] => m
  | s :: l => apply_stores l (apply_store s m)
  end.

Definition nullOutCell_stores (idx : Z) : list store := [StoreValue idx NullValue; StoreKey idx NullKey].

Section Operations.
Context (khash : Z -> Z).

Fixpoint assign_loop_stores (fuel : nat) (predecessor idx key value : Z) (m : cmap) : option (bool * list store) :=
  match fuel with
  | O => None
  | S fuel =>
      let idx := next_index m idx in
      if predecessor =? idx then Some (false, [])
      else
        let probedKey := ckey (cell_at m idx) in
        if probedKey =? key then Some (true, [SubSize; StoreValue idx value])
        else if negb (probedKey =? NullKey)
        then assign_loop_stores fuel predecessor idx key value m
        else Some (true, [StoreKey idx key; StoreValue idx value])
  end.

Definition assign_stores (key value : Z) (m : cmap) : option (bool * list store) :=
  if (key =? NullKey) || (value =? NullValue) then Some (false, [])
  else if maxLoad m <=? size m then Some (false, [AddSize; SubSize])
  else
    let predecessor := predecessorIndex khash m key in
    '(b, l) ← assign_loop_stores (probe_fuel m) predecessor predecessor key value m;
    Some (b, AddSize :: l).

Fixpoint compact_loop_stores (fuel : nat) (initialDeleteIndex deleteIndex index : Z) (m : cmap)
    : option (bool * list store) :=
  match fuel with
  | O => None
  | S fuel =>
      let index := next_index m index in
      if index =? initialDeleteIndex then Some (false, [])
      else
        let key := ckey (cell_at m index) in
        if key =? NullKey then Some (true, [SubSize])
        else
          let hashed := Z.land (khash key) (m_sizeMask m) in
          if fills_hole hashed deleteIndex index then
            let value := cvalue (cell_at m index) in
            let moved := [StoreValue deleteIndex value; StoreKey deleteIndex key] ++ nullOutCell_stores index in
            '(b, l) ← compact_loop_stores fuel initialDeleteIndex index index (apply_stores moved m);
            Some (b, moved ++ l)
          else compact_loop_stores fuel initialDeleteIndex deleteIndex index m
  end.

Definition compactChain_stores (initialDeleteIndex : Z) (m : cmap) : option (bool * list store) :=
  compact_loop_stores (probe_fuel m) initialDeleteIndex initialDeleteIndex initialDeleteIndex m.

Fixpoint erase_loop_stores (fuel : nat) (predecessor idx key : Z) (m : cmap) : option (bool * list store) :=
  match fuel with
  | O => None
  | S fuel =>
      let idx := next_index m idx in
      if predecessor =? idx then Some (false, [])
      else
        let probedKey := ckey (cell_at m idx) in
        if probedKey =? key then
          '(b, l) ← compactChain_stores idx (apply_stores (nullOutCell_stores idx) m);
          Some (b, nullOutCell_stores idx ++ l)
        else if probedKey =? NullKey then Some (false, [])
        else erase_loop_stores fuel predecessor idx key m
  end.

Definition erase_stores (key : Z) (m : cmap) : option (bool * list store) :=
  if key =? NullKey then Some (false, [])
  else
    let predecessor := predecessorIndex khash m key in
    erase_loop_stores (probe_fuel m) predecessor predecessor key m.

Inductive write := WAssign (key value : Z) | WErase (key : Z).

Definition write_stores (w : write) (m : cmap) : option (bool * list store) :=
  match w with
  | WAssign key value => assign_stores key value m
  | WErase key => erase_stores key m
  end.

(** ** The reader, load by load *)

(** Before the next cell, before the load of its value, before the second load of its
    key, and at the end. *)
Inductive reader :=
  | Probing (idx : Z)
  | LoadingValue (idx : Z)
  | Reprobing (idx loadedValue : Z)
  | Answered (value : Z).

Definition start_get (key : Z) (m : cmap) : reader :=
  if key =? NullKey then Answered NullValue else Probing (predecessorIndex khash m key).

(** One load; the loop ends at the predecessor without one. *)
Definition load (key : Z) (m : cmap) (r : reader) : reader :=
  match r with
  | Probing idx =>
      let idx := next_index m idx in
      if predecessorIndex khash m key =? idx then Answered 0 (* [return false;] *)
      else
        let probedKey := ckey (cell_at m idx) in
        if probedKey =? key then LoadingValue idx
        else if probedKey =? NullKey then Answered NullValue
        else Probing idx
  | LoadingValue idx => Reprobing idx (cvalue (cell_at m idx))
  | Reprobing idx loadedValue =>
      let reProbedKey := ckey (cell_at m idx) in
      if reProbedKey =? key then Answered loadedValue else Probing idx
  | Answered _ => r
  end.

(** ** Both at once *)

(** [pending]: the stores the writer has still to do. *)
Record system := System { memory : cmap; pending : list store; reading : reader }.

Inductive action := Begin (w : write) | Store | Load.

Definition exec (key : Z) (a : action) (s : system) : option system :=
  match a, pending s with
  | Begin w, [] =>
      '(_, l) ← write_stores w (memory s);
      Some (System (memory s) l (reading s))
  | Begin _, _ :: _ => None
  | Store, x :: l => Some (System (apply_store x (memory s)) l (reading s))
  | Store, [] => None
  | Load, l => Some (System (memory s) l (load key (memory s) (reading s)))
  end.

Fixpoint run (key : Z) (l : list action) (s : system) : option system :=
  match l with
  | [] => Some s
  | a :: l => s ← exec key a s; run key l s
  end.

(** [get] begins. *)
Definition start (key : Z) (m : cmap) (l : list store) : system := System m l (start_get key m).
End Operations.
