(* ===== verification/MapReadersSpec.v ===== *)
(** * What a [get] that overlaps writers answers *)
From S2P Require Import Prelude Hash ConcurrentMap ConcurrentMapSpec MapReaders.

Section Readers.
Context (khash : Z -> Z).
Implicit Types m : cmap.

(** ** The stores of a writer are the writer *)

Lemma apply_stores_app l l' m : apply_stores (l ++ l') m = apply_stores l' (apply_stores l m).
Proof. revert m. induction l as [|s l IH]; intros m; [done|]. apply IH. Qed.

Lemma assign_loop_does fuel p idx k v m :
  assign_loop fuel p idx k v (fetch_add m) =
  ('(b, l) ← assign_loop_stores fuel p idx k v m; Some (b, apply_stores l (fetch_add m))).
Proof.
  revert idx. induction fuel as [|fuel IH]; intros idx; [done|]. cbn [assign_loop assign_loop_stores].
  change (next_index (fetch_add m) idx) with (next_index m idx). destruct (p =? next_index m idx); [done|].
  change (cell_at (fetch_add m)) with (cell_at m). destruct (_ =? k); [done|]. destruct (negb _); [apply IH|done].
Qed.

Lemma assign_does k v m : assign khash k v m = ('(b, l) ← assign_stores khash k v m; Some (b, apply_stores l m)).
Proof.
  unfold assign, assign_stores. destruct (_ || _); [done|]. destruct (maxLoad m <=? size m) eqn:E; simpl; rewrite E; [done|].
  change (probe_fuel (fetch_add m)) with (probe_fuel m). change (predecessorIndex khash (fetch_add m)) with (predecessorIndex khash m).
  rewrite assign_loop_does. by destruct (assign_loop_stores _ _ _ _ _ _) as [[b l]|].
Qed.

Lemma compact_loop_does fuel i d x m :
  compact_loop khash fuel i d x m = ('(b, l) ← compact_loop_stores khash fuel i d x m; Some (b, apply_stores l m)).
Proof.
  revert d x m. induction fuel as [|fuel IH]; intros d x m; [done|]. cbn [compact_loop compact_loop_stores].
  destruct (_ =? i); [done|]. destruct (_ =? NullKey); [done|]. destruct (fills_hole _ _ _); [|apply IH].
  cbn zeta. rewrite IH. by destruct (compact_loop_stores _ _ _ _ _ _) as [[b l]|].
Qed.

Lemma erase_loop_does fuel p idx k m :
  erase_loop khash fuel p idx k m = ('(b, l) ← erase_loop_stores khash fuel p idx k m; Some (b, apply_stores l m)).
Proof.
  revert idx. induction fuel as [|fuel IH]; intros idx; [done|]. cbn [erase_loop erase_loop_stores].
  destruct (_ =? _); [done|]. destruct (_ =? k).
  - unfold compactChain, compactChain_stores. rewrite compact_loop_does. by destruct (compact_loop_stores _ _ _ _ _ _) as [[b l]|].
  - destruct (_ =? NullKey); [done|]. apply IH.
Qed.

Lemma erase_does k m : erase khash k m = ('(b, l) ← erase_stores khash k m; Some (b, apply_stores l m)).
Proof. unfold erase, erase_stores. destruct (_ =? _); [done|]. apply erase_loop_does. Qed.

(** The stores one after the other are [assign] and [erase], with the same answer:
    splitting the writers changes nothing when no reader looks. *)
Theorem stores_refine_writers w m :
  ('(b, l) ← write_stores khash w m; Some (b, apply_stores l m)) =
  match w with WAssign k v => assign khash k v m | WErase k => erase khash k m end.
Proof. destruct w; symmetry; [apply assign_does|apply erase_does]. Qed.

(** ** Keys that stay *)

Definition keeps_keys m m' : Prop :=
  cap m' = cap m /\ maxLoad m' = maxLoad m /\ forall i, 0 <= i < cap m -> kat m i <> NullKey -> kat m' i = kat m i.

Lemma keeps_keys_refl m : keeps_keys m m.
Proof. done. Qed.

(** Every store keeps the keys and leaves a table that can be scanned; after the last
    one the size is counted. *)
Fixpoint safe m (l : list store) : Prop :=
  scannable khash m /\ 0 <= maxLoad m < cap m /\
  match l with
  | [] => size m = count (m_cells m) /\ count (m_cells m) <= maxLoad m
  | s :: l => keeps_keys m (apply_store s m) /\ safe (apply_store s m) l
  end.

Lemma safe_now m l : safe m l -> scannable khash m.
Proof. by destruct l; intros [? _]. Qed.

Lemma scannable_same m m' : m_cells m' = m_cells m -> m_sizeMask m' = m_sizeMask m -> scannable khash m -> scannable khash m'.
Proof. destruct m, m'; cbn. intros -> -> [[? ?] ? ? ?]. by split; [split| | |]. Qed.

Lemma scannable_value m i v : 0 <= i < cap m -> scannable khash m -> scannable khash (store_value i v m).
Proof.
  intros Hi [Hg Hf Hd Hr]. assert (forall j, 0 <= j < cap m -> kat (store_value i v m) j = kat m j) as E.
  { intros j Hj. unfold store_value. rewrite kat_set by (done || lia). case_decide; [by subst|done]. }
  split; [by apply geom_set| | |].
  - change (cap (store_value i v m)) with (cap m). unfold store_value. rewrite count_set by done.
    change (occ (Cell (ckey (cell_at m i)) v)) with (occ (cell_at m i)). lia.
  - intros j j' Hj Hj'. change (cap _) with (cap m) in *. rewrite !E by done. by apply Hd.
  - intros j Hj. change (cap _) with (cap m) in *. rewrite E by done. intros Hn d Hd'.
    change (slot khash (store_value i v m)) with (slot khash m). rewrite E by (by apply slot_range). by apply (Hr j Hj Hn).
Qed.

Lemma store_value_keeps m i v : geom m -> 0 <= i < cap m -> keeps_keys m (store_value i v m).
Proof.
  intros Hg Hi. split; [done|]. split; [done|]. intros j Hj _. unfold store_value. rewrite kat_set by (done || lia).
  case_decide; [by subst|done].
Qed.

Lemma scannable_key m i k : 0 <= i < cap m -> k <> NullKey -> kat m i = NullKey -> scannable khash m ->
  count (m_cells m) + 1 < cap m -> (forall j, 0 <= j < cap m -> kat m j <> k) ->
  (forall d, 0 <= d < dist khash m k i -> kat m (slot khash m k d) <> NullKey) -> scannable khash (store_key i k m).
Proof.
  intros Hi Hk H0 [Hg Hf Hd Hr] Hc Hother Hpath. split; [by apply geom_set| | |].
  - change (cap (store_key i k m)) with (cap m). unfold store_key. rewrite count_set, occ_key by done. rewrite decide_True by done.
    pose proof (occ_bound (Cell k (cvalue (cell_at m i)))). lia.
  - intros j j' Hj Hj'. change (cap _) with (cap m) in *. unfold store_key. rewrite !kat_set by (done || lia).
    destruct (decide (i = j)) as [<-|], (decide (i = j')) as [<-|]; simpl; intros E Hn; [done| | |by apply Hd].
    + by destruct (Hother j' Hj').
    + by destruct (Hother j Hj).
  - apply reachable_set; done.
Qed.

Lemma store_key_keeps m i k : geom m -> 0 <= i < cap m -> kat m i = NullKey -> keeps_keys m (store_key i k m).
Proof.
  intros Hg Hi H0. split; [done|]. split; [done|]. intros j Hj Hn. unfold store_key. rewrite kat_set by (done || lia).
  case_decide; [by subst|done].
Qed.

(** *** [assign] is safe *)

Lemma assign_stores_stop m k v D :
  geom m -> 0 <= D < cap m - 1 -> stops khash m k D -> (forall d, 0 <= d < D -> ~ stops khash m k d) ->
  forall fuel d, 0 <= d <= D -> (Z.to_nat (D - d) < fuel)%nat ->
  assign_loop_stores fuel (slot khash m k (-1)) (slot khash m k (d + -1)) k v m =
    Some (true, if kat m (slot khash m k D) =? k then [SubSize; StoreValue (slot khash m k D) v]
                else [StoreKey (slot khash m k D) k; StoreValue (slot khash m k D) v]).
Proof.
  intros Hg HD Hstop Hleast fuel. induction fuel as [|fuel IH]; [lia|].
  intros d Hd Hf. cbn [assign_loop_stores]. rewrite next_index_slot by done.
  replace (d + -1 + 1) with d by lia. rewrite before_predecessor by (done || lia). fold (kat m (slot khash m k d)).
  destruct (Z.eq_dec d D) as [->|].
  - destruct (Z.eqb_spec (kat m (slot khash m k D)) k); [done|].
    destruct Hstop as [ | ->]; done.
  - destruct (not_stops khash m k d) as [Hk H0]; [apply Hleast; lia|].
    apply Z.eqb_neq in Hk, H0. rewrite Hk, H0.
    replace d with (d + 1 + -1) at 1 by lia. apply IH; lia.
Qed.

Lemma safe_end m : scannable khash m -> 0 <= maxLoad m < cap m -> size m = count (m_cells m) -> count (m_cells m) <= maxLoad m -> safe m [].
Proof. intros. split; [done|]. by split. Qed.

Lemma sized_sub_add n load m : size m = n -> 0 <= n <= load -> load < cap m -> geom m -> u64 (u64 (size m + 1) - 1) = size m.
Proof.
  intros <- Hn Hl Hg. pose proof (cap_bound m Hg). unfold u64. rewrite Zminus_mod_idemp_l.
  replace (size m + 1 - 1) with (size m) by lia. apply Z.mod_small. lia.
Qed.

Lemma assign_safe k v m b l : safe m [] -> assign_stores khash k v m = Some (b, l) -> safe m l.
Proof.
  intros Hsafe. pose proof Hsafe as (Hscan & Hload & Hsize & Hcount). pose proof (scan_geom khash m Hscan) as Hg.
  pose proof (geom_cap m Hg) as Hcap. pose proof (count_le_length (m_cells m)) as Hnn.
  pose proof (sized_sub_add _ (maxLoad m) m Hsize ltac:(lia) ltac:(lia) Hg) as Hsub.
  assert (scannable khash (fetch_add m)) as Hadd by (by apply (scannable_same m)).
  assert (forall m', m_cells m' = m_cells m -> m_sizeMask m' = m_sizeMask m -> maxLoad m' = maxLoad m -> size m' = size m -> safe m' []) as Hsame.
  { intros m' E1 E2 E3 E4. unfold safe, cap. rewrite E1, E2, E3, E4. split; [by apply (scannable_same m)|done]. }
  unfold assign_stores. destruct (Z.eqb_spec k NullKey) as [|Hk]; [intros E; by injection E as <- <-|].
  destruct (v =? NullValue); [intros E; by injection E as <- <-|]. cbn [orb].
  destruct (Z.leb_spec (maxLoad m) (size m)) as [Hfull|Hroom].
  { intros E. injection E as <- <-. split; [done|]. split; [done|]. split; [done|]. split; [done|]. split; [done|]. split; [done|]. by apply Hsame. }
  rewrite predecessor_slot by done.
  destruct (room_stops khash m k Hg) as (D & HD & Hstop & Hleast); [lia|].
  change (slot khash m k (-1)) with (slot khash m k (0 + -1)) at 2.
  rewrite (assign_stores_stop m k v D Hg HD Hstop Hleast) by (unfold probe_fuel; fold (cap m); lia). cbn [mbind option_bind].
  pose proof (slot_range khash m k D Hg) as Hi. set (i := slot khash m k D) in *. intros E0. injection E0 as <- <-.
  destruct (Z.eqb_spec (kat m i) k) as [E|E].
  - split; [done|]. split; [done|]. split; [done|]. split; [done|]. split; [done|]. split; [done|].
    set (m1 := fetch_sub (fetch_add m)). assert (safe m1 []) as (Hs1 & _ & Hz1 & _) by (by apply Hsame).
    split; [done|]. split; [done|]. split; [by apply store_value_keeps; [apply (scan_geom khash)|]|].
    assert (count (m_cells (store_value i v m1)) = count (m_cells m)) as Ec.
    { unfold store_value. rewrite count_set by (by try apply (scan_geom khash)).
      change (occ (Cell (ckey (cell_at m1 i)) v)) with (occ (cell_at m1 i)). change (m_cells m1) with (m_cells m). lia. }
    apply safe_end; [by apply scannable_value|done|..].
    + change (u64 (u64 (size m + 1) - 1) = count (m_cells (store_value i v m1))). by rewrite Ec, Hsub.
    + change (count (m_cells (store_value i v m1)) <= maxLoad m). by rewrite Ec.
  - destruct Hstop as [|H0]; [done|]. fold i in H0.
    split; [done|]. split; [done|]. split; [done|]. set (m1 := fetch_add m) in *.
    assert (geom m1) as Hg1 by (by apply (scan_geom khash)).
    assert (scannable khash (store_key i k m1)) as Hs2.
    { apply scannable_key; try done; [change (m_cells m1) with (m_cells m); change (cap m1) with (cap m); lia| |].
      - intros j Hj Ej. apply (free_stop_absent khash m k D (vat m j) Hscan HD H0 Hleast). split; [done|]. by exists j.
      - intros d. unfold i. change (dist khash m1 k (slot khash m k D)) with (dist khash m k (slot khash m k D)).
        rewrite dist_slot by (done || lia). intros Hd Ed. apply (Hleast d Hd). by right. }
    split; [done|]. split; [done|]. split; [exact (store_key_keeps m1 i k Hg1 Hi H0)|].
    set (m2 := store_key i k m1) in *. split; [done|]. split; [done|]. split; [by apply store_value_keeps; [apply (scan_geom khash)|]|].
    assert (count (m_cells (store_value i v m2)) = count (m_cells m) + 1) as Ec.
    { change (m_cells (store_value i v m2)) with (m_cells (store_value i v (store_key i k m1))).
      rewrite store_both, count_set, occ_key by done. change (kat m1 i) with (kat m i). rewrite decide_True by done.
      unfold occ, occupied. simpl. rewrite decide_True by done. lia. }
    apply safe_end; [by apply scannable_value|done|..].
    + change (u64 (size m + 1) = count (m_cells (store_value i v m2))). rewrite Ec, <- Hsize.
      apply u64_small. pose proof (cap_bound m Hg). lia.
    + change (count (m_cells (store_value i v m2)) <= maxLoad m). rewrite Ec. lia.
Qed.

(** ** What the reader knows *)

Lemma slot_keeps m m' k d : cap m' = cap m -> slot khash m' k d = slot khash m k d.
Proof. intros E. unfold slot, home. by rewrite E. Qed.

(** The answer is right for the table as it is. *)
Definition answers (key : Z) m (v : Z) : Prop := v = default NullValue (to_map m !! key).

Section Get.
Context (key : Z) (Hkey : key <> NullKey).

Definition passed m (d : Z) : Prop :=
  forall d', 0 <= d' <= d -> kat m (slot khash m key d') <> key /\ kat m (slot khash m key d') <> NullKey.

(** [P]: the answers that were right at some moment. *)
Definition reader_ok (P : Z -> Prop) m (r : reader) : Prop :=
  match r with
  | Probing idx => exists d, -1 <= d < cap m - 1 /\ idx = slot khash m key d /\ passed m d
  | LoadingValue idx => 0 <= idx < cap m /\ kat m idx = key
  | Reprobing idx v => 0 <= idx < cap m /\ kat m idx = key /\ P v
  | Answered v => P v
  end.

Lemma reader_ok_keeps P m m' r : geom m -> keeps_keys m m' -> reader_ok P m r -> reader_ok P m' r.
Proof using Hkey.
  intros Hg (Ec & _ & Hk). destruct r as [idx|idx|idx v|v]; simpl; [| | |done]; rewrite ?Ec.
  - intros (d & Hd & -> & Hp). exists d. split; [done|]. split; [by rewrite (slot_keeps m m') by done|].
    intros d' Hd'. rewrite (slot_keeps m m') by done. destruct (Hp d' Hd') as [H1 H2].
    rewrite Hk by (done || by apply slot_range). done.
  - intros [Hi E]. split; [done|]. rewrite Hk by (done || congruence). done.
  - intros (Hi & E & Hv). split; [done|]. rewrite Hk by (done || congruence). done.
Qed.

Lemma value_right m idx : scannable khash m -> 0 <= idx < cap m -> kat m idx = key -> answers key m (vat m idx).
Proof using Hkey.
  intros [Hg _ Hd _] Hi E. unfold answers. replace (to_map m !! key) with (Some (vat m idx)); [done|]. symmetry.
  apply distinct_to_map; [done|done|]. split; [done|]. by exists idx.
Qed.

Lemma absent_right m : scannable khash m -> (forall v, ~ mapsto m key v) -> answers key m NullValue.
Proof. intros [Hg _ Hd _] Hno. unfold answers. by rewrite to_map_absent. Qed.

Lemma load_ok P m r : scannable khash m -> (forall v, answers key m v -> P v) -> reader_ok P m r ->
  reader_ok P m (load khash key m r).
Proof using Hkey.
  intros Hs HP. pose proof (scan_geom khash m Hs) as Hg. destruct r as [idx|idx|idx v|v]; simpl; [| | |done].
  - intros (d & Hd & -> & Hp). rewrite next_index_slot, predecessor_slot by done.
    assert (forall d', 0 <= d' < d + 1 -> ~ stops khash m key d') as Hno.
    { intros d' Hd' [E|E]; destruct (Hp d' ltac:(lia)); done. }
    destruct (Z.eq_dec (d + 1) (cap m - 1)) as [E|E].
    + assert (slot khash m key (d + 1) = slot khash m key (-1)) as ->.
      { rewrite E. unfold slot. replace (home khash m key + (cap m - 1)) with (home khash m key + -1 + 1 * cap m) by lia.
        apply Z.mod_add. pose proof (geom_cap m Hg). lia. }
      rewrite Z.eqb_refl. simpl. apply HP, absent_right; [done|]. intros v. apply (full_absent khash); [done|].
      intros d' Hd'. apply Hno. lia.
    + rewrite before_predecessor by (done || lia). fold (kat m (slot khash m key (d + 1))).
      destruct (Z.eqb_spec (kat m (slot khash m key (d + 1))) key) as [Ek|Ek]; [split; [by apply slot_range|done]|].
      destruct (Z.eqb_spec (kat m (slot khash m key (d + 1))) NullKey) as [E0|E0].
      * simpl. apply HP, absent_right; [done|]. intros v. apply (free_stop_absent khash m key (d + 1) v Hs); [lia|done|done].
      * simpl. exists (d + 1). split; [lia|]. split; [done|]. intros d' Hd'.
        destruct (Z.eq_dec d' (d + 1)) as [->|]; [done|]. apply Hp. lia.
  - intros [Hi E]. split; [done|]. split; [done|]. apply HP. by apply value_right.
  - intros (Hi & E & Hv). fold (kat m idx). by rewrite E, Z.eqb_refl.
Qed.
End Get.

Definition only_assigns (l : list action) : Prop :=
  Forall (fun a => match a with Begin (WErase _) => False | _ => True end) l.

Lemma run_ok key P l s s' :
  key <> NullKey -> safe (memory s) (pending s) -> only_assigns l ->
  (forall before after t v, l = before ++ after -> run khash key before s = Some t -> answers key (memory t) v -> P v) ->
  reader_ok key P (memory s) (reading s) -> run khash key l s = Some s' ->
  safe (memory s') (pending s') /\ reader_ok key P (memory s') (reading s').
Proof.
  intros Hkey. revert s. induction l as [|a l IH]; intros s Hsafe Hl HP Hr E; [by injection E as <-|].
  apply Forall_cons_1 in Hl as [Ha Hl]. cbn [run] in E. destruct (exec khash key a s) as [s1|] eqn:E1; [|done]. cbn [mbind option_bind] in E.
  assert (safe (memory s1) (pending s1) /\ reader_ok key P (memory s1) (reading s1)) as [Hsafe1 Hr1].
  { destruct s as [m pend r]; cbn [memory pending reading] in *. destruct a as [[k v|k]| |]; [|done|..]; cbn [exec pending] in E1.
    - destruct pend; [|done]. cbn [write_stores memory] in E1. destruct (assign_stores khash k v m) as [[b st]|] eqn:Es; [|done].
      cbn in E1. injection E1 as <-. split; [by eapply assign_safe|done].
    - destruct pend as [|x pend]; [done|]. injection E1 as <-. destruct Hsafe as (Hs & _ & Hk & Hrest). split; [done|].
      by apply (reader_ok_keeps key Hkey P m); [apply (scan_geom khash)|..].
    - injection E1 as <-. split; [done|]. apply load_ok; [done|by eapply safe_now| |done].
      intros v. by apply (HP [] (Load :: l) (System m pend r)). }
  apply (IH s1 Hsafe1 Hl); [|done|done]. intros before after t v -> Et. apply (HP (a :: before) after t v eq_refl).
  cbn [run]. by rewrite E1.
Qed.

(** The value before the reader starts does not matter. *)
Lemma run_writers key l s s' :
  safe (memory s) (pending s) -> only_assigns l -> run khash key l s = Some s' -> safe (memory s') (pending s').
Proof.
  revert s. induction l as [|a l IH]; intros s Hsafe Hl E; [by injection E as <-|].
  apply Forall_cons_1 in Hl as [Ha Hl]. cbn [run] in E. destruct (exec khash key a s) as [s1|] eqn:E1; [|done].
  apply (IH s1); [|done|done]. clear IH E. destruct s as [m pend r]; cbn [memory pending reading] in *.
  destruct a as [[k v|k]| |]; [|done|..]; cbn [exec pending] in E1.
  - destruct pend; [|done]. cbn [write_stores memory] in E1. destruct (assign_stores khash k v m) as [[b st]|] eqn:Es; [|done].
    cbn in E1. injection E1 as <-. by eapply assign_safe.
  - destruct pend as [|x pend]; [done|]. injection E1 as <-. by destruct Hsafe as (_ & _ & _ & ?).
  - by injection E1 as <-.
Qed.

Lemma wf_safe m : wf khash m -> safe m [].
Proof. intros [Ht Hz]. split; [by apply table_scan|]. split; [apply Ht|]. split; [done|apply Ht]. Qed.

Lemma answered_stays key l s s' u : reading s = Answered u -> run khash key l s = Some s' -> reading s' = Answered u.
Proof.
  revert s. induction l as [|a l IH]; intros s Hu E; [by injection E as <-|]. cbn [run] in E.
  destruct (exec khash key a s) as [s1|] eqn:E1; [|done]. apply (IH s1); [|done]. clear IH E.
  destruct s as [m pend r]. simpl in Hu. subst r. destruct a as [w| |]; cbn [exec pending memory reading] in E1.
  - destruct pend; [|done]. destruct (write_stores khash w m) as [[b st]|]; [|discriminate E1]. cbn in E1. by injection E1 as <-.
  - destruct pend; [done|]. by injection E1 as <-.
  - by injection E1 as <-.
Qed.

(** C5. A [get] that overlaps any number of assignments, and may begin in the middle of
    one, answers what the map held for the key at some moment between its first
    load and its last. *)
Theorem get_overlapping_assigns key m earlier s0 l s v :
  wf khash m -> only_assigns earlier -> run khash key earlier (System m [] (Answered NullValue)) = Some s0 ->
  only_assigns l -> run khash key l (start khash key (memory s0) (pending s0)) = Some s -> reading s = Answered v ->
  exists before after s', l = before ++ after /\ run khash key before (start khash key (memory s0) (pending s0)) = Some s' /\
    v = default NullValue (to_map (memory s') !! key).
Proof.
  intros Hw He E0 Hl E Hv. pose proof (run_writers key earlier (System m [] (Answered NullValue)) s0 (wf_safe m Hw) He E0) as Hsafe.
  set (P := fun v => exists before after s', l = before ++ after /\
    run khash key before (start khash key (memory s0) (pending s0)) = Some s' /\ answers key (memory s') v).
  change (P v). destruct (Z.eq_dec key NullKey) as [Hk|Hk].
  - pose proof (answered_stays key l (start khash key (memory s0) (pending s0)) s NullValue) as Hstays.
    rewrite Hv in Hstays. unfold start at 1, start_get in Hstays. rewrite (proj2 (Z.eqb_eq _ _) Hk) in Hstays.
    injection (Hstays eq_refl E) as ->. exists [], l, (start khash key (memory s0) (pending s0)). split; [done|]. split; [done|].
    apply absent_right; [by eapply safe_now|]. intros u [? _]. done.
  - destruct (run_ok key P l (start khash key (memory s0) (pending s0)) s Hk) as [_ Hr]; [done|done| | |done|by rewrite Hv in Hr].
    + intros before after t u -> Et Hu. by exists before, after, t.
    + unfold start, start_get. cbn [reading memory]. rewrite (proj2 (Z.eqb_neq _ _) Hk). pose proof (scan_geom khash _ (safe_now _ _ Hsafe)) as Hg.
      exists (-1). split; [pose proof (geom_cap _ Hg); lia|]. split; [by apply predecessor_slot|]. intros d Hd. lia.
Qed.

(** ** [get] does not wait *)

Definition is_load (a : action) : bool := match a with Load => true | _ => false end.
Definition loads (l : list action) : nat := length (filter is_load l).

(** At most [n] loads are left. *)
Definition within (key n : Z) m (r : reader) : Prop :=
  match r with
  | Probing idx => exists d, -1 <= d < cap m - 1 /\ idx = slot khash m key d /\ 3 * (cap m - 1 - d) <= n
  | LoadingValue idx => exists d, 0 <= d < cap m - 1 /\ idx = slot khash m key d /\ 3 * (cap m - 1 - d) + 2 <= n
  | Reprobing idx _ => exists d, 0 <= d < cap m - 1 /\ idx = slot khash m key d /\ 3 * (cap m - 1 - d) + 1 <= n
  | Answered _ => True
  end.

Lemma within_load key n m r : geom m -> within key n m r -> within key (n - 1) m (load khash key m r).
Proof.
  intros Hg. destruct r as [idx|idx|idx v|v]; simpl; [| | |done].
  - intros (d & Hd & -> & Hn). rewrite next_index_slot, predecessor_slot by done.
    destruct (Z.eqb_spec (slot khash m key (-1)) (slot khash m key (d + 1))) as [|Hne]; [done|].
    assert (d + 1 < cap m - 1).
    { destruct (Z.eq_dec (d + 1) (cap m - 1)) as [E|]; [|lia]. destruct Hne. rewrite E. unfold slot.
      replace (home khash m key + (cap m - 1)) with (home khash m key + -1 + 1 * cap m) by lia.
      symmetry. apply Z.mod_add. lia. }
    destruct (_ =? key); simpl; [exists (d + 1); split; [lia|]; split; [done|lia]|].
    destruct (_ =? NullKey); simpl; [done|]. exists (d + 1). split; [lia|]. split; [done|lia].
  - intros (d & Hd & -> & Hn). exists d. split; [done|]. split; [done|lia].
  - intros (d & Hd & -> & Hn). destruct (_ =? key); simpl; [done|]. exists d. split; [lia|]. split; [done|lia].
Qed.

Lemma store_geom x m : geom m -> geom (apply_store x m) /\ cap (apply_store x m) = cap m.
Proof. intros Hg. destruct x; simpl; (split; [|done]); [by apply geom_set|by apply geom_set|by destruct Hg; split..]. Qed.

Lemma within_cap key n m m' r : cap m' = cap m -> within key n m r -> within key n m' r.
Proof. intros E. destruct r; simpl; [| | |done]; rewrite E; intros (d & Hd & -> & Hn); exists d; by rewrite (slot_keeps m m') by done. Qed.

Lemma run_within key l n s s' :
  geom (memory s) -> within key n (memory s) (reading s) -> run khash key l s = Some s' ->
  cap (memory s') = cap (memory s) /\ within key (n - Z.of_nat (loads l)) (memory s') (reading s').
Proof.
  revert n s. induction l as [|a l IH]; intros n s Hg Hr E.
  { injection E as <-. split; [done|]. by replace (n - Z.of_nat (loads [])) with n by (unfold loads; simpl; lia). }
  cbn [run] in E. destruct (exec khash key a s) as [s1|] eqn:E1; [|done].
  assert (geom (memory s1) /\ cap (memory s1) = cap (memory s) /\
    within key (n - if is_load a then 1 else 0) (memory s1) (reading s1)) as (Hg1 & Ec & Hr1).
  { destruct s as [m pend r]; cbn [memory pending reading] in *. destruct a as [w| |]; cbn [exec pending memory reading is_load] in *.
    - destruct pend; [|done]. destruct (write_stores khash w m) as [[b st]|]; [|discriminate E1]. cbn in E1. injection E1 as <-.
      rewrite Z.sub_0_r. done.
    - destruct pend as [|x pend]; [done|]. injection E1 as <-. cbn [memory reading]. destruct (store_geom x m Hg) as [Hgx Ex].
      rewrite Z.sub_0_r. split; [done|]. split; [done|]. by apply (within_cap key n m).
    - injection E1 as <-. split; [done|]. split; [done|]. by apply within_load. }
  destruct (IH _ s1 Hg1 Hr1 E) as [Ec2 Hr2]. split; [by rewrite Ec2|].
  replace (n - Z.of_nat (loads (a :: l))) with (n - (if is_load a then 1 else 0) - Z.of_nat (loads l)); [done|].
  unfold loads. rewrite filter_cons. destruct a; simpl; lia.
Qed.

(** [get] ends after at most three loads per cell, whatever the writers do meanwhile,
    erasures included. *)
Theorem get_is_wait_free key m st l s :
  geom m -> run khash key l (start khash key m st) = Some s -> 3 * cap m <= Z.of_nat (loads l) ->
  exists v, reading s = Answered v.
Proof.
  intros Hg E Hl. pose proof (geom_cap m Hg) as Hc.
  assert (within key (3 * cap m) m (start_get khash key m)) as Hr.
  { unfold start_get. destruct (key =? NullKey); [done|]. exists (-1). split; [lia|]. split; [by apply predecessor_slot|lia]. }
  destruct (run_within key l _ (start khash key m st) s Hg Hr E) as [Ec Hw]. cbn [start memory] in Ec.
  destruct (reading s) as [idx|idx|idx v|v]; [..|by exists v]; destruct Hw as (d & Hd & _ & Hn); rewrite Ec in *; lia.
Qed.
End Readers.

(** ** With [erase], [get] may be wrong

    The keys 1 and 5 collide in the table of four cells. *)

Definition two_keys : cmap := CMap 2 3 [null_cell; Cell 1 10; Cell 5 50; null_cell] 3.

(** A cell binds the key to the value. *)
Definition binds (m : cmap) (key value : Z) : bool :=
  existsb (fun c => (ckey c =? key) && (cvalue c =? value)) (m_cells m).

(** Every moment of a run. *)
Fixpoint moments (key : Z) (l : list action) (s : system) : list cmap :=
  memory s :: match l with
              | [] => []
              | a :: l => match exec (fun k => k) key a s with Some s => moments key l s | None => [] end
              end.

(** The comment of the class allows [get] to overlap [erase], but such a [get] may not
    find a key that is in the map all the time: [erase] of a colliding key empties a
    cell on the probe path of the key before it closes the gap. *)
Theorem erase_hides_a_present_key :
  exists l s, run (fun k => k) 5 l (start (fun k => k) 5 two_keys []) = Some s /\ pending s = [] /\
    reading s = Answered NullValue /\
    forallb (fun m => binds m 5 50) (moments 5 l (start (fun k => k) 5 two_keys [])) = true.
Proof.
  exists ([Begin (WErase 1); Store; Store; Load] ++ replicate 5 Store). eexists.
  split; [vm_compute; reflexivity|]. by vm_compute.
Qed.

(** The second load of the key does not tell whether the cell was erased and written
    again: [get] may answer the value of another key that was in the cell
    meanwhile. *)
Theorem get_answers_a_foreign_value :
  exists l s, run (fun k => k) 1 l (start (fun k => k) 1 two_keys []) = Some s /\ reading s = Answered 90 /\
    forallb (fun m => negb (binds m 1 90)) (moments 1 l (start (fun k => k) 1 two_keys [])) = true.
Proof.
  exists ([Load] ++ [Begin (WErase 5)] ++ replicate 3 Store ++ [Begin (WErase 1)] ++ replicate 3 Store ++
    [Begin (WAssign 9 90)] ++ replicate 3 Store ++ [Load; Begin (WErase 9)] ++ replicate 3 Store ++
    [Begin (WAssign 1 11)] ++ replicate 3 Store ++ [Load]). eexists.
  split; [vm_compute; reflexivity|]. by vm_compute.
Qed.

(** ** Instances *)

(** The key 5 is assigned to an empty table; [get] begins when the cell has the key
    but not yet the value. *)
Definition empty_table : cmap := new_map (2 ^ 2) 3 (replicate 4 (Cell 9 9)).
Definition half_assigned : list action := [Begin (WAssign 5 50); Store; Store].
Definition overlapping : list action := [Load; Store; Load; Load].

Lemma get_overlapping_assigns_witness :
  exists s0 s before after s',
    run (fun k => k) 5 half_assigned (System empty_table [] (Answered NullValue)) = Some s0 /\
    run (fun k => k) 5 overlapping (start (fun k => k) 5 (memory s0) (pending s0)) = Some s /\ reading s = Answered 50 /\
    overlapping = before ++ after /\ run (fun k => k) 5 before (start (fun k => k) 5 (memory s0) (pending s0)) = Some s' /\
    50 = default NullValue (to_map (memory s') !! 5).
Proof.
  destruct (run (fun k => k) 5 half_assigned (System empty_table [] (Answered NullValue))) as [s0|] eqn:E0; [|by vm_compute in E0].
  destruct (run (fun k => k) 5 overlapping (start (fun k => k) 5 (memory s0) (pending s0))) as [s|] eqn:E.
  2: { vm_compute in E0. injection E0 as <-. by vm_compute in E. }
  assert (reading s = Answered 50) as Hv.
  { vm_compute in E0. injection E0 as <-. vm_compute in E. by injection E as <-. }
  assert (wf (fun k => k) empty_table) as Hw by (apply new_map_wf; [lia|reflexivity|lia]).
  assert (only_assigns half_assigned) as H1 by (repeat constructor). assert (only_assigns overlapping) as H2 by (repeat constructor).
  destruct (get_overlapping_assigns (fun k => k) 5 empty_table half_assigned s0 overlapping s 50 Hw H1 E0 H2 E Hv)
    as (before & after & s' & Eb & Er & Ev).
  exists s0, s, before, after, s'. exact (conj eq_refl (conj E (conj Hv (conj Eb (conj Er Ev))))).
Defined.

Lemma get_is_wait_free_witness :
  exists s v, run (fun k => k) 7 (replicate 12 Load) (start (fun k => k) 7 two_keys []) = Some s /\ reading s = Answered v.
Proof.
  destruct (run (fun k => k) 7 (replicate 12 Load) (start (fun k => k) 7 two_keys [])) as [s|] eqn:E; [|by vm_compute in E].
  assert (geom two_keys) as Hg by (split; [exists 2; split; [lia|reflexivity]|reflexivity]).
  destruct (get_is_wait_free (fun k => k) 7 two_keys [] (replicate 12 Load) s Hg E ltac:(by vm_compute)) as [v Hv].
  exists s, v. exact (conj eq_refl Hv).
Defined.
