(* ===== verification/InternalQueue.v ===== *)
(** * The bounded multi-producer, single-consumer ring ([lib/internal_queue.h])

    [InternalQueue<T, Size>] twice over.  The first part has the member
    functions as they run when nothing interleaves with them; the queues of
    [CircularQueue] are built from it.  The second part splits the same
    functions at their atomic accesses and lets any number of producers
    interleave with the consumer.  Atomic accesses are taken in one total
    order; the weaker orderings the code asks for are not modelled. *)
From S2P Require Import Prelude.

Definition COMMITTED : Z := 1.
Definition UNCOMMITTED : Z := 0.

(** What the template uses of its parameter [T]: the [is_committed] flag. *)
Class Committable (T : Type) := {
  is_committed : T -> Z;
  set_committed : Z -> T -> T;
  committed_set c t : is_committed (set_committed c t) = c;
  set_committed_twice c c' t : set_committed c (set_committed c' t) = set_committed c t;
  set_committed_same t : set_committed (is_committed t) t = t
}.

(** ** Run to completion *)

Record queue (T : Type) := Queue { input : Z; output : Z; buffer : list T }.
Arguments Queue {T}.
Arguments input {T}.
Arguments output {T}.
Arguments buffer {T}.

Section Sequential.
Context {T : Type} `{Committable T} (Size : Z).

Definition Capacity : Z := Size + 1.

Definition advance (index : Z) : Z := u64 (index + 1) mod Capacity.

Definition new_queue (t : T) : queue T := Queue 0 0 (replicate (Z.to_nat Capacity) t).

Definition acquireWrite (q : queue T) : option Z * queue T :=
  let currentInput := input q in
  let nextInput := advance currentInput in
  if output q =? nextInput then (None, q)
  else (Some currentInput, Queue nextInput (output q) (buffer q)).

(** The outcome of [acquireRead]: when the slot is not committed yet the code
    sleeps and looks again, for as long as no producer commits it. *)
Inductive read_outcome := ReadEmpty | ReadWaits (position : Z) | ReadReady (position : Z).

Definition get (position : Z) (q : queue T) : option T := buffer q !! Z.to_nat position.

Definition acquireRead (q : queue T) : read_outcome :=
  let currentOutput := output q in
  if currentOutput =? input q then ReadEmpty
  else
    match get currentOutput q with
    | Some t => if is_committed t =? COMMITTED then ReadReady currentOutput
                else ReadWaits currentOutput
    | None => ReadWaits currentOutput
    end.

(** Stores through the reference that [get] returned. *)
Definition update (position : Z) (f : T -> T) (q : queue T) : queue T :=
  Queue (input q) (output q) (alter f (Z.to_nat position) (buffer q)).

Definition commitWrite (position : Z) (q : queue T) : queue T :=
  update position (set_committed COMMITTED) q.

Definition commitRead (position : Z) (q : queue T) : queue T :=
  let q := update position (set_committed UNCOMMITTED) q in
  Queue (input q) (advance position) (buffer q).
End Sequential.

(** ** Interleaved *)

Record slot (A : Type) := Slot { flag : Z; item : A }.
Arguments Slot {A}.
Arguments flag {A}.
Arguments item {A}.

(** Where a producer stands inside [acquireWrite], the stores to the slot and
    [commitWrite].  [ticket] is a ghost: how many slots had been acquired when
    the producer loaded [input]. *)
Inductive producer (A : Type) :=
| PIdle
| PStart (x : A)
| PLoaded (x : A) (currentInput ticket : Z)
| PChecked (x : A) (currentInput ticket : Z)
| PAcquired (x : A) (currentInput ticket : Z)
| PWritten (x : A) (currentInput ticket : Z).
Arguments PIdle {A}.
Arguments PStart {A}.
Arguments PLoaded {A}.
Arguments PChecked {A}.
Arguments PAcquired {A}.
Arguments PWritten {A}.

(** Where the consumer stands inside [acquireRead], the use of the slot and
    [commitRead]. *)
Inductive consumer :=
| CIdle
| CLoaded (currentOutput : Z)
| CWaiting (currentOutput : Z)
| CReady (currentOutput : Z)
| CUsed (currentOutput : Z)
| CUncommitted (currentOutput : Z).

(** [acquired] and [released] count the slots taken by producers and given back
    by the consumer; [pushed] and [delivered] list the items in the order of
    acquisition and of use.  These four are ghosts. *)
Record config (A : Type) := Config {
  c_input : Z;
  c_output : Z;
  c_buffer : list (slot A);
  c_producers : list (producer A);
  c_consumer : consumer;
  acquired : Z;
  released : Z;
  pushed : list A;
  delivered : list A;
  refused : Z
}.
Arguments Config {A}.
Arguments c_input {A}.
Arguments c_output {A}.
Arguments c_buffer {A}.
Arguments c_producers {A}.
Arguments c_consumer {A}.
Arguments acquired {A}.
Arguments released {A}.
Arguments pushed {A}.
Arguments delivered {A}.
Arguments refused {A}.

(** One atomic action of one thread. *)
Inductive action (A : Type) :=
| ABegin (i : nat) (x : A)
| ALoad (i : nat)
| ACheck (i : nat)
| ACas (i : nat)
| AWrite (i : nat)
| ACommit (i : nat)
| CLoad
| CCheck
| CPoll
| CUse
| CReset
| CAdvance.
Arguments ABegin {A}.
Arguments ALoad {A}.
Arguments ACheck {A}.
Arguments ACas {A}.
Arguments AWrite {A}.
Arguments ACommit {A}.
Arguments CLoad {A}.
Arguments CCheck {A}.
Arguments CPoll {A}.
Arguments CUse {A}.
Arguments CReset {A}.
Arguments CAdvance {A}.

Section Interleaved.
Context {A : Type} (Size : Z).

Definition set_producer (i : nat) (p : producer A) (c : config A) : config A :=
  Config (c_input c) (c_output c) (c_buffer c) (<[i := p]> (c_producers c)) (c_consumer c)
    (acquired c) (released c) (pushed c) (delivered c) (refused c).

Definition set_consumer (k : consumer) (c : config A) : config A :=
  Config (c_input c) (c_output c) (c_buffer c) (c_producers c) k
    (acquired c) (released c) (pushed c) (delivered c) (refused c).

Definition set_slot (pos : Z) (s : slot A) (c : config A) : config A :=
  Config (c_input c) (c_output c) (<[Z.to_nat pos := s]> (c_buffer c)) (c_producers c)
    (c_consumer c) (acquired c) (released c) (pushed c) (delivered c) (refused c).

(** The compare-and-swap of [acquireWrite] taking effect. *)
Definition take_slot (x : A) (next : Z) (c : config A) : config A :=
  Config next (c_output c) (c_buffer c) (c_producers c) (c_consumer c)
    (acquired c + 1) (released c) (pushed c ++ [x]) (delivered c) (refused c).

Definition refuse (c : config A) : config A :=
  Config (c_input c) (c_output c) (c_buffer c) (c_producers c) (c_consumer c)
    (acquired c) (released c) (pushed c) (delivered c) (refused c + 1).

Definition deliver (x : A) (c : config A) : config A :=
  Config (c_input c) (c_output c) (c_buffer c) (c_producers c) (c_consumer c)
    (acquired c) (released c) (pushed c) (delivered c ++ [x]) (refused c).

Definition give_back (next : Z) (c : config A) : config A :=
  Config (c_input c) next (c_buffer c) (c_producers c) (c_consumer c)
    (acquired c) (released c + 1) (pushed c) (delivered c) (refused c).

Definition exec_producer (i : nat) (a : action A) (p : producer A) (c : config A)
    : option (config A) :=
  match a, p with
  | ABegin _ x, PIdle => Some (set_producer i (PStart x) c)
  | ALoad _, PStart x => Some (set_producer i (PLoaded x (c_input c) (acquired c)) c)
  | ACheck _, PLoaded x cur t =>
      if c_output c =? advance Size cur then Some (set_producer i PIdle (refuse c))
      else Some (set_producer i (PChecked x cur t) c)
  | ACas _, PChecked x cur t =>
      if c_input c =? cur
      then Some (set_producer i (PAcquired x cur (acquired c)) (take_slot x (advance Size cur) c))
      else Some (set_producer i (PStart x) c)
  | AWrite _, PAcquired x cur t =>
      s ← c_buffer c !! Z.to_nat cur;
      Some (set_producer i (PWritten x cur t) (set_slot cur (Slot (flag s) x) c))
  | ACommit _, PWritten x cur t =>
      s ← c_buffer c !! Z.to_nat cur;
      Some (set_producer i PIdle (set_slot cur (Slot COMMITTED (item s)) c))
  | _, _ => None
  end.

Definition exec (a : action A) (c : config A) : option (config A) :=
  match a with
  | ABegin i _ | ALoad i | ACheck i | ACas i | AWrite i | ACommit i =>
      p ← c_producers c !! i; exec_producer i a p c
  | CLoad =>
      match c_consumer c with
      | CIdle => Some (set_consumer (CLoaded (c_output c)) c)
      | _ => None
      end
  | CCheck =>
      match c_consumer c with
      | CLoaded cur =>
          if cur =? c_input c then Some (set_consumer CIdle c)
          else Some (set_consumer (CWaiting cur) c)
      | _ => None
      end
  | CPoll =>
      match c_consumer c with
      | CWaiting cur =>
          s ← c_buffer c !! Z.to_nat cur;
          if flag s =? COMMITTED then Some (set_consumer (CReady cur) c) else Some c
      | _ => None
      end
  | CUse =>
      match c_consumer c with
      | CReady cur =>
          s ← c_buffer c !! Z.to_nat cur;
          Some (set_consumer (CUsed cur) (deliver (item s) c))
      | _ => None
      end
  | CReset =>
      match c_consumer c with
      | CUsed cur =>
          s ← c_buffer c !! Z.to_nat cur;
          Some (set_consumer (CUncommitted cur) (set_slot cur (Slot UNCOMMITTED (item s)) c))
      | _ => None
      end
  | CAdvance =>
      match c_consumer c with
      | CUncommitted cur => Some (set_consumer CIdle (give_back (advance Size cur) c))
      | _ => None
      end
  end.

(** No compare-and-swap succeeds after [input] went all the way round and came
    back to the value the producer had loaded. *)
Definition no_wrap (a : action A) (c : config A) : bool :=
  match a with
  | ACas i =>
      match c_producers c !! i with
      | Some (PChecked _ cur t) => negb (c_input c =? cur) || (t =? acquired c)
      | _ => true
      end
  | _ => true
  end.

Definition step (c c' : config A) : Prop := exists a, exec a c = Some c'.
Definition step_no_wrap (c c' : config A) : Prop :=
  exists a, no_wrap a c = true /\ exec a c = Some c'.

Definition initial (threads : nat) (x : A) : config A :=
  Config 0 0 (replicate (Z.to_nat (Capacity Size)) (Slot UNCOMMITTED x))
    (replicate threads PIdle) CIdle 0 0 [] [] 0.

Fixpoint run (l : list (action A)) (c : config A) : option (config A) :=
  match l with
  | [] => Some c
  | a :: l => c' ← exec a c; run l c'
  end.
End Interleaved.
