(* ===== verification/InternalQueueSpec.v ===== *)
(** * The ring is a bounded FIFO queue

    Invariant of the interleaved ring, from which [RingFifoSpec] shows that it is
    a queue, and the two ways the compare-and-swap of [acquireWrite] can
    be fooled by a stale index. *)
From S2P Require Import Prelude InternalQueue.

Section Invariant.
Context {A : Type} (Size : Z).
Context (HSize : 0 < Size) (Hbig : Size < 2 ^ 63).

#[local] Abbreviation C := (Capacity Size).

(** The slot of a ticket. *)
Definition index (t : Z) : Z := t mod C.

(** The ticket of the first slot the consumer has not emptied. *)
Definition low (c : config A) : Z :=
  match c_consumer c with CUncommitted _ => released c + 1 | _ => released c end.

Definition owner (p : producer A) : option (Z * A) :=
  match p with PAcquired x _ t | PWritten x _ t => Some (t, x) | _ => None end.

(** A live ticket: committed with its item, or still with its producer. *)
Definition ticket_ok (c : config A) (t : Z) : Prop :=
  exists x s, pushed c !! Z.to_nat t = Some x /\ c_buffer c !! Z.to_nat (index t) = Some s /\
    ((flag s = COMMITTED /\ item s = x)
     \/ (flag s = UNCOMMITTED /\ exists i p, c_producers c !! i = Some p /\ owner p = Some (t, x))).

Definition free_ok (c : config A) (t : Z) : Prop :=
  exists s, c_buffer c !! Z.to_nat (index t) = Some s /\ flag s = UNCOMMITTED.

Definition producer_ok (c : config A) (p : producer A) : Prop :=
  match p with
  | PIdle | PStart _ => True
  | PLoaded x cur t => 0 <= t <= acquired c /\ cur = index t
  | PChecked x cur t =>
      0 <= t <= acquired c /\ cur = index t /\ (t = acquired c -> t < released c + Size)
  | PAcquired x cur t =>
      low c <= t < acquired c /\ cur = index t /\ pushed c !! Z.to_nat t = Some x /\
      exists y, c_buffer c !! Z.to_nat (index t) = Some (Slot UNCOMMITTED y)
  | PWritten x cur t =>
      low c <= t < acquired c /\ cur = index t /\ pushed c !! Z.to_nat t = Some x /\
      c_buffer c !! Z.to_nat (index t) = Some (Slot UNCOMMITTED x)
  end.

Definition consumer_ok (c : config A) : Prop :=
  match c_consumer c with
  | CIdle => delivered c = take (Z.to_nat (released c)) (pushed c)
  | CLoaded cur => cur = index (released c) /\ delivered c = take (Z.to_nat (released c)) (pushed c)
  | CWaiting cur =>
      cur = index (released c) /\ released c < acquired c /\
      delivered c = take (Z.to_nat (released c)) (pushed c)
  | CReady cur =>
      cur = index (released c) /\ released c < acquired c /\
      delivered c = take (Z.to_nat (released c)) (pushed c) /\
      exists s, c_buffer c !! Z.to_nat cur = Some s /\ flag s = COMMITTED
  | CUsed cur =>
      cur = index (released c) /\ released c < acquired c /\
      delivered c = take (S (Z.to_nat (released c))) (pushed c) /\
      exists s, c_buffer c !! Z.to_nat cur = Some s /\ flag s = COMMITTED
  | CUncommitted cur =>
      cur = index (released c) /\ released c < acquired c /\
      delivered c = take (S (Z.to_nat (released c))) (pushed c) /\
      exists s, c_buffer c !! Z.to_nat cur = Some s /\ flag s = UNCOMMITTED
  end.

Record inv (c : config A) : Prop := {
  inv_input : c_input c = index (acquired c);
  inv_output : c_output c = index (released c);
  inv_window : 0 <= released c <= acquired c /\ acquired c <= released c + Size;
  inv_pushed : Z.of_nat (length (pushed c)) = acquired c;
  inv_buffer : Z.of_nat (length (c_buffer c)) = C;
  inv_tickets : forall t, low c <= t < acquired c -> ticket_ok c t;
  inv_free : forall t, acquired c <= t < released c + C -> free_ok c t;
  inv_producers : forall i p, c_producers c !! i = Some p -> producer_ok c p;
  inv_owners : forall i j p p' t x y, c_producers c !! i = Some p -> c_producers c !! j = Some p' ->
    owner p = Some (t, x) -> owner p' = Some (t, y) -> i = j;
  inv_consumer : consumer_ok c
}.

(** ** Indices *)

Lemma C_pos : 0 < C.
Proof. unfold Capacity. lia. Qed.

Lemma index_range t : 0 <= index t < C.
Proof. apply Z.mod_pos_bound, C_pos. Qed.

Lemma advance_index t : advance Size (index t) = index (t + 1).
Proof.
  unfold advance. pose proof (index_range t). rewrite u64_small by (unfold Capacity in *; lia).
  unfold index. rewrite Z.add_mod_idemp_l by (pose proof C_pos; lia). done.
Qed.

Lemma index_inj t t' : index t = index t' -> - C < t - t' < C -> t = t'.
Proof.
  unfold index. intros E Hlt. pose proof C_pos.
  assert ((t - t') mod C = 0) as E0.
  { rewrite Zminus_mod, E, Z.sub_diag. apply Z.mod_0_l. lia. }
  apply Z.mod_divide in E0; [|lia]. destruct E0 as [q Hq].
  assert (q = 0) by nia. nia.
Qed.

Lemma index_nat_inj t t' : Z.to_nat (index t) = Z.to_nat (index t') -> index t = index t'.
Proof. pose proof (index_range t). pose proof (index_range t'). lia. Qed.

Lemma slot_exists c t : inv c -> exists s, c_buffer c !! Z.to_nat (index t) = Some s.
Proof.
  intros Hi. apply lookup_lt_is_Some_2. pose proof (index_range t). pose proof (inv_buffer c Hi). lia.
Qed.

Lemma low_le_acquired c : inv c -> low c <= acquired c.
Proof.
  intros Hi. pose proof (inv_window c Hi). pose proof (inv_consumer c Hi) as Hk.
  unfold consumer_ok, low in *. destruct (c_consumer c); lia.
Qed.

Lemma low_bound c : released c <= low c <= released c + 1.
Proof. unfold low. destruct (c_consumer c); lia. Qed.

Lemma lookup_set_slot c t t' s :
  inv c -> - C < t - t' < C ->
  c_buffer (set_slot (index t) s c) !! Z.to_nat (index t') =
    if decide (t = t') then Some s else c_buffer c !! Z.to_nat (index t').
Proof.
  intros Hi Ht. unfold set_slot; simpl. case_decide as E.
  - subst t'. apply list_lookup_insert_eq.
    pose proof (index_range t). pose proof (inv_buffer c Hi). lia.
  - apply list_lookup_insert_ne. intros E'. apply E, index_inj; [|done].
    by apply index_nat_inj.
Qed.

(** ** Steps that only move one producer *)

Lemma inv_set_producer i p p' c :
  inv c -> c_producers c !! i = Some p -> owner p' = owner p -> producer_ok c p' ->
  inv (set_producer i p' c).
Proof.
  intros Hi Hp Ho Hok. pose proof (lookup_lt_Some _ _ _ Hp) as Hlt.
  assert (forall j q, <[i := p']> (c_producers c) !! j = Some q ->
            exists q0, c_producers c !! j = Some q0 /\ owner q = owner q0 /\ producer_ok c q) as Hback.
  { intros j q Hq. destruct (decide (i = j)) as [->|Hne].
    - rewrite list_lookup_insert_eq in Hq by done. simplify_eq. by exists p.
    - rewrite list_lookup_insert_ne in Hq by done. exists q. split_and!; [done..|].
      by apply (inv_producers c Hi j). }
  split; try apply Hi; simpl.
  - intros t Ht. destruct (inv_tickets c Hi t Ht) as (x & s & Hx & Hs & Hcase).
    exists x, s. split_and!; [done..|]. destruct Hcase as [|(Hf & j & q & Hq & Hoq)]; [by left|].
    right. split; [done|]. destruct (decide (i = j)) as [->|Hne].
    + exists j, p'. simpl. rewrite list_lookup_insert_eq by done. split; [done|]. congruence.
    + exists j, q. simpl. by rewrite list_lookup_insert_ne.
  - intros j q Hq. apply Hback in Hq as (q0 & Hq0 & _ & Hq). exact Hq.
  - intros j j' q q' t x y Hq Hq' Hoq Hoq'.
    apply Hback in Hq as (q0 & Hq0 & E & _). apply Hback in Hq' as (q0' & Hq0' & E' & _).
    rewrite E in Hoq. rewrite E' in Hoq'. by apply (inv_owners c Hi j j' q0 q0' t x y).
Qed.

Lemma inv_refuse c : inv c -> inv (refuse c).
Proof. intros []. by split. Qed.

(** Rewriting the slot of a live ticket leaves the other tickets alone. *)
Section WriteSlot.
Context (c : config A) (i : nat) (p p' : producer A) (t cur : Z) (x : A) (s : slot A).
Context (Hi : inv c) (Hp : c_producers c !! i = Some p) (Howner : owner p = Some (t, x)).
Context (Hrange : low c <= t < acquired c).

Let c' := set_producer i p' (set_slot (index t) s c).

Lemma write_lookup t' :
  low c <= t' < released c + C ->
  c_buffer c' !! Z.to_nat (index t') =
    if decide (t = t') then Some s else c_buffer c !! Z.to_nat (index t').
Proof using All.
  intros Ht'. apply lookup_set_slot; [done|]. pose proof (low_bound c).
  pose proof (inv_window c Hi). unfold Capacity in *. lia.
Qed.

Lemma write_free t' :
  acquired c <= t' < released c + C -> free_ok c' t'.
Proof using All.
  intros Ht'. destruct (inv_free c Hi t' Ht') as (s' & Hs' & Hf').
  exists s'. rewrite write_lookup by lia. by rewrite decide_False by lia.
Qed.

Lemma write_producer j q :
  j <> i -> c_producers c !! j = Some q -> producer_ok c' q.
Proof using All.
  intros Hne Hq. pose proof (inv_producers c Hi j q Hq) as Hok.
  pose proof (low_bound c). pose proof (inv_window c Hi).
  destruct q as [|y|y cu t'|y cu t'|y cu t'|y cu t']; try done;
    destruct Hok as (Hr & Hcur & Hpush & Hbuf); simpl in Hr;
    refine (conj Hr (conj Hcur (conj Hpush _)));
    (rewrite write_lookup by (unfold Capacity; lia));
    (rewrite decide_False; [done|]); intros <-; apply Hne;
    (symmetry; by eapply (inv_owners c Hi i j)).
Qed.

Lemma write_ticket t' :
  t <> t' -> low c <= t' < acquired c -> ticket_ok c' t'.
Proof using All.
  intros Hne Ht'. destruct (inv_tickets c Hi t' Ht') as (y & s' & Hy & Hs' & Hcase).
  pose proof (inv_window c Hi).
  exists y, s'. rewrite write_lookup by (unfold Capacity; lia). rewrite decide_False by done.
  split_and!; [done..|]. destruct Hcase as [|(Hf & j & q & Hq & Hoq)]; [by left|right].
  split; [done|]. exists j, q. split; [|done]. simpl.
  rewrite list_lookup_insert_ne; [done|]. intros ->. congruence.
Qed.

Lemma write_owners (Ho' : owner p' = owner p \/ owner p' = None) j j' q q' t' y z :
  c_producers c' !! j = Some q -> c_producers c' !! j' = Some q' ->
  owner q = Some (t', y) -> owner q' = Some (t', z) -> j = j'.
Proof using All.
  intros Hq Hq' Hoq Hoq'. simpl in *. pose proof (lookup_lt_Some _ _ _ Hp).
  assert (forall j q t' y, <[i := p']> (c_producers c) !! j = Some q -> owner q = Some (t', y) ->
            exists q0, c_producers c !! j = Some q0 /\ owner q0 = Some (t', y)) as Hback.
  { intros k r t0 z0 Hr Hor. destruct (decide (i = k)) as [->|].
    - rewrite list_lookup_insert_eq in Hr by done. simplify_eq. exists p. split; [done|].
      destruct Ho' as [E|E]; congruence.
    - rewrite list_lookup_insert_ne in Hr by done. by exists r. }
  destruct (Hback _ _ _ _ Hq Hoq) as (? & ? & ?). destruct (Hback _ _ _ _ Hq' Hoq') as (? & ? & ?).
  by eapply (inv_owners c Hi j j').
Qed.

(** The consumer does not stand on a ticket a producer still owns. *)
Lemma write_consumer : flag s = COMMITTED \/ flag s = UNCOMMITTED ->
  (exists s0, c_buffer c !! Z.to_nat (index t) = Some s0 /\ flag s0 = UNCOMMITTED) ->
  consumer_ok c'.
Proof using All.
  intros _ (s0 & Hs0 & Hf0). pose proof (inv_consumer c Hi) as Hk.
  pose proof (inv_window c Hi). unfold consumer_ok in *.
  change (c_consumer c') with (c_consumer c). unfold low in Hrange.
  destruct (c_consumer c) as [|cu|cu|cu|cu|cu]; try done;
    destruct Hk as (Hcur & Hlt & Hd & s1 & Hs1 & Hf1); split_and!; try done; subst cu;
    exists s1; (split; [|done]); unfold c', set_producer; cbn [c_buffer];
    (rewrite lookup_set_slot by (done || unfold Capacity; lia));
    (rewrite decide_False; [done|]); intros ->.
  all: rewrite Hs0 in Hs1; simplify_eq; try (rewrite Hf0 in Hf1; done); lia.
Qed.
End WriteSlot.

Lemma inv_write_slot c i x t s :
  inv c -> c_producers c !! i = Some (PAcquired x (index t) t) ->
  c_buffer c !! Z.to_nat (index t) = Some s ->
  inv (set_producer i (PWritten x (index t) t) (set_slot (index t) (Slot (flag s) x) c)).
Proof.
  intros Hi Hp Hs. pose proof (inv_producers c Hi i _ Hp) as (Hr & _ & Hpush & y & Hy).
  rewrite Hs in Hy. simplify_eq/=. pose proof (lookup_lt_Some _ _ _ Hp).
  pose proof (inv_window c Hi). pose proof (low_bound c).
  pose proof (write_lookup c i _ (PWritten x (index t) t) t (index t) x (Slot UNCOMMITTED x)
                Hi Hp eq_refl Hr) as Hlook.
  split; try apply Hi.
  - simpl. rewrite length_insert. apply Hi.
  - intros t' Ht'. destruct (Z.eq_dec t t') as [<-|Hne].
    + exists x, (Slot UNCOMMITTED x). split_and!; [done| |right; split; [done|]].
      * rewrite Hlook by (unfold Capacity; lia). by rewrite decide_True.
      * exists i, (PWritten x (index t) t). simpl. by rewrite list_lookup_insert_eq.
    + by apply (write_ticket c i _ _ t (index t) x _ Hi Hp).
  - intros t' Ht'. by apply (write_free c i _ _ t (index t) x _ Hi Hp).
  - intros j q Hq. simpl in Hq. destruct (decide (j = i)) as [->|Hne].
    + rewrite list_lookup_insert_eq in Hq by done. simplify_eq.
      refine (conj Hr (conj eq_refl (conj Hpush _))).
      rewrite Hlook by (unfold Capacity; lia). by rewrite decide_True.
    + rewrite list_lookup_insert_ne in Hq by done.
      by apply (write_producer c i _ _ t (index t) x _ Hi Hp eq_refl Hr j).
  - intros j j' q q' t' y' z'.
    by apply (write_owners c i _ (PWritten x (index t) t) t (index t) x (Slot UNCOMMITTED x) Hi Hp eq_refl Hr (or_introl eq_refl)).
  - apply (write_consumer c i _ _ t (index t) x _ Hi Hp eq_refl Hr); [by right|eauto].
Qed.

Lemma inv_commit_slot c i x t s :
  inv c -> c_producers c !! i = Some (PWritten x (index t) t) ->
  c_buffer c !! Z.to_nat (index t) = Some s ->
  inv (set_producer i PIdle (set_slot (index t) (Slot COMMITTED (item s)) c)).
Proof.
  intros Hi Hp Hs. pose proof (inv_producers c Hi i _ Hp) as (Hr & _ & Hpush & Hy).
  rewrite Hs in Hy. simplify_eq/=. pose proof (lookup_lt_Some _ _ _ Hp).
  pose proof (inv_window c Hi). pose proof (low_bound c).
  pose proof (write_lookup c i _ PIdle t (index t) x (Slot COMMITTED x) Hi Hp eq_refl Hr) as Hlook.
  split; try apply Hi.
  - simpl. rewrite length_insert. apply Hi.
  - intros t' Ht'. destruct (Z.eq_dec t t') as [<-|Hne].
    + exists x, (Slot COMMITTED x). split_and!; [done| |by left].
      rewrite Hlook by (unfold Capacity; lia). by rewrite decide_True.
    + by apply (write_ticket c i _ _ t (index t) x _ Hi Hp).
  - intros t' Ht'. by apply (write_free c i _ _ t (index t) x _ Hi Hp).
  - intros j q Hq. simpl in Hq. destruct (decide (j = i)) as [->|Hne].
    + rewrite list_lookup_insert_eq in Hq by done. by simplify_eq.
    + rewrite list_lookup_insert_ne in Hq by done.
      by apply (write_producer c i _ _ t (index t) x _ Hi Hp eq_refl Hr j).
  - intros j j' q q' t' y' z'.
    by apply (write_owners c i _ PIdle t (index t) x (Slot COMMITTED x) Hi Hp eq_refl Hr (or_intror eq_refl)).
  - apply (write_consumer c i _ _ t (index t) x _ Hi Hp eq_refl Hr); [by left|eauto].
Qed.

(** ** Taking a slot *)

Lemma pushed_snoc c x t :
  inv c -> 0 <= t < acquired c -> (pushed c ++ [x]) !! Z.to_nat t = pushed c !! Z.to_nat t.
Proof. intros Hi Ht. apply lookup_app_l. pose proof (inv_pushed c Hi). lia. Qed.

Lemma take_snoc c x n :
  inv c -> (n <= Z.to_nat (acquired c))%nat -> take n (pushed c ++ [x]) = take n (pushed c).
Proof. intros Hi Hn. apply take_app_le. pose proof (inv_pushed c Hi). lia. Qed.

Lemma inv_take c i x t :
  inv c -> c_producers c !! i = Some (PChecked x (index t) t) -> t = acquired c ->
  inv (set_producer i (PAcquired x (index t) (acquired c)) (take_slot x (advance Size (index t)) c)).
Proof.
  intros Hi Hp ->. pose proof (inv_producers c Hi i _ Hp) as (Hr & _ & Hroom).
  specialize (Hroom eq_refl). pose proof (lookup_lt_Some _ _ _ Hp).
  pose proof (inv_window c Hi) as Hw. pose proof (low_bound c) as Hlow.
  pose proof (low_le_acquired c Hi). rewrite advance_index.
  destruct (inv_free c Hi (acquired c)) as (sf & Hsf & Hff); [unfold Capacity; lia|].
  assert ((pushed c ++ [x]) !! Z.to_nat (acquired c) = Some x) as Hx.
  { rewrite lookup_app_r by (pose proof (inv_pushed c Hi); lia).
    replace (_ - _)%nat with 0%nat; [done|]. pose proof (inv_pushed c Hi). lia. }
  split; simpl; try apply Hi.
  - done.
  - lia.
  - rewrite length_app. simpl. pose proof (inv_pushed c Hi). lia.
  - intros t Ht. change (low _) with (low c) in Ht. destruct (Z.eq_dec t (acquired c)) as [->|Hne].
    + exists x, sf. split_and!; [done..|]. right. split; [done|].
      exists i, (PAcquired x (index (acquired c)) (acquired c)). simpl.
      by rewrite list_lookup_insert_eq.
    + destruct (inv_tickets c Hi t) as (y & s & Hy & Hs & Hcase); [lia|].
      exists y, s. simpl. rewrite pushed_snoc by (done || lia). split_and!; [done..|].
      destruct Hcase as [|(Hf & j & q & Hq & Hoq)]; [by left|right]. split; [done|].
      exists j, q. simpl. rewrite list_lookup_insert_ne; [done|]. intros ->. by simplify_eq/=.
  - intros t Ht. apply (inv_free c Hi). lia.
  - intros j q Hq. destruct (decide (j = i)) as [->|Hne].
    + rewrite list_lookup_insert_eq in Hq by done. simplify_eq.
      split; [change (low _) with (low c); simpl; lia|]. split_and!; [done..|].
      exists (item sf). simpl. rewrite Hsf. destruct sf; simpl in *; congruence.
    + rewrite list_lookup_insert_ne in Hq by done.
      pose proof (inv_producers c Hi j q Hq) as Hok.
      destruct q as [|y|y cu t'|y cu t'|y cu t'|y cu t']; simpl in *; try done.
      * destruct Hok. split; [lia|done].
      * destruct Hok as (? & ? & ?). split_and!; [lia..|done|lia].
      * destruct Hok as (Hr' & ? & Hpy & ?). change (low _) with (low c).
        rewrite pushed_snoc by (done || lia). split_and!; [lia..|done|done|done].
      * destruct Hok as (Hr' & ? & Hpy & ?). change (low _) with (low c).
        rewrite pushed_snoc by (done || lia). split_and!; [lia..|done|done|done].
  - assert (forall k q t y, c_producers c !! k = Some q -> owner q = Some (t, y) -> t < acquired c)
      as Hold.
    { intros k q t y Hk Ho. pose proof (inv_producers c Hi k q Hk) as Hok.
      destruct q; simplify_eq/=; destruct Hok; lia. }
    intros j j' q q' t y y' Hq Hq' Ho Ho'.
    destruct (decide (j = i)) as [->|]; destruct (decide (j' = i)) as [->|]; try done;
      try rewrite list_lookup_insert_eq in Hq by done;
      try rewrite list_lookup_insert_eq in Hq' by done;
      try rewrite list_lookup_insert_ne in Hq by done;
      try rewrite list_lookup_insert_ne in Hq' by done; simplify_eq/=.
    + pose proof (Hold _ _ _ _ Hq' Ho'). lia.
    + pose proof (Hold _ _ _ _ Hq Ho). lia.
    + by apply (inv_owners c Hi j j' q q' t y y').
  - pose proof (inv_consumer c Hi) as Hk. unfold consumer_ok in *. simpl.
    destruct (c_consumer c) as [|cu|cu|cu|cu|cu]; destruct_and? Hk;
      rewrite take_snoc by (done || lia); split_and?; done || lia.
Qed.

(** ** The consumer *)

Definition not_uncommitted (k : consumer) : Prop :=
  match k with CUncommitted _ => False | _ => True end.

Lemma inv_set_consumer k c :
  inv c -> not_uncommitted k -> not_uncommitted (c_consumer c) ->
  consumer_ok (set_consumer k c) -> inv (set_consumer k c).
Proof.
  intros Hi Hk Hk' Hok.
  assert (low (set_consumer k c) = low c) as Hlow.
  { unfold low. simpl. by destruct k, (c_consumer c). }
  split; try apply Hi; try done.
  - rewrite Hlow. apply (inv_tickets c Hi).
  - intros i p Hp. pose proof (inv_producers c Hi i p Hp) as Hp'.
    unfold producer_ok in *. rewrite Hlow. exact Hp'.
Qed.

Lemma inv_deliver cur x c :
  inv c -> not_uncommitted (c_consumer c) ->
  consumer_ok (set_consumer (CUsed cur) (deliver x c)) ->
  inv (set_consumer (CUsed cur) (deliver x c)).
Proof.
  intros Hi Hk Hok.
  assert (low (set_consumer (CUsed cur) (deliver x c)) = low c) as Hlow.
  { unfold low. simpl. by destruct (c_consumer c). }
  split; try apply Hi; try done.
  - rewrite Hlow. apply (inv_tickets c Hi).
  - intros i p Hp. pose proof (inv_producers c Hi i p Hp) as Hp'.
    unfold producer_ok in *. rewrite Hlow. exact Hp'.
Qed.

Lemma inv_reset c cur s :
  inv c -> c_consumer c = CUsed cur -> c_buffer c !! Z.to_nat cur = Some s ->
  inv (set_consumer (CUncommitted cur) (set_slot cur (Slot UNCOMMITTED (item s)) c)).
Proof.
  intros Hi Hk Hs. pose proof (inv_consumer c Hi) as Hok. unfold consumer_ok in Hok.
  rewrite Hk in Hok. destruct Hok as (-> & Hlt & Hd & s' & Hs' & Hf). simplify_eq.
  assert (low c = released c) as Hlow by (unfold low; by rewrite Hk).
  pose proof (inv_window c Hi) as Hw.
  assert (forall t s0, released c + 1 <= t < released c + C ->
            c_buffer (set_slot (index (released c)) s0 c) !! Z.to_nat (index t)
              = c_buffer c !! Z.to_nat (index t)) as Hlook.
  { intros t s0 Ht. rewrite lookup_set_slot by (done || lia). by rewrite decide_False by lia. }
  assert (forall j p t x, c_producers c !! j = Some p -> owner p = Some (t, x) ->
            released c + 1 <= t) as Hown.
  { intros j p t x Hp Ho. pose proof (inv_producers c Hi j p Hp) as Hpk.
    destruct p as [|y|y cu t'|y cu t'|y cu t'|y cu t']; simplify_eq/=.
    - destruct Hpk as (Hr & _ & _ & y & Hy). destruct (Z.eq_dec t (released c)) as [->|]; [|lia].
      rewrite Hs in Hy. simplify_eq/=.
    - destruct Hpk as (Hr & _ & _ & Hy). destruct (Z.eq_dec t (released c)) as [->|]; [|lia].
      rewrite Hs in Hy. simplify_eq/=. }
  split; try apply Hi; simpl.
  - rewrite length_insert. apply Hi.
  - intros t Ht. change (low _) with (released c + 1) in Ht.
    destruct (inv_tickets c Hi t) as (x & s0 & Hx & Hs0 & Hc); [lia|].
    exists x, s0. split_and!; [done| |done]. simpl. rewrite <- Hs0.
    apply Hlook. unfold Capacity. lia.
  - intros t Ht. destruct (inv_free c Hi t Ht) as (s0 & Hs0 & Hf0). exists s0.
    split; [|done]. simpl. rewrite <- Hs0. apply Hlook. lia.
  - intros j p Hp. pose proof (inv_producers c Hi j p Hp) as Hpk.
    pose proof (fun t x => Hown j p t x Hp) as Hown'.
    destruct p as [|y|y cu t'|y cu t'|y cu t'|y cu t']; try done;
      specialize (Hown' t' y eq_refl); destruct Hpk as (Hr & Hcur & Hpush & Hbuf);
      (split; [change (low _) with (released c + 1); simpl; lia|]);
      (split; [done|]); (split; [done|]); cbn [c_buffer set_consumer];
      (rewrite (Hlook t'); [done|unfold Capacity; lia]).
  - unfold consumer_ok; simpl. split_and!; [done..|]. exists (Slot UNCOMMITTED (item s)). split; [|done].
    apply list_lookup_insert_eq. pose proof (index_range (released c)).
    pose proof (inv_buffer c Hi). lia.
Qed.

Lemma inv_give_back c cur :
  inv c -> c_consumer c = CUncommitted cur ->
  inv (set_consumer CIdle (give_back (advance Size cur) c)).
Proof.
  intros Hi Hk. pose proof (inv_consumer c Hi) as Hok. unfold consumer_ok in Hok.
  rewrite Hk in Hok. destruct Hok as (-> & Hlt & Hd & s & Hs & Hf).
  assert (low c = released c + 1) as Hlow by (unfold low; by rewrite Hk).
  pose proof (inv_window c Hi) as Hw.
  split; try apply Hi; simpl.
  - apply advance_index.
  - lia.
  - intros t Ht. change (low _) with (released c + 1) in Ht. apply (inv_tickets c Hi). lia.
  - intros t Ht. destruct (Z.eq_dec t (released c + C)) as [->|].
    + exists s. split; [|done]. simpl. unfold index in *.
      rewrite <- (Z.mul_1_l C) at 1. by rewrite Z.mod_add by (unfold Capacity; lia).
    + apply (inv_free c Hi). lia.
  - intros j p Hp. pose proof (inv_producers c Hi j p Hp) as Hpk.
    destruct p as [|y|y cu t'|y cu t'|y cu t'|y cu t']; simpl in *; try done;
      rewrite ?Hlow in Hpk; destruct_and? Hpk; split_and?; done || lia || (intros; lia).
  - unfold consumer_ok; simpl. rewrite Hd. f_equal. lia.
Qed.

(** ** Every action preserves the invariant *)

Lemma checked_room c x cur t :
  inv c -> producer_ok c (PLoaded x cur t) -> c_output c <> advance Size cur ->
  producer_ok c (PChecked x cur t).
Proof.
  intros Hi [Hr ->] Hne. split; [done|]. split; [done|]. intros ->.
  rewrite advance_index, (inv_output c Hi) in Hne. pose proof (inv_window c Hi).
  destruct (Z.eq_dec (acquired c) (released c + Size)) as [E|]; [|lia].
  exfalso. apply Hne. unfold index. rewrite E.
  replace (released c + Size + 1) with (released c + 1 * C) by (unfold Capacity; lia).
  by rewrite Z.mod_add by (unfold Capacity; lia).
Qed.

Lemma inv_exec_producer i a p c c' :
  inv c -> c_producers c !! i = Some p ->
  (forall x cur t, p = PChecked x cur t -> c_input c = cur ->
     match a with ACas _ => t = acquired c | _ => True end) ->
  exec_producer Size i a p c = Some c' -> inv c'.
Proof.
  intros Hi Hp Hnw He. pose proof (inv_producers c Hi i p Hp) as Hok.
  pose proof (inv_window c Hi) as Hw.
  destruct a, p; try discriminate He; cbn [exec_producer] in He.
  - simplify_eq. by eapply inv_set_producer.
  - simplify_eq. eapply inv_set_producer; [done|done|done|].
    split; [simpl; lia|exact (inv_input c Hi)].
  - destruct (Z.eqb_spec (c_output c) (advance Size currentInput)) as [E|E]; simplify_eq.
    + apply (inv_set_producer i (PLoaded x currentInput ticket)); try done. by apply inv_refuse.
    + eapply inv_set_producer; [done|done|done|]. by apply checked_room.
  - destruct (Z.eqb_spec (c_input c) currentInput) as [E|E]; simplify_eq.
    + pose proof (Hnw _ _ _ eq_refl eq_refl). destruct Hok as (_ & E' & _).
      rewrite E' in *. by apply inv_take.
    + by eapply inv_set_producer.
  - destruct (c_buffer c !! Z.to_nat currentInput) as [s|] eqn:Hs; [|done]. simplify_eq/=.
    destruct Hok as (_ & -> & _). by apply inv_write_slot.
  - destruct (c_buffer c !! Z.to_nat currentInput) as [s|] eqn:Hs; [|done]. simplify_eq/=.
    destruct Hok as (_ & -> & _). by eapply inv_commit_slot.
Qed.

Lemma inv_exec a c c' :
  inv c -> no_wrap a c = true -> exec Size a c = Some c' -> inv c'.
Proof.
  intros Hi Hnw He. pose proof (inv_consumer c Hi) as Hk. pose proof (inv_window c Hi) as Hw.
  unfold consumer_ok in Hk.
  destruct a as [i x|i|i|i|i|i| | | | | |]; cbn [exec] in He.
  1-6: destruct (c_producers c !! i) as [p|] eqn:Hp; [|done]; simpl in He;
    match type of Hnw with no_wrap ?a _ = _ => apply (inv_exec_producer i a p c c' Hi Hp) end;
    try exact He; try done; intros y cur t -> E; unfold no_wrap in Hnw;
    rewrite Hp in Hnw; apply Z.eqb_eq in E; rewrite E in Hnw; by apply Z.eqb_eq in Hnw.
  - destruct (c_consumer c) eqn:Ek; simplify_eq. apply inv_set_consumer; [done..|by rewrite Ek|].
    split; [exact (inv_output c Hi)|exact Hk].
  - destruct (c_consumer c) as [|cur|cur|cur|cur|cur] eqn:Ek; try done. destruct Hk as [-> Hd].
    destruct (Z.eqb_spec (index (released c)) (c_input c)) as [E|E]; simplify_eq;
      (apply inv_set_consumer; [done..|by rewrite Ek|]); unfold consumer_ok; simpl; [done|].
    split_and!; [done| |done]. destruct (Z.eq_dec (released c) (acquired c)) as [E'|]; [|lia].
    rewrite E' in E. by rewrite (inv_input c Hi) in E.
  - destruct (c_consumer c) as [|cur|cur|cur|cur|cur] eqn:Ek; try done. destruct Hk as (-> & Hlt & Hd).
    destruct (c_buffer c !! Z.to_nat (index (released c))) as [s|] eqn:Hs; [|done]. simpl in He.
    destruct (Z.eqb_spec (flag s) COMMITTED); simplify_eq; [|done].
    apply inv_set_consumer; [done..|by rewrite Ek|]. unfold consumer_ok; simpl. split_and!; eauto.
  - destruct (c_consumer c) as [|cur|cur|cur|cur|cur] eqn:Ek; try done.
    destruct Hk as (-> & Hlt & Hd & s & Hs & Hf). rewrite Hs in He. simplify_eq/=.
    apply inv_deliver; [done|by rewrite Ek|]. unfold consumer_ok; simpl. split_and!; eauto.
    assert (low c = released c) as Hlow by (unfold low; by rewrite Ek).
    destruct (inv_tickets c Hi (released c)) as (x & s' & Hx & Hs' & Hc); [lia|].
    simplify_eq. destruct Hc as [[_ <-]|[Hu _]]; [|by rewrite Hf in Hu].
    by rewrite (take_S_r _ _ _ Hx), Hd.
  - destruct (c_consumer c) as [|cur|cur|cur|cur|cur] eqn:Ek; try done.
    destruct (c_buffer c !! Z.to_nat cur) as [s|] eqn:Hs; [|done]. simplify_eq/=.
    by apply inv_reset.
  - destruct (c_consumer c) as [|cur|cur|cur|cur|cur] eqn:Ek; try done. simplify_eq.
    by apply inv_give_back.
Qed.

Lemma inv_initial n x : inv (initial Size n x).
Proof.
  split; simpl; try done.
  - unfold Capacity. lia.
  - rewrite length_replicate. unfold Capacity. lia.
  - unfold low. simpl. lia.
  - intros t Ht. exists (Slot UNCOMMITTED x). split; [|done].
    apply lookup_replicate_2. pose proof (index_range t). lia.
  - intros i p Hp. apply lookup_replicate in Hp as [-> _]. done.
  - intros i j p p' t y y' Hp. apply lookup_replicate in Hp as [-> _]. done.
Qed.

Lemma inv_reachable n x c : rtc (step_no_wrap Size) (initial Size n x) c -> inv c.
Proof.
  intros Hr. pose proof (inv_initial n x) as H0. induction Hr as [|c0 c1 c2 (a & Hnw & He) _ IH];
    [done|]. apply IH. by apply (inv_exec a c0).
Qed.

(** ** Abstraction *)

Lemma delivered_prefix c : inv c -> exists l, pushed c = delivered c ++ l.
Proof.
  intros Hi. pose proof (inv_consumer c Hi) as Hk. unfold consumer_ok in Hk.
  assert (exists n, delivered c = take n (pushed c)) as [n ->].
  { destruct (c_consumer c); destruct_and? Hk; eauto. }
  exists (drop n (pushed c)). by rewrite take_drop.
Qed.

Lemma delivered_count c : inv c -> released c <= Z.of_nat (length (delivered c)) <= acquired c.
Proof.
  intros Hi. pose proof (inv_consumer c Hi) as Hk. pose proof (inv_pushed c Hi).
  pose proof (inv_window c Hi). unfold consumer_ok in Hk.
  assert (delivered c = take (Z.to_nat (released c)) (pushed c)
          \/ (delivered c = take (S (Z.to_nat (released c))) (pushed c) /\ released c < acquired c))
    as [->|[-> ?]] by (destruct (c_consumer c); destruct_and? Hk; eauto);
    rewrite length_take; lia.
Qed.
End Invariant.

(** ** Checked runs *)

Fixpoint run_checked {A} (Size : Z) (l : list (action A)) (c : config A) : option (config A) :=
  match l with
  | [] => Some c
  | a :: l => if no_wrap a c then c' ← exec Size a c; run_checked Size l c' else None
  end.

Lemma run_checked_reaches {A} (Size : Z) (l : list (action A)) : forall c c',
  run_checked Size l c = Some c' -> rtc (step_no_wrap Size) c c'.
Proof.
  induction l as [|a l IH]; intros c c' Hr; simplify_eq/=; [apply rtc_refl|].
  destruct (no_wrap a c) eqn:Hnw; [|done].
  destruct (exec Size a c) as [c1|] eqn:He; [|done]. simpl in Hr.
  apply rtc_l with c1; [by exists a|by apply IH].
Qed.

(** The actions of one complete push by producer [i], and of one complete pop. *)
Definition push_actions {A} (i : nat) (x : A) : list (action A) :=
  [ABegin i x; ALoad i; ACheck i; ACas i; AWrite i; ACommit i].
Definition pop_actions {A} : list (action A) := [CLoad; CCheck; CPoll; CUse; CReset; CAdvance].

(** ** Properties of the interleaved ring *)

(** As long as no compare-and-swap succeeds on an index that has gone all the
    way round, in every reachable state the items handed to the
    listener are a prefix of the items in the order their slots were acquired,
    at most [Size] items wait, two producers never own the same slot, and the
    slot the consumer is using is committed. *)
Theorem ring_safe {A : Type} (Size : Z) (n : nat) (x : A) c :
  0 < Size < 2 ^ 63 -> rtc (step_no_wrap Size) (initial Size n x) c ->
  (exists l, pushed c = delivered c ++ l /\ Z.of_nat (length l) <= Size) /\
  (forall i j p p' t t' y y', c_producers c !! i = Some p -> c_producers c !! j = Some p' ->
     owner p = Some (t, y) -> owner p' = Some (t', y') -> index Size t = index Size t' -> i = j) /\
  (forall cur, c_consumer c = CReady cur \/ c_consumer c = CUsed cur ->
     exists s, c_buffer c !! Z.to_nat cur = Some s /\ flag s = COMMITTED).
Proof.
  intros [H0 Hb] Hr. pose proof (inv_reachable Size H0 Hb n x c Hr) as Hi.
  pose proof (delivered_count Size c Hi). pose proof (inv_pushed Size c Hi).
  pose proof (inv_window Size c Hi) as Hw. split_and!.
  - destruct (delivered_prefix Size c Hi) as [l Hl]. exists l. split; [done|].
    rewrite Hl, length_app in *. lia.
  - intros i j p p' t t' y y' Hp Hp' Ho Ho' E.
    assert (forall k q t y, c_producers c !! k = Some q -> owner q = Some (t, y) ->
              released c <= t < acquired c) as Hr'.
    { intros k q u z Hk Hu. pose proof (inv_producers Size c Hi k q Hk) as Hok.
      pose proof (low_bound c). destruct q; simplify_eq/=; lia. }
    pose proof (Hr' _ _ _ _ Hp Ho). pose proof (Hr' _ _ _ _ Hp' Ho').
    apply (index_inj Size H0) in E; [|unfold Capacity; lia]. subst t'.
    by apply (inv_owners Size c Hi i j p p' t y y').
  - intros cur Hcur. pose proof (inv_consumer Size c Hi) as Hk. unfold consumer_ok in Hk.
    destruct Hcur as [E|E]; rewrite E in Hk; by destruct_and? Hk.
Qed.

Lemma ring_safe_witness :
  exists c, run_checked 2 (push_actions 0 7 ++ push_actions 1 8 ++ pop_actions) (initial 2 2 0) = Some c
    /\ delivered c = [7] /\ pushed c = [7; 8] /\ exists l, pushed c = delivered c ++ l /\ Z.of_nat (length l) <= 2.
Proof.
  destruct (run_checked 2 (push_actions 0 7 ++ push_actions 1 8 ++ pop_actions) (initial 2 2 0))
    as [c|] eqn:E; [|vm_compute in E; discriminate E].
  exists c. split; [done|]. pose proof (run_checked_reaches 2 _ _ _ E) as Hr.
  split; [|split]; [vm_compute in E; simplify_eq; by vm_compute..|].
  apply (ring_safe 2 2 0 c); [lia|exact Hr].
Defined.

(** The check of [acquireWrite] compares a fresh [output] with a stale
    [input], so it can refuse a push into an empty ring: producer 0 loads
    [input], one other item goes through, and producer 0 then sees its successor
    index in [output]. *)
Theorem stale_check_refuses_in_empty_ring :
  exists c, run 4 ([ABegin 0 10; ALoad 0] ++ push_actions 1 20 ++ pop_actions ++ [ACheck 0])
              (initial 4 2 0) = Some c
    /\ pushed c = [20] /\ delivered c = [20] /\ c_input c = c_output c /\ refused c = 1
    /\ c_producers c = [PIdle; PIdle].
Proof. eexists. split; [vm_compute; reflexivity|]. by vm_compute. Qed.

(** The compare-and-swap cannot tell an index from the same index one turn of
    the ring later: a producer held between its check and its swap takes a slot
    of a full ring, [input] becomes equal to [output], and the consumer finds
    the ring empty although items that were pushed and committed were never
    delivered. *)
Theorem wrapped_swap_hides_items :
  exists c, run 1 ([ABegin 0 10; ALoad 0; ACheck 0] ++ push_actions 1 20 ++ pop_actions
                   ++ push_actions 1 30 ++ [ACas 0; AWrite 0; ACommit 0] ++ [CLoad; CCheck])
              (initial 1 2 0) = Some c
    /\ c_consumer c = CIdle /\ c_input c = c_output c
    /\ delivered c = [20] /\ pushed c = [20; 30; 10] /\ refused c = 0.
Proof. eexists. split; [vm_compute; reflexivity|]. by vm_compute. Qed.

(** ** The ring run to completion, as a list

    [rep R F q l]: the committed slots of [q], oldest first, hold the items [l],
    where [R pos t e] says that the slot content [t] at [pos] stands for [e];
    every other slot is uncommitted and satisfies [F]. *)
Section SequentialSpec.
Context {T E : Type} `{Committable T} (Size : Z).
Context (HSize : 0 < Size) (Hbig : Size < 2 ^ 63).

Record rep_at (R : Z -> T -> E -> Prop) (F : Z -> T -> Prop) (o : Z) (q : queue T) (l : list E) : Prop := {
  rep_start : 0 <= o;
  rep_output : output q = index Size o;
  rep_input : input q = index Size (o + Z.of_nat (length l));
  rep_room : Z.of_nat (length l) <= Size;
  rep_buffer : Z.of_nat (length (buffer q)) = Capacity Size;
  rep_items : forall k e, l !! k = Some e ->
    exists t, buffer q !! Z.to_nat (index Size (o + Z.of_nat k)) = Some t /\
      is_committed t = COMMITTED /\ R (index Size (o + Z.of_nat k)) t e;
  rep_free : forall k, Z.of_nat (length l) <= k <= Size ->
    exists t, buffer q !! Z.to_nat (index Size (o + k)) = Some t /\
      is_committed t = UNCOMMITTED /\ F (index Size (o + k)) t
}.

Definition rep R F q l : Prop := exists o, rep_at R F o q l.

Lemma lookup_update (q : queue T) f p p' :
  0 <= p -> 0 <= p' ->
  buffer (update p f q) !! Z.to_nat p' =
    if decide (p = p') then f <$> buffer q !! Z.to_nat p' else buffer q !! Z.to_nat p'.
Proof.
  intros Hp Hp'. unfold update; simpl. case_decide as Eq.
  - subst. by rewrite list_lookup_alter_eq.
  - rewrite list_lookup_alter_ne; [done|lia].
Qed.

Lemma index_shift_inj o k k' :
  0 <= k <= Size -> 0 <= k' <= Size -> index Size (o + k) = index Size (o + k') -> k = k'.
Proof using HSize.
  intros Hk Hk' Eq. apply (index_inj Size HSize) in Eq; unfold Capacity; lia.
Qed.

Lemma rep_new R F (t : T) :
  is_committed t = UNCOMMITTED -> (forall p, 0 <= p < Capacity Size -> F p t) ->
  rep R F (new_queue Size t) [].
Proof using HSize Hbig.
  intros Ht HF. exists 0. split; simpl; try done; try lia.
  - rewrite length_replicate. unfold Capacity. lia.
  - intros k Hk. exists t. pose proof (index_range Size HSize (0 + k)) as Hr.
    split; [apply lookup_replicate_2; lia|]. split; [done|]. by apply HF.
Qed.

Lemma rep_full R F q l :
  rep R F q l -> Z.of_nat (length l) = Size -> acquireWrite Size q = (None, q).
Proof using HSize Hbig.
  intros [o Hq] Hl. unfold acquireWrite.
  rewrite (rep_input _ _ _ _ _ Hq), (rep_output _ _ _ _ _ Hq), advance_index by done.
  assert (index Size o = index Size (o + Z.of_nat (length l) + 1)) as ->; [|by rewrite Z.eqb_refl].
  unfold index. rewrite Hl. replace (o + Size + 1) with (o + 1 * Capacity Size) by (unfold Capacity; lia).
  by rewrite Z.mod_add by (unfold Capacity; lia).
Qed.

Lemma rep_acquire R F q l :
  rep R F q l -> Z.of_nat (length l) < Size ->
  exists pos t q1, acquireWrite Size q = (Some pos, q1) /\ 0 <= pos < Capacity Size /\
    get pos q1 = Some t /\ is_committed t = UNCOMMITTED /\ F pos t /\
    forall R' F' f e,
      (forall p t e, p <> pos -> R p t e -> R' p t e) ->
      (forall p t, p <> pos -> F p t -> F' p t) ->
      R' pos (set_committed COMMITTED (f t)) e ->
      rep R' F' (commitWrite pos (update pos f q1)) (l ++ [e]).
Proof using HSize Hbig.
  intros [o Hq] Hl. pose proof (rep_start _ _ _ _ _ Hq) as Ho.
  set (n := Z.of_nat (length l)) in *. set (pos := index Size (o + n)).
  destruct (rep_free _ _ _ _ _ Hq n) as (t & Hbuf & Hunc & HF); [lia|]. fold pos in Hbuf, HF.
  pose proof (index_range Size HSize (o + n)) as Hpos. fold pos in Hpos.
  exists pos, t, (Queue (index Size (o + n + 1)) (output q) (buffer q)).
  split_and!; [|lia|lia|done|done|done|].
  - unfold acquireWrite. rewrite (rep_input _ _ _ _ _ Hq), (rep_output _ _ _ _ _ Hq).
    rewrite advance_index by done. fold n. fold pos.
    destruct (Z.eqb_spec (index Size o) (index Size (o + n + 1))) as [Eq|]; [|done].
    replace o with (o + 0) in Eq at 1 by lia. rewrite <- Z.add_assoc in Eq.
    apply index_shift_inj in Eq; lia.
  - intros R' F' f e HR' HF' He.
    assert (forall k, 0 <= k <= Size -> k <> n -> index Size (o + k) <> pos) as Hne.
    { intros k Hk Hkn Eq. by apply index_shift_inj in Eq; try lia. }
    assert (forall k, buffer (commitWrite pos (update pos f (Queue (index Size (o + n + 1)) (output q) (buffer q))))
              !! Z.to_nat (index Size (o + k))
            = if decide (pos = index Size (o + k)) then Some (set_committed COMMITTED (f t))
              else buffer q !! Z.to_nat (index Size (o + k))) as Hlook.
    { intros k. pose proof (index_range Size HSize (o + k)). unfold commitWrite.
      rewrite !lookup_update by lia. case_decide as Eq; [|done]. simpl.
      rewrite <- Eq, Hbuf. done. }
    exists o. split.
    + done.
    + exact (rep_output _ _ _ _ _ Hq).
    + simpl. rewrite length_app. simpl. f_equal. lia.
    + rewrite length_app. simpl. lia.
    + simpl. rewrite !length_alter. exact (rep_buffer _ _ _ _ _ Hq).
    + intros k e' Hk. rewrite Hlook.
      destruct (decide (k = length l)) as [->|Hkl].
      * fold n. fold pos. rewrite decide_True by done. eexists. split; [done|].
        rewrite list_lookup_middle in Hk by done. simplify_eq.
        split; [by rewrite committed_set|done].
      * pose proof (lookup_lt_Some _ _ _ Hk) as Hlt. rewrite length_app in Hlt. simpl in Hlt.
        rewrite lookup_app_l in Hk by lia.
        destruct (rep_items _ _ _ _ _ Hq k e' Hk) as (t' & Ht' & Hc & HR).
        assert (index Size (o + Z.of_nat k) <> pos) as Hn by (apply Hne; lia).
        rewrite decide_False by congruence. eauto.
    + intros k Hk. rewrite length_app in Hk. simpl in Hk. rewrite Hlook.
      destruct (rep_free _ _ _ _ _ Hq k) as (t' & Ht' & Hc & HFt); [lia|].
      assert (index Size (o + k) <> pos) as Hn by (apply Hne; lia).
      rewrite decide_False by congruence. eauto.
Qed.

Lemma rep_empty R F q : rep R F q [] -> acquireRead q = ReadEmpty.
Proof.
  intros [o Hq]. unfold acquireRead.
  rewrite (rep_input _ _ _ _ _ Hq), (rep_output _ _ _ _ _ Hq). simpl.
  by rewrite Z.add_0_r, Z.eqb_refl.
Qed.

Lemma rep_read R F q e l :
  rep R F q (e :: l) ->
  exists pos t, acquireRead q = ReadReady pos /\ 0 <= pos < Capacity Size /\
    get pos q = Some t /\ R pos t e /\
    forall R' F' f,
      (forall p t e, p <> pos -> R p t e -> R' p t e) ->
      (forall p t, p <> pos -> F p t -> F' p t) ->
      F' pos (set_committed UNCOMMITTED (f t)) ->
      rep R' F' (commitRead Size pos (update pos f q)) l.
Proof using HSize Hbig.
  intros [o Hq]. pose proof (rep_start _ _ _ _ _ Hq) as Ho.
  pose proof (rep_room _ _ _ _ _ Hq) as Hroom. simpl in Hroom.
  destruct (rep_items _ _ _ _ _ Hq 0%nat e eq_refl) as (t & Hbuf & Hc & HR).
  simpl in *. rewrite Z.add_0_r in *. set (pos := index Size o) in *.
  pose proof (index_range Size HSize o) as Hpos. fold pos in Hpos.
  exists pos, t. split_and!; [|lia|lia|done|done|].
  - unfold acquireRead. rewrite (rep_input _ _ _ _ _ Hq), (rep_output _ _ _ _ _ Hq).
    destruct (Z.eqb_spec (index Size o) (index Size (o + Z.of_nat (length (e :: l))))) as [Eq|].
    { replace o with (o + 0) in Eq at 1 by lia. apply index_shift_inj in Eq; simpl in *; lia. }
    fold pos. unfold get. rewrite Hbuf, Hc. done.
  - intros R' F' f HR' HF' Hfree.
    assert (forall k, 1 <= k <= Size -> index Size (o + k) <> pos) as Hne.
    { intros k Hk Eq. unfold pos in Eq. replace o with (o + 0) in Eq at 2 by lia.
      apply index_shift_inj in Eq; lia. }
    assert (forall k, buffer (commitRead Size pos (update pos f q)) !! Z.to_nat (index Size (o + k))
            = if decide (pos = index Size (o + k)) then Some (set_committed UNCOMMITTED (f t))
              else buffer q !! Z.to_nat (index Size (o + k))) as Hlook.
    { intros k. pose proof (index_range Size HSize (o + k)). unfold commitRead; simpl.
      change (alter (set_committed UNCOMMITTED) (Z.to_nat pos) (alter f (Z.to_nat pos) (buffer q)))
        with (buffer (update pos (set_committed UNCOMMITTED) (update pos f q))).
      rewrite !lookup_update by lia. case_decide as Eq; [|done].
      rewrite <- Eq, Hbuf. done. }
    exists (o + 1). split.
    + lia.
    + simpl. by apply advance_index.
    + simpl. rewrite (rep_input _ _ _ _ _ Hq). f_equal. simpl. lia.
    + lia.
    + simpl. rewrite !length_alter. exact (rep_buffer _ _ _ _ _ Hq).
    + intros k e' Hk. rewrite <- Z.add_assoc, Hlook.
      pose proof (lookup_lt_Some _ _ _ Hk).
      destruct (rep_items _ _ _ _ _ Hq (S k) e' Hk) as (t' & Ht' & Hct & HRt).
      replace (Z.of_nat (S k)) with (1 + Z.of_nat k) in * by lia.
      assert (index Size (o + (1 + Z.of_nat k)) <> pos) as Hn by (apply Hne; lia).
      rewrite decide_False by congruence. eauto.
    + intros k Hk. rewrite <- Z.add_assoc, Hlook.
      destruct (Z.eq_dec (1 + k) (Capacity Size)) as [Ek|Ek].
      * assert (index Size (o + (1 + k)) = pos) as ->.
        { unfold index, pos. rewrite Ek. rewrite <- (Z.mul_1_l (Capacity Size)) at 1.
          by rewrite Z.mod_add by (unfold Capacity; lia). }
        rewrite decide_True by done. eexists. split; [done|]. split; [by rewrite committed_set|done].
      * destruct (rep_free _ _ _ _ _ Hq (1 + k)) as (t' & Ht' & Hct & HFt);
          [unfold Capacity in *; simpl; lia|].
        assert (index Size (o + (1 + k)) <> pos) as Hn by (apply Hne; unfold Capacity in *; lia).
        rewrite decide_False by congruence. eauto.
Qed.
End SequentialSpec.
