(* ===== verification/RingFifoSpec.v ===== *)
(** * The interleaved ring as a queue with reservations

    What the callers of [InternalQueue] see, without any of the ghosts of the
    model: calls of [acquireWrite], the slots it grants or refuses, the commits,
    and the items the consumer reads from its slots.  Every such history of the
    ring is one of [fifo_step], a bounded queue whose items are first reserved
    and later published. *)
From S2P Require Import Prelude InternalQueue InternalQueueSpec.

(** ** The specification *)

(** Where a producer stands between two of its visible actions. *)
Inductive phase (A : Type) := Idle | Calling (x : A) | Publishing.
Arguments Idle {A}.
Arguments Calling {A}.
Arguments Publishing {A}.

(** The queued items, oldest first, each with the producer that has reserved
    its place and not yet published it. *)
Record fifo (A : Type) := Fifo { items : list (option nat * A); phases : list (phase A) }.
Arguments Fifo {A}.
Arguments items {A}.
Arguments phases {A}.

Inductive event (A : Type) :=
| Called (i : nat) (x : A)
| Refused (i : nat)
| Reserved (i : nat)
| Published (i : nat)
| Read (x : A)
| FoundEmpty.
Arguments Called {A}.
Arguments Refused {A}.
Arguments Reserved {A}.
Arguments Published {A}.
Arguments Read {A}.
Arguments FoundEmpty {A}.

Inductive fifo_step {A} (Size : Z) : fifo A -> event A -> fifo A -> Prop :=
| step_called i x l ps :
    ps !! i = Some Idle -> fifo_step Size (Fifo l ps) (Called i x) (Fifo l (<[i := Calling x]> ps))
| step_refused i x l ps :
    ps !! i = Some (Calling x) -> fifo_step Size (Fifo l ps) (Refused i) (Fifo l (<[i := Idle]> ps))
| step_reserved i x l ps :
    ps !! i = Some (Calling x) -> Z.of_nat (length l) < Size ->
    fifo_step Size (Fifo l ps) (Reserved i) (Fifo (l ++ [(Some i, x)]) (<[i := Publishing]> ps))
| step_published i k x l ps :
    ps !! i = Some Publishing -> l !! k = Some (Some i, x) ->
    fifo_step Size (Fifo l ps) (Published i) (Fifo (<[k := (None, x)]> l) (<[i := Idle]> ps))
| step_read x l ps : fifo_step Size (Fifo ((None, x) :: l) ps) (Read x) (Fifo l ps)
| step_empty ps : fifo_step Size (Fifo [] ps) FoundEmpty (Fifo [] ps).

Inductive fifo_steps {A} (Size : Z) : fifo A -> list (event A) -> fifo A -> Prop :=
| steps_nil s : fifo_steps Size s [] s
| steps_cons s e s1 tr s2 :
    fifo_step Size s e s1 -> fifo_steps Size s1 tr s2 -> fifo_steps Size s (e :: tr) s2.

(** ** What is seen of the ring *)

(** The event of an action, from the memory of the ring and the locals of the
    thread alone. *)
Definition visible {A} (Size : Z) (a : action A) (c : config A) : option (event A) :=
  match a with
  | ABegin i x => Some (Called i x)
  | ACheck i =>
      match c_producers c !! i with
      | Some (PLoaded _ cur _) => if c_output c =? advance Size cur then Some (Refused i) else None
      | _ => None
      end
  | ACas i =>
      match c_producers c !! i with
      | Some (PChecked _ cur _) => if c_input c =? cur then Some (Reserved i) else None
      | _ => None
      end
  | ACommit i => Some (Published i)
  | CCheck =>
      match c_consumer c with
      | CLoaded cur => if cur =? c_input c then Some FoundEmpty else None
      | _ => None
      end
  | CUse =>
      match c_consumer c with
      | CReady cur => s ← c_buffer c !! Z.to_nat cur; Some (Read (item s))
      | _ => None
      end
  | _ => None
  end.

(** A run without a swap on a wrapped index, with what is seen of it. *)
Fixpoint observe {A} (Size : Z) (l : list (action A)) (c : config A) : option (list (event A) * config A) :=
  match l with
  | [] => Some ([], c)
  | a :: l =>
      if no_wrap a c then
        c' ← exec Size a c;
        '(tr, c2) ← observe Size l c';
        Some (option_list (visible Size a c) ++ tr, c2)
      else None
  end.

(** The items that were read. *)
Definition reads {A} (tr : list (event A)) : list A :=
  omap (fun e => match e with Read x => Some x | _ => None end) tr.

Definition phase_of {A} (p : producer A) : phase A :=
  match p with
  | PIdle => Idle
  | PStart x | PLoaded x _ _ | PChecked x _ _ => Calling x
  | PAcquired _ _ _ | PWritten _ _ _ => Publishing
  end.

(** The slot a producer writes, and what it writes there. *)
Definition writes {A} (p : producer A) : option (Z * A) :=
  match p with PAcquired x cur _ | PWritten x cur _ => Some (cur, x) | _ => None end.

(** The oldest slot that was not read. *)
Definition head {A} (Size : Z) (c : config A) : Z :=
  match c_consumer c with
  | CUsed _ | CUncommitted _ => advance Size (c_output c)
  | _ => c_output c
  end.

(** The memory of the ring holds the queue: from [head] to [input] there is one
    slot for each item, committed with it or still with the producer that has
    reserved it. *)
Record holds {A} (Size : Z) (c : config A) (s : fifo A) : Prop := {
  holds_phases : phases s = phase_of <$> c_producers c;
  holds_count : Z.of_nat (length (items s)) = (c_input c - head Size c) mod Capacity Size;
  holds_items : forall k o x, items s !! k = Some (o, x) ->
    exists sl, let pos := (head Size c + Z.of_nat k) mod Capacity Size in
      c_buffer c !! Z.to_nat pos = Some sl /\
      match o with
      | None => flag sl = COMMITTED /\ item sl = x
      | Some i => flag sl = UNCOMMITTED /\
          exists p, c_producers c !! i = Some p /\ writes p = Some (pos, x)
      end
}.

(** ** Simulation *)

Section Simulation.
Context {A : Type} (Size : Z).
Context (HSize : 0 < Size) (Hbig : Size < 2 ^ 63).

#[local] Abbreviation C := (Capacity Size).
#[local] Abbreviation index := (index Size).
#[local] Abbreviation inv := (inv Size).
Implicit Types (c : config A) (s : fifo A).

(** The ticket of [head]. *)
Definition base (c : config A) : Z :=
  match c_consumer c with CUsed _ | CUncommitted _ => released c + 1 | _ => released c end.

Definition place_ok (c : config A) (t : Z) (o : option nat) (x : A) : Prop :=
  match o with
  | None => exists sl, c_buffer c !! Z.to_nat (index t) = Some sl /\ flag sl = COMMITTED
  | Some i => exists p, c_producers c !! i = Some p /\ owner p = Some (t, x)
  end.

Record sim (c : config A) (s : fifo A) : Prop := {
  sim_phases : phases s = phase_of <$> c_producers c;
  sim_items : (items s).*2 = drop (Z.to_nat (base c)) (pushed c);
  sim_places : forall k o x, items s !! k = Some (o, x) -> place_ok c (base c + Z.of_nat k) o x
}.

Lemma base_bound c : inv c -> released c <= base c <= acquired c /\ low c <= base c.
Proof.
  intros Hi. pose proof (inv_consumer Size c Hi) as Hk. pose proof (inv_window Size c Hi).
  unfold consumer_ok, base, low in *. destruct (c_consumer c); lia.
Qed.

Lemma sim_length c s : inv c -> sim c s -> Z.of_nat (length (items s)) = acquired c - base c.
Proof.
  intros Hi Hs. pose proof (base_bound c Hi). pose proof (inv_pushed Size c Hi).
  pose proof (inv_window Size c Hi). pose proof (f_equal length (sim_items c s Hs)) as E.
  rewrite length_fmap, length_drop in E. lia.
Qed.

Lemma head_index c : inv c -> head Size c = index (base c).
Proof.
  intros Hi. unfold head, base. rewrite (inv_output Size c Hi).
  destruct (c_consumer c); try done; by apply advance_index.
Qed.

Lemma sim_item c s k o x :
  sim c s -> items s !! k = Some (o, x) -> 0 <= base c -> pushed c !! Z.to_nat (base c + Z.of_nat k) = Some x.
Proof.
  intros Hs Hk Hb. assert ((items s).*2 !! k = drop (Z.to_nat (base c)) (pushed c) !! k) as E
    by (by rewrite (sim_items c s Hs)).
  rewrite list_lookup_fmap, Hk, lookup_drop in E. simpl in E. rewrite E. f_equal. lia.
Qed.

(** Every ticket from [base] on has its item. *)
Lemma sim_ticket c s t :
  inv c -> sim c s -> base c <= t < acquired c ->
  exists o x, items s !! Z.to_nat (t - base c) = Some (o, x) /\ place_ok c t o x /\
    pushed c !! Z.to_nat t = Some x.
Proof.
  intros Hi Hs Ht. pose proof (sim_length c s Hi Hs). pose proof (base_bound c Hi).
  pose proof (inv_window Size c Hi).
  destruct (items s !! Z.to_nat (t - base c)) as [[o x]|] eqn:E.
  - exists o, x. split; [done|]. pose proof (sim_places c s Hs _ _ _ E) as Hp.
    pose proof (sim_item c s _ o x Hs E) as Hx.
    rewrite Z2Nat.id in Hp, Hx by lia. replace (base c + (t - base c)) with t in Hp, Hx by lia.
    split; [done|apply Hx; lia].
  - apply lookup_ge_None in E. lia.
Qed.

Lemma committed_item c t sl :
  inv c -> low c <= t < acquired c -> c_buffer c !! Z.to_nat (index t) = Some sl -> flag sl = COMMITTED ->
  pushed c !! Z.to_nat t = Some (item sl).
Proof.
  intros Hi Ht Hsl Hf. destruct (inv_tickets Size c Hi t Ht) as (x & s & Hx & Hs & [[_ <-]|[Hu _]]);
    simplify_eq; [done|]. by rewrite Hf in Hu.
Qed.

Lemma owner_facts c i p t x :
  inv c -> c_producers c !! i = Some p -> owner p = Some (t, x) ->
  low c <= t < acquired c /\ writes p = Some (index t, x) /\
  exists y, c_buffer c !! Z.to_nat (index t) = Some (Slot UNCOMMITTED y).
Proof.
  intros Hi Hp Ho. pose proof (inv_producers Size c Hi i p Hp) as Hok.
  destruct p; simplify_eq/=; destruct Hok as (Hr & -> & Hx & Hs); split_and!; eauto; lia.
Qed.

(** A producer stands on a ticket the consumer has not used. *)
Lemma owner_base c i p t x :
  inv c -> c_producers c !! i = Some p -> owner p = Some (t, x) -> base c <= t.
Proof.
  intros Hi Hp Ho. destruct (owner_facts c i p t x Hi Hp Ho) as (Hr & _ & y & Hy).
  pose proof (inv_consumer Size c Hi) as Hk. unfold consumer_ok, base, low in *.
  destruct (c_consumer c); try lia. destruct Hk as (-> & _ & _ & s & Hs & Hf).
  destruct (Z.eq_dec t (released c)) as [->|]; [|lia]. rewrite Hy in Hs. by simplify_eq.
Qed.

Lemma sim_holds c s : inv c -> sim c s -> holds Size c s.
Proof.
  intros Hi Hs. pose proof (sim_length c s Hi Hs) as Hl. pose proof (base_bound c Hi) as Hb.
  pose proof (inv_window Size c Hi). pose proof (C_pos Size HSize). split.
  - apply Hs.
  - rewrite head_index, (inv_input Size c Hi) by done. unfold InternalQueueSpec.index.
    rewrite <- Zminus_mod, <- Hl. symmetry. apply Z.mod_small. unfold Capacity. lia.
  - intros k o x Hk. rewrite head_index by done.
    assert ((index (base c) + Z.of_nat k) mod C = index (base c + Z.of_nat k)) as ->.
    { unfold InternalQueueSpec.index. apply Z.add_mod_idemp_l. lia. }
    pose proof (lookup_lt_Some _ _ _ Hk). pose proof (sim_places c s Hs k o x Hk) as Hp.
    destruct o as [i|].
    + destruct Hp as (p & Hp & Ho). destruct (owner_facts c i p _ x Hi Hp Ho) as (_ & Hw & y & Hy).
      eexists. split; [exact Hy|]. split; [done|]. by exists p.
    + destruct Hp as (sl & Hsl & Hf). exists sl. split; [done|]. split; [done|].
      pose proof (committed_item c (base c + Z.of_nat k) sl Hi ltac:(lia) Hsl Hf) as E.
      rewrite (sim_item c s k None x Hs Hk) in E by lia. by simplify_eq.
Qed.

Lemma fmap_set_producer i p' c :
  phase_of <$> c_producers (set_producer i p' c) = <[i := phase_of p']> (phase_of <$> c_producers c).
Proof. apply list_fmap_insert. Qed.

Lemma phases_lookup c s i p :
  sim c s -> c_producers c !! i = Some p -> phases s !! i = Some (phase_of p).
Proof. intros Hs Hp. by rewrite (sim_phases c s Hs), list_lookup_fmap, Hp. Qed.

(** A producer that moves without touching the ring. *)
Lemma sim_set_producer c s i p p' :
  sim c s -> c_producers c !! i = Some p -> owner p' = owner p ->
  sim (set_producer i p' c) (Fifo (items s) (<[i := phase_of p']> (phases s))).
Proof.
  intros Hs Hp Ho. pose proof (lookup_lt_Some _ _ _ Hp). split; cbn [items phases].
  - by rewrite fmap_set_producer, (sim_phases c s Hs).
  - apply Hs.
  - intros k o x Hk. pose proof (sim_places c s Hs k o x Hk) as Hpl. destruct o as [j|]; [|exact Hpl].
    destruct Hpl as (q & Hq & Hoq). unfold place_ok. simpl.
    destruct (decide (i = j)) as [->|Hne].
    + exists p'. rewrite list_lookup_insert_eq by done. split; [done|]. by simplify_eq; rewrite Ho.
    + exists q. by rewrite list_lookup_insert_ne.
Qed.

Lemma sim_silent c s i p p' :
  sim c s -> c_producers c !! i = Some p -> owner p' = owner p -> phase_of p' = phase_of p ->
  sim (set_producer i p' c) s.
Proof.
  intros Hs Hp Ho Hph. pose proof (sim_set_producer c s i p p' Hs Hp Ho) as H.
  rewrite Hph, list_insert_id in H by by apply (phases_lookup c). by destruct s.
Qed.

Lemma sim_refuse c s : sim c s -> sim (refuse c) s.
Proof. intros []. by split. Qed.

Lemma sim_reserve c s i x t :
  inv c -> inv (set_producer i (PAcquired x (index t) (acquired c)) (take_slot x (advance Size (index t)) c)) ->
  sim c s -> c_producers c !! i = Some (PChecked x (index t) t) ->
  let c' := set_producer i (PAcquired x (index t) (acquired c)) (take_slot x (advance Size (index t)) c) in
  let s' := Fifo (items s ++ [(Some i, x)]) (<[i := Publishing]> (phases s)) in
  fifo_step Size s (Reserved i) s' /\ sim c' s'.
Proof.
  intros Hi Hi' Hs Hp c' s'. pose proof (lookup_lt_Some _ _ _ Hp). pose proof (sim_length c s Hi Hs) as Hl.
  pose proof (base_bound c Hi). pose proof (inv_window Size c Hi). pose proof (inv_window Size _ Hi') as Hw.
  simpl in Hw. pose proof (inv_pushed Size c Hi).
  split.
  - destruct s as [l ps]. apply (step_reserved Size i x); simpl in *; [|lia].
    by apply (phases_lookup c (Fifo l ps) i _ Hs Hp).
  - subst c' s'. split; cbn [items phases].
    + by rewrite fmap_set_producer, (sim_phases c s Hs).
    + rewrite fmap_app, (sim_items c s Hs). symmetry. apply drop_app_le. lia.
    + intros k o y Hk. change (base _) with (base c) in *. destruct (decide (k = length (items s))) as [->|Hne].
      * rewrite list_lookup_middle in Hk by done. simplify_eq.
        eexists. simpl. rewrite list_lookup_insert_eq by done. split; [done|]. simpl. do 2 f_equal. lia.
      * pose proof (lookup_lt_Some _ _ _ Hk) as Hlt. rewrite length_app in Hlt. simpl in Hlt.
        rewrite lookup_app_l in Hk by lia. pose proof (sim_places c s Hs k o y Hk) as Hpl.
        destruct o as [j|]; [|exact Hpl]. destruct Hpl as (q & Hq & Hoq).
        exists q. simpl. rewrite list_lookup_insert_ne; [done|]. intros <-. by simplify_eq.
Qed.

(** Writing to the slot of a ticket leaves the places of the others alone. *)
Lemma place_set_slot c i p' t t' sl o x :
  inv c -> base c <= t < acquired c -> base c <= t' < acquired c -> t' <> t -> o <> Some i ->
  place_ok c t' o x -> place_ok (set_producer i p' (set_slot (index t) sl c)) t' o x.
Proof.
  intros Hi Ht Ht' Hne Ho Hpl. pose proof (base_bound c Hi). pose proof (inv_window Size c Hi).
  destruct o as [j|].
  - destruct Hpl as (q & Hq & Hoq). exists q. simpl. rewrite list_lookup_insert_ne by congruence. done.
  - destruct Hpl as (s0 & Hs0 & Hf). exists s0. split; [|done]. cbn [set_producer c_buffer].
    rewrite (lookup_set_slot Size HSize) by (done || unfold Capacity; lia). by rewrite decide_False.
Qed.

(** The place of a producer in the queue. *)
Lemma own_place c s i p t x :
  inv c -> sim c s -> c_producers c !! i = Some p -> owner p = Some (t, x) ->
  items s !! Z.to_nat (t - base c) = Some (Some i, x) /\ base c <= t < acquired c /\
  (forall k o y, items s !! k = Some (o, y) -> base c + Z.of_nat k <> t -> o <> Some i) .
Proof.
  intros Hi Hs Hp Ho. pose proof (owner_base c i p t x Hi Hp Ho) as Hb.
  destruct (owner_facts c i p t x Hi Hp Ho) as ([_ Ha] & _ & y & Hy). split_and!; [|lia..|].
  - destruct (sim_ticket c s t Hi Hs (conj Hb Ha)) as (o & z & Hz & Hpl & Hx).
    rewrite Hz. destruct o as [j|].
    + destruct Hpl as (q & Hq & Hoq).
      pose proof (inv_owners Size c Hi i j p q t x z Hp Hq Ho Hoq) as <-. by simplify_eq.
    + destruct Hpl as (sl & Hsl & Hf). rewrite Hy in Hsl. by simplify_eq.
  - intros k o z Hk Hne ->. destruct (sim_places c s Hs k _ z Hk) as (q & Hq & Hoq). simplify_eq.
Qed.

Lemma sim_write c s i x t sl :
  inv c -> sim c s -> c_producers c !! i = Some (PAcquired x (index t) t) ->
  sim (set_producer i (PWritten x (index t) t) (set_slot (index t) sl c)) s.
Proof.
  intros Hi Hs Hp. pose proof (lookup_lt_Some _ _ _ Hp).
  destruct (own_place c s i _ t x Hi Hs Hp eq_refl) as (Hk & Ht & Hothers).
  pose proof (sim_length c s Hi Hs). split.
  - rewrite fmap_set_producer. simpl. rewrite list_insert_id; [apply Hs|].
    by rewrite list_lookup_fmap, Hp.
  - apply Hs.
  - intros k o y Hko. change (base _) with (base c) in *. pose proof (lookup_lt_Some _ _ _ Hko).
    destruct (Z.eq_dec (base c + Z.of_nat k) t) as [E|Hne].
    + replace (Z.to_nat (t - base c)) with k in Hk by lia. simplify_eq.
      eexists. simpl. by rewrite list_lookup_insert_eq.
    + apply place_set_slot; try done; [lia|by eapply Hothers|by apply (sim_places c s Hs)].
Qed.

Lemma sim_publish c s i x t sl :
  inv c -> sim c s -> c_producers c !! i = Some (PWritten x (index t) t) -> flag sl = COMMITTED ->
  exists s', fifo_step Size s (Published i) s' /\
    sim (set_producer i PIdle (set_slot (index t) sl c)) s'.
Proof.
  intros Hi Hs Hp Hf. pose proof (lookup_lt_Some _ _ _ Hp).
  destruct (own_place c s i _ t x Hi Hs Hp eq_refl) as (Hk & Ht & Hothers).
  pose proof (sim_length c s Hi Hs). pose proof (lookup_lt_Some _ _ _ Hk). destruct s as [l ps].
  exists (Fifo (<[Z.to_nat (t - base c) := (None, x)]> l) (<[i := Idle]> ps)). split.
  { eapply step_published; [|exact Hk]. by apply (phases_lookup c _ i _ Hs Hp). }
  cbn [items] in *. split; cbn [items phases].
  - rewrite fmap_set_producer. cbn [set_slot c_producers]. by rewrite <- (sim_phases c _ Hs).
  - rewrite list_fmap_insert. simpl. rewrite list_insert_id; [apply (sim_items c _ Hs)|].
    by rewrite list_lookup_fmap, Hk.
  - intros k o y Hko. change (base _) with (base c) in *.
    destruct (Z.eq_dec (base c + Z.of_nat k) t) as [E|Hne].
    + replace (Z.to_nat (t - base c)) with k in * by lia.
      rewrite list_lookup_insert_eq in Hko by done. simplify_eq.
      exists sl. split; [|done]. cbn [set_producer c_buffer].
      rewrite (lookup_set_slot Size HSize) by (done || unfold Capacity; lia). by rewrite decide_True.
    + rewrite list_lookup_insert_ne in Hko by lia. pose proof (lookup_lt_Some _ _ _ Hko).
      apply place_set_slot; try done; [lia|by eapply Hothers|by apply (sim_places c _ Hs)].
Qed.

(** Steps of the consumer that neither use nor release a slot. *)
Lemma sim_set_consumer c s k :
  sim c s -> base (set_consumer k c) = base c -> sim (set_consumer k c) s.
Proof. intros [H1 H2 H3] E. split; [done| |]; rewrite E; done. Qed.

Lemma sim_use c s cur sl :
  inv c -> sim c s -> c_consumer c = CReady cur -> c_buffer c !! Z.to_nat cur = Some sl ->
  exists s', fifo_step Size s (Read (item sl)) s' /\ sim (set_consumer (CUsed cur) (deliver (item sl) c)) s'.
Proof.
  intros Hi Hs Hk Hsl. pose proof (inv_consumer Size c Hi) as Hok. unfold consumer_ok in Hok.
  rewrite Hk in Hok. destruct Hok as (-> & Hlt & _ & sl' & Hsl' & Hf). simplify_eq.
  assert (base c = released c /\ low c = released c) as [Hb Hlow] by (unfold base, low; by rewrite Hk).
  destruct (sim_ticket c s (released c) Hi Hs) as (o & x & Ho & Hpl & Hx); [lia|].
  rewrite Hb, Z.sub_diag in Ho. rewrite (committed_item c (released c) sl Hi ltac:(lia) Hsl Hf) in Hx. simplify_eq.
  assert (o = None) as ->.
  { destruct o as [i|]; [|done]. destruct Hpl as (p & Hp & Hown).
    destruct (owner_facts c i p _ _ Hi Hp Hown) as (_ & _ & y & Hy). by simplify_eq. }
  destruct s as [[|e l] ps]; simplify_eq/=.
  exists (Fifo l ps). split; [apply step_read|].
  pose proof (inv_window Size c Hi) as Hw.
  assert (base (set_consumer (CUsed (index (released c))) (deliver (item sl) c)) = released c + 1) as Hb' by done.
  split; cbn [items phases].
  - apply (sim_phases c _ Hs).
  - rewrite Hb'. pose proof (sim_items c _ Hs) as E. rewrite Hb in E. simpl in E.
    replace (Z.to_nat (released c + 1)) with (Z.to_nat (released c) + 1)%nat by lia.
    simpl. rewrite <- drop_drop, <- E. done.
  - intros k o y Hko. rewrite Hb'. pose proof (sim_places c _ Hs (S k) o y Hko) as H.
    rewrite Hb in H. replace (released c + 1 + Z.of_nat k) with (released c + Z.of_nat (S k)) by lia.
    exact H.
Qed.

Lemma sim_reset c s cur sl :
  inv c -> sim c s -> c_consumer c = CUsed cur ->
  sim (set_consumer (CUncommitted cur) (set_slot cur sl c)) s.
Proof.
  intros Hi Hs Hk. pose proof (inv_consumer Size c Hi) as Hok. unfold consumer_ok in Hok.
  rewrite Hk in Hok. destruct Hok as (-> & _). pose proof (sim_length c s Hi Hs).
  pose proof (inv_window Size c Hi).
  assert (base c = released c + 1) as Hb by (unfold base; by rewrite Hk).
  assert (base (set_consumer (CUncommitted (index (released c))) (set_slot (index (released c)) sl c)) = base c)
    as Hb' by done.
  split; rewrite ?Hb'; try apply Hs. intros k o y Hko. pose proof (lookup_lt_Some _ _ _ Hko).
  pose proof (sim_places c s Hs k o y Hko) as Hpl. destruct o as [i|]; [exact Hpl|].
  destruct Hpl as (s0 & Hs0 & Hf). exists s0. split; [|done]. cbn [set_consumer c_buffer].
  rewrite (lookup_set_slot Size HSize) by (done || unfold Capacity; lia). by rewrite decide_False by lia.
Qed.

(** What an action shows is a step of the specification, and nothing happens
    there when it shows nothing. *)
Definition answers (o : option (event A)) (s s' : fifo A) : Prop :=
  match o with Some e => fifo_step Size s e s' | None => s' = s end.

Lemma sim_producer_step c c' s i a p :
  inv c -> inv c' -> sim c s -> c_producers c !! i = Some p ->
  (forall x cur t, p = PChecked x cur t -> cur = index t) ->
  match a with ABegin j _ | ALoad j | ACheck j | ACas j | AWrite j | ACommit j => j = i | _ => False end ->
  exec_producer Size i a p c = Some c' ->
  exists s', answers (visible Size a c) s s' /\ sim c' s'.
Proof.
  intros Hi Hi' Hs Hp Hcur Ha He. pose proof (inv_producers Size c Hi i p Hp) as Hok.
  destruct s as [l ps] eqn:Es. rewrite <- Es in *.
  destruct a, p; try discriminate He; try done; subst; cbn [exec_producer visible] in *.
  - simplify_eq. exists (Fifo l (<[i := Calling x]> ps)). split; [|by apply (sim_set_producer c (Fifo l ps) i PIdle)].
    apply step_called. by apply (phases_lookup c (Fifo l ps) i _ Hs Hp).
  - simplify_eq. exists (Fifo l ps). split; [done|by eapply sim_silent].
  - rewrite Hp. destruct (Z.eqb_spec (c_output c) (advance Size currentInput)); simplify_eq.
    + exists (Fifo l (<[i := Idle]> ps)). split.
      * eapply step_refused. by apply (phases_lookup c (Fifo l ps) i _ Hs Hp).
      * by apply (sim_set_producer (refuse c) (Fifo l ps) i (PLoaded x currentInput ticket)); [apply sim_refuse|..].
    + exists (Fifo l ps). split; [done|by eapply sim_silent].
  - rewrite Hp. pose proof (Hcur _ _ _ eq_refl) as ->.
    destruct (Z.eqb_spec (c_input c) (index ticket)); simplify_eq.
    + destruct (sim_reserve c (Fifo l ps) i x ticket Hi Hi' Hs Hp) as [Hst Hsim]. eexists. split; [exact Hst|exact Hsim].
    + exists (Fifo l ps). split; [done|by eapply sim_silent].
  - destruct (c_buffer c !! Z.to_nat currentInput) as [sl|]; [|done]. simplify_eq/=.
    destruct Hok as (_ & -> & _). exists (Fifo l ps). split; [done|by apply sim_write].
  - destruct (c_buffer c !! Z.to_nat currentInput) as [sl|]; [|done]. simplify_eq/=.
    destruct Hok as (_ & -> & _). by eapply sim_publish.
Qed.

Lemma sim_step a c c' s :
  inv c -> no_wrap a c = true -> exec Size a c = Some c' -> sim c s ->
  exists s', answers (visible Size a c) s s' /\ sim c' s'.
Proof.
  intros Hi Hnw He Hs. pose proof (inv_exec Size HSize Hbig a c c' Hi Hnw He) as Hi'.
  destruct a as [i x|i|i|i|i|i| | | | | |]; cbn [exec] in He.
  1-6: destruct (c_producers c !! i) as [p|] eqn:Hp; [|done]; cbn [mbind option_bind] in He;
    match type of Hnw with no_wrap ?a _ = _ => apply (sim_producer_step c c' s i a p) end; try done;
    intros y cur t ->; by destruct (inv_producers Size c Hi i _ Hp) as (_ & -> & _).
  - destruct (c_consumer c) eqn:Ek; simplify_eq. exists s. split; [done|].
    apply sim_set_consumer; [done|]. unfold base. by rewrite Ek.
  - cbn [visible]. destruct (c_consumer c) as [|cur|cur|cur|cur|cur] eqn:Ek; try done.
    pose proof (inv_consumer Size c Hi) as Hok. unfold consumer_ok in Hok. rewrite Ek in Hok.
    destruct Hok as [-> _]. assert (base c = released c) as Hb by (unfold base; by rewrite Ek).
    destruct (Z.eqb_spec (index (released c)) (c_input c)) as [E|E]; simplify_eq; exists s.
    + split; [|by apply sim_set_consumer].
      rewrite (inv_input Size c Hi) in E. pose proof (inv_window Size c Hi).
      apply (index_inj Size HSize) in E; [|unfold Capacity; lia].
      pose proof (sim_length c s Hi Hs). destruct s as [[|e l] ps]; [apply step_empty|simpl in *; lia].
    + split; [done|]. by apply sim_set_consumer.
  - destruct (c_consumer c) as [|cur|cur|cur|cur|cur] eqn:Ek; try done.
    destruct (c_buffer c !! _) as [sl|]; [|done]. cbn [mbind option_bind] in He. exists s. split; [done|].
    destruct (_ =? _); simplify_eq; [|done]. apply sim_set_consumer; [done|]. unfold base. by rewrite Ek.
  - cbn [visible]. destruct (c_consumer c) as [|cur|cur|cur|cur|cur] eqn:Ek; try done.
    destruct (c_buffer c !! _) as [sl|] eqn:Hsl; [|done]. simplify_eq/=. by apply (sim_use c s cur sl).
  - destruct (c_consumer c) as [|cur|cur|cur|cur|cur] eqn:Ek; try done.
    destruct (c_buffer c !! _) as [sl|]; [|done]. simplify_eq/=. exists s. split; [done|by apply sim_reset].
  - destruct (c_consumer c) as [|cur|cur|cur|cur|cur] eqn:Ek; simplify_eq. exists s. split; [done|].
    destruct Hs as [H1 H2 H3]. assert (base (set_consumer CIdle (give_back (advance Size cur) c)) = base c) as E
      by (unfold base; simpl; by rewrite Ek).
    split; rewrite ?E; done.
Qed.

Lemma sim_observe l : forall c s tr c', inv c -> sim c s -> observe Size l c = Some (tr, c') ->
  exists s', fifo_steps Size s tr s' /\ inv c' /\ sim c' s'.
Proof.
  induction l as [|a l IH]; intros c s tr c' Hi Hs Ho; simpl in Ho.
  { simplify_eq. exists s. split; [constructor|done]. }
  destruct (no_wrap a c) eqn:Hnw; [|done]. destruct (exec Size a c) as [c1|] eqn:He; [|done].
  cbn [mbind option_bind] in Ho. destruct (observe Size l c1) as [[tr1 c2]|] eqn:Ho1; [|done]. simplify_eq/=.
  destruct (sim_step a c c1 s Hi Hnw He Hs) as (s1 & Ha & Hs1).
  destruct (IH c1 s1 tr1 c' (inv_exec Size HSize Hbig a c c1 Hi Hnw He) Hs1 Ho1) as (s' & Hst & Hrest).
  exists s'. split; [|done]. destruct (visible Size a c) as [e|]; simpl in *; [by eapply steps_cons|by subst].
Qed.

Lemma exec_delivered a c c' :
  exec Size a c = Some c' -> delivered c' = delivered c ++ reads (option_list (visible Size a c)).
Proof using Type.
  intros He. symmetry. assert (forall l : list A, l ++ [] = l) as Hnil by apply app_nil_r.
  destruct a as [i x|i|i|i|i|i| | | | | |]; cbn [exec visible] in *.
  1-6: destruct (c_producers c !! i) as [p|]; [|done]; destruct p; try discriminate He;
    cbn [mbind option_bind exec_producer] in He; simplify_eq; try apply Hnil.
  - destruct (_ =? _); simplify_eq; apply Hnil.
  - destruct (_ =? _); simplify_eq; apply Hnil.
  - destruct (c_buffer c !! _); simplify_eq/=; apply Hnil.
  - destruct (c_buffer c !! _); simplify_eq/=; apply Hnil.
  - destruct (c_consumer c); simplify_eq; apply Hnil.
  - destruct (c_consumer c); try done. destruct (_ =? _); simplify_eq; apply Hnil.
  - destruct (c_consumer c); try done. destruct (c_buffer c !! _); [|done]. simpl in He.
    case_match; simplify_eq; apply Hnil.
  - destruct (c_consumer c); try done. by destruct (c_buffer c !! _); simplify_eq/=.
  - destruct (c_consumer c); try done. destruct (c_buffer c !! _); simplify_eq/=; apply Hnil.
  - destruct (c_consumer c); simplify_eq. apply Hnil.
Qed.

Lemma observe_delivered l : forall c tr c',
  observe Size l c = Some (tr, c') -> delivered c' = delivered c ++ reads tr.
Proof using Type.
  induction l as [|a l IH]; intros c tr c' Ho; simpl in Ho; [simplify_eq; by rewrite app_nil_r|].
  destruct (no_wrap a c); [|done]. destruct (exec Size a c) as [c1|] eqn:He; [|done].
  cbn [mbind option_bind] in Ho. destruct (observe Size l c1) as [[tr1 c2]|] eqn:Ho1; [|done]. simplify_eq/=.
  rewrite (IH _ _ _ Ho1), (exec_delivered _ _ _ He), <- app_assoc. f_equal. unfold reads. by rewrite omap_app.
Qed.

Lemma sim_initial n (x : A) : sim (initial Size n x) (Fifo [] (replicate n Idle)).
Proof. split; simpl; [by rewrite fmap_replicate|done|done]. Qed.
End Simulation.

(** C1. The ring with any number of producers and one consumer is a bounded FIFO
    queue with reservations, as long as no compare-and-swap succeeds on an index
    that has gone all the way round: whatever is seen of a run - the calls, the
    slots granted and refused, the commits, the items read from the slots and
    the answers that the ring is empty - is a history of that queue, in which an
    item is read once, in the order of the reservations, as it was handed to
    the call and after it was published.  The listener gets what was read, and
    the memory of the ring between [output] and [input] holds just the queue. *)
Theorem ring_refines_fifo {A : Type} (Size : Z) (n : nat) (x : A) l tr c :
  0 < Size < 2 ^ 63 -> observe Size l (initial Size n x) = Some (tr, c) ->
  exists s, fifo_steps Size (Fifo [] (replicate n Idle)) tr s /\ holds Size c s /\
    delivered c = reads tr.
Proof.
  intros [H0 Hb] Ho.
  destruct (sim_observe Size H0 Hb l _ _ tr c (inv_initial Size H0 n x) (sim_initial Size n x) Ho)
    as (s & Hst & Hi & Hs).
  exists s. split; [done|]. split; [by apply sim_holds|]. exact (observe_delivered Size l _ tr c Ho).
Qed.

(** Two producers reserve in one order and publish in the other. *)
Lemma ring_refines_fifo_witness :
  let l := [ABegin 0 7; ALoad 0; ACheck 0; ACas 0] ++ push_actions 1 8 ++ [AWrite 0; ACommit 0] ++ pop_actions
           ++ [CLoad; CCheck; CPoll; CUse] in
  let tr := [Called 0 7; Reserved 0; Called 1 8; Reserved 1; Published 1; Published 0; Read 7; Read 8] in
  (exists c, observe 2 l (initial 2 2 0) = Some (tr, c)) /\
  exists c s, fifo_steps 2 (Fifo [] (replicate 2 Idle)) tr s /\ holds 2 c s /\
    delivered c = [7; 8].
Proof.
  split; [eexists; vm_compute; reflexivity|].
  eexists. apply (ring_refines_fifo 2 2 0 ([ABegin 0 7; ALoad 0; ACheck 0; ACas 0] ++ push_actions 1 8
    ++ [AWrite 0; ACommit 0] ++ pop_actions ++ [CLoad; CCheck; CPoll; CUse])); [lia|vm_compute; reflexivity].
Defined.
