(* ===== verification/MetricTypes.v ===== *)
(** * Data shared by the agent's components

    [lib/metric_types.h], the data of [lib/linkable_profiler.h] and of
    [lib/circular_queue.h], the enumerations of [lib/data.proto], and the two
    listener interfaces as type classes. *)
From S2P Require Import Prelude.

(** ** Metrics *)

Module MetricDataType.
Inductive t := INVALID | LONG | STRING.
#[global] Instance t_eq_dec : EqDecision t.
Proof. solve_decision. Defined.
End MetricDataType.

Module MetricVariability.
Inductive t := INVALID | CONSTANT | MONOTONIC | VARIABLE.
#[global] Instance t_eq_dec : EqDecision t.
Proof. solve_decision. Defined.
End MetricVariability.

Module MetricUnit.
Inductive t :=
  INVALID | NONE | BYTES | TICKS | EVENTS | STRING | HERTZ | MILLISECONDS | NANOSECONDS.
#[global] Instance t_eq_dec : EqDecision t.
Proof. solve_decision. Defined.
End MetricUnit.

Module NotificationCategory.
Inductive t := USER_WARNING | USER_ERROR | INFO_LOGGING.
#[global] Instance t_eq_dec : EqDecision t.
Proof. solve_decision. Defined.
End NotificationCategory.

(** The members are named after the struct, where several structs share them. *)
Record MetricData := mkMetricData {
  type : MetricDataType.t;
  valueString : string;
  valueLong : Z
}.

Record MetricListenerEntry := mkMetricListenerEntry {
  entry_name : string;
  entry_variability : MetricVariability.t;
  entry_unit : MetricUnit.t;
  entry_data : MetricData
}.

Record MetricSample := mkMetricSample { sample_id : Z; sample_data : MetricData }.

Record MetricInformation := mkMetricInformation {
  info_name : string;
  info_id : Z;
  info_variability : MetricVariability.t;
  info_dataType : MetricDataType.t;
  info_unit : MetricUnit.t
}.

(** [s.compare(0, p.length(), p) == 0]. *)
Definition starts_with (s p : string) : bool :=
  bool_decide (String.substring 0 (String.length p) s = p).

Definition isPrefixDisabled (entryName : string) (disabledPrefixes : list string) : bool :=
  existsb (starts_with entryName) disabledPrefixes.

(** ** Stack traces *)

Record CallFrame := mkCallFrame { isForeign : bool; frame : Z }.
Definition zero_frame : CallFrame := mkCallFrame false 0.

(** [frames] is an array where the trace is passed by its producer or to a
    listener, and the index of a frame buffer inside the stack queue. *)
Record CallTrace (P : Type) := mkCallTrace { num_frames : Z; threadId : Z; frames : P }.
Arguments mkCallTrace {P}.
Arguments num_frames {P}.
Arguments threadId {P}.
Arguments frames {P}.

Definition MAX_FRAMES : Z := 256.

Record timespec := mkTimespec { tv_sec : Z; tv_nsec : Z }.

Inductive ErrorType := SUCCESS | GET_CONTEXT_FAIL | INIT_LOCAL_FAIL | STEP_FAIL.
#[export] Instance ErrorType_eq_dec : EqDecision ErrorType.
Proof. solve_decision. Defined.
Record ErrorHolder := mkErrorHolder { errorCode : Z; error_type : ErrorType }.

(** The Linux signal numbers. *)
Definition SIGALRM : Z := 14.
Definition SIGPROF : Z := 27.

(** ** Listener interfaces

    A method acts on the state [W] of everything it can reach, which may
    include the queue it is called from. *)

Class QueueListener (W : Type) := {
  recordStackTrace : timespec -> CallTrace (list CallFrame) -> Z -> Z -> Z -> W -> outcome W;
  recordThread : Z -> string -> W -> outcome W;
  recordAllocation : Z -> bool -> option Z -> W -> outcome W;
  recordNotification : NotificationCategory.t -> string -> Z -> W -> outcome W;
  recordMetricInformation : MetricInformation -> W -> outcome W;
  recordMetricSamples : Z -> list MetricSample -> W -> outcome W;
  recordConstantMetricsComplete : W -> outcome W
}.

Class MetricDataListener (W : Type) := {
  recordEntries : list MetricListenerEntry -> Z -> W -> W;
  recordMetricNotification : NotificationCategory.t -> string -> W -> W
}.

(** [toMillis] ([lib/metrics.cpp]); [long] is 64 bits wide. *)
Definition toMillis (ts : timespec) : Z := tv_sec ts * 1000 + Z.quot (tv_nsec ts) 1000000.

(** A prefix is disabled exactly when some configured prefix starts the name. *)
Lemma substring_prefix s p :
  String.substring 0 (String.length p) s = p <-> String.prefix p s = true.
Proof.
  revert s. induction p as [|a p IH]; intros [|b s]; simpl; try done.
  destruct (Ascii.ascii_dec a b) as [->|Hne].
  - rewrite <- IH. split; [|by intros ->]. by intros [=].
  - split; [|done]. intros [=]. congruence.
Qed.
