(* ===== verification/CircularQueue.v ===== *)
(** * The queues between the producers and the processor ([lib/circular_queue.cpp])

    Three rings: notifications and metrics, allocations, stack traces.  The
    frames of a queued trace live in one preallocated buffer per slot of the
    stack ring.  [pop] calls a listener, and a listener may push (the log writer
    does), so [pop] runs on a state [W] that holds the queues. *)
From S2P Require Import Prelude InternalQueue MetricTypes.

Definition MainQueueSize : Z := 2048.
Definition AllocationQueueSize : Z := 32768.
Definition StackQueueSize : Z := 2048.

Inductive ElementType :=
  NOTIFICATION | METRIC_INFORMATION | METRIC_SAMPLES | CONSTANT_METRICS_COMPLETE.

Record Holder := mkHolder {
  h_is_committed : Z;
  elementType : ElementType;
  category : NotificationCategory.t;
  payload : string;
  value : Z;
  metricInformation : MetricInformation;
  time_epoch_millis : Z;
  metricSamples : list MetricSample
}.

Record AllocationHolder := mkAllocationHolder {
  a_is_committed : Z;
  symbol : option Z;
  allocationSize : Z;
  outsideTlab : bool
}.

Inductive StackElementType := STACK_TRACE | THREAD.

Record StackHolder := mkStackHolder {
  s_is_committed : Z;
  s_elementType : StackElementType;
  tspec : timespec;
  trace : CallTrace nat;
  signum : Z;
  threadState : Z;
  time_tsc : Z;
  s_threadId : Z;
  name : string
}.

#[export] Program Instance Holder_committable : Committable Holder := {|
  is_committed := h_is_committed;
  set_committed c h := mkHolder c (elementType h) (category h) (payload h) (value h)
    (metricInformation h) (time_epoch_millis h) (metricSamples h)
|}.
Solve All Obligations with by intros; repeat match goal with h : Holder |- _ => destruct h end.

#[export] Program Instance AllocationHolder_committable : Committable AllocationHolder := {|
  is_committed := a_is_committed;
  set_committed c h := mkAllocationHolder c (symbol h) (allocationSize h) (outsideTlab h)
|}.
Solve All Obligations with by intros; repeat match goal with h : AllocationHolder |- _ => destruct h end.

#[export] Program Instance StackHolder_committable : Committable StackHolder := {|
  is_committed := s_is_committed;
  set_committed c h := mkStackHolder c (s_elementType h) (tspec h) (trace h) (signum h)
    (threadState h) (time_tsc h) (s_threadId h) (name h)
|}.
Solve All Obligations with by intros; repeat match goal with h : StackHolder |- _ => destruct h end.

(** The static counters of the class. *)
Record Failures := mkFailures {
  allocationFailures : Z;
  allocationStackTraceFailures : Z;
  cputimeFailures : Z;
  wallclockFailures : Z;
  metricFailures : Z
}.

Record CircularQueue := mkCircularQueue {
  mainQueue : queue Holder;
  allocationQueue : queue AllocationHolder;
  stackQueue : queue StackHolder;
  frame_buffer_ : list (list CallFrame);
  failures : Failures
}.

Definition set_mainQueue q c :=
  mkCircularQueue q (allocationQueue c) (stackQueue c) (frame_buffer_ c) (failures c).
Definition set_allocationQueue q c :=
  mkCircularQueue (mainQueue c) q (stackQueue c) (frame_buffer_ c) (failures c).
Definition set_stackQueue q c :=
  mkCircularQueue (mainQueue c) (allocationQueue c) q (frame_buffer_ c) (failures c).
Definition set_frame_buffer b c :=
  mkCircularQueue (mainQueue c) (allocationQueue c) (stackQueue c) b (failures c).
Definition set_failures f c :=
  mkCircularQueue (mainQueue c) (allocationQueue c) (stackQueue c) (frame_buffer_ c) f.

Definition no_failures : Failures := mkFailures 0 0 0 0 0.
Definition count_allocation_failure (f : Failures) : Failures :=
  mkFailures (u32 (allocationFailures f + 1)) (allocationStackTraceFailures f)
    (cputimeFailures f) (wallclockFailures f) (metricFailures f).
Definition count_cputime_failure (f : Failures) : Failures :=
  mkFailures (allocationFailures f) (allocationStackTraceFailures f)
    (u32 (cputimeFailures f + 1)) (wallclockFailures f) (metricFailures f).
Definition count_wallclock_failure (f : Failures) : Failures :=
  mkFailures (allocationFailures f) (allocationStackTraceFailures f)
    (cputimeFailures f) (u32 (wallclockFailures f + 1)) (metricFailures f).
Definition count_metric_failure (f : Failures) : Failures :=
  mkFailures (allocationFailures f) (allocationStackTraceFailures f)
    (cputimeFailures f) (wallclockFailures f) (u32 (metricFailures f + 1)).

Definition new_Holder : Holder :=
  mkHolder UNCOMMITTED NOTIFICATION NotificationCategory.USER_WARNING EmptyString 0
    (mkMetricInformation EmptyString 0 MetricVariability.INVALID MetricDataType.INVALID MetricUnit.INVALID)
    0 [].
(** The constructors leave [symbol], and [time_tsc] below, uninitialised. *)
Definition new_AllocationHolder (symbol : option Z) : AllocationHolder :=
  mkAllocationHolder UNCOMMITTED symbol 0 false.
Definition new_StackHolder (time_tsc : Z) : StackHolder :=
  mkStackHolder UNCOMMITTED STACK_TRACE (mkTimespec 0 0) (mkCallTrace 0 0 0%nat) 0 0 time_tsc 0 EmptyString.

(** [symbol0] and [tsc0] stand for what the uninitialised members hold. *)
Definition new_CircularQueue (symbol0 : option Z) (tsc0 : Z) (maxFrameSize : nat) : CircularQueue :=
  mkCircularQueue (new_queue MainQueueSize new_Holder)
    (new_queue AllocationQueueSize (new_AllocationHolder symbol0))
    (new_queue StackQueueSize (new_StackHolder tsc0))
    (replicate (Z.to_nat (Capacity StackQueueSize)) (replicate maxFrameSize zero_frame))
    no_failures.

(** ** Pushing *)

(** A push that found room, with the stores [f] to the acquired holder. *)
Definition push_to {T} `{Committable T} (Size : Z) (f : T -> T) (q : queue T) : bool * queue T :=
  match acquireWrite Size q with
  | (None, q) => (false, q)
  | (Some currentInput, q) => (true, commitWrite currentInput (update currentInput f q))
  end.

(** The frame loop of [write]: [item.num_frames] stores into [fb], every load
    and store in bounds. *)
Fixpoint copy_frames (todo : nat) (frame_num : nat) (src fb : list CallFrame)
    : outcome (list CallFrame) :=
  match todo with
  | O => Ok fb
  | S todo =>
      f ← in_bounds (src !! frame_num);
      _ ← in_bounds (fb !! frame_num);
      copy_frames todo (S frame_num) src (<[frame_num := f]> fb)
  end.

(** The part of [write] that fills the frame buffer of [slot]; a negative
    [num_frames] copies nothing. *)
Definition write_frames (item : CallTrace (list CallFrame)) (slot : Z) (b : list (list CallFrame))
    : outcome (list (list CallFrame)) :=
  fb ← in_bounds (b !! Z.to_nat slot);
  fb ← copy_frames (Z.to_nat (num_frames item)) 0 (frames item) fb;
  Ok (<[Z.to_nat slot := fb]> b).

Definition write (item : CallTrace (list CallFrame)) (slot : Z) (holder : StackHolder) : StackHolder :=
  mkStackHolder (s_is_committed holder) (s_elementType holder) (tspec holder)
    (mkCallTrace (num_frames item) (threadId item) (Z.to_nat slot))
    (signum holder) (threadState holder) (time_tsc holder) (s_threadId holder) (name holder).

(** [ts] is what [clock_gettime(CLOCK_REALTIME)] returned. *)
Definition pushStackTrace (ts : timespec) (item : CallTrace (list CallFrame)) (signum threadState time_tsc : Z)
    (c : CircularQueue) : outcome (bool * CircularQueue) :=
  match acquireWrite StackQueueSize (stackQueue c) with
  | (None, _) => Ok (false, c)
  | (Some currentInput, q) =>
      b ← write_frames item currentInput (frame_buffer_ c);
      let store holder :=
        let holder := write item currentInput holder in
        mkStackHolder (s_is_committed holder) STACK_TRACE ts (trace holder) signum threadState time_tsc
          (s_threadId holder) (name holder) in
      Ok (true, set_stackQueue (commitWrite currentInput (update currentInput store q))
                  (set_frame_buffer b c))
  end.

Definition pushThread (name : string) (threadId : Z) (c : CircularQueue) : bool * CircularQueue :=
  let store holder :=
    mkStackHolder (s_is_committed holder) THREAD (tspec holder) (trace holder) (signum holder)
      (threadState holder) (time_tsc holder) threadId name in
  let '(pushed, q) := push_to StackQueueSize store (stackQueue c) in
  (pushed, set_stackQueue q c).

Definition pushAllocation (allocationSize : Z) (outsideTlab : bool) (symbol : option Z) (c : CircularQueue)
    : bool * CircularQueue :=
  let store holder := mkAllocationHolder (a_is_committed holder) symbol allocationSize outsideTlab in
  match push_to AllocationQueueSize store (allocationQueue c) with
  | (false, _) => (false, set_failures (count_allocation_failure (failures c)) c)
  | (true, q) => (true, set_allocationQueue q c)
  end.

Definition pushNotification_value (category : NotificationCategory.t) (payload : string) (value : Z)
    (c : CircularQueue) : bool * CircularQueue :=
  let store holder :=
    mkHolder (h_is_committed holder) NOTIFICATION category payload value
      (metricInformation holder) (time_epoch_millis holder) (metricSamples holder) in
  let '(pushed, q) := push_to MainQueueSize store (mainQueue c) in
  (pushed, set_mainQueue q c).

Definition pushNotification (category : NotificationCategory.t) (payload : string) (c : CircularQueue)
    : bool * CircularQueue :=
  pushNotification_value category payload 0 c.

(** The three metric pushes share the ring and the failure counter. *)
Definition push_metric (store : Holder -> Holder) (c : CircularQueue) : bool * CircularQueue :=
  match push_to MainQueueSize store (mainQueue c) with
  | (false, _) => (false, set_failures (count_metric_failure (failures c)) c)
  | (true, q) => (true, set_mainQueue q c)
  end.

Definition pushMetricInformation (info : MetricInformation) (c : CircularQueue) : bool * CircularQueue :=
  push_metric (fun holder =>
    mkHolder (h_is_committed holder) METRIC_INFORMATION (category holder) (payload holder) (value holder)
      info (time_epoch_millis holder) (metricSamples holder)) c.

Definition pushMetricSamples (samples : list MetricSample) (time_epoch_millis : Z) (c : CircularQueue)
    : bool * CircularQueue :=
  push_metric (fun holder =>
    mkHolder (h_is_committed holder) METRIC_SAMPLES (category holder) (payload holder) (value holder)
      (metricInformation holder) time_epoch_millis samples) c.

Definition pushConstantMetricsComplete (c : CircularQueue) : bool * CircularQueue :=
  push_metric (fun holder =>
    mkHolder (h_is_committed holder) CONSTANT_METRICS_COMPLETE (category holder) (payload holder)
      (value holder) (metricInformation holder) (time_epoch_millis holder) (metricSamples holder)) c.

(** ** Popping *)

(** Where a state keeps the queues. *)
Class HasQueue (W : Type) := {
  the_queue : W -> CircularQueue;
  put_queue : CircularQueue -> W -> W;
  the_queue_put c w : the_queue (put_queue c w) = c;
  put_queue_the w : put_queue (the_queue w) w = w;
  put_queue_twice c c' w : put_queue c (put_queue c' w) = put_queue c w
}.

Section Pop.
Context {W : Type} `{HasQueue W} `{QueueListener W}.

Definition on_queue (f : CircularQueue -> CircularQueue) (w : W) : W := put_queue (f (the_queue w)) w.

Definition pop_main (w : W) : outcome (bool * W) :=
  match acquireRead (mainQueue (the_queue w)) with
  | ReadEmpty => Ok (false, w)
  | ReadWaits _ => Blocked
  | ReadReady currentOutput =>
      holder ← in_bounds (get currentOutput (mainQueue (the_queue w)));
      w ← match elementType holder with
          | NOTIFICATION => recordNotification (category holder) (payload holder) (value holder) w
          | METRIC_INFORMATION => recordMetricInformation (metricInformation holder) w
          | METRIC_SAMPLES => recordMetricSamples (time_epoch_millis holder) (metricSamples holder) w
          | CONSTANT_METRICS_COMPLETE => recordConstantMetricsComplete w
          end;
      Ok (true, on_queue (fun c => set_mainQueue (commitRead MainQueueSize currentOutput (mainQueue c)) c) w)
  end.

Definition pop_allocation (w : W) : outcome (bool * W) :=
  match acquireRead (allocationQueue (the_queue w)) with
  | ReadEmpty => Ok (false, w)
  | ReadWaits _ => Blocked
  | ReadReady currentOutput =>
      holder ← in_bounds (get currentOutput (allocationQueue (the_queue w)));
      w ← recordAllocation (allocationSize holder) (outsideTlab holder) (symbol holder) w;
      let forget holder :=
        mkAllocationHolder (a_is_committed holder) None (allocationSize holder) (outsideTlab holder) in
      Ok (true, on_queue (fun c =>
        set_allocationQueue
          (commitRead AllocationQueueSize currentOutput (update currentOutput forget (allocationQueue c))) c) w)
  end.

(** The clearing loop of [pop]. *)
Fixpoint zero_frames (todo : nat) (frame_num : nat) (fb : list CallFrame) : outcome (list CallFrame) :=
  match todo with
  | O => Ok fb
  | S todo =>
      _ ← in_bounds (fb !! frame_num);
      zero_frames todo (S frame_num) (<[frame_num := zero_frame]> fb)
  end.

(** The trace as the listener sees it: the pointer in the holder read as the
    array it points to. *)
Definition load_trace (t : CallTrace nat) (b : list (list CallFrame)) : outcome (CallTrace (list CallFrame)) :=
  fb ← in_bounds (b !! frames t);
  Ok (mkCallTrace (num_frames t) (threadId t) fb).

Definition pop_stack (w : W) : outcome (bool * W) :=
  match acquireRead (stackQueue (the_queue w)) with
  | ReadEmpty => Ok (false, w)
  | ReadWaits _ => Blocked
  | ReadReady currentOutput =>
      holder ← in_bounds (get currentOutput (stackQueue (the_queue w)));
      w ← match s_elementType holder with
          | STACK_TRACE =>
              t ← load_trace (trace holder) (frame_buffer_ (the_queue w));
              w ← recordStackTrace (tspec holder) t (signum holder) (threadState holder) (time_tsc holder) w;
              fb ← in_bounds (frame_buffer_ (the_queue w) !! Z.to_nat currentOutput);
              fb ← zero_frames (Z.to_nat (num_frames (trace holder))) 0 fb;
              Ok (on_queue (fun c =>
                    set_frame_buffer (<[Z.to_nat currentOutput := fb]> (frame_buffer_ c)) c) w)
          | THREAD => recordThread (s_threadId holder) (name holder) w
          end;
      Ok (true, on_queue (fun c => set_stackQueue (commitRead StackQueueSize currentOutput (stackQueue c)) c) w)
  end.

Definition pop (w : W) : outcome (bool * W) :=
  '(read1, w) ← pop_main w;
  '(read2, w) ← pop_allocation w;
  '(read3, w) ← pop_stack w;
  Ok (read1 || read2 || read3, w).
End Pop.
