(* ===== verification/CircularQueueSpec.v ===== *)
(** * The queues deliver what was pushed, in order, and leak no frames

    [qrep max c m a s]: the rings of [c] hold exactly the items [m], [a] and [s]
    and every frame buffer outside them is zero.  Each push appends to one list
    when there is room; [pop] hands the heads to the listener and drops them. *)
From S2P Require Import Prelude InternalQueue InternalQueueSpec MetricTypes CircularQueue.

Inductive main_item :=
| Notified (category : NotificationCategory.t) (payload : string) (value : Z)
| InformationSent (info : MetricInformation)
| SamplesSent (time_epoch_millis : Z) (samples : list MetricSample)
| ConstantsComplete.

Inductive alloc_item := Allocated (allocationSize : Z) (outsideTlab : bool) (symbol : option Z).

Inductive stack_item :=
| TraceTaken (ts : timespec) (t : CallTrace (list CallFrame)) (signum threadState time_tsc : Z)
| ThreadNamed (threadId : Z) (name : string).

Inductive event := MainEvent (e : main_item) | AllocEvent (e : alloc_item) | StackEvent (e : stack_item).

Definition deliver_event {W} `{QueueListener W} (e : event) : W -> outcome W :=
  match e with
  | MainEvent (Notified c p v) => recordNotification c p v
  | MainEvent (InformationSent i) => recordMetricInformation i
  | MainEvent (SamplesSent t l) => recordMetricSamples t l
  | MainEvent ConstantsComplete => recordConstantMetricsComplete
  | AllocEvent (Allocated n o s) => recordAllocation n o s
  | StackEvent (TraceTaken ts t sg st tsc) => recordStackTrace ts t sg st tsc
  | StackEvent (ThreadNamed i n) => recordThread i n
  end.

Definition main_item_of (h : Holder) : main_item :=
  match elementType h with
  | NOTIFICATION => Notified (category h) (payload h) (value h)
  | METRIC_INFORMATION => InformationSent (metricInformation h)
  | METRIC_SAMPLES => SamplesSent (time_epoch_millis h) (metricSamples h)
  | CONSTANT_METRICS_COMPLETE => ConstantsComplete
  end.

Definition alloc_item_of (h : AllocationHolder) : alloc_item :=
  Allocated (allocationSize h) (outsideTlab h) (symbol h).

(** What the frame buffer of a trace holds: its frames, then zeros. *)
Definition padded (max : nat) (n : nat) (l : list CallFrame) : list CallFrame :=
  take n l ++ replicate (max - n) zero_frame.

Definition stored (max : nat) (t : CallTrace (list CallFrame)) : CallTrace (list CallFrame) :=
  mkCallTrace (num_frames t) (threadId t) (padded max (Z.to_nat (num_frames t)) (frames t)).

(** The trace fits the frame buffers and its own array. *)
Definition fits (max : nat) (t : CallTrace (list CallFrame)) : Prop :=
  (Z.to_nat (num_frames t) <= max)%nat /\ (Z.to_nat (num_frames t) <= length (frames t))%nat.

Definition stack_rep (max : nat) (b : list (list CallFrame)) (p : Z) (h : StackHolder) (e : stack_item) : Prop :=
  0 <= p /\
  match e with
  | TraceTaken ts t sg st tsc =>
      s_elementType h = STACK_TRACE /\ tspec h = ts /\ signum h = sg /\ threadState h = st /\
      time_tsc h = tsc /\ trace h = mkCallTrace (num_frames t) (threadId t) (Z.to_nat p) /\
      b !! Z.to_nat p = Some (frames t) /\ (exists t0, fits max t0 /\ t = stored max t0)
  | ThreadNamed i n =>
      s_elementType h = THREAD /\ s_threadId h = i /\ name h = n /\
      b !! Z.to_nat p = Some (replicate max zero_frame)
  end.

Definition stack_free (max : nat) (b : list (list CallFrame)) (p : Z) (h : StackHolder) : Prop :=
  0 <= p /\ b !! Z.to_nat p = Some (replicate max zero_frame).

Definition any {T} (p : Z) (t : T) : Prop := True.

Record qrep (max : nat) (c : CircularQueue) (m : list main_item) (a : list alloc_item)
    (s : list stack_item) : Prop := {
  qrep_main : rep MainQueueSize (fun _ h e => main_item_of h = e) any (mainQueue c) m;
  qrep_alloc : rep AllocationQueueSize (fun _ h e => alloc_item_of h = e) any (allocationQueue c) a;
  qrep_stack : rep StackQueueSize (stack_rep max (frame_buffer_ c)) (stack_free max (frame_buffer_ c))
    (stackQueue c) s
}.

(** ** Frame buffers *)

Lemma padded_zero max n l : n = 0%nat -> padded max n l = replicate max zero_frame.
Proof. intros ->. unfold padded. by rewrite take_0, Nat.sub_0_r. Qed.

Lemma length_padded max n l : (n <= max)%nat -> (n <= length l)%nat -> length (padded max n l) = max.
Proof. intros. unfold padded. rewrite length_app, length_take, length_replicate. lia. Qed.


Lemma insert_app_cons {A} (l r : list A) (x y : A) k :
  k = length l -> <[k := x]> (l ++ y :: r) = l ++ x :: r.
Proof. intros ->. by rewrite insert_app_r_alt, Nat.sub_diag by lia. Qed.

Lemma copy_frames_ok max src todo k :
  (k + todo <= max)%nat -> (k + todo <= length src)%nat ->
  copy_frames todo k src (padded max k src) = Ok (padded max (k + todo) src).
Proof.
  revert k. induction todo as [|todo IH]; intros k Hmax Hlen; simpl.
  { by rewrite Nat.add_0_r. }
  destruct (lookup_lt_is_Some_2 src k) as [f Hf]; [lia|].
  assert (length (take k src) = k) as Hk by (rewrite length_take; lia).
  assert (padded max k src = take k src ++ zero_frame :: replicate (max - S k) zero_frame) as E.
  { unfold padded. by replace (max - k)%nat with (S (max - S k)) by lia. }
  rewrite Hf; simpl. rewrite E, list_lookup_middle by done. simpl.
  rewrite insert_app_cons by done.
  replace (take k src ++ f :: _) with (padded max (S k) src).
  - rewrite IH by lia. do 2 f_equal. lia.
  - unfold padded. by rewrite (take_S_r _ _ _ Hf), <- app_assoc.
Qed.

Lemma zero_frames_ok fb todo k :
  (k + todo <= length fb)%nat ->
  zero_frames todo k fb = Ok (take k fb ++ replicate todo zero_frame ++ drop (k + todo) fb).
Proof.
  revert k fb. induction todo as [|todo IH]; intros k fb Hlen; simpl.
  { by rewrite Nat.add_0_r, take_drop. }
  destruct (lookup_lt_is_Some_2 fb k) as [f Hf]; [lia|]. rewrite Hf; simpl.
  rewrite IH by (rewrite length_insert; lia).
  rewrite (take_S_r _ k zero_frame) by (rewrite list_lookup_insert_eq; [done|lia]).
  rewrite take_insert_ge, drop_insert_lt by lia.
  rewrite <- app_assoc. simpl. by rewrite <- Nat.add_succ_comm.
Qed.

Lemma zero_frames_clears max n fb :
  (n <= max)%nat -> length fb = max -> drop n fb = replicate (max - n) zero_frame ->
  zero_frames n 0 fb = Ok (replicate max zero_frame).
Proof.
  intros Hn Hl Hd. rewrite zero_frames_ok by lia. simpl. rewrite Hd, <- replicate_add.
  by replace (n + (max - n))%nat with max by lia.
Qed.

(** ** Pushing *)

Section PushTo.
Context {T E : Type} `{Committable T} (Size : Z) (HSize : 0 < Size) (Hbig : Size < 2 ^ 63).
Context (R : Z -> T -> E -> Prop) (F : Z -> T -> Prop).

Lemma push_to_room q l f e :
  rep Size R F q l -> Z.of_nat (length l) < Size ->
  (forall p t, R p (set_committed COMMITTED (f t)) e) ->
  exists q', push_to Size f q = (true, q') /\ rep Size R F q' (l ++ [e]).
Proof using HSize Hbig.
  intros Hq Hl HR. unfold push_to.
  destruct (rep_acquire Size HSize Hbig R F q l Hq Hl) as (pos & t & q1 & -> & _ & _ & _ & _ & Hpush).
  eexists. split; [done|]. apply Hpush; eauto.
Qed.

Lemma push_to_full q l f :
  rep Size R F q l -> Z.of_nat (length l) = Size -> push_to Size f q = (false, q).
Proof using HSize Hbig. intros Hq Hl. unfold push_to. by rewrite (rep_full _ HSize Hbig R F q l). Qed.

Lemma rep_weaken (R' : Z -> T -> E -> Prop) (F' : Z -> T -> Prop) q l :
  (forall p t e, R p t e -> R' p t e) -> (forall p t, F p t -> F' p t) ->
  rep Size R F q l -> rep Size R' F' q l.
Proof using Type.
  intros HR HF [o [? ? ? ? ? Hitems Hfree]]. exists o. split; try done.
  - intros k e Hk. destruct (Hitems k e Hk) as (t & ? & ? & ?). eauto.
  - intros k Hk. destruct (Hfree k Hk) as (t & ? & ? & ?). eauto.
Qed.

Lemma rep_length q l : rep Size R F q l -> Z.of_nat (length l) <= Size.
Proof using Type. intros [o Hq]. exact (rep_room _ _ _ _ _ _ Hq). Qed.
End PushTo.

Ltac sizes := unfold MainQueueSize, AllocationQueueSize, StackQueueSize in *; lia.

Lemma qrep_new symbol0 tsc0 max : qrep max (new_CircularQueue symbol0 tsc0 max) [] [] [].
Proof.
  split; cbn [mainQueue allocationQueue stackQueue frame_buffer_ new_CircularQueue];
    apply rep_new; try done; try sizes.
  intros p Hp. split; [lia|]. apply lookup_replicate_2. lia.
Qed.

Inductive push_op :=
| PushStackTrace (ts : timespec) (t : CallTrace (list CallFrame)) (signum threadState time_tsc : Z)
| PushThread (name : string) (threadId : Z)
| PushAllocation (allocationSize : Z) (outsideTlab : bool) (symbol : option Z)
| PushNotification (category : NotificationCategory.t) (payload : string) (value : Z)
| PushMetricInformation (info : MetricInformation)
| PushMetricSamples (samples : list MetricSample) (time_epoch_millis : Z)
| PushConstantMetricsComplete.

Definition exec_push (op : push_op) (c : CircularQueue) : outcome (bool * CircularQueue) :=
  match op with
  | PushStackTrace ts t sg st tsc => pushStackTrace ts t sg st tsc c
  | PushThread n i => Ok (pushThread n i c)
  | PushAllocation n o s => Ok (pushAllocation n o s c)
  | PushNotification k p v => Ok (pushNotification_value k p v c)
  | PushMetricInformation i => Ok (pushMetricInformation i c)
  | PushMetricSamples l t => Ok (pushMetricSamples l t c)
  | PushConstantMetricsComplete => Ok (pushConstantMetricsComplete c)
  end.

(** The ring a push goes to and the item it appends. *)
Definition op_event (max : nat) (op : push_op) : event :=
  match op with
  | PushStackTrace ts t sg st tsc => StackEvent (TraceTaken ts (stored max t) sg st tsc)
  | PushThread n i => StackEvent (ThreadNamed i n)
  | PushAllocation n o s => AllocEvent (Allocated n o s)
  | PushNotification k p v => MainEvent (Notified k p v)
  | PushMetricInformation i => MainEvent (InformationSent i)
  | PushMetricSamples l t => MainEvent (SamplesSent t l)
  | PushConstantMetricsComplete => MainEvent ConstantsComplete
  end.

Definition op_fits (max : nat) (op : push_op) : Prop :=
  match op with PushStackTrace _ t _ _ _ => fits max t | _ => True end.

(** What the queues hold, as three lists, and the bounded append on them. *)
Record contents := Contents {
  main_items : list main_item;
  alloc_items : list alloc_item;
  stack_items : list stack_item
}.

Definition holds (max : nat) (c : CircularQueue) (l : contents) : Prop :=
  qrep max c (main_items l) (alloc_items l) (stack_items l).

Definition has_room (l : contents) (e : event) : bool :=
  match e with
  | MainEvent _ => Z.of_nat (length (main_items l)) <? MainQueueSize
  | AllocEvent _ => Z.of_nat (length (alloc_items l)) <? AllocationQueueSize
  | StackEvent _ => Z.of_nat (length (stack_items l)) <? StackQueueSize
  end.

Definition append (l : contents) (e : event) : contents :=
  match e with
  | MainEvent e => Contents (main_items l ++ [e]) (alloc_items l) (stack_items l)
  | AllocEvent e => Contents (main_items l) (alloc_items l ++ [e]) (stack_items l)
  | StackEvent e => Contents (main_items l) (alloc_items l) (stack_items l ++ [e])
  end.

Definition append_if_room (l : contents) (e : event) : contents :=
  if has_room l e then append l e else l.

(** Which counter a refused push increments. *)
Definition count_refusal (e : push_op) (f : Failures) : Failures :=
  match e with
  | PushAllocation _ _ _ => count_allocation_failure f
  | PushMetricInformation _ | PushMetricSamples _ _ | PushConstantMetricsComplete => count_metric_failure f
  | _ => f
  end.

Definition push_result (max : nat) (op : push_op) (c : CircularQueue) (l : contents) : Prop :=
  exists c', exec_push op c = Ok (has_room l (op_event max op), c') /\
    if has_room l (op_event max op)
    then holds max c' (append l (op_event max op)) /\ failures c' = failures c
    else c' = set_failures (count_refusal op (failures c)) c.

Lemma set_same_failures c : set_failures (failures c) c = c.
Proof. by destruct c. Qed.
Lemma set_same_main c : set_mainQueue (mainQueue c) c = c.
Proof. by destruct c. Qed.
Lemma set_same_stack c : set_stackQueue (stackQueue c) c = c.
Proof. by destruct c. Qed.

(** Pushes one item of the main ring: its holder must decode to the item. *)
Lemma push_main_spec max c l store e :
  holds max c l -> (forall h, main_item_of (set_committed COMMITTED (store h)) = e) ->
  if has_room l (MainEvent e)
  then exists q, push_to MainQueueSize store (mainQueue c) = (true, q) /\
    holds max (set_mainQueue q c) (append l (MainEvent e))
  else push_to MainQueueSize store (mainQueue c) = (false, mainQueue c).
Proof.
  intros [Hm Ha Hs] Hstore. simpl. destruct (Z.ltb_spec (Z.of_nat (length (main_items l))) MainQueueSize).
  - destruct (push_to_room MainQueueSize ltac:(sizes) ltac:(sizes) _ _ _ _ store e Hm) as (q & Hq & Hrep);
      [done|by intros|]. exists q. split; [done|]. by split.
  - pose proof (rep_length _ _ _ _ _ Hm). eapply push_to_full; [sizes|sizes|exact Hm|lia].
Qed.

Lemma push_metric_spec max c l store e (op : push_op) :
  exec_push op c = Ok (push_metric store c) -> op_event max op = MainEvent e ->
  count_refusal op (failures c) = count_metric_failure (failures c) ->
  holds max c l -> (forall h, main_item_of (set_committed COMMITTED (store h)) = e) ->
  push_result max op c l.
Proof.
  intros Hop He Hf Hc Hstore. unfold push_result, push_metric in *. rewrite Hop, He, Hf.
  pose proof (push_main_spec max c l store e Hc Hstore) as Hp.
  destruct (has_room l (MainEvent e)); [destruct Hp as (q & -> & Hq)|rewrite Hp]; eauto.
Qed.

Lemma push_information_spec max c l i : holds max c l -> push_result max (PushMetricInformation i) c l.
Proof. intros Hc. by eapply push_metric_spec. Qed.

Lemma push_samples_spec max c l s t : holds max c l -> push_result max (PushMetricSamples s t) c l.
Proof. intros Hc. by eapply push_metric_spec. Qed.

Lemma push_complete_spec max c l : holds max c l -> push_result max PushConstantMetricsComplete c l.
Proof. intros Hc. by eapply push_metric_spec. Qed.

Lemma samples_holds max c l s t :
  holds max c l -> holds max (pushMetricSamples s t c).2 (append_if_room l (MainEvent (SamplesSent t s))).
Proof.
  intros Hc. destruct (push_samples_spec max c l s t Hc) as (c' & Hpush & Hres).
  cbn [exec_push op_event count_refusal] in Hpush, Hres. injection Hpush as ->. unfold append_if_room.
  destruct (has_room l _); [by destruct Hres|]. subst c'. by destruct Hc.
Qed.

Lemma holds_set_failures max f c l : holds max c l -> holds max (set_failures f c) l.
Proof. by intros []. Qed.

Lemma push_notification_spec max c l k p v :
  holds max c l -> push_result max (PushNotification k p v) c l.
Proof.
  intros Hc. unfold push_result, exec_push, pushNotification_value.
  pose proof (push_main_spec max c l (fun holder =>
    mkHolder (h_is_committed holder) NOTIFICATION k p v
      (metricInformation holder) (time_epoch_millis holder) (metricSamples holder)) (Notified k p v) Hc
    (fun _ => eq_refl)) as Hp. simpl in Hp |- *.
  destruct (_ <? _); [destruct Hp as (q & -> & Hq); by eauto|rewrite Hp].
  eexists. split; [done|]. by rewrite set_same_main, set_same_failures.
Qed.

Lemma push_allocation_spec max c l n o s :
  holds max c l -> push_result max (PushAllocation n o s) c l.
Proof.
  intros [Hm Ha Hs]. unfold push_result; simpl. unfold pushAllocation.
  destruct (Z.ltb_spec (Z.of_nat (length (alloc_items l))) AllocationQueueSize).
  - destruct (push_to_room AllocationQueueSize ltac:(sizes) ltac:(sizes) _ _ _ _
      (fun h => mkAllocationHolder (a_is_committed h) s n o) (Allocated n o s) Ha)
      as (q & -> & Hrep); [done|done|]. eexists. split; [done|]. split; [by split|done].
  - pose proof (rep_length _ _ _ _ _ Ha).
    rewrite (push_to_full AllocationQueueSize ltac:(sizes) ltac:(sizes) _ _ _ _ _ Ha ltac:(lia)). eauto.
Qed.

(** A push to the stack ring when it is full changes nothing. *)
Lemma stack_full max c l :
  holds max c l -> StackQueueSize <= Z.of_nat (length (stack_items l)) ->
  acquireWrite StackQueueSize (stackQueue c) = (None, stackQueue c).
Proof.
  intros [Hm Ha Hs] Hfull. pose proof (rep_length _ _ _ _ _ Hs).
  eapply rep_full; [sizes|sizes|exact Hs|lia].
Qed.

Lemma stack_rep_other max b fb p pos h e :
  p <> pos -> 0 <= pos -> stack_rep max b p h e -> stack_rep max (<[Z.to_nat pos := fb]> b) p h e.
Proof.
  intros Hne Hpos [Hp He]. split; [done|].
  destruct e; by rewrite list_lookup_insert_ne by lia.
Qed.

Lemma stack_free_other max b fb p pos h :
  p <> pos -> 0 <= pos -> stack_free max b p h -> stack_free max (<[Z.to_nat pos := fb]> b) p h.
Proof. intros Hne Hpos [Hp He]. split; [done|]. by rewrite list_lookup_insert_ne by lia. Qed.

Lemma push_thread_spec max c l n i :
  holds max c l -> push_result max (PushThread n i) c l.
Proof.
  intros Hc. pose proof Hc as [Hm Ha Hs]. unfold push_result; simpl. unfold pushThread, push_to.
  destruct (Z.ltb_spec (Z.of_nat (length (stack_items l))) StackQueueSize) as [Hlt|Hge].
  - destruct (rep_acquire StackQueueSize ltac:(sizes) ltac:(sizes) _ _ _ _ Hs Hlt)
      as (pos & t & q1 & -> & _ & _ & _ & HF & Hpush).
    eexists. split; [done|]. split; [|done]. split; [done|done|]. simpl. apply Hpush; eauto.
    destruct HF as [Hpos HF]. by split_and!.
  - rewrite (stack_full max c l Hc Hge). eexists. split; [done|]. by rewrite set_same_stack, set_same_failures.
Qed.

Lemma push_trace_spec max c l ts t sg st tsc :
  holds max c l -> fits max t -> push_result max (PushStackTrace ts t sg st tsc) c l.
Proof.
  intros Hc [Hfit Hlen]. pose proof Hc as [Hm Ha Hs]. unfold push_result; simpl. unfold pushStackTrace.
  destruct (Z.ltb_spec (Z.of_nat (length (stack_items l))) StackQueueSize) as [Hlt|Hge].
  2: { rewrite (stack_full max c l Hc Hge). eexists. split; [done|]. by rewrite set_same_failures. }
  destruct (rep_acquire StackQueueSize ltac:(sizes) ltac:(sizes) _ _ _ _ Hs Hlt)
    as (pos & h & q1 & -> & Hpos & _ & _ & HF & Hpush).
  destruct HF as [_ HF]. unfold write_frames. rewrite HF; simpl.
  rewrite <- (padded_zero max 0 (frames t)) by done.
  rewrite copy_frames_ok by lia. simpl.
  eexists. split; [done|]. split; [|done]. split; [done|done|]. simpl. apply Hpush.
  - intros. apply stack_rep_other; tauto || lia.
  - intros. apply stack_free_other; tauto || lia.
  - split; [lia|]. split_and!; try done; [|by exists t].
    rewrite list_lookup_insert_eq; [done|]. by apply lookup_lt_Some in HF.
Qed.

(** Every push appends its item to its ring when the ring has room, and
    otherwise changes nothing but the failure counter it owns.  A trace is stored
    as its frames followed by zeros. *)
Theorem pushes_append max c l op :
  holds max c l -> op_fits max op -> push_result max op c l.
Proof.
  intros Hc Hop. destruct op; simpl in Hop.
  - by apply push_trace_spec.
  - by apply push_thread_spec.
  - by apply push_allocation_spec.
  - by apply push_notification_spec.
  - by apply push_information_spec.
  - by apply push_samples_spec.
  - by apply push_complete_spec.
Qed.

(** ** Popping *)

Definition decoded (max : nat) (e : event) : Prop :=
  match e with StackEvent (TraceTaken _ t _ _ _) => exists t0, fits max t0 /\ t = stored max t0 | _ => True end.

(** All a listener may do to the queues it is called from. *)
Inductive notified : CircularQueue -> CircularQueue -> Prop :=
| notified_none c : notified c c
| notified_more c k p v c' : notified (snd (pushNotification_value k p v c)) c' -> notified c c'.

(** What [pop] asks of its listener: it returns, and pushes nothing but
    notifications.  [heard] is the listener's history. *)
Class LawfulListener (max : nat) (W : Type) `{HasQueue W} `{QueueListener W} := {
  listening : W -> Prop;
  accepts : event -> Prop;
  heard : W -> list event;
  listening_put c w : listening w -> listening (put_queue c w);
  heard_put c w : heard (put_queue c w) = heard w;
  deliver_lawful e w :
    listening w -> accepts e -> decoded max e ->
    exists w', deliver_event e w = Ok w' /\ listening w' /\ heard w' = heard w ++ [e] /\
      notified (the_queue w) (the_queue w')
}.

Lemma acquireRead_output {T} `{Committable T} (q : queue T) p : acquireRead q = ReadReady p -> p = output q.
Proof.
  unfold acquireRead. destruct (_ =? _); [done|].
  destruct (get _ _) as [t|]; [|done]. destruct (_ =? _); [|done]. by intros [=].
Qed.

Lemma commitRead_id {T} `{Committable T} Size pos (q : queue T) :
  commitRead Size pos q = commitRead Size pos (update pos id q).
Proof. unfold commitRead, update. simpl. by rewrite (list_alter_id id). Qed.

Lemma push_to_output {T} `{Committable T} Size f (q : queue T) : output (push_to Size f q).2 = output q.
Proof. unfold push_to, acquireWrite. by destruct (_ =? _). Qed.

Lemma notified_holds max c c' l :
  notified c c' -> holds max c l ->
  exists m, holds max c' (Contents (main_items l ++ m) (alloc_items l) (stack_items l)) /\
    output (mainQueue c') = output (mainQueue c) /\
    allocationQueue c' = allocationQueue c /\ stackQueue c' = stackQueue c /\
    frame_buffer_ c' = frame_buffer_ c.
Proof.
  intros Hn. revert l. induction Hn as [c|c k p v c' Hn IH]; intros l Hl.
  { exists []. rewrite app_nil_r. by destruct l. }
  destruct (push_notification_spec max c l k p v Hl) as (c1 & Hc1 & Hres).
  simpl in Hc1, Hres. injection Hc1 as Hc1. assert (snd (pushNotification_value k p v c) = c1) as E by (by rewrite Hc1).
  rewrite E in *.
  assert (output (mainQueue c1) = output (mainQueue c) /\ allocationQueue c1 = allocationQueue c /\
    stackQueue c1 = stackQueue c /\ frame_buffer_ c1 = frame_buffer_ c) as (E1 & E2 & E3 & E4).
  { rewrite <- E. unfold pushNotification_value.
    destruct (push_to _ _ _) as [b q] eqn:Eq. simpl. split; [|done].
    apply (f_equal snd) in Eq. simpl in Eq. by rewrite <- Eq, push_to_output. }
  rewrite <- E1, <- E2, <- E3, <- E4.
  destruct (_ <? _).
  - destruct Hres as [Hres _]. destruct (IH _ Hres) as (m & Hm & ?). simpl in Hm.
    exists (Notified k p v :: m). by rewrite <- app_assoc in Hm.
  - apply IH. rewrite Hres, set_same_failures. done.
Qed.

Definition nonempty {A} (l : list A) : bool := match l with [] => false | _ => true end.

Section PopSpec.
Context {max : nat} {W : Type} `{LawfulListener max W}.

Definition popped (before after : W) (events : list event) (l' : contents) : Prop :=
  listening after /\ heard after = heard before ++ events /\ holds max (the_queue after) l'.

(** One delivery, seen from the ring it comes from. *)
Lemma deliver_spec e w l :
  listening w -> accepts e -> decoded max e -> holds max (the_queue w) l ->
  exists w' m, deliver_event e w = Ok w' /\
    popped w w' [e] (Contents (main_items l ++ m) (alloc_items l) (stack_items l)) /\
    output (mainQueue (the_queue w')) = output (mainQueue (the_queue w)) /\
    allocationQueue (the_queue w') = allocationQueue (the_queue w) /\
    stackQueue (the_queue w') = stackQueue (the_queue w) /\
    frame_buffer_ (the_queue w') = frame_buffer_ (the_queue w).
Proof.
  intros Hw He Hd Hl. destruct (deliver_lawful e w Hw He Hd) as (w' & Hdel & Hw' & Hh & Hn).
  destruct (notified_holds max _ _ l Hn Hl) as (m & ? & ? & ? & ? & ?). exists w', m. by split_and!.
Qed.

Lemma pop_main_spec w l :
  listening w -> holds max (the_queue w) l -> Forall (fun e => accepts (MainEvent e)) (main_items l) ->
  exists w' m, pop_main w = Ok (nonempty (main_items l), w') /\
    popped w w' (MainEvent <$> take 1 (main_items l))
      (Contents (drop 1 (main_items l) ++ m) (alloc_items l) (stack_items l)).
Proof.
  intros Hw Hl Hacc. pose proof Hl as [Hm Ha Hs]. unfold pop_main. destruct l as [[|e m] a s]; simpl in *.
  { rewrite (rep_empty _ _ _ _ Hm). exists w, [].
    split; [done|]. split; [done|]. by rewrite app_nil_r. }
  destruct (rep_read MainQueueSize ltac:(sizes) ltac:(sizes) _ _ _ _ _ Hm) as (pos & h & Hr & Hpos & Hg & He & _).
  rewrite Hr, Hg. simpl. apply Forall_inv in Hacc.
  destruct (deliver_spec (MainEvent e) w _ Hw Hacc I Hl)
    as (w' & m' & Hdel & (Hw' & Hheard & Hl') & Eout & _).
  assert (match elementType h with
          | NOTIFICATION => recordNotification (category h) (payload h) (value h) w
          | METRIC_INFORMATION => recordMetricInformation (metricInformation h) w
          | METRIC_SAMPLES => recordMetricSamples (time_epoch_millis h) (metricSamples h) w
          | CONSTANT_METRICS_COMPLETE => recordConstantMetricsComplete w
          end = Ok w') as ->.
  { rewrite <- Hdel, <- He. unfold main_item_of. by destruct (elementType h). }
  simpl. exists (on_queue (fun c => set_mainQueue (commitRead MainQueueSize pos (mainQueue c)) c) w'), m'.
  split; [done|].
  unfold popped, on_queue. rewrite heard_put, the_queue_put. split_and!; [by apply listening_put|done|].
  destruct Hl' as [Hm' Ha' Hs']. split; [|done|done]. simpl in *. rewrite commitRead_id.
  destruct (rep_read MainQueueSize ltac:(sizes) ltac:(sizes) _ _ _ _ _ Hm') as (pos' & h' & Hr' & _ & _ & _ & Hpop).
  apply acquireRead_output in Hr, Hr'. rewrite Eout, <- Hr in Hr'. subst pos'.
  rewrite drop_0. apply Hpop; eauto. done.
Qed.

Lemma pop_allocation_spec w l :
  listening w -> holds max (the_queue w) l -> Forall (fun e => accepts (AllocEvent e)) (alloc_items l) ->
  exists w' m, pop_allocation w = Ok (nonempty (alloc_items l), w') /\
    popped w w' (AllocEvent <$> take 1 (alloc_items l))
      (Contents (main_items l ++ m) (drop 1 (alloc_items l)) (stack_items l)).
Proof.
  intros Hw Hl Hacc. pose proof Hl as [Hm Ha Hs]. unfold pop_allocation. destruct l as [m [|e a] s]; simpl in *.
  { rewrite (rep_empty _ _ _ _ Ha). exists w, [].
    split; [done|]. split; [done|]. by rewrite !app_nil_r. }
  destruct (rep_read AllocationQueueSize ltac:(sizes) ltac:(sizes) _ _ _ _ _ Ha)
    as (pos & h & -> & Hpos & -> & He & Hpop).
  simpl. apply Forall_inv in Hacc.
  destruct (deliver_spec (AllocEvent e) w _ Hw Hacc I Hl)
    as (w' & m' & Hdel & (Hw' & Hheard & Hl') & _ & Ealloc & _).
  rewrite <- He in Hdel. simpl in Hdel. rewrite Hdel. simpl. eexists _, m'.
  split; [done|].
  unfold popped, on_queue. rewrite heard_put, the_queue_put. split_and!; [by apply listening_put|done|].
  destruct Hl' as [Hm' Ha' Hs']. split; [done| |done]. simpl in *. rewrite Ealloc, drop_0.
  apply Hpop; eauto. done.
Qed.

Lemma stored_clears t0 :
  fits max t0 -> zero_frames (Z.to_nat (num_frames t0)) 0 (frames (stored max t0)) = Ok (replicate max zero_frame).
Proof using Type.
  intros [Hn Hlen]. apply zero_frames_clears; [done|by apply length_padded|].
  simpl. unfold padded. rewrite drop_app_length' by (rewrite length_take; lia). done.
Qed.

(** The use of the holder in [pop_stack], up to [commitRead]. *)
Lemma stack_use_spec w l e s pos h :
  listening w -> holds max (the_queue w) l -> stack_items l = e :: s -> accepts (StackEvent e) ->
  stack_rep max (frame_buffer_ (the_queue w)) pos h e ->
  exists w' m, match s_elementType h with
    | STACK_TRACE =>
        t ← load_trace (trace h) (frame_buffer_ (the_queue w));
        w ← recordStackTrace (tspec h) t (signum h) (threadState h) (time_tsc h) w;
        fb ← in_bounds (frame_buffer_ (the_queue w) !! Z.to_nat pos);
        fb ← zero_frames (Z.to_nat (num_frames (trace h))) 0 fb;
        Ok (on_queue (fun c => set_frame_buffer (<[Z.to_nat pos := fb]> (frame_buffer_ c)) c) w)
    | THREAD => recordThread (s_threadId h) (name h) w
    end = Ok w' /\
    listening w' /\ heard w' = heard w ++ [StackEvent e] /\
    stackQueue (the_queue w') = stackQueue (the_queue w) /\
    frame_buffer_ (the_queue w') = <[Z.to_nat pos := replicate max zero_frame]> (frame_buffer_ (the_queue w)) /\
    rep MainQueueSize (fun _ h e => main_item_of h = e) any (mainQueue (the_queue w')) (main_items l ++ m) /\
    rep AllocationQueueSize (fun _ h e => alloc_item_of h = e) any (allocationQueue (the_queue w')) (alloc_items l).
Proof.
  intros Hw Hl Hs Hacc [Hpos He].
  assert (decoded max (StackEvent e)) as Hdec by (destruct e; [apply He|done]).
  destruct (deliver_spec (StackEvent e) w _ Hw Hacc Hdec Hl)
    as (w' & m' & Hdel & (Hw' & Hheard & Hl') & _ & _ & Estack & Efb).
  destruct Hl' as [Hm' Ha' _]. destruct e as [ts t sg st tsc|i n]; simpl in Hdel.
  - destruct He as (-> & -> & -> & -> & -> & -> & Hb & t0 & Hfits & Ht).
    unfold load_trace. cbn [frames num_frames threadId]. rewrite Hb. simpl.
    replace (mkCallTrace (num_frames t) (threadId t) (frames t)) with t by (by destruct t).
    rewrite Hdel. simpl. rewrite Efb, Hb. simpl.
    replace (num_frames t) with (num_frames t0) by (by rewrite Ht).
    rewrite Ht, stored_clears by done. simpl.
    eexists _, m'. split; [done|]. unfold on_queue. rewrite heard_put, the_queue_put. simpl.
    rewrite Efb. split_and!; try done; [by apply listening_put|by rewrite <- Ht].
  - destruct He as (-> & -> & -> & Hb). exists w', m'. split; [done|].
    split_and!; try done. by rewrite Efb, list_insert_id.
Qed.

Lemma pop_stack_spec w l :
  listening w -> holds max (the_queue w) l -> Forall (fun e => accepts (StackEvent e)) (stack_items l) ->
  exists w' m, pop_stack w = Ok (nonempty (stack_items l), w') /\
    popped w w' (StackEvent <$> take 1 (stack_items l))
      (Contents (main_items l ++ m) (alloc_items l) (drop 1 (stack_items l))).
Proof.
  intros Hw Hl Hacc. pose proof Hl as [Hm Ha Hs]. unfold pop_stack.
  destruct (stack_items l) as [|e s] eqn:El.
  { rewrite (rep_empty _ _ _ _ Hs). exists w, []. split; [done|]. split; [done|].
    simpl. rewrite !app_nil_r. split; [done|]. by destruct l; simpl in *; subst. }
  destruct (rep_read StackQueueSize ltac:(sizes) ltac:(sizes) _ _ _ _ _ Hs)
    as (pos & h & -> & Hpos & -> & He & Hpop).
  apply Forall_inv in Hacc. cbn [in_bounds mbind outcome_bind].
  destruct (stack_use_spec w l e s pos h Hw Hl El Hacc He)
    as (w' & m' & -> & Hw' & Hheard & Hst & Hb & Hm' & Ha').
  cbn [mbind outcome_bind]. eexists _, m'. split; [done|].
  unfold popped, on_queue. rewrite heard_put, the_queue_put. split_and!; [by apply listening_put|done|].
  split; [done|done|]. simpl. rewrite Hst, Hb, drop_0, commitRead_id. apply Hpop.
  - intros. apply stack_rep_other; tauto || lia.
  - intros. apply stack_free_other; tauto || lia.
  - split; [lia|]. rewrite list_lookup_insert_eq; [done|].
    destruct He as [_ He]. destruct e; eapply lookup_lt_Some; apply He.
Qed.

Lemma pop_spec w l :
  listening w -> holds max (the_queue w) l ->
  Forall (fun e => accepts (MainEvent e)) (main_items l) ->
  Forall (fun e => accepts (AllocEvent e)) (alloc_items l) ->
  Forall (fun e => accepts (StackEvent e)) (stack_items l) ->
  exists w' m,
    pop w = Ok (nonempty (main_items l) || nonempty (alloc_items l) || nonempty (stack_items l), w') /\
    popped w w'
      ((MainEvent <$> take 1 (main_items l)) ++ (AllocEvent <$> take 1 (alloc_items l))
        ++ (StackEvent <$> take 1 (stack_items l)))
      (Contents (drop 1 (main_items l) ++ m) (drop 1 (alloc_items l)) (drop 1 (stack_items l))).
Proof.
  intros Hw Hl Hma Hal Hst. unfold pop.
  destruct (pop_main_spec w l Hw Hl Hma) as (w1 & m1 & -> & Hw1 & Hh1 & Hl1). simpl in *.
  destruct (pop_allocation_spec w1 _ Hw1 Hl1 Hal) as (w2 & m2 & -> & Hw2 & Hh2 & Hl2). simpl in *.
  destruct (pop_stack_spec w2 _ Hw2 Hl2 Hst) as (w3 & m3 & -> & Hw3 & Hh3 & Hl3). simpl in *.
  exists w3, (m1 ++ m2 ++ m3). split; [done|]. split; [done|]. split.
  - by rewrite Hh3, Hh2, Hh1, !app_assoc.
  - by rewrite !app_assoc.
Qed.
(** C3. [pop] hands the listener the oldest item of each non-empty ring, main
    ring first, exactly as it was pushed, and removes those items; it reports
    whether there was any.  What the listener pushed meanwhile is queued behind. *)
Theorem pop_delivers w l :
  listening w -> holds max (the_queue w) l ->
  Forall (fun e => accepts (MainEvent e)) (main_items l) ->
  Forall (fun e => accepts (AllocEvent e)) (alloc_items l) ->
  Forall (fun e => accepts (StackEvent e)) (stack_items l) ->
  exists w' m,
    pop w = Ok (nonempty (main_items l) || nonempty (alloc_items l) || nonempty (stack_items l), w') /\
    popped w w'
      ((MainEvent <$> take 1 (main_items l)) ++ (AllocEvent <$> take 1 (alloc_items l))
        ++ (StackEvent <$> take 1 (stack_items l)))
      (Contents (drop 1 (main_items l) ++ m) (drop 1 (alloc_items l)) (drop 1 (stack_items l))).
Proof. apply pop_spec. Qed.
End PopSpec.

(** ** Traces that do not fit *)

Lemma copy_frames_overflow src todo k fb :
  (k <= length fb < k + todo)%nat -> copy_frames todo k src fb = Undefined.
Proof.
  revert k fb. induction todo as [|todo IH]; intros k fb Hk; simpl; [lia|].
  destruct (src !! k) as [f|]; [simpl|done].
  destruct (fb !! k) eqn:Ek; [simpl|done].
  apply lookup_lt_Some in Ek. apply IH. rewrite length_insert. lia.
Qed.

Lemma push_trace_overflow max c l ts t sg st tsc :
  holds max c l -> Z.of_nat (length (stack_items l)) < StackQueueSize -> Z.of_nat max < num_frames t ->
  pushStackTrace ts t sg st tsc c = Undefined.
Proof.
  intros [Hm Ha Hs] Hroom Hbig. unfold pushStackTrace.
  destruct (rep_acquire StackQueueSize ltac:(sizes) ltac:(sizes) _ _ _ _ Hs Hroom)
    as (pos & h & q1 & -> & Hpos & _ & _ & [_ HF] & _).
  unfold write_frames. rewrite HF. simpl. rewrite copy_frames_overflow; [done|].
  rewrite length_replicate. lia.
Qed.

(** A trace with more frames than [maxFrameSize] is written past the end
    of its frame buffer. *)
Theorem oversized_trace_overflows max c l ts t sg st tsc :
  holds max c l -> Z.of_nat (length (stack_items l)) < StackQueueSize -> Z.of_nat max < num_frames t ->
  pushStackTrace ts t sg st tsc c = Undefined.
Proof. apply push_trace_overflow. Qed.

(** A trace with a negative frame count reaches the listener with no
    frame at all: every entry of the array it is handed is zero. *)
Theorem error_trace_loses_frames max c l ts t sg st tsc :
  holds max c l -> Z.of_nat (length (stack_items l)) < StackQueueSize -> num_frames t < 0 ->
  exists c', pushStackTrace ts t sg st tsc c = Ok (true, c') /\
    holds max c' (append l (StackEvent (TraceTaken ts
      (mkCallTrace (num_frames t) (threadId t) (replicate max zero_frame)) sg st tsc))).
Proof.
  intros Hc Hroom Hneg.
  destruct (push_trace_spec max c l ts t sg st tsc Hc) as (c' & Hpush & Hres); [split; lia|].
  simpl in Hpush, Hres. apply Z.ltb_lt in Hroom. rewrite Hroom in Hpush, Hres.
  exists c'. split; [done|]. destruct Hres as [Hres _].
  unfold stored in Hres. by rewrite padded_zero in Hres by lia.
Qed.

(** ** A listener that only remembers *)

Record recorder := Recorder { rec_queue : CircularQueue; rec_heard : list event }.

#[export] Instance recorder_queue : HasQueue recorder := {
  the_queue := rec_queue;
  put_queue c w := Recorder c (rec_heard w);
  the_queue_put c w := eq_refl;
  put_queue_the w := match w with Recorder _ _ => eq_refl end;
  put_queue_twice c c' w := eq_refl
}.

Definition remember (e : event) (w : recorder) : outcome recorder :=
  Ok (Recorder (rec_queue w) (rec_heard w ++ [e])).

#[export] Instance recorder_listener : QueueListener recorder := {
  recordStackTrace ts t sg st tsc := remember (StackEvent (TraceTaken ts t sg st tsc));
  recordThread i n := remember (StackEvent (ThreadNamed i n));
  recordAllocation n o s := remember (AllocEvent (Allocated n o s));
  recordNotification k p v := remember (MainEvent (Notified k p v));
  recordMetricInformation i := remember (MainEvent (InformationSent i));
  recordMetricSamples t l := remember (MainEvent (SamplesSent t l));
  recordConstantMetricsComplete := remember (MainEvent ConstantsComplete)
}.

#[export] Program Instance recorder_lawful max : LawfulListener max recorder := {|
  listening _ := True;
  accepts _ := True;
  heard := rec_heard
|}.
Next Obligation. done. Qed.
Next Obligation. done. Qed.
Next Obligation.
  intros max e w _ _ _. exists (Recorder (rec_queue w) (rec_heard w ++ [e])).
  split; [by destruct e as [[]|[]|[]]|]. split_and!; [done|done|]. apply notified_none.
Qed.

Lemma push_notification_holds max c l k p v :
  holds max c l -> Z.of_nat (length (main_items l)) < MainQueueSize ->
  holds max (pushNotification_value k p v c).2 (append l (MainEvent (Notified k p v))).
Proof.
  intros Hc Hroom. destruct (push_notification_spec max c l k p v Hc) as (c' & Hpush & Hres).
  simpl in Hpush, Hres. apply Z.ltb_lt in Hroom. rewrite Hroom in Hpush, Hres.
  injection Hpush as ->. by destruct Hres.
Qed.

Lemma push_trace_holds max c l ts t sg st tsc :
  holds max c l -> fits max t -> Z.of_nat (length (stack_items l)) < StackQueueSize ->
  exists c', pushStackTrace ts t sg st tsc c = Ok (true, c') /\
    holds max c' (append l (StackEvent (TraceTaken ts (stored max t) sg st tsc))).
Proof.
  intros Hc Hfit Hroom. destruct (push_trace_spec max c l ts t sg st tsc Hc Hfit) as (c' & Hpush & Hres).
  simpl in Hpush, Hres. apply Z.ltb_lt in Hroom. rewrite Hroom in Hpush, Hres. exists c'. by destruct Hres.
Qed.

(** A queue holding one notification. *)
Definition one_notification : CircularQueue :=
  (pushNotification_value NotificationCategory.USER_ERROR "x" 1 (new_CircularQueue None 0 4)).2.

Lemma one_notification_holds :
  holds 4 one_notification (Contents [Notified NotificationCategory.USER_ERROR "x" 1] [] []).
Proof. apply (push_notification_holds 4 _ (Contents [] [] [])); [exact (qrep_new None 0 4)|done]. Qed.

Definition two_frames : CallTrace (list CallFrame) :=
  mkCallTrace 2 9 [mkCallFrame false 4096; mkCallFrame true 8192].
Definition failed_trace : CallTrace (list CallFrame) :=
  mkCallTrace (-2) 9 [mkCallFrame false 4096; mkCallFrame true 8192].
Definition midnight : timespec := mkTimespec 0 0.

Lemma pushes_append_witness :
  push_result 4 (PushStackTrace midnight two_frames 27 0 0) (new_CircularQueue None 0 4) (Contents [] [] []).
Proof.
  apply pushes_append; [exact (qrep_new None 0 4)|].
  split; apply Nat.leb_le; reflexivity.
Defined.

Lemma pop_delivers_witness :
  exists w m, pop (Recorder one_notification []) = Ok (true, w) /\
    popped (max := 4) (Recorder one_notification []) w
      [MainEvent (Notified NotificationCategory.USER_ERROR "x" 1)] (Contents m [] []).
Proof.
  destruct (pop_delivers (max := 4) (Recorder one_notification []) _ ltac:(exact I) one_notification_holds)
    as (w & m & Hw).
  - by repeat constructor.
  - constructor.
  - constructor.
  - exists w, m. exact Hw.
Defined.

Lemma oversized_trace_overflows_witness :
  pushStackTrace midnight two_frames 27 0 0 (new_CircularQueue None 0 1) = Undefined.
Proof.
  apply (oversized_trace_overflows 1 _ (Contents [] [] [])); [exact (qrep_new None 0 1)|reflexivity|reflexivity].
Defined.

Lemma error_trace_loses_frames_witness :
  exists c, pushStackTrace midnight failed_trace 27 0 0 (new_CircularQueue None 0 4) = Ok (true, c) /\
    holds 4 c (Contents [] [] [TraceTaken midnight (mkCallTrace (-2) 9 (replicate 4 zero_frame)) 27 0 0]).
Proof.
  apply (error_trace_loses_frames 4 _ (Contents [] [] [])); [exact (qrep_new None 0 4)|reflexivity|reflexivity].
Defined.
