(* ===== verification/StackRing.v ===== *)
(** * The stack queue between threads ([lib/circular_queue.cpp], [lib/internal_queue.h])

    [pushStackTrace], [pushThread] and the part of [pop] for the stack queue, one store
    and one load at a time.  Any number of threads push, each possibly stopped
    between two stores (a signal handler is one more thread here), and one thread
    pops.  [ring] is the interleaved ring of [InternalQueue.v]: the two indices,
    the [is_committed] flags and where every thread stands in it; the other
    members of the holders are [cells], the frame buffers are [frame_buffers]. *)
From S2P Require Import Prelude MetricTypes InternalQueue CircularQueue CircularQueueSpec.

(** ** The stores of a push *)

Inductive store :=
| StoreFrame (frame_num : nat)
| StoreTraceFrames | StoreTraceThreadId | StoreNumFrames
| StoreElementType | StoreSeconds | StoreNanoseconds | StoreSignum | StoreThreadState | StoreTsc
| StoreName | StoreThreadId.

(** In the order of the source; [write] makes the first of a trace. *)
Definition stores_of (x : stack_item) : list store :=
  match x with
  | TraceTaken _ item _ _ _ =>
      (StoreFrame <$> seq 0 (Z.to_nat (num_frames item))) ++
      [StoreTraceFrames; StoreTraceThreadId; StoreNumFrames;
       StoreElementType; StoreSeconds; StoreNanoseconds; StoreSignum; StoreThreadState; StoreTsc]
  | ThreadNamed _ _ => [StoreElementType; StoreName; StoreThreadId]
  end.

Definition set_trace (t : CallTrace nat) (h : StackHolder) : StackHolder :=
  mkStackHolder (s_is_committed h) (s_elementType h) (tspec h) t (signum h) (threadState h) (time_tsc h) (s_threadId h) (name h).
Definition set_tspec (ts : timespec) (h : StackHolder) : StackHolder :=
  mkStackHolder (s_is_committed h) (s_elementType h) ts (trace h) (signum h) (threadState h) (time_tsc h) (s_threadId h) (name h).
Definition set_elementType (e : StackElementType) (h : StackHolder) : StackHolder :=
  mkStackHolder (s_is_committed h) e (tspec h) (trace h) (signum h) (threadState h) (time_tsc h) (s_threadId h) (name h).

(** A store into the holder of the slot [slot]; a frame goes elsewhere. *)
Definition store_holder (x : stack_item) (slot : nat) (s : store) (h : StackHolder) : StackHolder :=
  match x with
  | TraceTaken ts item sg st tsc =>
      match s with
      | StoreTraceFrames => set_trace (mkCallTrace (num_frames (trace h)) (threadId (trace h)) slot) h
      | StoreTraceThreadId => set_trace (mkCallTrace (num_frames (trace h)) (threadId item) (frames (trace h))) h
      | StoreNumFrames => set_trace (mkCallTrace (num_frames item) (threadId (trace h)) (frames (trace h))) h
      | StoreElementType => set_elementType STACK_TRACE h
      | StoreSeconds => set_tspec (mkTimespec (tv_sec ts) (tv_nsec (tspec h))) h
      | StoreNanoseconds => set_tspec (mkTimespec (tv_sec (tspec h)) (tv_nsec ts)) h
      | StoreSignum => mkStackHolder (s_is_committed h) (s_elementType h) (tspec h) (trace h) sg (threadState h) (time_tsc h) (s_threadId h) (name h)
      | StoreThreadState => mkStackHolder (s_is_committed h) (s_elementType h) (tspec h) (trace h) (signum h) st (time_tsc h) (s_threadId h) (name h)
      | StoreTsc => mkStackHolder (s_is_committed h) (s_elementType h) (tspec h) (trace h) (signum h) (threadState h) tsc (s_threadId h) (name h)
      | _ => h
      end
  | ThreadNamed id n =>
      match s with
      | StoreElementType => set_elementType THREAD h
      | StoreName => mkStackHolder (s_is_committed h) (s_elementType h) (tspec h) (trace h) (signum h) (threadState h) (time_tsc h) (s_threadId h) n
      | StoreThreadId => mkStackHolder (s_is_committed h) (s_elementType h) (tspec h) (trace h) (signum h) (threadState h) (time_tsc h) id (name h)
      | _ => h
      end
  end.

(** ** The machine *)

(** Where the consumer stands between [acquireRead] and [commitRead]: before the
    switch over the type, inside the listener with the frames it has looked at, in
    the listener for a thread, clearing frames, or done. *)
Inductive reader := RNone | RFrames (seen : list CallFrame) | RThread | RZero (frame_num : nat) | RDone.

Record machine := mkMachine {
  ring : config stack_item;
  cells : list StackHolder;
  frame_buffers : list (list CallFrame);
  stores_done : list nat;  (** per producer, for the push it is in *)
  reading : reader;
  heard : list stack_item  (** what the listener was called with *)
}.

Inductive machine_action :=
| Ring (a : action stack_item)
| Store (i : nat)
| Look
| ReadFrame
| Hear
| ZeroFrame
| Reset.

Definition set_ring r m : machine := mkMachine r (cells m) (frame_buffers m) (stores_done m) (reading m) (heard m).
Definition set_cells c m : machine := mkMachine (ring m) c (frame_buffers m) (stores_done m) (reading m) (heard m).
Definition set_buffers b m : machine := mkMachine (ring m) (cells m) b (stores_done m) (reading m) (heard m).
Definition set_done i k m : machine := mkMachine (ring m) (cells m) (frame_buffers m) (<[i := k]> (stores_done m)) (reading m) (heard m).
Definition set_reading r m : machine := mkMachine (ring m) (cells m) (frame_buffers m) (stores_done m) r (heard m).
Definition hear x m : machine := mkMachine (ring m) (cells m) (frame_buffers m) (stores_done m) (reading m) (heard m ++ [x]).

Section Machine.
Context (Size : Z).

(** The actions of the ring that stand for themselves; the use of a slot by its
    producer and by the consumer is split below. *)
Definition ring_action (a : action stack_item) : bool :=
  match a with AWrite _ | CUse | CReset => false | _ => true end.

Definition on_ring (a : action stack_item) (m : machine) : outcome machine :=
  r ← in_bounds (exec Size a (ring m)); Ok (set_ring r m).

(** A store of the push of [x] into the slot [slot]: every access in bounds. *)
Definition perform_store (x : stack_item) (slot : nat) (s : store) (m : machine) : outcome machine :=
  match s, x with
  | StoreFrame n, TraceTaken _ item _ _ _ =>
      f ← in_bounds (frames item !! n);
      fb ← in_bounds (frame_buffers m !! slot);
      _ ← in_bounds (fb !! n);
      Ok (set_buffers (<[slot := <[n := f]> fb]> (frame_buffers m)) m)
  | _, _ =>
      h ← in_bounds (cells m !! slot);
      Ok (set_cells (<[slot := store_holder x slot s h]> (cells m)) m)
  end.

(** The next store of producer [i]; after the last one the slot is written. *)
Definition exec_store (i : nat) (m : machine) : option (outcome machine) :=
  match c_producers (ring m) !! i, stores_done m !! i with
  | Some (PAcquired x currentInput _), Some k =>
      match stores_of x !! k with
      | Some s =>
          Some (m ← perform_store x (Z.to_nat currentInput) s m;
                let m := set_done i (S k) m in
                if (S k =? length (stores_of x))%nat then on_ring (AWrite i) m else Ok m)
      | None => None
      end
  | _, _ => None
  end.

(** The holder the consumer stands on. *)
Definition with_holder (cur : Z) (m : machine) (f : StackHolder -> option (outcome machine)) : option (outcome machine) :=
  match cells m !! Z.to_nat cur with Some h => f h | None => Some Undefined end.

Definition exec_machine (a : machine_action) (m : machine) : option (outcome machine) :=
  match a with
  | Ring a =>
      if ring_action a then
        r ← exec Size a (ring m);
        Some (Ok (match a with ACas i => set_done i 0 (set_ring r m) | _ => set_ring r m end))
      else None
  | Store i => exec_store i m
  | Look =>
      match c_consumer (ring m), reading m with
      | CReady cur, RNone =>
          with_holder cur m (fun h =>
            Some (Ok (set_reading (match s_elementType h with STACK_TRACE => RFrames [] | THREAD => RThread end) m)))
      | _, _ => None
      end
  | ReadFrame =>
      match c_consumer (ring m), reading m with
      | CReady cur, RFrames seen =>
          with_holder cur m (fun h =>
            if Z.of_nat (length seen) <? num_frames (trace h) then
              Some (fb ← in_bounds (frame_buffers m !! frames (trace h));
                    f ← in_bounds (fb !! length seen);
                    Ok (set_reading (RFrames (seen ++ [f])) m))
            else None)
      | _, _ => None
      end
  | Hear =>
      match c_consumer (ring m), reading m with
      | CReady cur, RFrames seen =>
          with_holder cur m (fun h =>
            if Z.of_nat (length seen) <? num_frames (trace h) then None
            else
              let t := mkCallTrace (num_frames (trace h)) (threadId (trace h)) seen in
              Some (on_ring CUse (set_reading (RZero 0) (hear (TraceTaken (tspec h) t (signum h) (threadState h) (time_tsc h)) m))))
      | CReady cur, RThread =>
          with_holder cur m (fun h =>
            Some (on_ring CUse (set_reading RDone (hear (ThreadNamed (s_threadId h) (name h)) m))))
      | _, _ => None
      end
  | ZeroFrame =>
      match c_consumer (ring m), reading m with
      | CUsed cur, RZero k =>
          with_holder cur m (fun h =>
            if Z.of_nat k <? num_frames (trace h) then
              Some (fb ← in_bounds (frame_buffers m !! Z.to_nat cur);
                    _ ← in_bounds (fb !! k);
                    Ok (set_reading (RZero (S k)) (set_buffers (<[Z.to_nat cur := <[k := zero_frame]> fb]> (frame_buffers m)) m)))
            else None)
      | _, _ => None
      end
  | Reset =>
      match c_consumer (ring m), reading m with
      | CUsed cur, RZero k =>
          with_holder cur m (fun h =>
            if Z.of_nat k <? num_frames (trace h) then None else Some (on_ring CReset (set_reading RNone m)))
      | CUsed _, RDone => Some (on_ring CReset (set_reading RNone m))
      | _, _ => None
      end
  end.

(** The push of a trace that fits the buffers, no swap on an index that went all
    the way round. *)
Definition permitted (max : nat) (a : machine_action) (m : machine) : Prop :=
  match a with
  | Ring (ABegin _ (TraceTaken _ t _ _ _)) => fits max t
  | Ring a => no_wrap a (ring m) = true
  | _ => True
  end.

Definition machine_step (max : nat) (m m' : machine) : Prop :=
  exists a, permitted max a m /\ exec_machine a m = Some (Ok m').

(** [h] and [x] are what the memory holds before. *)
Definition new_machine (threads max : nat) (h : StackHolder) (x : stack_item) : machine :=
  mkMachine (initial Size threads x) (replicate (Z.to_nat (Capacity Size)) h)
    (replicate (Z.to_nat (Capacity Size)) (replicate max zero_frame)) (replicate threads 0%nat) RNone [].

(** A whole schedule. *)
Fixpoint run_machine (l : list machine_action) (m : machine) : outcome machine :=
  match l with
  | [] => Ok m
  | a :: l => match exec_machine a m with Some o => m ← o; run_machine l m | None => Blocked end
  end.
End Machine.
