(* ===== verification/StackRingSpec.v ===== *)
(** * No torn traces

    The stack queue split into single stores and loads still hands the listener
    exactly what was pushed, and no access is out of bounds. *)
From S2P Require Import Prelude MetricTypes InternalQueue InternalQueueSpec CircularQueue CircularQueueSpec StackRing.

(** What the listener hears of a push: the frames, without what is behind them in
    the array. *)
Definition exact (x : stack_item) : stack_item :=
  match x with
  | TraceTaken ts t sg st tsc =>
      TraceTaken ts (mkCallTrace (num_frames t) (threadId t) (take (Z.to_nat (num_frames t)) (frames t))) sg st tsc
  | ThreadNamed _ _ => x
  end.

Definition job_frames (x : stack_item) : list CallFrame :=
  match x with TraceTaken _ t _ _ _ => frames t | ThreadNamed _ _ => [] end.
Definition job_size (x : stack_item) : nat :=
  match x with TraceTaken _ t _ _ _ => Z.to_nat (num_frames t) | ThreadNamed _ _ => 0 end.
Definition job_fits (max : nat) (x : stack_item) : Prop := (job_size x <= max)%nat /\ (job_size x <= length (job_frames x))%nat.

Lemma length_stores x : length (stores_of x) = (job_size x + match x with TraceTaken _ _ _ _ _ => 9 | ThreadNamed _ _ => 3 end)%nat.
Proof. destruct x; [|done]. simpl. rewrite length_app, length_fmap, length_seq. done. Qed.

Lemma stores_frame x k : (k < job_size x)%nat -> stores_of x !! k = Some (StoreFrame k).
Proof.
  destruct x as [ts t sg st tsc|]; simpl; [|lia]. intros Hk.
  rewrite lookup_app_l by (rewrite length_fmap, length_seq; lia).
  rewrite list_lookup_fmap, lookup_seq_lt by done. done.
Qed.

Lemma stores_other x k s : (job_size x <= k)%nat -> stores_of x !! k = Some s -> forall n, s <> StoreFrame n.
Proof.
  destruct x as [ts t sg st tsc|]; simpl; intros Hk Hs n ->.
  - rewrite lookup_app_r in Hs by (rewrite length_fmap, length_seq; lia). apply list_elem_of_lookup_2 in Hs.
    repeat (apply elem_of_cons in Hs as [?|Hs]; [done|]). by apply elem_of_nil in Hs.
  - apply list_elem_of_lookup_2 in Hs.
    repeat (apply elem_of_cons in Hs as [?|Hs]; [done|]). by apply elem_of_nil in Hs.
Qed.

(** ** What a slot holds during a push *)

(** The holder and the frame buffer of [slot] after [k] stores of [x]. *)
Definition filled (max : nat) (x : stack_item) (slot k : nat) (h : StackHolder) (b : list CallFrame) : Prop :=
  exists h0, h = foldl (fun h s => store_holder x slot s h) h0 (take k (stores_of x)) /\
    b = padded max (min k (job_size x)) (job_frames x).
Definition complete (max : nat) (x : stack_item) (slot : nat) (h : StackHolder) (b : list CallFrame) : Prop :=
  filled max x slot (length (stores_of x)) h b.

Lemma filled_start max x slot h : filled max x slot 0 h (replicate max zero_frame).
Proof. exists h. split; [by rewrite take_0|]. by rewrite padded_zero. Qed.

Lemma padded_next max k l f : (k < max)%nat -> l !! k = Some f -> <[k := f]> (padded max k l) = padded max (S k) l.
Proof.
  intros Hk Hf. pose proof (lookup_lt_Some _ _ _ Hf). unfold padded.
  replace (max - k)%nat with (S (max - S k)) by lia. simpl.
  rewrite insert_app_cons by (rewrite length_take; lia). by rewrite (take_S_r _ _ _ Hf), <- app_assoc.
Qed.

Lemma filled_frame max x slot k h b : job_fits max x -> (k < job_size x)%nat -> filled max x slot k h b ->
  exists f, job_frames x !! k = Some f /\ is_Some (b !! k) /\ filled max x slot (S k) h (<[k := f]> b).
Proof.
  intros [Hmax Hlen] Hk (h0 & -> & ->). destruct (lookup_lt_is_Some_2 (job_frames x) k) as [f Hf]; [lia|]. exists f. split; [done|].
  rewrite Nat.min_l by lia. split.
  - apply lookup_lt_is_Some_2. rewrite length_padded; lia.
  - exists h0. rewrite (take_S_r _ _ _ (stores_frame x k Hk)), foldl_app, Nat.min_l, padded_next by (done || lia).
    split; [|done]. simpl. by destruct x.
Qed.

Lemma filled_other max x slot k h b s : (job_size x <= k)%nat -> stores_of x !! k = Some s ->
  filled max x slot k h b -> filled max x slot (S k) (store_holder x slot s h) b.
Proof.
  intros Hk Hs (h0 & -> & ->). exists h0. rewrite (take_S_r _ _ _ Hs), foldl_app, !Nat.min_r by lia. done.
Qed.

Lemma foldl_frames x slot l h : foldl (fun h s => store_holder x slot s h) h (StoreFrame <$> l) = h.
Proof. revert h. induction l as [|n l IH]; intros h; simpl; [done|]. rewrite IH. by destruct x. Qed.

(** What a complete slot says of the push. *)
Lemma complete_trace max ts t sg st tsc slot h b : complete max (TraceTaken ts t sg st tsc) slot h b ->
  s_elementType h = STACK_TRACE /\ tspec h = ts /\ trace h = mkCallTrace (num_frames t) (threadId t) slot /\
  signum h = sg /\ threadState h = st /\ time_tsc h = tsc /\ b = padded max (Z.to_nat (num_frames t)) (frames t).
Proof.
  intros (h0 & -> & ->). rewrite take_ge, Nat.min_r by (rewrite ?length_stores; lia). unfold stores_of.
  rewrite foldl_app, foldl_frames. by destruct ts.
Qed.

Lemma complete_thread max id n slot h b : complete max (ThreadNamed id n) slot h b ->
  s_elementType h = THREAD /\ s_threadId h = id /\ name h = n /\ b = replicate max zero_frame.
Proof. intros (h0 & -> & ->). by rewrite padded_zero by (simpl; lia). Qed.

(** ** The invariant *)

Section Invariant.
Context (Size : Z) (HSize : 0 < Size) (Hbig : Size < 2 ^ 63) (max : nat).
Local Abbreviation C := (Capacity Size).
Local Abbreviation place t := (Z.to_nat (index Size t)).
Local Abbreviation zeros := (replicate max zero_frame).
Implicit Types m : machine.
Implicit Types c : config stack_item.

(** The memory of the slot of a ticket. *)
Definition at_ticket m (t : Z) (h : StackHolder) (b : list CallFrame) : Prop :=
  cells m !! place t = Some h /\ frame_buffers m !! place t = Some b.

Definition jobs_fit c : Prop :=
  Forall (job_fits max) (pushed c) /\
  forall i p, c_producers c !! i = Some p ->
    match p with PIdle => True | PStart x | PLoaded x _ _ | PChecked x _ _ | PAcquired x _ _ | PWritten x _ _ => job_fits max x end.

Definition partial m i x t : Prop :=
  exists k h b, stores_done m !! i = Some k /\ (k < length (stores_of x))%nat /\ at_ticket m t h b /\ filled max x (place t) k h b.

Definition full_slot m t x : Prop := exists h b, at_ticket m t h b /\ complete max x (place t) h b.

Definition clean m t : Prop := exists h, at_ticket m t h zeros.

Definition in_use c t : Prop := t = released c /\ exists cur, c_consumer c = CUsed cur.

(** The consumer at the ticket [t] of the push [x]. *)
Definition reader_ok m (t : Z) (x : option stack_item) : Prop :=
  match c_consumer (ring m), reading m, x with
  | (CIdle | CLoaded _ | CWaiting _ | CReady _), RNone, _ => True
  | CReady _, RFrames seen, Some (TraceTaken _ item _ _ _) =>
      seen = take (length seen) (frames item) /\ (length seen <= Z.to_nat (num_frames item))%nat
  | CReady _, RThread, Some (ThreadNamed _ _) => True
  | CUsed _, RZero k, Some (TraceTaken _ item _ _ _) =>
      (k <= Z.to_nat (num_frames item))%nat /\
      exists h, num_frames (trace h) = num_frames item /\
        at_ticket m t h (replicate k zero_frame ++ drop k (padded max (Z.to_nat (num_frames item)) (frames item)))
  | CUsed _, RDone, _ => clean m t
  | CUncommitted _, RNone, _ => clean m t
  | _, _, _ => False
  end.

Record good m : Prop := {
  good_ring : inv Size (ring m);
  good_cells : Z.of_nat (length (cells m)) = C;
  good_buffers : Z.of_nat (length (frame_buffers m)) = C;
  good_done : length (stores_done m) = length (c_producers (ring m));
  good_jobs : jobs_fit (ring m);
  good_partial : forall i x cur t, c_producers (ring m) !! i = Some (PAcquired x cur t) -> partial m i x t;
  good_written : forall i x cur t, c_producers (ring m) !! i = Some (PWritten x cur t) -> full_slot m t x;
  good_committed : forall t x s, low (ring m) <= t < acquired (ring m) -> pushed (ring m) !! Z.to_nat t = Some x ->
    c_buffer (ring m) !! place t = Some s -> flag s = COMMITTED -> ~ in_use (ring m) t -> full_slot m t x;
  good_free : forall t, acquired (ring m) <= t < released (ring m) + C -> clean m t;
  good_reader : reader_ok m (released (ring m)) (pushed (ring m) !! Z.to_nat (released (ring m)));
  good_heard : heard m = exact <$> delivered (ring m)
}.

(** ** Memory *)

(** [m'] is [m] but for the slot of the ticket [t]. *)
Definition elsewhere m m' t : Prop :=
  length (cells m') = length (cells m) /\ length (frame_buffers m') = length (frame_buffers m) /\
  forall p, p <> place t -> cells m' !! p = cells m !! p /\ frame_buffers m' !! p = frame_buffers m !! p.

Lemma place_ne t t' : t <> t' -> - C < t - t' < C -> place t <> place t'.
Proof using HSize. intros Hne Hd E. apply Hne, (index_inj Size HSize); [|done]. by apply (index_nat_inj Size HSize). Qed.

Lemma elsewhere_at m m' t t' h b : elsewhere m m' t -> t <> t' -> - C < t - t' < C -> at_ticket m t' h b -> at_ticket m' t' h b.
Proof using HSize.
  intros (_ & _ & He) Hne Hd [Hh Hb]. destruct (He (place t')) as [E1 E2]; [intros E; by apply (place_ne t t') in Hd|].
  split; congruence.
Qed.

Lemma same_at m m' t h b : cells m' = cells m -> frame_buffers m' = frame_buffers m -> at_ticket m t h b -> at_ticket m' t h b.
Proof using Type. unfold at_ticket. by intros -> ->. Qed.

Lemma same_full m m' t x : cells m' = cells m -> frame_buffers m' = frame_buffers m -> full_slot m t x -> full_slot m' t x.
Proof using Type. intros E E' (h & b & Ha & Hc). exists h, b. split; [by eapply same_at|done]. Qed.

Lemma same_clean m m' t : cells m' = cells m -> frame_buffers m' = frame_buffers m -> clean m t -> clean m' t.
Proof using Type. intros E E' (h & Ha). exists h. by eapply same_at. Qed.

(** ** Steps of the ring that leave the slots alone *)

(** What two configurations agree on when no slot changes hands. *)
Definition same_tickets c c' : Prop :=
  pushed c' = pushed c /\ delivered c' = delivered c /\ acquired c' = acquired c /\ released c' = released c /\
  low c' = low c /\ length (c_producers c') = length (c_producers c).

Definition same_owners c c' : Prop :=
  forall i p x t, c_producers c' !! i = Some p -> owner p = Some (t, x) -> c_producers c !! i = Some p.

Lemma good_ring_step m r :
  good m -> inv Size r -> same_tickets (ring m) r -> same_owners (ring m) r -> jobs_fit r ->
  c_buffer r = c_buffer (ring m) -> (forall t, in_use (ring m) t -> in_use r t) ->
  reader_ok (set_ring r m) (released (ring m)) (pushed (ring m) !! Z.to_nat (released (ring m))) -> good (set_ring r m).
Proof using Type.
  intros [Hr Hc Hb Hd Hj Hp Hw Hcom Hf Hrd Hh] Hr' (Ep & Ed & Ea & Er & El & En) Ho Hj' Eb Hu Hrd'.
  split; cbn [ring cells frame_buffers stores_done reading heard set_ring]; rewrite ?Ep, ?Ea, ?Er, ?El, ?Eb, ?Ed, ?En; try done.
  - intros i x cur t Hi. by apply (Hp i x cur t), (Ho i _ x t).
  - intros i x cur t Hi. by apply (Hw i x cur t), (Ho i _ x t).
  - intros t x s Ht Hx Hs Hfl Hnu. apply (Hcom t x s); try done. intros Hin. by apply Hnu, Hu.
Qed.

Lemma jobs_set_producer c i p : jobs_fit c ->
  match p with PIdle => True | PStart x | PLoaded x _ _ | PChecked x _ _ | PAcquired x _ _ | PWritten x _ _ => job_fits max x end ->
  jobs_fit (set_producer i p c).
Proof using Type.
  intros [Hp Hj] Hf. split; [done|]. intros j q Hq. simpl in Hq. destruct (decide (i = j)) as [->|Hne].
  - apply list_lookup_insert_Some in Hq as [(_ & <- & _)|[? _]]; [done|lia].
  - rewrite list_lookup_insert_ne in Hq by done. by apply (Hj j).
Qed.

Lemma owners_set_producer c i p : owner p = None -> same_owners c (set_producer i p c).
Proof using Type.
  intros Ho j q x t Hq Hoq. simpl in Hq. apply list_lookup_insert_Some in Hq as [(_ & <- & _)|[_ Hq]]; congruence.
Qed.

Lemma reader_same_ring m r t x : c_consumer r = c_consumer (ring m) -> reader_ok m t x -> reader_ok (set_ring r m) t x.
Proof using Type. unfold reader_ok. cbn [ring reading set_ring]. by intros ->. Qed.

(** A producer that owns no slot, before and after. *)
Lemma good_producer m i p r :
  good m -> inv Size r -> (r = set_producer i p (ring m) \/ r = set_producer i p (refuse (ring m))) -> owner p = None ->
  match p with PIdle => True | PStart x | PLoaded x _ _ | PChecked x _ _ | PAcquired x _ _ | PWritten x _ _ => job_fits max x end ->
  good (set_ring r m).
Proof using Type.
  intros Hg Hr Er Ho Hf.
  assert (same_tickets (ring m) r /\ same_owners (ring m) r /\ jobs_fit r /\ c_buffer r = c_buffer (ring m) /\ c_consumer r = c_consumer (ring m))
    as (Ht & Hown & Hj & Hb & Hc).
  { destruct Er as [->| ->]; (split; [split_and!; try done; by apply length_insert|]).
    - split; [by apply owners_set_producer|]. split; [by apply jobs_set_producer; [apply Hg|]|done].
    - split; [by apply (owners_set_producer (refuse (ring m)))|].
      split; [apply jobs_set_producer; [apply (good_jobs m Hg)|done]|done]. }
  apply good_ring_step; try done.
  - intros t [-> (cur & E)]. split; [|exists cur; congruence]. symmetry. apply Ht.
  - apply reader_same_ring; [done|]. apply Hg.
Qed.

(** ** Taking a slot *)

Lemma reader_snoc m r t l x : c_consumer r = c_consumer (ring m) -> (forall cur, c_consumer r = CReady cur \/ c_consumer r = CUsed cur -> is_Some (l !! t)) ->
  reader_ok m (Z.of_nat t) (l !! t) -> reader_ok (set_ring r m) (Z.of_nat t) ((l ++ [x]) !! t).
Proof using Type.
  intros Ec Hl Hr. unfold reader_ok in *. cbn [ring reading set_ring]. rewrite Ec in *.
  destruct (c_consumer (ring m)) eqn:E; try done; (destruct (Hl currentOutput) as [y Hy]; [auto|]); rewrite Hy in Hr;
    by rewrite (lookup_app_l_Some _ _ _ _ Hy).
Qed.

Lemma insert_producer_cases i j p q c : c_producers (set_producer i p c) !! j = Some q ->
  (j = i /\ q = p) \/ (j <> i /\ c_producers c !! j = Some q).
Proof using Type. simpl. intros Hq. apply list_lookup_insert_Some in Hq as [(-> & <- & _)|[? ?]]; auto. Qed.

Lemma partial_same_memory m m' i x t : cells m' = cells m -> frame_buffers m' = frame_buffers m ->
  stores_done m' !! i = stores_done m !! i -> partial m i x t -> partial m' i x t.
Proof using Type.
  intros E E' Ed (k & h & b & Hk & Hlt & Ha & Hf). exists k, h, b. rewrite Ed. split; [done|]. split; [done|]. split; [by eapply same_at|done].
Qed.

Lemma good_take m i x cur :
  good m -> c_producers (ring m) !! i = Some (PChecked x cur (acquired (ring m))) ->
  let r := set_producer i (PAcquired x cur (acquired (ring m))) (take_slot x (advance Size cur) (ring m)) in
  inv Size r -> good (set_done i 0 (set_ring r m)).
Proof using HSize.
  intros Hg Hi r Hr. pose proof (good_ring m Hg) as Hr0. pose proof (lookup_lt_Some _ _ _ Hi) as Hlt.
  pose proof (inv_window Size r Hr) as Hw. cbn in Hw. pose proof (inv_window Size _ Hr0) as Hw0.
  pose proof (inv_pushed Size _ Hr0) as Hl. pose proof (proj2 (good_jobs m Hg) _ _ Hi) as Hfit. cbn in Hfit.
  split; cbn [ring cells frame_buffers stores_done reading heard set_ring set_done]; try apply Hg; [done|..].
  - rewrite length_insert. cbn. rewrite length_insert. apply Hg.
  - apply jobs_set_producer; [|done]. split; cbn; [|apply Hg]. apply Forall_app. split; [apply Hg|by constructor].
  - intros j y cu t Hj. apply insert_producer_cases in Hj as [(-> & E)|(Hne & Hj)].
    + injection E as -> -> ->. destruct (good_free m Hg (acquired (ring m)) ltac:(unfold Capacity; lia)) as (h & Ha).
      exists 0%nat, h, zeros. split; [|split; [rewrite length_stores; destruct x; lia|split; [done|apply filled_start]]].
      apply list_lookup_insert_eq. cbn. by rewrite (good_done m Hg).
    + apply (partial_same_memory m); try done; [|by eapply good_partial]. cbn. by rewrite list_lookup_insert_ne.
  - intros j y cu t Hj. apply insert_producer_cases in Hj as [(-> & E)|(Hne & Hj)]; [done|]. by eapply (good_written m Hg).
  - intros t y s Ht Hy Hs Hfl Hnu. change (low r) with (low (ring m)) in Ht. cbn in Ht, Hy, Hs.
    pose proof (low_bound (ring m)) as Hlow. destruct (Z.eq_dec t (acquired (ring m))) as [->|Hne].
    + destruct (inv_free Size _ Hr0 (acquired (ring m)) ltac:(unfold Capacity; lia)) as (s' & Hs' & Hf'). simplify_eq. by rewrite Hf' in Hfl.
    + rewrite lookup_app_l in Hy by lia. by apply (good_committed m Hg t y s); [lia|..].
  - intros t Ht. apply (good_free m Hg). cbn in Ht. lia.
  - pose proof (good_reader m Hg) as Hrd. cbn. rewrite <- (Z2Nat.id (released (ring m))) in Hrd |- * by lia. rewrite Nat2Z.id in Hrd |- *.
    apply (reader_snoc m r _ _ x); [done| |done]. intros cu Hcu. apply lookup_lt_is_Some_2.
    pose proof (inv_consumer Size _ Hr) as Hk. unfold consumer_ok in Hk. change (c_consumer r) with (c_consumer (ring m)) in *.
    pose proof (inv_consumer Size _ Hr0) as Hk0. unfold consumer_ok in Hk0. destruct Hcu as [E|E]; rewrite E in Hk0; lia.
Qed.

(** ** Committing a slot *)

Lemma good_commit m i x cur t s :
  good m -> c_producers (ring m) !! i = Some (PWritten x cur t) -> c_buffer (ring m) !! Z.to_nat cur = Some s ->
  let r := set_producer i PIdle (set_slot cur (Slot COMMITTED (item s)) (ring m)) in
  inv Size r -> good (set_ring r m).
Proof using HSize.
  intros Hg Hi Hs r Hr. pose proof (good_ring m Hg) as Hr0. pose proof (inv_producers Size _ Hr0 _ _ Hi) as (Ht & -> & Hpush & _).
  pose proof (inv_window Size _ Hr0) as Hw0. pose proof (low_bound (ring m)) as Hlow.
  split; cbn [ring cells frame_buffers stores_done reading heard set_ring set_done]; try apply Hg; [done|..].
  - cbn. rewrite length_insert. apply Hg.
  - apply (jobs_set_producer (set_slot _ _ _)); [apply (good_jobs m Hg)|done].
  - intros j y cu t' Hj. apply insert_producer_cases in Hj as [(-> & E)|(Hne & Hj)]; [done|]. by eapply (good_partial m Hg).
  - intros j y cu t' Hj. apply insert_producer_cases in Hj as [(-> & E)|(Hne & Hj)]; [done|]. by eapply (good_written m Hg).
  - intros t' y s' Ht' Hy Hs' Hfl Hnu. change (low r) with (low (ring m)) in Ht'. cbn in Ht', Hy.
    destruct (Z.eq_dec t t') as [<-|Hne].
    + simplify_eq. by eapply (good_written m Hg).
    + apply (good_committed m Hg t' y s'); try done. rewrite <- Hs'. unfold r, set_producer. cbn [c_buffer].
      rewrite (lookup_set_slot Size HSize) by (done || unfold Capacity; lia). by rewrite decide_False.
Qed.

(** ** Writing a slot *)

(** The consumer does not stand on a slot that a producer writes. *)
Lemma owned_apart m i p x t : good m -> c_producers (ring m) !! i = Some p -> owner p = Some (t, x) ->
  low (ring m) <= t < acquired (ring m) /\
  ((exists cur, c_consumer (ring m) = CUsed cur) -> t <> released (ring m)) /\
  (exists s, c_buffer (ring m) !! place t = Some s /\ flag s = UNCOMMITTED).
Proof using HSize.
  intros Hg Hi Ho. pose proof (good_ring m Hg) as Hr. pose proof (inv_producers Size _ Hr _ _ Hi) as Hp.
  assert (low (ring m) <= t < acquired (ring m) /\ exists s, c_buffer (ring m) !! place t = Some s /\ flag s = UNCOMMITTED) as [Ht (s & Hs & Hf)].
  { destruct p; try done; injection Ho as <- <-; destruct Hp as (Ht & _ & _ & Hs); (split; [done|]); [destruct Hs as [y Hs]|]; by eexists. }
  split; [done|]. split; [|by exists s]. intros (cur & E) ->.
  pose proof (inv_consumer Size _ Hr) as Hk. unfold consumer_ok in Hk. rewrite E in Hk. destruct Hk as (-> & _ & _ & s' & Hs' & Hf').
  simplify_eq. by rewrite Hf' in Hf.
Qed.

Lemma reader_elsewhere m m' t x :
  elsewhere m m' t -> c_consumer (ring m') = c_consumer (ring m) -> reading m' = reading m ->
  t <> released (ring m) \/ not_uncommitted (c_consumer (ring m)) /\ (forall cur, c_consumer (ring m) <> CUsed cur) ->
  - C < t - released (ring m) < C ->
  reader_ok m (released (ring m)) x -> reader_ok m' (released (ring m)) x.
Proof using HSize.
  intros He Ec Er Hor Hd. unfold reader_ok, clean. rewrite Ec, Er.
  destruct Hor as [Hne|[Hnu Hused]].
  - destruct (c_consumer (ring m)); try done; destruct (reading m); try done.
    + destruct x as [[]|]; try done. intros (Hk & h & Hn & Ha). split; [done|]. exists h. split; [done|]. by eapply elsewhere_at.
    + intros (h & Ha). exists h. by eapply elsewhere_at.
    + intros (h & Ha). exists h. by eapply elsewhere_at.
  - destruct (c_consumer (ring m)) eqn:E; try done. by destruct (Hused currentOutput).
Qed.

(** What a store of producer [i] to the slot of its ticket keeps. *)
Record wrote_slot m m' i t p : Prop := {
  ws_inv : inv Size (ring m');
  ws_elsewhere : elsewhere m m' t;
  ws_producers : c_producers (ring m') = <[i := p]> (c_producers (ring m));
  ws_pushed : pushed (ring m') = pushed (ring m);
  ws_delivered : delivered (ring m') = delivered (ring m);
  ws_acquired : acquired (ring m') = acquired (ring m);
  ws_released : released (ring m') = released (ring m);
  ws_consumer : c_consumer (ring m') = c_consumer (ring m);
  ws_flags : forall q, q <> place t -> c_buffer (ring m') !! q = c_buffer (ring m) !! q;
  ws_flag : forall s, c_buffer (ring m') !! place t = Some s -> flag s = UNCOMMITTED;
  ws_length : length (stores_done m') = length (stores_done m);
  ws_done : forall j, j <> i -> stores_done m' !! j = stores_done m !! j;
  ws_reading : reading m' = reading m;
  ws_heard : heard m' = heard m
}.

Lemma good_slot_written m m' i x cur t p :
  good m -> c_producers (ring m) !! i = Some (PAcquired x cur t) -> wrote_slot m m' i t p ->
  match p with PAcquired y _ t' => t' = t /\ y = x /\ partial m' i x t | PWritten y _ t' => t' = t /\ y = x /\ full_slot m' t x | _ => False end ->
  good m'.
Proof using HSize.
  intros Hg Hi [Hr He Epr Ep Ed Ea Er Ec Hfl Hf Hlen Hdone Erd Eh] Hp.
  destruct (owned_apart m i _ x t Hg Hi eq_refl) as (Ht & Hused & _).
  pose proof (good_ring m Hg) as Hr0. pose proof (inv_window Size _ Hr0) as Hw0. pose proof (low_bound (ring m)) as Hlow.
  assert (low (ring m') = low (ring m)) as El by (unfold low; by rewrite Ec, Er).
  assert (forall j q u y, j <> i -> c_producers (ring m) !! j = Some q -> owner q = Some (u, y) -> t <> u /\ low (ring m) <= u < acquired (ring m)) as Hother.
  { intros j q u y Hne Hj Ho. destruct (owned_apart m j q y u Hg Hj Ho) as (Hu & _). split; [|done].
    intros <-. by apply Hne, (inv_owners Size _ Hr0 j i _ _ t y x Hj Hi Ho). }
  assert (forall j q, c_producers (ring m') !! j = Some q -> (j = i /\ q = p) \/ (j <> i /\ c_producers (ring m) !! j = Some q)) as Hcase.
  { intros j q Hj. rewrite Epr in Hj. by apply (insert_producer_cases i j p q (ring m)). }
  pose proof He as (Hlc & Hlb & _).
  assert (forall u h b, t <> u -> released (ring m) <= u < released (ring m) + C -> at_ticket m u h b -> at_ticket m' u h b) as Hat.
  { intros u h b Hne Hu. apply (elsewhere_at m m' t); [done|done|]. unfold Capacity in *. lia. }
  split; rewrite ?El, ?Ea, ?Er, ?Ep, ?Ed, ?Eh, ?Hlc, ?Hlb, ?Hlen; try apply Hg; [done|..].
  - rewrite Epr, length_insert. apply Hg.
  - destruct (good_jobs m Hg) as [Hpu Hpr]. split; [by rewrite Ep|]. intros j q Hj.
    destruct (Hcase _ _ Hj) as [(-> & ->)|(Hne & Hj')]; [|by apply (Hpr j)].
    specialize (Hpr _ _ Hi). destruct p; try done; by destruct Hp as (-> & -> & _).
  - intros j y cu u Hj. destruct (Hcase _ _ Hj) as [(-> & <-)|(Hne & Hj')]; [by destruct Hp as (-> & -> & ?)|].
    destruct (Hother _ _ _ _ Hne Hj' eq_refl) as [Hnu Hu].
    destruct (good_partial m Hg _ _ _ _ Hj') as (k & h & b & Hk & Hlt & Hm & Hfi). exists k, h, b.
    rewrite Hdone by done. split; [done|]. split; [done|]. split; [apply Hat; [done|unfold Capacity; lia|done]|done].
  - intros j y cu u Hj. destruct (Hcase _ _ Hj) as [(-> & <-)|(Hne & Hj')]; [by destruct Hp as (-> & -> & ?)|].
    destruct (Hother _ _ _ _ Hne Hj' eq_refl) as [Hnu Hu].
    destruct (good_written m Hg _ _ _ _ Hj') as (h & b & Hm & Hfi). exists h, b.
    split; [apply Hat; [done|unfold Capacity; lia|done]|done].
  - intros u y s Hu Hy Hs Hfu Hnu. destruct (Z.eq_dec t u) as [<-|Hne]; [by rewrite (Hf _ Hs) in Hfu|].
    rewrite Hfl in Hs by (intros E; symmetry in E; apply (place_ne t u) in E; [done|done|unfold Capacity; lia]).
    destruct (good_committed m Hg u y s) as (h & b & Hm & Hc); try done.
    { intros [-> Hin]. apply Hnu. split; [by rewrite Er|]. by rewrite Ec. }
    exists h, b. split; [|done]. apply Hat; [done|unfold Capacity; lia|done].
  - intros u Hu. destruct (good_free m Hg u Hu) as (h & Hm). exists h. apply Hat; [lia|lia|done].
  - apply (reader_elsewhere m m' t); try done; [|unfold Capacity; lia|apply Hg].
    destruct (Z.eq_dec t (released (ring m))) as [->|]; [right|by left]. unfold low in Ht.
    destruct (c_consumer (ring m)); try (split; [done|]; by intros); [|lia]. exfalso. apply Hused; [by eexists|done].
Qed.

Lemma elsewhere_cells m t h : elsewhere m (set_cells (<[place t := h]> (cells m)) m) t.
Proof using Type. split; [apply length_insert|]. split; [done|]. intros q Hq. cbn. by rewrite list_lookup_insert_ne. Qed.

Lemma elsewhere_buffers m t b : elsewhere m (set_buffers (<[place t := b]> (frame_buffers m)) m) t.
Proof using Type. split; [done|]. split; [apply length_insert|]. intros q Hq. cbn. by rewrite list_lookup_insert_ne. Qed.

(** Nothing but the memory of the slot of [t]. *)
Definition only_memory m m' t : Prop :=
  elsewhere m m' t /\ ring m' = ring m /\ stores_done m' = stores_done m /\ reading m' = reading m /\ heard m' = heard m.

Lemma perform_store_spec m t x k s h b :
  job_fits max x -> stores_of x !! k = Some s -> at_ticket m t h b -> filled max x (place t) k h b ->
  exists m' h' b', perform_store x (place t) s m = Ok m' /\ only_memory m m' t /\
    at_ticket m' t h' b' /\ filled max x (place t) (S k) h' b'.
Proof using Type.
  intros Hf Hs [Hh Hb] Hfi. destruct (Nat.lt_ge_cases k (job_size x)) as [Hk|Hk].
  - rewrite (stores_frame x k Hk) in Hs. injection Hs as <-.
    destruct (filled_frame max x _ k h b Hf Hk Hfi) as (f & Ef & [g Eg] & Hfi').
    destruct x as [ts item sg st tsc|]; [|simpl in Hk; lia]. cbn [perform_store job_frames] in *.
    rewrite Ef, Hb. cbn [in_bounds mbind outcome_bind]. rewrite Eg. cbn [in_bounds mbind outcome_bind].
    eexists _, h, _. split; [done|]. split; [split; [apply elsewhere_buffers|done]|]. split; [|done].
    split; [done|]. apply list_lookup_insert_eq. by eapply lookup_lt_Some.
  - pose proof (stores_other x k s Hk Hs) as Hn.
    assert (perform_store x (place t) s m = (h ← in_bounds (cells m !! place t); Ok (set_cells (<[place t := store_holder x (place t) s h]> (cells m)) m))) as ->.
    { destruct s; try done. by destruct (Hn frame_num). }
    rewrite Hh. cbn [in_bounds mbind outcome_bind]. eexists _, _, b. split; [done|]. split; [split; [apply elsewhere_cells|done]|].
    split; [|by apply filled_other]. split; [|done]. apply list_lookup_insert_eq. by eapply lookup_lt_Some.
Qed.

Lemma exec_store_spec i m o : good m -> exec_store Size i m = Some o -> exists m', o = Ok m' /\ good m'.
Proof using HSize Hbig.
  intros Hg He. unfold exec_store in He. destruct (c_producers (ring m) !! i) as [p|] eqn:Hi; [|done]. destruct p as [| | | |x cur t|]; try done.
  destruct (stores_done m !! i) as [k|] eqn:Hk; [|done]. destruct (stores_of x !! k) as [s|] eqn:Hs; [|done]. apply (inj Some) in He. subst o.
  pose proof (good_ring m Hg) as Hr. pose proof (inv_producers Size _ Hr _ _ Hi) as (Ht & -> & Hpush & y & Hy).
  pose proof (proj2 (good_jobs m Hg) _ _ Hi) as Hfit. cbn in Hfit. pose proof (lookup_lt_Some _ _ _ Hi) as Hlti.
  destruct (good_partial m Hg _ _ _ _ Hi) as (k' & h & b & Hk' & Hlt & Hm & Hfi). simplify_eq.
  destruct (perform_store_spec m t x k s h b Hfit Hs Hm Hfi) as (m1 & h1 & b1 & -> & (Hel & Er & Ed & Erd & Eh) & Hm1 & Hfi1).
  cbn [mbind outcome_bind]. pose proof (lookup_lt_Some _ _ _ Hk) as Hltk. destruct (Nat.eqb_spec (S k) (length (stores_of x))) as [El|El].
  - unfold on_ring. cbn [exec set_done ring]. rewrite Er, Hi. cbn [mbind option_bind exec_producer]. rewrite Hy. cbn [mbind option_bind in_bounds outcome_bind].
    eexists. split; [done|]. set (r := set_producer _ _ _).
    assert (inv Size r) as Hr'. { by apply (inv_write_slot Size HSize Hbig (ring m) i x t (Slot UNCOMMITTED y)). }
    eapply (good_slot_written m _ i x _ t (PWritten x (index Size t) t)); [done|exact Hi| |].
    + split; try done; cbn.
      * intros q Hq. by apply list_lookup_insert_ne.
      * intros s' E'. rewrite list_lookup_insert_eq in E' by (by eapply lookup_lt_Some). by injection E' as <-.
      * by rewrite length_insert, Ed.
      * intros j Hj. by rewrite list_lookup_insert_ne, Ed.
    + split; [done|]. split; [done|]. exists h1, b1. split; [done|]. unfold complete. by rewrite <- El.
  - eexists. split; [done|]. eapply (good_slot_written m _ i x _ t (PAcquired x (index Size t) t)); [done|exact Hi| |].
    + split; cbn; rewrite ?Er; try done.
      * by rewrite list_insert_id.
      * intros s' E'. rewrite Hy in E'. by injection E' as <-.
      * by rewrite length_insert, Ed.
      * intros j Hj. by rewrite list_lookup_insert_ne, Ed.
    + split; [done|]. split; [done|]. exists (S k), h1, b1. cbn. rewrite list_lookup_insert_eq by (by rewrite Ed).
      split; [done|]. split; [lia|]. by split.
Qed.

(** ** Actions of the ring *)

Lemma good_set_done m i k p : good m -> c_producers (ring m) !! i = Some p -> owner p = None -> good (set_done i k m).
Proof using Type.
  intros Hg Hi Ho. split; try apply Hg; [cbn; rewrite length_insert; apply Hg|..].
  intros j x cur t Hj. apply (partial_same_memory m); try done; [|by apply (good_partial m Hg j x cur)].
  cbn. rewrite list_lookup_insert_ne; [done|]. intros ->. cbn in Hj. by simplify_eq.
Qed.

Lemma good_consumer m k : good m -> inv Size (set_consumer k (ring m)) ->
  not_uncommitted k -> not_uncommitted (c_consumer (ring m)) -> (forall cur, c_consumer (ring m) <> CUsed cur) ->
  reader_ok (set_ring (set_consumer k (ring m)) m) (released (ring m)) (pushed (ring m) !! Z.to_nat (released (ring m))) ->
  good (set_ring (set_consumer k (ring m)) m).
Proof using Type.
  intros Hg Hr Hk Hk' Hu Hrd. apply good_ring_step; try done.
  - split_and!; try done. unfold low. cbn. by destruct k, (c_consumer (ring m)).
  - by intros i p x t Hi _.
  - apply (good_jobs m Hg).
  - intros t [_ [cur E]]. by destruct (Hu cur).
Qed.

Lemma good_advance m cur : good m -> c_consumer (ring m) = CUncommitted cur ->
  let r := set_consumer CIdle (give_back (advance Size cur) (ring m)) in inv Size r -> good (set_ring r m).
Proof using HSize.
  intros Hg Ec r Hr. pose proof (good_reader m Hg) as Hrd. unfold reader_ok in Hrd. rewrite Ec in Hrd.
  destruct (reading m) eqn:Erd; try done. pose proof (inv_window Size _ (good_ring m Hg)) as Hw. split; try apply Hg; [done|..].
  - intros t x s Ht Hx Hs Hf Hnu. apply (good_committed m Hg t x s); try done.
    { unfold low in *. rewrite Ec. exact Ht. } intros [-> [cu E]]. by rewrite Ec in E.
  - cbn. intros t Ht. destruct (Z.eq_dec t (released (ring m) + C)) as [->|Hne]; [|apply (good_free m Hg); lia].
    destruct Hrd as (h & Ha & Hb). exists h. unfold at_ticket, index in *.
    assert ((released (ring m) + C) mod C = released (ring m) mod C) as -> by (rewrite <- (Z_mod_plus_full (released (ring m)) 1); f_equal; lia).
    by split.
  - unfold reader_ok. cbn. by rewrite Erd.
Qed.

Lemma good_ring_action a m r : good m -> ring_action a = true -> permitted max (Ring a) m -> exec Size a (ring m) = Some r ->
  good (match a with ACas i => set_done i 0 (set_ring r m) | _ => set_ring r m end).
Proof using HSize Hbig.
  intros Hg Ha Hperm He. assert (no_wrap a (ring m) = true) as Hnw by (by destruct a as [? []| | | | | | | | | | | ]).
  pose proof (inv_exec Size HSize Hbig a (ring m) r (good_ring m Hg) Hnw He) as Hr. pose proof (proj2 (good_jobs m Hg)) as Hj.
  destruct a as [i x|i|i|i|i|i| | | | | |]; try done; cbn [exec] in He.
  1-5: destruct (c_producers (ring m) !! i) as [p|] eqn:Hi; [|done]; specialize (Hj _ _ Hi); cbn [mbind option_bind] in He;
    destruct p as [|y|y cur t|y cur t|y cur t|y cur t]; try discriminate He; cbn [exec_producer] in He.
  - injection He as <-. eapply good_producer; [done|done|by left|done|]. destruct x; [exact Hperm|split; simpl; lia].
  - injection He as <-. by eapply good_producer; [done|done|by left|..].
  - destruct (_ =? _); injection He as <-; (eapply good_producer; [done|done|..]); [by right|done|done|by left|done|done].
  - destruct (Z.eqb_spec (c_input (ring m)) cur) as [E|E]; injection He as <-.
    + unfold no_wrap in Hnw. rewrite Hi, <- E, Z.eqb_refl in Hnw. apply Z.eqb_eq in Hnw. subst t.
      by apply good_take.
    + eapply (good_set_done _ i 0 (PStart y)); [|cbn; apply list_lookup_insert_eq; by eapply lookup_lt_Some|done].
      by eapply good_producer; [done|done|by left|..].
  - destruct (c_buffer (ring m) !! Z.to_nat cur) as [s|] eqn:Hs; [|done]. injection He as <-. by eapply good_commit.
  - pose proof (good_reader m Hg) as Hrd. unfold reader_ok in Hrd. destruct (c_consumer (ring m)) eqn:E; try done. injection He as <-.
    apply good_consumer; rewrite ?E; try done. all: unfold reader_ok; cbn; by destruct (reading m).
  - pose proof (good_reader m Hg) as Hrd. unfold reader_ok in Hrd. destruct (c_consumer (ring m)) eqn:E; try done.
    destruct (_ =? _); injection He as <-; (apply good_consumer; rewrite ?E; try done); unfold reader_ok; cbn; by destruct (reading m).
  - pose proof (good_reader m Hg) as Hrd. unfold reader_ok in Hrd. destruct (c_consumer (ring m)) eqn:E; try done.
    destruct (c_buffer (ring m) !! _) as [s|]; [|done]. cbn [mbind option_bind] in He.
    destruct (_ =? _); injection He as <-; [|by destruct m].
    apply good_consumer; rewrite ?E; try done. all: unfold reader_ok; cbn; by destruct (reading m).
  - destruct (c_consumer (ring m)) eqn:E; try done. injection He as <-. by apply good_advance.
Qed.

(** ** The consumer at a slot *)

(** The oldest push, whose slot is committed and full. *)
Lemma ready_slot m cur : good m -> c_consumer (ring m) = CReady cur ->
  cur = index Size (released (ring m)) /\ exists x h b, pushed (ring m) !! Z.to_nat (released (ring m)) = Some x /\
    at_ticket m (released (ring m)) h b /\ complete max x (place (released (ring m))) h b /\ job_fits max x /\
    exists s, c_buffer (ring m) !! place (released (ring m)) = Some s /\ item s = x.
Proof using HSize.
  intros Hg E. pose proof (good_ring m Hg) as Hr. pose proof (inv_consumer Size _ Hr) as Hk. unfold consumer_ok in Hk. rewrite E in Hk.
  destruct Hk as (-> & Hlt & _ & s & Hs & Hf). split; [done|]. pose proof (inv_window Size _ Hr) as Hw.
  destruct (inv_tickets Size _ Hr (released (ring m))) as (x & s' & Hx & Hs' & Hc). { unfold low. rewrite E. lia. }
  simplify_eq. destruct Hc as [[_ Hc]|[Hu _]]; [|by rewrite Hf in Hu].
  destruct (good_committed m Hg (released (ring m)) x s) as (h & b & Ha & Hcomp); try done.
  { unfold low. rewrite E. lia. } { intros [_ [cu E']]. by rewrite E in E'. }
  exists x, h, b. split; [done|]. split; [done|]. split; [done|]. split; [|by exists s].
  eapply Forall_lookup_1; [apply (good_jobs m Hg)|done].
Qed.

Lemma good_reading m rd : good m -> reader_ok (set_reading rd m) (released (ring m)) (pushed (ring m) !! Z.to_nat (released (ring m))) ->
  good (set_reading rd m).
Proof using Type. intros Hg Hr. by split; try apply Hg. Qed.

Lemma padded_lookup n l k : (k < n)%nat -> (n <= length l)%nat -> padded max n l !! k = l !! k.
Proof using Type. intros Hk Hn. unfold padded. rewrite lookup_app_l by (rewrite length_take; lia). by apply lookup_take_lt. Qed.

Lemma drop_padded n l : (n <= length l)%nat -> drop n (padded max n l) = replicate (max - n) zero_frame.
Proof using Type. intros Hn. unfold padded. rewrite drop_app_ge by (rewrite length_take; lia). by rewrite length_take, Nat.min_l, Nat.sub_diag by lia. Qed.

Lemma look_spec m o : good m -> exec_machine Size Look m = Some o -> exists m', o = Ok m' /\ good m'.
Proof using HSize.
  intros Hg He. cbn [exec_machine] in He. destruct (c_consumer (ring m)) as [| | |cur| |] eqn:Ec; try done.
  destruct (reading m) eqn:Erd; try done. destruct (ready_slot m cur Hg Ec) as (-> & x & h & b & Hx & [Hh Hb] & Hcomp & _).
  unfold with_holder in He. rewrite Hh in He. injection He as <-. eexists. split; [done|]. apply good_reading; [done|].
  unfold reader_ok. cbn [ring reading set_reading]. rewrite Ec, Hx.
  destruct x as [ts t sg st tsc|id n]; [apply complete_trace in Hcomp|apply complete_thread in Hcomp]; destruct Hcomp as (-> & _); [|done].
  split; [done|simpl; lia].
Qed.

Lemma read_frame_spec m o : good m -> exec_machine Size ReadFrame m = Some o -> exists m', o = Ok m' /\ good m'.
Proof using HSize.
  intros Hg He. cbn [exec_machine] in He. destruct (c_consumer (ring m)) as [| | |cur| |] eqn:Ec; try done.
  destruct (reading m) as [|seen| | |] eqn:Erd; try done.
  destruct (ready_slot m cur Hg Ec) as (-> & x & h & b & Hx & [Hh Hb] & Hcomp & [Hmax Hlen] & _).
  pose proof (good_reader m Hg) as Hrd. unfold reader_ok in Hrd. rewrite Ec, Erd, Hx in Hrd. destruct x as [ts t sg st tsc|]; [|done].
  apply complete_trace in Hcomp as (_ & _ & Et & _ & _ & _ & Ebuf). destruct Hrd as [Hseen Hle]. cbn [job_size job_frames] in *.
  unfold with_holder in He. rewrite Hh, Et in He. cbn [num_frames frames] in He.
  destruct (Z.ltb_spec (Z.of_nat (length seen)) (num_frames t)); [|done]. rewrite Hb, Ebuf in He. cbn [in_bounds mbind outcome_bind] in He.
  destruct (lookup_lt_is_Some_2 (frames t) (length seen)) as [f Hf]; [lia|]. rewrite padded_lookup, Hf in He by lia.
  injection He as <-. eexists. split; [done|]. apply good_reading; [done|].
  unfold reader_ok. cbn [ring reading set_reading]. rewrite Ec, Hx, length_app. cbn [length].
  rewrite Nat.add_1_r, (take_S_r _ _ _ Hf), <- Hseen. split; [done|lia].
Qed.

Lemma good_hear m cur x rd : good m -> c_consumer (ring m) = CReady cur ->
  pushed (ring m) !! Z.to_nat (released (ring m)) = Some x ->
  match x with TraceTaken _ _ _ _ _ => rd = RZero 0 | ThreadNamed _ _ => rd = RDone end ->
  exists m', on_ring Size CUse (set_reading rd (hear (exact x) m)) = Ok m' /\ good m'.
Proof using HSize Hbig.
  intros Hg Ec Hx Hrd. destruct (ready_slot m cur Hg Ec) as (-> & x' & h & b & Hx' & Ha & Hcomp & _ & s & Hs & Hi). simplify_eq.
  assert (exec Size CUse (ring m) = Some (set_consumer (CUsed (index Size (released (ring m)))) (deliver (item s) (ring m)))) as He.
  { cbn [exec]. rewrite Ec, Hs. done. }
  pose proof (inv_exec Size HSize Hbig CUse _ _ (good_ring m Hg) eq_refl He) as Hr. unfold on_ring. cbn [ring set_reading hear].
  rewrite He. cbn [in_bounds mbind outcome_bind]. eexists. split; [done|].
  assert (low (set_consumer (CUsed (index Size (released (ring m)))) (deliver (item s) (ring m))) = low (ring m)) as Elow by (unfold low; cbn; by rewrite Ec).
  split; try apply Hg; [done|..].
  - cbn [ring set_ring]. rewrite Elow. intros t y s' Ht Hy Hs' Hf _. apply (good_committed m Hg t y s'); try done. intros [_ [cu E]]. by rewrite Ec in E.
  - unfold reader_ok. cbn [ring set_ring c_consumer set_consumer pushed deliver released reading set_reading hear].
    rewrite Hx. destruct (item s) as [ts t sg st tsc|id n]; subst rd.
    + split; [lia|]. exists h. apply complete_trace in Hcomp as (_ & _ & Et & _ & _ & _ & Ebuf). rewrite Et. split; [done|]. simpl. by rewrite <- Ebuf.
    + apply complete_thread in Hcomp as (_ & _ & _ & ->). by exists h.
  - cbn. rewrite fmap_app, (good_heard m Hg). done.
Qed.

Lemma hear_spec m o : good m -> exec_machine Size Hear m = Some o -> exists m', o = Ok m' /\ good m'.
Proof using HSize Hbig.
  intros Hg He. cbn [exec_machine] in He. destruct (c_consumer (ring m)) as [| | |cur| |] eqn:Ec; try done.
  destruct (ready_slot m cur Hg Ec) as (E & x & h & b & Hx & [Hh Hb] & Hcomp & _). rewrite E in He.
  pose proof (good_reader m Hg) as Hrd. unfold reader_ok in Hrd. rewrite Ec, Hx in Hrd. unfold with_holder in He. rewrite Hh in He.
  destruct (reading m) as [|seen| | |] eqn:Erd; try done; destruct x as [ts t sg st tsc|id n]; try done.
  - apply complete_trace in Hcomp as (_ & Ets & Et & Esg & Est & Etsc & _). rewrite Et in He. cbn [num_frames threadId] in He.
    destruct (Z.ltb_spec (Z.of_nat (length seen)) (num_frames t)); [done|]. apply (inj Some) in He. subst o.
    destruct Hrd as [Hseen Hle]. assert (length seen = Z.to_nat (num_frames t)) as El by lia. rewrite El in Hseen.
    rewrite Ets, Esg, Est, Etsc, Hseen. by apply (good_hear m cur (TraceTaken ts t sg st tsc)).
  - apply complete_thread in Hcomp as (_ & Eid & En & _). apply (inj Some) in He. subst o. rewrite Eid, En. by apply (good_hear m cur (ThreadNamed id n)).
Qed.

(** A store of the consumer to its own slot. *)
Lemma good_consumer_memory m m' cur : good m -> c_consumer (ring m) = CUsed cur -> elsewhere m m' (released (ring m)) ->
  ring m' = ring m -> stores_done m' = stores_done m -> heard m' = heard m ->
  reader_ok m' (released (ring m)) (pushed (ring m) !! Z.to_nat (released (ring m))) -> good m'.
Proof using HSize.
  intros Hg Ec He Er Ed Eh Hrd. pose proof (inv_window Size _ (good_ring m Hg)) as Hw. pose proof (low_bound (ring m)) as Hlow.
  pose proof (inv_consumer Size _ (good_ring m Hg)) as Hk. unfold consumer_ok in Hk. rewrite Ec in Hk.
  assert (forall u h b, released (ring m) <> u -> released (ring m) <= u < released (ring m) + C -> at_ticket m u h b -> at_ticket m' u h b) as Hat.
  { intros u h b Hne Hu. apply (elsewhere_at m m' (released (ring m))); [done|done|]. unfold Capacity in *. lia. }
  destruct He as (Elc & Elb & _). split; rewrite ?Er, ?Ed, ?Eh, ?Elc, ?Elb; try apply Hg; [..|done].
  - intros i x cu t Hi. destruct (owned_apart m i _ x t Hg Hi eq_refl) as (Ht & Hne & _).
    destruct (good_partial m Hg _ _ _ _ Hi) as (k & h & b & Hk' & Hlt & Hm & Hf). exists k, h, b. rewrite Ed.
    split; [done|]. split; [done|]. split; [|done]. apply Hat; [symmetry; by apply Hne; eexists|unfold Capacity; lia|done].
  - intros i x cu t Hi. destruct (owned_apart m i _ x t Hg Hi eq_refl) as (Ht & Hne & _).
    destruct (good_written m Hg _ _ _ _ Hi) as (h & b & Hm & Hf). exists h, b.
    split; [|done]. apply Hat; [symmetry; by apply Hne; eexists|unfold Capacity; lia|done].
  - intros t x s Ht Hx Hs Hf Hnu. destruct (good_committed m Hg t x s) as (h & b & Hm & Hc); try done. exists h, b.
    split; [|done]. apply Hat; [|unfold Capacity; lia|done]. intros <-. apply Hnu. split; [done|by eexists].
  - intros t Ht. destruct (good_free m Hg t Ht) as (h & Hm). exists h. apply Hat; [lia|lia|done].
Qed.

Lemma used_slot m cur : good m -> c_consumer (ring m) = CUsed cur ->
  cur = index Size (released (ring m)) /\ exists x s, pushed (ring m) !! Z.to_nat (released (ring m)) = Some x /\ job_fits max x /\
    c_buffer (ring m) !! place (released (ring m)) = Some s.
Proof using Type.
  intros Hg Ec. pose proof (inv_consumer Size _ (good_ring m Hg)) as Hk. unfold consumer_ok in Hk. rewrite Ec in Hk.
  destruct Hk as (-> & Hlt & _ & s & Hs & _). split; [done|].
  destruct (lookup_lt_is_Some_2 (pushed (ring m)) (Z.to_nat (released (ring m)))) as [x Hx].
  { pose proof (inv_pushed Size _ (good_ring m Hg)). pose proof (inv_window Size _ (good_ring m Hg)). lia. }
  exists x, s. split; [done|]. split; [|done]. eapply Forall_lookup_1; [apply (good_jobs m Hg)|done].
Qed.

Lemma zero_frame_spec m o : good m -> exec_machine Size ZeroFrame m = Some o -> exists m', o = Ok m' /\ good m'.
Proof using HSize.
  intros Hg He. cbn [exec_machine] in He. destruct (c_consumer (ring m)) as [| | | |cur|] eqn:Ec; try done.
  destruct (reading m) as [| | |k|] eqn:Erd; try done. destruct (used_slot m cur Hg Ec) as (-> & x & s & Hx & [Hmax Hlen] & _).
  pose proof (good_reader m Hg) as Hrd. unfold reader_ok in Hrd. rewrite Ec, Hx, Erd in Hrd. destruct x as [ts t sg st tsc|id n]; [|done].
  destruct Hrd as (Hk & h & En & [Hh Hb]). unfold with_holder in He. rewrite Hh, En in He. cbn [job_size job_frames] in *.
  destruct (Z.ltb_spec (Z.of_nat k) (num_frames t)) as [Hlt|]; [|done]. apply (inj Some) in He. subst o. rewrite Hb. cbn [in_bounds mbind outcome_bind].
  destruct (lookup_lt_is_Some_2 (padded max (Z.to_nat (num_frames t)) (frames t)) k) as [f Hf]; [rewrite length_padded; lia|].
  rewrite (drop_S _ _ _ Hf), list_lookup_middle by (by rewrite length_replicate). cbn [in_bounds mbind outcome_bind].
  eexists. split; [done|]. eapply (good_consumer_memory m); [done|exact Ec|apply elsewhere_buffers|done|done|done|].
  unfold reader_ok. cbn [ring set_reading set_buffers reading]. rewrite Ec, Hx. split; [lia|]. exists h. split; [done|]. split; [done|].
  cbn [frame_buffers set_reading set_buffers]. rewrite list_lookup_insert_eq by (by eapply lookup_lt_Some). f_equal.
  rewrite insert_app_cons by (by rewrite length_replicate). by rewrite replicate_S_end, <- app_assoc.
Qed.

Lemma good_reset m cur : good m -> c_consumer (ring m) = CUsed cur -> clean m (released (ring m)) ->
  exists m', on_ring Size CReset (set_reading RNone m) = Ok m' /\ good m'.
Proof using HSize Hbig.
  intros Hg Ec Hcl. destruct (used_slot m cur Hg Ec) as (-> & x & s & _ & _ & Hs).
  set (r := set_consumer (CUncommitted (index Size (released (ring m)))) (set_slot (index Size (released (ring m))) (Slot UNCOMMITTED (item s)) (ring m))).
  assert (exec Size CReset (ring m) = Some r) as He by (cbn [exec]; by rewrite Ec, Hs).
  pose proof (inv_exec Size HSize Hbig CReset _ _ (good_ring m Hg) eq_refl He) as Hr. unfold on_ring. cbn [ring set_reading].
  rewrite He. cbn [in_bounds mbind outcome_bind]. eexists. split; [done|]. pose proof (inv_window Size _ (good_ring m Hg)) as Hw.
  split; lazymatch goal with |- reader_ok _ _ _ => exact Hcl | _ => try apply Hg end; try done.
  intros t y s' Ht Hy Hs' Hf Hnu. change (low _) with (released (ring m) + 1) in Ht. cbn in Ht, Hy.
  apply (good_committed m Hg t y s'); try done.
  - unfold low. rewrite Ec. lia.
  - rewrite <- Hs'. unfold r, set_consumer. cbn [ring set_ring c_buffer].
    rewrite (lookup_set_slot Size HSize) by (try apply (good_ring m Hg); unfold Capacity; lia). by rewrite decide_False by lia.
  - intros [-> _]. lia.
Qed.

Lemma reset_spec m o : good m -> exec_machine Size Reset m = Some o -> exists m', o = Ok m' /\ good m'.
Proof using HSize Hbig.
  intros Hg He. cbn [exec_machine] in He. destruct (c_consumer (ring m)) as [| | | |cur|] eqn:Ec; try done.
  destruct (used_slot m cur Hg Ec) as (Ecur & x & s & Hx & [Hmax Hlen] & _).
  pose proof (good_reader m Hg) as Hrd. unfold reader_ok in Hrd. rewrite Ec, Hx in Hrd.
  destruct (reading m) as [| | |k|] eqn:Erd; try done.
  - destruct x as [ts t sg st tsc|id n]; [|done]. destruct Hrd as (Hk & h & En & [Hh Hb]). rewrite Ecur in He.
    unfold with_holder in He. rewrite Hh, En in He. destruct (Z.ltb_spec (Z.of_nat k) (num_frames t)); [done|].
    apply (inj Some) in He. subst o. apply (good_reset m cur Hg Ec). exists h. split; [done|]. rewrite Hb. f_equal.
    cbn [job_size job_frames] in *. assert (k = Z.to_nat (num_frames t)) as -> by lia.
    rewrite drop_padded by done. rewrite <- replicate_add. f_equal. lia.
  - apply (inj Some) in He. subst o. by apply (good_reset m cur Hg Ec).
Qed.

(** ** Every schedule *)

Lemma good_step a m o : good m -> permitted max a m -> exec_machine Size a m = Some o -> exists m', o = Ok m' /\ good m'.
Proof using HSize Hbig.
  intros Hg Hp He. destruct a as [a|i| | | | |].
  - cbn [exec_machine] in He. destruct (ring_action a) eqn:Ea; [|done]. destruct (exec Size a (ring m)) as [r|] eqn:Er; [|done].
    apply (inj Some) in He. subst o. eexists. split; [done|]. by apply good_ring_action.
  - by apply (exec_store_spec i m).
  - by apply (look_spec m).
  - by apply (read_frame_spec m).
  - by apply (hear_spec m).
  - by apply (zero_frame_spec m).
  - by apply (reset_spec m).
Qed.

Lemma stacks_good_new threads h x : good (new_machine Size threads max h x).
Proof using HSize.
  assert (forall i p, replicate threads (@PIdle stack_item) !! i = Some p -> p = PIdle) as Hidle by (intros i p Hp; by apply lookup_replicate in Hp as [-> _]).
  split; cbn [ring cells frame_buffers stores_done reading heard new_machine]; try done.
  - by apply inv_initial.
  - rewrite length_replicate. unfold Capacity. lia.
  - rewrite length_replicate. unfold Capacity. lia.
  - cbn. by rewrite !length_replicate.
  - split; [constructor|]. intros i p Hp. by rewrite (Hidle i p Hp).
  - intros i y cur t Hi. by apply Hidle in Hi.
  - intros i y cur t Hi. by apply Hidle in Hi.
  - intros t Ht. exists h. pose proof (index_range Size HSize t). split; apply lookup_replicate_2; lia.
Qed.

Lemma good_reachable threads h x m : rtc (machine_step Size max) (new_machine Size threads max h x) m -> good m.
Proof using HSize Hbig.
  intros Hr. pose proof (stacks_good_new threads h x) as H0. induction Hr as [|m0 m1 m2 (a & Hp & He) _ IH]; [done|].
  apply IH. destruct (good_step a m0 _ H0 Hp He) as (m' & [= ->] & Hg). exact Hg.
Qed.
End Invariant.

(** ** Checked schedules *)

Definition permittedb (max : nat) (a : machine_action) (m : machine) : bool :=
  match a with
  | Ring (ABegin _ (TraceTaken _ t _ _ _)) => (Z.to_nat (num_frames t) <=? max)%nat && (Z.to_nat (num_frames t) <=? length (frames t))%nat
  | Ring a => no_wrap a (ring m)
  | _ => true
  end.

Lemma permittedb_permitted max a m : permittedb max a m = true -> permitted max a m.
Proof.
  destruct a as [a| | | | | |]; try done. destruct a as [i x| | | | | | | | | | |]; try done. destruct x; [|done].
  simpl. unfold fits. intros [H1 H2]%andb_true_iff. by rewrite !Nat.leb_le in *.
Qed.

Fixpoint run_permitted (Size : Z) (max : nat) (l : list machine_action) (m : machine) : option machine :=
  match l with
  | [] => Some m
  | a :: l =>
      if permittedb max a m then
        match exec_machine Size a m with Some (Ok m) => run_permitted Size max l m | _ => None end
      else None
  end.

Lemma run_permitted_reaches Size max l m m' : run_permitted Size max l m = Some m' -> rtc (machine_step Size max) m m'.
Proof.
  revert m. induction l as [|a l IH]; intros m Hr; simpl in Hr; [by injection Hr as ->|].
  destruct (permittedb max a m) eqn:Ep; [|done]. destruct (exec_machine Size a m) as [[m1| | |]|] eqn:E; try done.
  apply rtc_l with m1; [exists a; split; [by apply permittedb_permitted|done]|by apply IH].
Qed.

(** C2. Provided that every pushed trace fits the frame buffers and that no
    compare-and-swap succeeds on an index that went all the way round
    ([permitted]; without the second [wrapped_swap_hides_items] shows that items
    are lost), under every such interleaving of any number of threads that push,
    stopped between any two stores, with the thread that pops: the listener hears
    a beginning of what was pushed, in the order of the slots taken, each trace
    with its own frames and data and no torn one; no store and no load of any
    thread leaves its array; and a slot that is free holds no frames. *)
Theorem no_torn_traces Size max threads h x m :
  0 < Size < 2 ^ 63 -> rtc (machine_step Size max) (new_machine Size threads max h x) m ->
  (exists waiting, exact <$> pushed (ring m) = heard m ++ waiting /\ Z.of_nat (length waiting) <= Size) /\
  (forall a, permitted max a m -> exec_machine Size a m <> Some Undefined) /\
  (forall t, acquired (ring m) <= t < released (ring m) + Capacity Size ->
     frame_buffers m !! Z.to_nat (index Size t) = Some (replicate max zero_frame)).
Proof.
  intros [H0 Hb] Hr. pose proof (good_reachable Size H0 Hb max threads h x m Hr) as Hg. pose proof (good_ring _ _ m Hg) as Hi.
  pose proof (delivered_count Size _ Hi). pose proof (inv_pushed Size _ Hi). pose proof (inv_window Size _ Hi). split_and!.
  - destruct (delivered_prefix Size _ Hi) as [l Hl]. exists (exact <$> l). rewrite Hl, fmap_app, (good_heard _ _ m Hg). split; [done|].
    rewrite length_fmap. rewrite Hl, length_app in *. lia.
  - intros a Hp He. by destruct (good_step Size H0 Hb max a m _ Hg Hp He) as (m' & ? & _).
  - intros t Ht. by destruct (good_free _ _ m Hg t Ht) as (h' & _ & ?).
Qed.

(** Thread 0 is stopped behind the first frame of its trace, thread 1 pushes a
    trace, the consumer waits for the slot of thread 0, and hears its trace once
    it went on. *)
Definition first_push : stack_item :=
  TraceTaken (mkTimespec 1 2) (mkCallTrace 2 7 [mkCallFrame false 10; mkCallFrame true 11]) 27 0 100.
Definition second_push : stack_item :=
  TraceTaken (mkTimespec 3 4) (mkCallTrace 1 8 [mkCallFrame false 20; mkCallFrame false 21]) 14 0 200.

Definition begin_push (i : nat) (x : stack_item) : list machine_action := [Ring (ABegin i x); Ring (ALoad i); Ring (ACheck i); Ring (ACas i)].

Definition stopped_between_frames : list machine_action :=
  begin_push 0 first_push ++ [Store 0] ++ begin_push 1 second_push ++ replicate 10 (Store 1) ++ [Ring (ACommit 1)] ++
  [Ring CLoad; Ring CCheck; Ring CPoll; Ring CPoll] ++ replicate 10 (Store 0) ++ [Ring (ACommit 0); Ring CPoll] ++
  [Look; ReadFrame; ReadFrame; Hear; ZeroFrame; ZeroFrame; Reset; Ring CAdvance].

Lemma no_torn_traces_witness :
  exists m, run_permitted 2 3 stopped_between_frames (new_machine 2 2 3 (new_StackHolder 0) first_push) = Some m /\
    heard m = [first_push] /\ (exists waiting, exact <$> pushed (ring m) = heard m ++ waiting /\ Z.of_nat (length waiting) <= 2) /\
    frame_buffers m !! 0%nat = Some (replicate 3 zero_frame).
Proof.
  destruct (run_permitted 2 3 stopped_between_frames (new_machine 2 2 3 (new_StackHolder 0) first_push)) as [m|] eqn:E;
    [|vm_compute in E; discriminate E]. exists m. split; [done|].
  destruct (no_torn_traces 2 3 2 (new_StackHolder 0) first_push m ltac:(lia) (run_permitted_reaches _ _ _ _ _ E)) as (Hh & _ & Hf).
  vm_compute in E. injection E as <-. split; [reflexivity|]. split; [exact Hh|]. apply (Hf 3). by vm_compute.
Defined.
