(* ===== verification/ListenerSim.v ===== *)
(** * Popping through two views of the same state

    Two states with the same queues, whose listeners act alike, stay related
    through [pop]: a listener may carry more state than another, or be a part of
    a larger state, and the theorems about one carry over. *)
From S2P Require Import Prelude InternalQueue MetricTypes CircularQueue CircularQueueSpec.

Class Simulates {W1 W2 : Type} `{HasQueue W1} `{QueueListener W1} `{HasQueue W2} `{QueueListener W2}
    (R : W1 -> W2 -> Prop) : Prop := {
  sim_queue w1 w2 : R w1 w2 -> the_queue w1 = the_queue w2;
  sim_put c w1 w2 : R w1 w2 -> R (put_queue c w1) (put_queue c w2);
  sim_deliver e w1 w2 : R w1 w2 -> outcome_rel R (deliver_event e w1) (deliver_event e w2)
}.

(** What a call returns besides the state. *)
Definition same_result {A W1 W2} (R : W1 -> W2 -> Prop) (x : A * W1) (y : A * W2) : Prop := x.1 = y.1 /\ R x.2 y.2.

Section Sim.
Context {W1 W2 : Type} `{HasQueue W1} `{QueueListener W1} `{HasQueue W2} `{QueueListener W2}.
Context (R : W1 -> W2 -> Prop) `{!Simulates R}.

Lemma on_queue_sim f w1 w2 : R w1 w2 -> R (on_queue f w1) (on_queue f w2).
Proof. intros Hw. unfold on_queue. rewrite (sim_queue w1 w2 Hw). by apply sim_put. Qed.

(** A delivery, then an update of the queues. *)
Lemma deliver_then {A} e (f : CircularQueue -> CircularQueue) (a : A) w1 w2 :
  R w1 w2 ->
  outcome_rel (same_result R) (w ← deliver_event e w1; Ok (a, on_queue f w)) (w ← deliver_event e w2; Ok (a, on_queue f w)).
Proof.
  intros Hw. eapply outcome_rel_bind; [by apply sim_deliver|]. intros. split; [done|]. by apply on_queue_sim.
Qed.

Lemma pop_main_sim w1 w2 : R w1 w2 -> outcome_rel (same_result R) (pop_main w1) (pop_main w2).
Proof.
  intros Hw. unfold pop_main. rewrite (sim_queue w1 w2 Hw).
  destruct (acquireRead _) as [| |p]; [by split|done|].
  eapply outcome_rel_bind; [apply outcome_rel_in_bounds|]. intros h ? <-. destruct (elementType h);
    [apply (deliver_then (MainEvent (Notified _ _ _)))|apply (deliver_then (MainEvent (InformationSent _)))
    |apply (deliver_then (MainEvent (SamplesSent _ _)))|apply (deliver_then (MainEvent ConstantsComplete))]; done.
Qed.

Lemma pop_allocation_sim w1 w2 : R w1 w2 -> outcome_rel (same_result R) (pop_allocation w1) (pop_allocation w2).
Proof.
  intros Hw. unfold pop_allocation. rewrite (sim_queue w1 w2 Hw).
  destruct (acquireRead _) as [| |p]; [by split|done|].
  eapply outcome_rel_bind; [apply outcome_rel_in_bounds|]. intros h ? <-.
  by apply (deliver_then (AllocEvent (Allocated _ _ _))).
Qed.

Lemma pop_stack_sim w1 w2 : R w1 w2 -> outcome_rel (same_result R) (pop_stack w1) (pop_stack w2).
Proof.
  intros Hw. unfold pop_stack. rewrite (sim_queue w1 w2 Hw).
  destruct (acquireRead _) as [| |p]; [by split|done|].
  eapply outcome_rel_bind; [apply outcome_rel_in_bounds|]. intros h ? <-. destruct (s_elementType h).
  - eapply (outcome_rel_bind R).
    + eapply outcome_rel_bind; [apply outcome_rel_refl|]. intros t ? <-.
      eapply outcome_rel_bind; [by apply (sim_deliver (StackEvent (TraceTaken _ _ _ _ _)))|].
      intros v1 v2 Hv. cbn beta. rewrite (sim_queue v1 v2 Hv).
      eapply outcome_rel_bind; [apply outcome_rel_in_bounds|]. intros fb ? <-.
      eapply outcome_rel_bind; [apply outcome_rel_refl|]. intros fb' ? <-. by apply on_queue_sim.
    + intros v1 v2 Hv. split; [done|]. by apply on_queue_sim.
  - by apply (deliver_then (StackEvent (ThreadNamed _ _))).
Qed.

Lemma pop_sim w1 w2 : R w1 w2 -> outcome_rel (same_result R) (pop w1) (pop w2).
Proof.
  intros Hw. unfold pop.
  eapply outcome_rel_bind; [by apply pop_main_sim|]. intros [r1 v1] [r1' v2] [E1 Hv]. cbn [fst snd] in E1, Hv. subst r1'.
  eapply outcome_rel_bind; [by apply pop_allocation_sim|]. intros [r2 u1] [r2' u2] [E2 Hu]. cbn [fst snd] in E2, Hu. subst r2'.
  eapply outcome_rel_bind; [by apply pop_stack_sim|]. intros [r3 t1] [r3' t2] [E3 Ht]. cbn [fst snd] in E3, Ht. by subst r3'.
Qed.
End Sim.

(** ** What popping does to a state, whatever the listener *)

Section Along.
Context {W : Type} `{HasQueue W} `{QueueListener W}.
Context (R : relation W) `{!PreOrder R}.
Context (R_put : forall c w, R w (put_queue c w)) (R_deliver : forall e w w', deliver_event e w = Ok w' -> R w w').

Lemma on_queue_along f w w' : R w w' -> R w (on_queue f w').
Proof using PreOrder0 R_put. intros Hw. etrans; [exact Hw|]. apply R_put. Qed.

Lemma pop_main_along w b w' : pop_main w = Ok (b, w') -> R w w'.
Proof using PreOrder0 R_put R_deliver.
  unfold pop_main. destruct (acquireRead _) as [| |p]; [by intros [= _ <-]|done|].
  intros E. apply bind_ok in E as (h & _ & E).
  assert (exists e w1, deliver_event e w = Ok w1 /\
    w' = on_queue (fun c => set_mainQueue (commitRead MainQueueSize p (mainQueue c)) c) w1) as (e & w1 & E1 & ->).
  { destruct (elementType h); apply bind_ok in E as (w1 & E1 & [= _ <-]);
      [exists (MainEvent (Notified (category h) (payload h) (value h)))
      |exists (MainEvent (InformationSent (metricInformation h)))
      |exists (MainEvent (SamplesSent (time_epoch_millis h) (metricSamples h)))
      |exists (MainEvent ConstantsComplete)]; by exists w1. }
  apply on_queue_along. by eapply R_deliver.
Qed.

Lemma pop_allocation_along w b w' : pop_allocation w = Ok (b, w') -> R w w'.
Proof using PreOrder0 R_put R_deliver.
  unfold pop_allocation. destruct (acquireRead _) as [| |p]; [by intros [= _ <-]|done|].
  intros E. apply bind_ok in E as (h & _ & E). apply bind_ok in E as (w1 & E1 & [= _ <-]).
  apply on_queue_along. exact (R_deliver (AllocEvent (Allocated _ _ _)) w w1 E1).
Qed.

Lemma pop_stack_along w b w' : pop_stack w = Ok (b, w') -> R w w'.
Proof using PreOrder0 R_put R_deliver.
  unfold pop_stack. destruct (acquireRead _) as [| |p]; [by intros [= _ <-]|done|].
  intros E. apply bind_ok in E as (h & _ & E). apply bind_ok in E as (w1 & E1 & [= _ <-]).
  apply on_queue_along. destruct (s_elementType h).
  - apply bind_ok in E1 as (t & _ & E1). apply bind_ok in E1 as (w2 & E2 & E1).
    apply bind_ok in E1 as (fb & _ & E1). apply bind_ok in E1 as (fb' & _ & [= <-]).
    apply on_queue_along. exact (R_deliver (StackEvent (TraceTaken _ _ _ _ _)) w w2 E2).
  - exact (R_deliver (StackEvent (ThreadNamed _ _)) w w1 E1).
Qed.

Lemma pop_along w b w' : pop w = Ok (b, w') -> R w w'.
Proof using PreOrder0 R_put R_deliver.
  intros E. unfold pop in E. apply bind_ok in E as ([b1 w1] & E1 & E). apply bind_ok in E as ([b2 w2] & E2 & E).
  apply bind_ok in E as ([b3 w3] & E3 & [= _ <-]).
  etrans; [by eapply pop_main_along|]. etrans; [by eapply pop_allocation_along|]. by eapply pop_stack_along.
Qed.
End Along.

(** ** Remembering what was delivered *)

(** A listener together with the items it was handed. *)
Record remembering (W : Type) := Remember { r_state : W; r_events : list event }.
Arguments Remember {W}.
Arguments r_state {W}.
Arguments r_events {W}.

Section Remembering.
Context {W : Type} `{HasQueue W} `{QueueListener W}.

#[export] Program Instance remembering_queue : HasQueue (remembering W) := {
  the_queue w := the_queue (r_state w);
  put_queue c w := Remember (put_queue c (r_state w)) (r_events w)
}.
Next Obligation. intros. apply the_queue_put. Qed.
Next Obligation. intros []. simpl. by rewrite put_queue_the. Qed.
Next Obligation. intros. simpl. by rewrite put_queue_twice. Qed.

Definition and_remember (e : event) (w : remembering W) : outcome (remembering W) :=
  w' ← deliver_event e (r_state w); Ok (Remember w' (r_events w ++ [e])).

#[export] Instance remembering_listener : QueueListener (remembering W) := {
  recordStackTrace ts t sg st tsc := and_remember (StackEvent (TraceTaken ts t sg st tsc));
  recordThread i n := and_remember (StackEvent (ThreadNamed i n));
  recordAllocation n o s := and_remember (AllocEvent (Allocated n o s));
  recordNotification k p v := and_remember (MainEvent (Notified k p v));
  recordMetricInformation i := and_remember (MainEvent (InformationSent i));
  recordMetricSamples t l := and_remember (MainEvent (SamplesSent t l));
  recordConstantMetricsComplete := and_remember (MainEvent ConstantsComplete)
}.

Lemma deliver_remembers e (w : remembering W) : deliver_event e w = and_remember e w.
Proof. by destruct e as [[]|[]|[]]. Qed.

(** Remembering changes nothing else. *)
Definition erases (w : remembering W) (w' : W) : Prop := r_state w = w'.

#[export] Instance erases_simulates : Simulates erases.
Proof.
  unfold erases. split.
  - by intros w ? <-.
  - by intros c w ? <-.
  - intros e w ? <-. rewrite deliver_remembers. unfold and_remember. by destruct (deliver_event e (r_state w)).
Qed.
End Remembering.

(** ** The history of a listener *)

Section History.
Context {W : Type} `{HasQueue W} `{QueueListener W}.

(** The items were delivered one after the other, with updates of the queues
    in between. *)
Inductive delivered (w0 : W) : list event -> W -> Prop :=
| delivered_nil : delivered w0 [] w0
| delivered_put c es w : delivered w0 es w -> delivered w0 es (put_queue c w)
| delivered_event e es w w' : delivered w0 es w -> deliver_event e w = Ok w' -> delivered w0 (es ++ [e]) w'.

(** A listener that returns for the items it accepts, and pushes nothing but
    notifications. *)
Definition responsive (accepted : event -> Prop) : Prop :=
  forall e w, accepted e -> exists w', deliver_event e w = Ok w' /\ notified (the_queue w) (the_queue w').

Program Definition history_lawful max (accepted : event -> Prop) (Hr : responsive accepted) (w0 : W) :
    LawfulListener max (remembering W) := {|
  listening w := delivered w0 (r_events w) (r_state w);
  accepts := accepted;
  heard := r_events
|}.
Next Obligation. intros. simpl. by apply delivered_put. Qed.
Next Obligation. done. Qed.
Next Obligation.
  intros max accepted Hr w0 e w Hw He _. destruct (Hr e (r_state w) He) as (w' & E & Hn).
  exists (Remember w' (r_events w ++ [e])). rewrite deliver_remembers. unfold and_remember. rewrite E.
  split; [done|]. split; [|by split]. exact (delivered_event w0 e (r_events w) (r_state w) w' Hw E).
Qed.
End History.

(** ** A listener that may fail *)

(** A listener together with the items it was handed, and whether one of them
    made it fail.  After that it keeps still. *)
Record careful (W : Type) := Careful { c_state : W; c_events : list event; c_failed : bool }.
Arguments Careful {W}.
Arguments c_state {W}.
Arguments c_events {W}.
Arguments c_failed {W}.

Section Careful.
Context {W : Type} `{HasQueue W} `{QueueListener W}.

#[export] Program Instance careful_queue : HasQueue (careful W) := {
  the_queue v := the_queue (c_state v);
  put_queue c v := Careful (put_queue c (c_state v)) (c_events v) (c_failed v)
}.
Next Obligation. intros. apply the_queue_put. Qed.
Next Obligation. intros []. simpl. by rewrite put_queue_the. Qed.
Next Obligation. intros. simpl. by rewrite put_queue_twice. Qed.

Definition careful_deliver (e : event) (v : careful W) : careful W :=
  if c_failed v then Careful (c_state v) (c_events v ++ [e]) true
  else
    match deliver_event e (c_state v) with
    | Ok w => Careful w (c_events v ++ [e]) false
    | _ => Careful (c_state v) (c_events v ++ [e]) true
    end.

#[export] Instance careful_listener : QueueListener (careful W) := {
  recordStackTrace ts t sg st tsc v := Ok (careful_deliver (StackEvent (TraceTaken ts t sg st tsc)) v);
  recordThread i n v := Ok (careful_deliver (StackEvent (ThreadNamed i n)) v);
  recordAllocation n o s v := Ok (careful_deliver (AllocEvent (Allocated n o s)) v);
  recordNotification k p x v := Ok (careful_deliver (MainEvent (Notified k p x)) v);
  recordMetricInformation i v := Ok (careful_deliver (MainEvent (InformationSent i)) v);
  recordMetricSamples t l v := Ok (careful_deliver (MainEvent (SamplesSent t l)) v);
  recordConstantMetricsComplete v := Ok (careful_deliver (MainEvent ConstantsComplete) v)
}.

Lemma deliver_careful e (v : careful W) : deliver_event e v = Ok (careful_deliver e v).
Proof using Type. by destruct e as [[]|[]|[]]. Qed.

(** Who has not failed has not failed before, and did what the listener does. *)
Definition went_well (v v' : careful W) : Prop := c_failed v' = false -> c_failed v = false.

Lemma careful_well e v v' :
  deliver_event e v = Ok v' -> c_failed v' = false ->
  c_failed v = false /\ deliver_event e (c_state v) = Ok (c_state v').
Proof using Type.
  rewrite deliver_careful. intros [= <-]. unfold careful_deliver. destruct (c_failed v); [done|].
  by destruct (deliver_event e (c_state v)).
Qed.

(** A delivery, then an update of the queues. *)
Lemma careful_then {A} e (f : CircularQueue -> CircularQueue) (a b : A) v v' :
  (w ← deliver_event e v; Ok (a, on_queue f w)) = Ok (b, v') -> c_failed v' = false ->
  c_failed v = false /\ (w ← deliver_event e (c_state v); Ok (a, on_queue f w)) = Ok (b, c_state v').
Proof using Type.
  intros E Hok. apply bind_ok in E as (v1 & E1 & [= <- <-]). destruct (careful_well e v v1 E1 Hok) as [Hv ->]. done.
Qed.

Lemma pop_main_careful v b v' :
  pop_main v = Ok (b, v') -> c_failed v' = false -> c_failed v = false /\ pop_main (c_state v) = Ok (b, c_state v').
Proof using Type.
  unfold pop_main. change (the_queue v) with (the_queue (c_state v)).
  destruct (acquireRead _) as [| |p]; [by intros [= <- <-]|done|]. intros E Hok.
  apply bind_ok in E as (h & -> & E). cbn [mbind outcome_bind]. destruct (elementType h);
    [apply (careful_then (MainEvent (Notified _ _ _)) _ _ _ _ _ E Hok)|apply (careful_then (MainEvent (InformationSent _)) _ _ _ _ _ E Hok)
    |apply (careful_then (MainEvent (SamplesSent _ _)) _ _ _ _ _ E Hok)|apply (careful_then (MainEvent ConstantsComplete) _ _ _ _ _ E Hok)].
Qed.

Lemma pop_allocation_careful v b v' :
  pop_allocation v = Ok (b, v') -> c_failed v' = false -> c_failed v = false /\ pop_allocation (c_state v) = Ok (b, c_state v').
Proof using Type.
  unfold pop_allocation. change (the_queue v) with (the_queue (c_state v)).
  destruct (acquireRead _) as [| |p]; [by intros [= <- <-]|done|]. intros E Hok.
  apply bind_ok in E as (h & -> & E). cbn [mbind outcome_bind]. apply (careful_then (AllocEvent (Allocated _ _ _)) _ _ _ _ _ E Hok).
Qed.

Lemma pop_stack_careful v b v' :
  pop_stack v = Ok (b, v') -> c_failed v' = false -> c_failed v = false /\ pop_stack (c_state v) = Ok (b, c_state v').
Proof using Type.
  unfold pop_stack. change (the_queue v) with (the_queue (c_state v)).
  destruct (acquireRead _) as [| |p]; [by intros [= <- <-]|done|]. intros E Hok.
  apply bind_ok in E as (h & -> & E). cbn [mbind outcome_bind]. apply bind_ok in E as (v3 & E3 & [= <- <-]).
  destruct (s_elementType h).
  - apply bind_ok in E3 as (t & -> & E3). apply bind_ok in E3 as (v1 & E1 & E3).
    apply bind_ok in E3 as (fb & Efb & E3). apply bind_ok in E3 as (fb' & Efb' & [= <-]).
    destruct (careful_well (StackEvent (TraceTaken _ _ _ _ _)) v v1 E1 Hok) as [Hv Ew]. split; [exact Hv|].
    cbn [mbind outcome_bind deliver_event] in Ew |- *. rewrite Ew. cbn [mbind outcome_bind].
    change (the_queue v1) with (the_queue (c_state v1)) in Efb. rewrite Efb. cbn [mbind outcome_bind]. by rewrite Efb'.
  - destruct (careful_well (StackEvent (ThreadNamed _ _)) v v3 E3 Hok) as [Hv Ew]. split; [exact Hv|].
    cbn [deliver_event] in Ew. by rewrite Ew.
Qed.

Lemma pop_careful v b v' :
  pop v = Ok (b, v') -> c_failed v' = false -> c_failed v = false /\ pop (c_state v) = Ok (b, c_state v').
Proof using Type.
  unfold pop. intros E Hok. apply bind_ok in E as ([b1 v1] & E1 & E). apply bind_ok in E as ([b2 v2] & E2 & E).
  apply bind_ok in E as ([b3 v3] & E3 & [= <- <-]).
  destruct (pop_stack_careful _ _ _ E3 Hok) as [H2 F3]. destruct (pop_allocation_careful _ _ _ E2 H2) as [H1 F2].
  destruct (pop_main_careful _ _ _ E1 H1) as [Hv F1]. split; [exact Hv|].
  rewrite F1. cbn [mbind outcome_bind]. rewrite F2. cbn [mbind outcome_bind]. by rewrite F3.
Qed.

(** The items were handed over one after the other, with updates of the queues in
    between. *)
Inductive handed (w0 : W) : list event -> careful W -> Prop :=
| handed_nil : handed w0 [] (Careful w0 [] false)
| handed_put c es v : handed w0 es v -> handed w0 es (put_queue c v)
| handed_event e es v : handed w0 es v -> handed w0 (es ++ [e]) (careful_deliver e v).

(** A listener that pushes nothing but notifications, when it returns. *)
Definition gentle (accepted : event -> Prop) : Prop :=
  forall e (w w' : W), accepted e -> deliver_event e w = Ok w' -> notified (the_queue w) (the_queue w').

Program Definition careful_lawful max (accepted : event -> Prop) (Hg : gentle accepted) (w0 : W) :
    LawfulListener max (careful W) := {|
  listening v := handed w0 (c_events v) v;
  accepts := accepted;
  heard := c_events
|}.
Next Obligation. intros. by apply handed_put. Qed.
Next Obligation. done. Qed.
Next Obligation.
  intros max accepted Hg w0 e v Hv He _. exists (careful_deliver e v). rewrite deliver_careful. split; [done|].
  assert (c_events (careful_deliver e v) = c_events v ++ [e]) as E.
  { unfold careful_deliver. destruct (c_failed v); [done|]. by destruct (deliver_event e _). }
  split; [rewrite E; by apply handed_event|]. split; [exact E|].
  unfold careful_deliver. destruct (c_failed v); [constructor|].
  destruct (deliver_event e (c_state v)) as [w| | |] eqn:Ew; [|constructor..]. by apply (Hg e (c_state v) w).
Qed.
End Careful.
