(* ===== verification/LinkableProfiler.v ===== *)
(** * Walking the stack inside the signal handler ([lib/linkable_profiler.c])

    [linkable_handle] fills the caller's array of frames with what libunwind and
    the frame descriptors of the OCaml runtime report.  Both are parameters: the
    cursor of libunwind as an abstract type with its functions, the runtime as
    the two functions the code calls.  The two loops run on fuel; running out of
    it is [Blocked], which [linkable_handle_total] excludes. *)
From S2P Require Import Prelude MetricTypes.

(** What the code uses of libunwind and of the OCaml runtime.  A return code of
    [unw_step] is positive when there is a caller, zero at the end of the stack,
    negative on failure.  [caml_next_frame_descriptor] yields the return address
    of the descriptor it finds and the [pc] and [sp] it stores. *)
Class Unwinder (Context Cursor : Type) := {
  unw_getcontext : Z * Context;
  unw_init_local : Context -> Z * Cursor;
  unw_step : Cursor -> Z * Cursor;
  unw_reg_ip : Cursor -> Z;
  unw_reg_sp : Cursor -> Z;
  caml_find_code_fragment_by_pc : Z -> bool;
  caml_next_frame_descriptor : Z -> Z -> option (Z * Z * Z)
}.

(** A store to [frames[i]]. *)
Definition store_frame (i : Z) (f : CallFrame) (frames : list CallFrame) : outcome (list CallFrame) :=
  _ ← in_bounds (frames !! Z.to_nat i);
  Ok (<[Z.to_nat i := f]> frames).

Section Handle.
Context {Context Cursor : Type} `{Unwinder Context Cursor}.

(** The loop over the frame descriptors; the result tells whether
    [first_ocaml_frame] is still true. *)
Fixpoint ocaml_loop (fuel : nat) (first_ocaml_frame : bool) (num_frames pc sp : Z) (frames : list CallFrame)
    : outcome (bool * Z * list CallFrame) :=
  match fuel with
  | O => Blocked
  | S fuel =>
      if negb (num_frames <? MAX_FRAMES) then Ok (first_ocaml_frame, num_frames, frames)
      else
        match caml_next_frame_descriptor pc sp with
        | None => Ok (first_ocaml_frame, num_frames, frames)
        | Some (retaddr, pc, sp) =>
            previous ← in_bounds (frames !! Z.to_nat (num_frames - 1));
            '(num_frames, frames) ←
              if negb (retaddr =? frame previous) then
                frames ← store_frame num_frames (mkCallFrame false retaddr) frames;
                Ok (num_frames + 1, frames)
              else Ok (num_frames, frames);
            frames ← store_frame num_frames (mkCallFrame false pc) frames;
            ocaml_loop fuel false (num_frames + 1) pc sp frames
        end
  end.

Fixpoint unwind_loop (fuel : nat) (cursor : Cursor) (num_frames : Z) (frames : list CallFrame)
    (holder : ErrorHolder) : outcome (Z * list CallFrame * ErrorHolder) :=
  match fuel with
  | O => Blocked
  | S fuel' =>
      if negb (num_frames <? MAX_FRAMES) then Ok (num_frames, frames, holder)
      else
        let '(ret, cursor) := unw_step cursor in
        if ret =? 0 then Ok (num_frames, frames, holder)
        else if ret <? 0 then Ok (num_frames, frames, mkErrorHolder ret STEP_FAIL)
        else
          let uw_ip := unw_reg_ip cursor in
          let uw_sp := unw_reg_sp cursor in
          let frag := caml_find_code_fragment_by_pc uw_ip in
          frames ← store_frame num_frames (mkCallFrame (negb frag) uw_ip) frames;
          let num_frames := num_frames + 1 in
          if frag then
            '(first_ocaml_frame, num_frames, frames) ← ocaml_loop fuel true num_frames uw_ip uw_sp frames;
            if negb first_ocaml_frame then Ok (num_frames, frames, holder)
            else unwind_loop fuel' cursor num_frames frames holder
          else unwind_loop fuel' cursor num_frames frames holder
  end.

(** Both loops advance by a frame per turn, so one turn more than [MAX_FRAMES]
    is enough. *)
Definition walk_fuel : nat := S (Z.to_nat MAX_FRAMES).

Definition linkable_handle (frames : list CallFrame) (holder : ErrorHolder)
    : outcome (Z * list CallFrame * ErrorHolder) :=
  let '(ret, ucp) := unw_getcontext in
  if ret <? 0 then Ok (0, frames, mkErrorHolder ret GET_CONTEXT_FAIL)
  else
    let '(ret, cursor) := unw_init_local ucp in
    if ret <? 0 then Ok (0, frames, mkErrorHolder ret INIT_LOCAL_FAIL)
    else unwind_loop walk_fuel cursor 0 frames holder.
End Handle.
