(* ===== verification/LinkableProfilerSpec.v ===== *)
(** * The stack walk terminates, agrees with a reference walk, and where it
    leaves its array *)
From S2P Require Import Prelude MetricTypes LinkableProfiler.

(** ** Reference walk: the frames as a list, at most [n] of them *)

Section Reference.
Context {Context Cursor : Type} `{Unwinder Context Cursor}.

(** The OCaml frames above [pc], outermost last. *)
Fixpoint ocaml_chain (n : nat) (pc sp : Z) : list CallFrame :=
  match n with
  | O => []
  | S n =>
      match caml_next_frame_descriptor pc sp with
      | None => []
      | Some (_, pc, sp) => mkCallFrame false pc :: ocaml_chain n pc sp
      end
  end.

(** libunwind walks frames one by one until it meets an OCaml frame with a
    descriptor; the runtime's chain then gives all the rest. *)
Fixpoint walk (n : nat) (cursor : Cursor) (holder : ErrorHolder) : list CallFrame * ErrorHolder :=
  match n with
  | O => ([], holder)
  | S n =>
      let '(ret, cursor) := unw_step cursor in
      if ret =? 0 then ([], holder)
      else if ret <? 0 then ([], mkErrorHolder ret STEP_FAIL)
      else
        let ip := unw_reg_ip cursor in
        let frag := caml_find_code_fragment_by_pc ip in
        let chain := if frag then ocaml_chain n ip (unw_reg_sp cursor) else [] in
        match chain with
        | [] => let '(l, holder) := walk n cursor holder in (mkCallFrame (negb frag) ip :: l, holder)
        | _ => (mkCallFrame (negb frag) ip :: chain, holder)
        end
  end.

(** No return address was overwritten: the descriptor found at a [pc] belongs
    to that [pc]. *)
Definition intact : Prop :=
  forall pc sp retaddr pc' sp', caml_next_frame_descriptor pc sp = Some (retaddr, pc', sp') -> retaddr = pc.

(** The array after [l] was stored over its front. *)
Definition over (l frames : list CallFrame) : list CallFrame := l ++ drop (length l) frames.

Lemma store_over l f frames :
  (length l < length frames)%nat ->
  store_frame (Z.of_nat (length l)) f (over l frames) = Ok (over (l ++ [f]) frames).
Proof using Type.
  intros Hl. unfold store_frame, over. rewrite Nat2Z.id.
  destruct (lookup_lt_is_Some_2 frames (length l)) as [x Hx]; [lia|].
  rewrite (drop_S _ x) by done. rewrite list_lookup_middle by done. simpl.
  rewrite insert_app_r_alt, Nat.sub_diag by lia. simpl.
  rewrite length_app, <- app_assoc. simpl. by rewrite Nat.add_1_r.
Qed.

Lemma lookup_over l f frames : over (l ++ [f]) frames !! length l = Some f.
Proof using Type. unfold over. rewrite <- app_assoc. by apply list_lookup_middle. Qed.

Lemma ocaml_loop_chain fuel first l f sp frames :
  intact -> length frames = Z.to_nat MAX_FRAMES ->
  (S (length l) <= Z.to_nat MAX_FRAMES)%nat -> (Z.to_nat MAX_FRAMES <= length l + fuel)%nat ->
  let chain := ocaml_chain (Z.to_nat MAX_FRAMES - S (length l)) (frame f) sp in
  ocaml_loop fuel first (Z.of_nat (S (length l))) (frame f) sp (over (l ++ [f]) frames) =
    Ok (match chain with [] => first | _ => false end,
        Z.of_nat (length (l ++ f :: chain)), over (l ++ f :: chain) frames).
Proof using Type.
  intros Hintact Hlen. revert first l f sp.
  induction fuel as [|fuel IH]; intros first l f sp Hl Hfuel; [lia|]. cbn [ocaml_loop].
  destruct (Z.ltb_spec (Z.of_nat (S (length l))) MAX_FRAMES) as [Hlt|Hge]; simpl negb; cbv iota.
  2: { replace (Z.to_nat MAX_FRAMES - S (length l))%nat with 0%nat by lia. simpl.
       rewrite length_app. simpl. by rewrite Nat.add_1_r. }
  replace (Z.to_nat MAX_FRAMES - S (length l))%nat with (S (Z.to_nat MAX_FRAMES - S (S (length l)))) by lia.
  cbn [ocaml_chain].
  destruct (caml_next_frame_descriptor (frame f) sp) as [[[retaddr pc'] sp']|] eqn:Enext.
  2: { rewrite length_app. simpl. by rewrite Nat.add_1_r. }
  replace (Z.to_nat (Z.of_nat (S (length l)) - 1)) with (length l) by lia.
  rewrite lookup_over. cbn [in_bounds mbind outcome_bind].
  rewrite (Hintact _ _ _ _ _ Enext), Z.eqb_refl. cbn [negb mbind outcome_bind].
  replace (Z.of_nat (S (length l))) with (Z.of_nat (length (l ++ [f]))) at 1
    by (rewrite length_app; cbn [length]; lia).
  rewrite store_over by (rewrite length_app; cbn [length]; lia). cbn [mbind outcome_bind].
  replace (Z.of_nat (S (length l)) + 1) with (Z.of_nat (S (length (l ++ [f]))))
    by (rewrite length_app; cbn [length]; lia).
  specialize (IH false (l ++ [f]) (mkCallFrame false pc') sp').
  cbn [frame] in IH. rewrite IH by (rewrite length_app; cbn [length]; lia).
  replace (Z.to_nat MAX_FRAMES - S (length (l ++ [f])))%nat
    with (Z.to_nat MAX_FRAMES - S (S (length l)))%nat by (rewrite length_app; cbn [length]; lia).
  rewrite <- app_assoc. cbn [app]. set (chain := ocaml_chain _ pc' sp'). by destruct chain.
Qed.

Lemma unwind_loop_walk fuel cursor l frames holder :
  intact -> length frames = Z.to_nat MAX_FRAMES ->
  (length l <= Z.to_nat MAX_FRAMES)%nat -> (Z.to_nat MAX_FRAMES < length l + fuel)%nat ->
  let '(more, holder') := walk (Z.to_nat MAX_FRAMES - length l) cursor holder in
  unwind_loop fuel cursor (Z.of_nat (length l)) (over l frames) holder =
    Ok (Z.of_nat (length (l ++ more)), over (l ++ more) frames, holder').
Proof using Type.
  intros Hintact Hlen. revert cursor l.
  induction fuel as [|fuel IH]; intros cursor l Hl Hfuel; [lia|]. cbn [unwind_loop].
  destruct (Z.ltb_spec (Z.of_nat (length l)) MAX_FRAMES) as [Hlt|Hge]; cbn [negb].
  2: { replace (Z.to_nat MAX_FRAMES - length l)%nat with 0%nat by lia. simpl. by rewrite app_nil_r. }
  replace (Z.to_nat MAX_FRAMES - length l)%nat with (S (Z.to_nat MAX_FRAMES - S (length l))) by lia.
  cbn [walk]. destruct (unw_step cursor) as [ret cursor'].
  destruct (ret =? 0); [by rewrite app_nil_r|]. destruct (ret <? 0); [by rewrite app_nil_r|].
  set (f := mkCallFrame (negb (caml_find_code_fragment_by_pc (unw_reg_ip cursor'))) (unw_reg_ip cursor')).
  rewrite store_over by lia. cbn [mbind outcome_bind].
  replace (Z.of_nat (length l) + 1) with (Z.of_nat (S (length l))) by lia.
  specialize (IH cursor' (l ++ [f])). rewrite length_app in IH. simpl length in IH.
  rewrite Nat.add_1_r in IH. specialize (IH ltac:(lia) ltac:(lia)).
  destruct (caml_find_code_fragment_by_pc (unw_reg_ip cursor')) eqn:Efrag.
  - pose proof (ocaml_loop_chain (S fuel) true l f (unw_reg_sp cursor') frames Hintact Hlen
      ltac:(lia) ltac:(lia)) as Hloop. simpl frame in Hloop. cbv zeta in Hloop.
    rewrite Hloop. cbn [mbind outcome_bind]. clear Hloop.
    destruct (ocaml_chain _ _ _) as [|g chain] eqn:Echain; cbn [negb]; [|done].
    rewrite length_app. simpl length. rewrite Nat.add_1_r.
    destruct (walk _ cursor' holder) as [more holder']. rewrite IH. by rewrite <- app_assoc.
  - destruct (walk _ cursor' holder) as [more holder']. rewrite IH. by rewrite <- app_assoc.
Qed.
End Reference.

(** ** Bounds without any assumption on the stack *)

Section Bounds.
Context {Context Cursor : Type} `{Unwinder Context Cursor}.

(** [n] frames were counted, all inside the array, one more than [MAX_FRAMES]
    at most; a store out of bounds needs an array of at most [MAX_FRAMES]. *)
Definition counted (size : nat) (n : Z) (frames : list CallFrame) : Prop :=
  0 <= n <= MAX_FRAMES + 1 /\ n <= Z.of_nat size /\ length frames = size.

Lemma store_frame_bounds size i f frames :
  length frames = size -> 0 <= i <= MAX_FRAMES ->
  match store_frame i f frames with
  | Ok frames' => i < Z.of_nat size /\ length frames' = size /\ frames' = <[Z.to_nat i := f]> frames
  | Undefined => Z.of_nat size <= i
  | _ => False
  end.
Proof using Type.
  intros Hlen Hi. unfold store_frame. destruct (frames !! Z.to_nat i) eqn:E; simpl.
  - apply lookup_lt_Some in E. rewrite length_insert. split_and!; [lia|done|done].
  - apply lookup_ge_None in E. lia.
Qed.

Definition loop_bounds (from : Z) (size : nat) (r : outcome (bool * Z * list CallFrame)) : Prop :=
  match r with
  | Ok (_, n, frames) => from <= n /\ counted size n frames
  | Undefined => Z.of_nat size <= MAX_FRAMES
  | _ => False
  end.

Ltac store :=
  match goal with |- context [store_frame ?i ?f ?fr] =>
    let Hs := fresh "Hs" in
    pose proof (store_frame_bounds (length fr) i f fr eq_refl ltac:(lia)) as Hs;
    destruct (store_frame i f fr) eqn:?; cbn [mbind outcome_bind]; [|try (simpl; lia)|done|done]
  end.

Lemma loop_bounds_weaken from from' size r : from <= from' -> loop_bounds from' size r -> loop_bounds from size r.
Proof using Type. intros Hle. destruct r as [[[b n] fr]| | |]; simpl; try done. intros [Hn Hc]. split; [lia|done]. Qed.

Lemma ocaml_loop_bounds fuel first n pc sp frames :
  0 < n -> counted (length frames) n frames -> MAX_FRAMES < n + Z.of_nat fuel -> (0 < fuel)%nat ->
  loop_bounds n (length frames) (ocaml_loop fuel first n pc sp frames).
Proof using Type.
  revert first n pc sp frames.
  induction fuel as [|fuel IH]; intros first n pc sp frames Hpos [Hn [Hin _]] Hfuel Hf; [lia|].
  cbn [ocaml_loop]. destruct (Z.ltb_spec n MAX_FRAMES); cbn [negb]; [|simpl; by split_and!].
  destruct (caml_next_frame_descriptor pc sp) as [[[retaddr pc'] sp']|]; [|simpl; by split_and!].
  destruct (lookup_lt_is_Some_2 frames (Z.to_nat (n - 1))) as [prev Hprev]; [lia|].
  rewrite Hprev. cbn [in_bounds mbind outcome_bind].
  assert (forall m frames', n <= m <= n + 1 -> length frames' = length frames -> m <= Z.of_nat (length frames) ->
    loop_bounds n (length frames)
      (frames' ← store_frame m (mkCallFrame false pc') frames'; ocaml_loop fuel false (m + 1) pc' sp' frames'))
    as Hnext.
  { intros m frames' Hm Hl Hmi. rewrite <- Hl. store. destruct Hs as (Hlt & Hl2 & _). rewrite <- Hl2.
    eapply loop_bounds_weaken; [|apply IH]; [lia|lia|split; [lia|split; [lia|done]]|lia|lia]. }
  destruct (negb (retaddr =? frame prev)); [|cbn [mbind outcome_bind]; apply Hnext; by lia || done].
  store. destruct Hs as (Hlt & Hl2 & _). apply Hnext; lia || done.
Qed.

Definition walk_bounds (size : nat) (r : outcome (Z * list CallFrame * ErrorHolder)) : Prop :=
  match r with
  | Ok (n, frames, _) => counted size n frames
  | Undefined => Z.of_nat size <= MAX_FRAMES
  | _ => False
  end.

Lemma unwind_loop_bounds fuel cursor n frames holder :
  counted (length frames) n frames -> MAX_FRAMES < n + Z.of_nat fuel -> (0 < fuel)%nat ->
  walk_bounds (length frames) (unwind_loop fuel cursor n frames holder).
Proof using Type.
  revert cursor n frames.
  induction fuel as [|fuel IH]; intros cursor n frames [Hn [Hin _]] Hfuel Hf; [lia|].
  cbn [unwind_loop]. destruct (Z.ltb_spec n MAX_FRAMES); cbn [negb]; [|done].
  destruct (unw_step cursor) as [ret cursor'].
  destruct (ret =? 0); [done|]. destruct (ret <? 0); [done|].
  store. destruct Hs as (Hlt & Hl & _).
  destruct (caml_find_code_fragment_by_pc _).
  2: { rewrite <- Hl. apply IH; [split; [lia|split; [lia|done]]|lia|lia]. }
  pose proof (ocaml_loop_bounds (S fuel) true (n + 1) (unw_reg_ip cursor') (unw_reg_sp cursor') a
    ltac:(lia) ltac:(split; [lia|split; [lia|done]]) ltac:(lia) ltac:(lia)) as Hloop. rewrite Hl in Hloop.
  destruct (ocaml_loop _ _ _ _ _ _) as [[[first n'] frames']| | |]; cbn [mbind outcome_bind]; try done.
  destruct Hloop as (Hpos & Hc & Hi & Hl'). destruct first; cbn [negb]; [|by split].
  rewrite <- Hl'. apply IH; [split; [lia|split; [lia|done]]|lia|lia].
Qed.
End Bounds.

(** ** Properties *)

Section Properties.
Context {Context Cursor : Type} `{Unwinder Context Cursor}.

Lemma linkable_handle_intact frames holder :
  intact -> length frames = Z.to_nat MAX_FRAMES -> 0 <= fst unw_getcontext ->
  0 <= fst (unw_init_local (snd unw_getcontext)) ->
  let '(l, holder') := walk (Z.to_nat MAX_FRAMES) (snd (unw_init_local (snd unw_getcontext))) holder in
  linkable_handle frames holder = Ok (Z.of_nat (length l), over l frames, holder').
Proof using Type.
  intros Hintact Hlen Hctx Hinit. unfold linkable_handle.
  destruct unw_getcontext as [ret ucp]. cbn [fst snd] in Hctx, Hinit |- *.
  destruct (Z.ltb_spec ret 0); [lia|]. destruct (unw_init_local ucp) as [ret' cursor]. cbn [fst snd] in Hinit |- *.
  destruct (Z.ltb_spec ret' 0); [lia|].
  pose proof (unwind_loop_walk walk_fuel cursor [] frames holder Hintact Hlen
    ltac:(cbn [length]; lia) ltac:(unfold walk_fuel; cbn [length]; lia)) as Hwalk.
  rewrite Nat.sub_0_r in Hwalk. by destruct (walk _ cursor holder).
Qed.

(** C18. On a stack whose return addresses are intact the walk stores exactly the
    frames of the reference walk, at most [MAX_FRAMES] of them, at the front of the
    array, leaves the rest of the array alone, and returns their number; the
    holder tells how the walk ended. *)
Theorem linkable_handle_walks frames holder :
  intact -> length frames = Z.to_nat MAX_FRAMES -> 0 <= fst unw_getcontext ->
  0 <= fst (unw_init_local (snd unw_getcontext)) ->
  let '(l, holder') := walk (Z.to_nat MAX_FRAMES) (snd (unw_init_local (snd unw_getcontext))) holder in
  linkable_handle frames holder = Ok (Z.of_nat (length l), over l frames, holder').
Proof using Type. exact (linkable_handle_intact frames holder). Qed.

(** C19. The walk always terminates and, with one entry more than [MAX_FRAMES]
    in the array, never leaves it: it returns at most [MAX_FRAMES + 1] frames.
    With [MAX_FRAMES] entries it either stays inside or is undefined. *)
Theorem linkable_handle_total frames holder :
  Z.of_nat (length frames) = MAX_FRAMES \/ Z.of_nat (length frames) = MAX_FRAMES + 1 ->
  walk_bounds (length frames) (linkable_handle frames holder).
Proof using Type.
  intros Hlen. assert (counted (length frames) 0 frames) as Hc by (unfold counted; lia).
  unfold linkable_handle. destruct unw_getcontext as [ret ucp].
  destruct (ret <? 0); [done|]. destruct (unw_init_local ucp) as [ret' cursor].
  destruct (ret' <? 0); [done|]. apply unwind_loop_bounds; [done| |unfold walk_fuel; lia].
  unfold walk_fuel. lia.
Qed.

(** A failure of libunwind before the first step is reported with no frame. *)
Theorem linkable_handle_reports frames holder :
  fst unw_getcontext < 0 \/ fst (unw_init_local (snd unw_getcontext)) < 0 ->
  linkable_handle frames holder =
    Ok (0, frames,
        if fst unw_getcontext <? 0 then mkErrorHolder (fst unw_getcontext) GET_CONTEXT_FAIL
        else mkErrorHolder (fst (unw_init_local (snd unw_getcontext))) INIT_LOCAL_FAIL).
Proof using Type.
  unfold linkable_handle. destruct unw_getcontext as [ret ucp]. cbn [fst snd]. intros Hfail.
  destruct (Z.ltb_spec ret 0); [done|]. destruct (unw_init_local ucp) as [ret' cursor]. cbn [fst snd] in *.
  destruct (Z.ltb_spec ret' 0); [done|lia].
Qed.
End Properties.

(** ** Concrete stacks *)

(** libunwind reports one OCaml frame at pc 1; descriptors then follow at pcs 2,
    3, ... up to [top]; the descriptor found at [broken] has another return
    address. *)
Definition chain_stack (broken top : Z) : Unwinder unit Z := {|
  unw_getcontext := (0, tt);
  unw_init_local _ := (0, 0);
  unw_step cursor := if cursor =? 0 then (1, 1) else (0, cursor);
  unw_reg_ip cursor := cursor;
  unw_reg_sp _ := 0;
  caml_find_code_fragment_by_pc _ := true;
  caml_next_frame_descriptor pc sp :=
    if pc <? top then Some (if pc =? broken then 0 else pc, pc + 1, sp) else None
|}.

Definition unwritten (n : nat) : list CallFrame := replicate n (mkCallFrame true 7).

(** The turn that finds a broken return address stores two frames after one
    check of the bound: at 255 frames the second store is out of the array of
    [MAX_FRAMES] entries that [Profiler::handle] passes. *)
Theorem broken_chain_overflows :
  linkable_handle (H := chain_stack 255 400) (unwritten 256) (mkErrorHolder 0 SUCCESS) = Undefined.
Proof. vm_compute. reflexivity. Qed.

Lemma linkable_handle_walks_witness :
  linkable_handle (H := chain_stack 0 4) (unwritten 256) (mkErrorHolder 0 SUCCESS) =
    Ok (4, mkCallFrame false 1 :: mkCallFrame false 2 :: mkCallFrame false 3 :: mkCallFrame false 4
             :: unwritten 252, mkErrorHolder 0 SUCCESS).
Proof.
  apply (linkable_handle_walks (H := chain_stack 0 4)); [|reflexivity|discriminate|discriminate].
  intros pc sp retaddr pc' sp' E. simpl in E. destruct (pc <? 4); [|discriminate].
  destruct (Z.eqb_spec pc 0) as [->|]; congruence.
Defined.

Lemma linkable_handle_total_witness :
  walk_bounds (length (unwritten 257)) (linkable_handle (H := chain_stack 255 400) (unwritten 257) (mkErrorHolder 0 SUCCESS)).
Proof. apply (linkable_handle_total (H := chain_stack 255 400)). right. reflexivity. Defined.

Definition no_context : Unwinder unit Z := {|
  unw_getcontext := (-3, tt);
  unw_init_local _ := (0, 0);
  unw_step cursor := (0, cursor);
  unw_reg_ip cursor := cursor;
  unw_reg_sp _ := 0;
  caml_find_code_fragment_by_pc _ := true;
  caml_next_frame_descriptor _ _ := None
|}.

Lemma linkable_handle_reports_witness :
  linkable_handle (H := no_context) (unwritten 256) (mkErrorHolder 0 SUCCESS) =
    Ok (0, unwritten 256, mkErrorHolder (-3) GET_CONTEXT_FAIL).
Proof. apply (linkable_handle_reports (H := no_context)). left. reflexivity. Defined.
