(* ===== verification/SignalHandler.v ===== *)
(** * The process timer and the signal dispositions ([lib/signal_handler.cpp])

    [Kernel] is what the code asks of the system: whether [setitimer] and
    [sigaction] succeed.  What they install is kept in the state. *)
From S2P Require Import Prelude.

Class Kernel := {
  setitimer_succeeds : Z -> Z -> bool;
  sigaction_succeeds : Z -> bool
}.

Record timeval := mkTimeval { timer_sec : Z; timer_usec : Z }.
Record itimerval := mkItimerval { it_interval : timeval; it_value : timeval }.

Record action := mkAction { sa_sigaction : string; sa_mask : gset Z; sa_flags : Z }.
Definition SA_SIGINFO : Z := 4.
Definition SA_RESTART : Z := 268435456.

Definition NOT_PROFILING : Z := 0.

Record SignalHandler := mkSignalHandler {
  currentProcessInterval_ : Z;
  isProcessProfiling_ : bool;
  (** the process timer of the kernel, and the installed actions *)
  process_timer : itimerval;
  actions : gmap Z action
}.

Definition disarmed : itimerval := mkItimerval (mkTimeval 0 0) (mkTimeval 0 0).
Definition new_SignalHandler (installed : gmap Z action) : SignalHandler :=
  mkSignalHandler 0 false disarmed installed.

(** [int] multiplication; overflow is undefined. *)
Definition int_mul (a b : Z) : outcome Z :=
  if (INT_MIN <=? a * b) && (a * b <=? INT_MAX) then Ok (a * b) else Undefined.

Section Operations.
Context `{Kernel}.

(** [None] for a [timer] that [setitimer] refused. *)
Definition updateInterval (timingIntervalInMillis currentIntervalInMillis : Z) (timer : itimerval)
    : outcome (bool * itimerval) :=
  if timingIntervalInMillis =? currentIntervalInMillis then Ok (true, timer)
  else
    micros ← int_mul timingIntervalInMillis 1000;
    let it_interval := mkTimeval (Z.quot timingIntervalInMillis 1000) (Z.rem micros 1000000) in
    if setitimer_succeeds (timer_sec it_interval) (timer_usec it_interval)
    then Ok (true, mkItimerval it_interval it_interval)
    else Ok (false, timer).

Definition updateProcessInterval (timingIntervalInMillis : Z) (h : SignalHandler) : outcome (bool * SignalHandler) :=
  '(updated, timer) ← updateInterval timingIntervalInMillis (currentProcessInterval_ h) (process_timer h);
  if negb updated then Ok (false, h)
  else Ok (true, mkSignalHandler timingIntervalInMillis (negb (timingIntervalInMillis =? NOT_PROFILING)) timer (actions h)).

Definition stopProcessProfiling (h : SignalHandler) : outcome (bool * SignalHandler) :=
  updateProcessInterval NOT_PROFILING h.

Definition isProcessProfiling (h : SignalHandler) : bool := isProcessProfiling_ h.

(** The mask built with [sigemptyset] and [sigaddset]; 0 adds nothing. *)
Definition mask_of (signals : list Z) : gset Z := list_to_set (filter (fun s => s <> 0) signals).

(** The action installed before, which a failed [sigaction] does not report. *)
Definition install (signalNumber : Z) (sa : action) (h : SignalHandler) : option action * SignalHandler :=
  if sigaction_succeeds signalNumber then
    (actions h !! signalNumber,
     mkSignalHandler (currentProcessInterval_ h) (isProcessProfiling_ h) (process_timer h)
       (<[signalNumber := sa]> (actions h)))
  else (None, h).

Definition SetAction (signalNumber maskedSignalNumber : Z) (action : string) (h : SignalHandler)
    : option SignalHandler.action * SignalHandler :=
  install signalNumber (mkAction action (mask_of [maskedSignalNumber]) (Z.lor SA_RESTART SA_SIGINFO)) h.

Definition SetAction2 (signalNumber maskedSignalNumber maskedSignalNumber2 : Z) (action : string)
    (h : SignalHandler) : option SignalHandler.action * SignalHandler :=
  install signalNumber
    (mkAction action (mask_of [maskedSignalNumber; maskedSignalNumber2]) (Z.lor SA_RESTART SA_SIGINFO)) h.
End Operations.

(** ** The timer agrees with what the handler believes *)

(** A period as [setitimer] wants it: the microseconds below a second. *)
Definition normalised (t : timeval) : Prop := 0 <= timer_sec t /\ 0 <= timer_usec t < 1000000.
Definition micros (t : timeval) : Z := timer_sec t * 1000000 + timer_usec t.

Record consistent (h : SignalHandler) : Prop := {
  profiling_flag : isProcessProfiling_ h = negb (currentProcessInterval_ h =? NOT_PROFILING);
  period_set : micros (it_interval (process_timer h)) = currentProcessInterval_ h * 1000;
  first_expiry : it_value (process_timer h) = it_interval (process_timer h);
  period_normalised : normalised (it_interval (process_timer h))
}.

Lemma new_consistent installed : consistent (new_SignalHandler installed).
Proof. by split. Qed.

Lemma quot_rem_normalised ms :
  0 <= ms -> normalised (mkTimeval (Z.quot ms 1000) (Z.rem (ms * 1000) 1000000)) /\
    micros (mkTimeval (Z.quot ms 1000) (Z.rem (ms * 1000) 1000000)) = ms * 1000.
Proof.
  intros Hms. unfold normalised, micros. simpl.
  rewrite Z.quot_div_nonneg, Z.rem_mod_nonneg by lia.
  assert ((ms * 1000) mod 1000000 = (ms mod 1000) * 1000) as ->.
  { change 1000000 with (1000 * 1000). by rewrite Z.mul_mod_distr_r by lia. }
  pose proof (Z.div_mod ms 1000 ltac:(lia)). pose proof (Z.mod_pos_bound ms 1000 ltac:(lia)).
  pose proof (Z.div_pos ms 1000 ltac:(lia) ltac:(lia)). lia.
Qed.

Section Spec.
Context `{Kernel}.

(** A period of at most [INT_MAX / 1000] milliseconds is installed exactly,
    in the normal form [setitimer] demands, and the handler's fields agree with
    the timer afterwards, whether or not the system accepted it. *)
Theorem updateProcessInterval_consistent ms h :
  consistent h -> 0 <= ms <= 2147483 ->
  exists b h', updateProcessInterval ms h = Ok (b, h') /\ consistent h' /\
    (b = true -> currentProcessInterval_ h' = ms) /\ (b = false -> h' = h).
Proof using Type.
  intros Hh Hms. unfold updateProcessInterval, updateInterval.
  destruct (Z.eqb_spec ms (currentProcessInterval_ h)) as [->|Hne]; simpl.
  { eexists _, _. split; [done|]. split; [|done]. by destruct Hh. }
  unfold int_mul, INT_MIN, INT_MAX.
  destruct (Z.leb_spec (- 2 ^ 31) (ms * 1000)); [|lia].
  destruct (Z.leb_spec (ms * 1000) (2 ^ 31 - 1)); [|lia]. simpl.
  destruct (setitimer_succeeds _ _); simpl; [|by eexists _, _].
  eexists _, _. split; [done|]. destruct (quot_rem_normalised ms) as [Hn Hm]; [lia|].
  split; [|done]. by split.
Qed.

(** A longer period overflows an [int]. *)
Theorem long_interval_overflows ms h :
  2147483 < ms <= INT_MAX -> currentProcessInterval_ h <> ms -> updateProcessInterval ms h = Undefined.
Proof using Type.
  intros Hms Hne. unfold updateProcessInterval, updateInterval, int_mul, INT_MIN, INT_MAX in *.
  destruct (Z.eqb_spec ms (currentProcessInterval_ h)); [congruence|].
  destruct (Z.leb_spec (ms * 1000) (2 ^ 31 - 1)); [lia|]. by rewrite andb_false_r.
Qed.
End Spec.

Definition willing : Kernel := {| setitimer_succeeds _ _ := true; sigaction_succeeds _ := true |}.

Lemma updateProcessInterval_consistent_witness :
  exists b h, updateProcessInterval (H := willing) 20 (new_SignalHandler ∅) = Ok (b, h) /\ consistent h /\
    (b = true -> currentProcessInterval_ h = 20) /\ (b = false -> h = new_SignalHandler ∅).
Proof. apply (updateProcessInterval_consistent (H := willing)); [apply new_consistent|lia]. Defined.

Lemma long_interval_overflows_witness :
  updateProcessInterval (H := willing) 3600000 (new_SignalHandler ∅) = Undefined.
Proof. apply (long_interval_overflows (H := willing)); [unfold INT_MAX; lia|discriminate]. Defined.
