(* ===== verification/ProcScanner.v ===== *)
(** * Per-thread timers ([lib/proc_scanner.cpp])

    The metrics thread scans [/proc/self/task] and gives every thread but the
    agent's own a POSIX timer that sends [SIGALRM] to it; the processor thread
    only stores the interval.  The timers of the kernel are part of the state;
    what the kernel answers is the class [TimerKernel]. *)
From S2P Require Import Prelude MetricTypes CString.
From Stdlib Require Import Ascii.

Definition MS_TO_NS : Z := 1000000.
Definition NOT_SCANNING : Z := ULONG_MAX.

(** A timer of the kernel: the thread it signals, and the period it is armed
    with, if it is. *)
Record ktimer := mkKtimer { kt_tid : Z; kt_signo : Z; kt_period : option Z }.

(** [timer_create] picks an identifier for the new timer, or fails;
    [timer_settime] accepts or refuses a number of nanoseconds. *)
Class TimerKernel := {
  timer_create : gmap Z ktimer -> Z -> option Z;
  timer_settime_accepts : Z -> bool
}.

Record scanner := mkScanner {
  last_scan_threads_ : gset Z;
  timers_ : gset Z;
  metrics_thread_id_ : Z;
  processor_thread_id_ : Z;
  metrics_thread_started_ : bool;
  processor_thread_started_ : bool;
  atomic_interval_in_ns_ : Z;
  local_interval_in_ns_ : Z;
  kernel_timers : gmap Z ktimer
}.

Definition new_scanner (k : gmap Z ktimer) : scanner :=
  mkScanner ∅ ∅ 0 0 false false NOT_SCANNING NOT_SCANNING k.

Definition set_threads (l : gset Z) (s : scanner) : scanner :=
  mkScanner l (timers_ s) (metrics_thread_id_ s) (processor_thread_id_ s) (metrics_thread_started_ s)
    (processor_thread_started_ s) (atomic_interval_in_ns_ s) (local_interval_in_ns_ s) (kernel_timers s).
Definition set_timers (t : gset Z) (k : gmap Z ktimer) (s : scanner) : scanner :=
  mkScanner (last_scan_threads_ s) t (metrics_thread_id_ s) (processor_thread_id_ s) (metrics_thread_started_ s)
    (processor_thread_started_ s) (atomic_interval_in_ns_ s) (local_interval_in_ns_ s) k.
Definition set_atomic_interval (ns : Z) (s : scanner) : scanner :=
  mkScanner (last_scan_threads_ s) (timers_ s) (metrics_thread_id_ s) (processor_thread_id_ s)
    (metrics_thread_started_ s) (processor_thread_started_ s) ns (local_interval_in_ns_ s) (kernel_timers s).
Definition set_local_interval (ns : Z) (s : scanner) : scanner :=
  mkScanner (last_scan_threads_ s) (timers_ s) (metrics_thread_id_ s) (processor_thread_id_ s)
    (metrics_thread_started_ s) (processor_thread_started_ s) (atomic_interval_in_ns_ s) ns (kernel_timers s).

(** ** Processor thread *)

Definition on_processor_thread_start (tid : Z) (s : scanner) : scanner :=
  mkScanner (last_scan_threads_ s) (timers_ s) (metrics_thread_id_ s) tid (metrics_thread_started_ s)
    true (atomic_interval_in_ns_ s) (local_interval_in_ns_ s) (kernel_timers s).

Definition is_scanning_threads (s : scanner) : bool := negb (atomic_interval_in_ns_ s =? NOT_SCANNING).

Definition update_scanning_threads_interval (interval_in_ms : Z) (s : scanner) : scanner :=
  set_atomic_interval (u64 (interval_in_ms * MS_TO_NS)) s.

Definition stop_scanning_threads (s : scanner) : scanner := update_scanning_threads_interval NOT_SCANNING s.

(** ** Metrics thread *)

Definition on_metrics_thread_start (tid : Z) (s : scanner) : scanner :=
  mkScanner (last_scan_threads_ s) (timers_ s) tid (processor_thread_id_ s) true
    (processor_thread_started_ s) (atomic_interval_in_ns_ s) (local_interval_in_ns_ s) (kernel_timers s).

Section Scan.
Context `{TimerKernel}.

(** The interval is an [uint64_t] passed as a [long]; the seconds stay 0. *)
Definition set_timer_interval (interval_ns : Z) (timer_id : Z) (k : gmap Z ktimer) : gmap Z ktimer :=
  let tv_nsec := i64 interval_ns in
  if timer_settime_accepts tv_nsec
  then alter (fun t => mkKtimer (kt_tid t) (kt_signo t) (Some tv_nsec)) timer_id k
  else k.

Definition start_timer (tid signal_number interval_ns : Z) (s : scanner) : scanner :=
  match timer_create (kernel_timers s) tid with
  | None => s
  | Some timer_id =>
      set_timers ({[timer_id]} ∪ timers_ s)
        (set_timer_interval interval_ns timer_id
          (<[timer_id := mkKtimer tid signal_number None]> (kernel_timers s))) s
  end.

Definition start_profiling_thread (tid : Z) (s : scanner) : scanner :=
  start_timer tid SIGALRM (local_interval_in_ns_ s) s.

Definition on_interval_change (atomic_interval_in_ns : Z) (s : scanner) : scanner :=
  let old_local_interval_in_ns := local_interval_in_ns_ s in
  let s := set_local_interval atomic_interval_in_ns s in
  if atomic_interval_in_ns =? NOT_SCANNING then
    set_timers ∅ (foldr delete (kernel_timers s) (elements (timers_ s))) s
  else if old_local_interval_in_ns =? NOT_SCANNING then
    foldr start_profiling_thread s (elements (last_scan_threads_ s))
  else
    set_timers (timers_ s)
      (foldr (set_timer_interval (local_interval_in_ns_ s)) (kernel_timers s) (elements (timers_ s))) s.

(** One entry of the directory; entries that start with a dot are skipped. *)
Definition scan_entry (name : string) (acc : gset Z * scanner) : gset Z * scanner :=
  let '(currentThreads, s) := acc in
  match name with
  | String "." _ => acc
  | _ =>
      let pid := i32 (strtol 0 name) in
      if (pid =? metrics_thread_id_ s) || (pid =? processor_thread_id_ s) then acc
      else
        ({[pid]} ∪ currentThreads,
         if bool_decide (pid ∈ last_scan_threads_ s) then s else start_profiling_thread pid s)
  end.

(** [task]: the names in [/proc/self/task], [None] when it cannot be opened. *)
Definition scan_threads (task : option (list string)) (s : scanner) : scanner :=
  if metrics_thread_started_ s && processor_thread_started_ s then
    let atomic_interval := atomic_interval_in_ns_ s in
    let s := if negb (atomic_interval =? local_interval_in_ns_ s) then on_interval_change atomic_interval s else s in
    if local_interval_in_ns_ s =? NOT_SCANNING then s
    else
      match task with
      | None => s
      | Some names =>
          let '(currentThreads, s) := fold_left (fun acc name => scan_entry name acc) names (∅, s) in
          set_threads currentThreads s
      end
  else s.
End Scan.

(** ** Fork *)

(** A child starts without the timers of its parent. *)
Definition reset_scan_threads (s : scanner) : scanner :=
  mkScanner ∅ ∅ 0 0 false false NOT_SCANNING NOT_SCANNING (kernel_timers s).
