(* ===== verification/ProcScannerSpec.v ===== *)
(** * Scanning covers every thread; stopping does not stop *)
From S2P Require Import Prelude MetricTypes CString ProcScanner.
From Stdlib Require Import Ascii.

Section Spec.
Context `{TimerKernel}.

(** Identifiers given out are new. *)
Definition fresh_ids : Prop := forall k tid id, timer_create k tid = Some id -> k !! id = None.

(** The period of a timer that was armed with it, if the kernel takes it. *)
Definition armed (ns : Z) : option Z := if timer_settime_accepts ns then Some ns else None.

(** What starting timers for a list of threads comes to: each thread is given a
    new timer that signals it, armed, or [timer_create] refuses it one and nothing
    changes.  The last argument lists the threads refused. *)
Inductive starts (ns : Z) : list Z -> gset Z * gmap Z ktimer -> gset Z * gmap Z ktimer -> list Z -> Prop :=
  | starts_none p : starts ns [] p p []
  | starts_given tid tids ids k id p refused :
      timer_create k tid = Some id ->
      starts ns tids ({[id]} ∪ ids, <[id := mkKtimer tid SIGALRM (armed ns)]> k) p refused ->
      starts ns (tid :: tids) (ids, k) p refused
  | starts_refused tid tids ids k p refused :
      timer_create k tid = None ->
      starts ns tids (ids, k) p refused ->
      starts ns (tid :: tids) (ids, k) p (tid :: refused).

Lemma starts_app ns l1 l2 p1 p2 p3 r1 r2 :
  starts ns l1 p1 p2 r1 -> starts ns l2 p2 p3 r2 -> starts ns (l1 ++ l2) p1 p3 (r1 ++ r2).
Proof using Type.
  intros H1 H2. induction H1; simpl; [done|eapply starts_given|eapply starts_refused]; eauto.
Qed.

(** The thread [tid] has a timer among [p] that signals it, running at the period
    if the kernel takes such a period. *)
Definition timed (ns : Z) (p : gset Z * gmap Z ktimer) (tid : Z) : Prop :=
  exists id t, id ∈ p.1 /\ p.2 !! id = Some t /\ kt_tid t = tid /\ kt_signo t = SIGALRM /\
    (timer_settime_accepts ns = true -> kt_period t = Some ns).

Lemma timed_mono ns ids ids' k k' tid :
  ids ⊆ ids' -> k ⊆ k' -> timed ns (ids, k) tid -> timed ns (ids', k') tid.
Proof using Type.
  intros Hids Hk (id & t & Hid & Ht & Hrest). exists id, t. split; [by apply Hids|]. split; [|done].
  simpl in *. by eapply lookup_weaken.
Qed.

Lemma starts_keep ns l p p' refused :
  fresh_ids -> starts ns l p p' refused -> p.1 ⊆ p'.1 /\ p.2 ⊆ p'.2.
Proof using Type.
  intros Hfresh. induction 1 as [p|tid tids ids k id p refused Hid _ [IH1 IH2]|tid tids ids k p refused Hid _ IH];
    [done| |done]. simpl in *. split; [clear -IH1; set_solver|]. etrans; [|exact IH2].
  apply insert_subseteq. by eapply Hfresh.
Qed.

(** Every thread of the list ends up with a timer unless it was refused one. *)
Lemma starts_timed ns l p p' refused :
  fresh_ids -> starts ns l p p' refused -> Forall (fun tid => tid ∈ refused \/ timed ns p' tid) l.
Proof using Type.
  intros Hfresh. induction 1 as [p|tid tids ids k id p refused Hid Hst IH|tid tids ids k p refused Hid Hst IH].
  - constructor.
  - constructor; [right|done]. destruct (starts_keep _ _ _ _ _ Hfresh Hst) as [H1 H2], p as [ids' k']. cbn [fst snd] in H1, H2.
    eapply timed_mono; [exact H1|exact H2|]. exists id, (mkKtimer tid SIGALRM (armed ns)).
    split; [clear; set_solver|]. split; [by cbn [snd]; rewrite lookup_insert_eq|]. split_and!; try done.
    simpl. unfold armed. by intros ->.
  - constructor; [by left; left|]. revert IH. apply Forall_impl. intros t [?|?]; [by left; right|by right].
Qed.

Definition timers_of (s : scanner) : gset Z * gmap Z ktimer := (timers_ s, kernel_timers s).

(** Every thread known has a timer at the interval in force, but for the threads
    [timer_create] has refused one. *)
Definition attended (s : scanner) (missed : gset Z) : Prop :=
  local_interval_in_ns_ s <> NOT_SCANNING ->
  forall tid, tid ∈ last_scan_threads_ s -> tid ∈ missed \/ timed (i64 (local_interval_in_ns_ s)) (timers_of s) tid.

Lemma set_timer_interval_new ns id t k :
  set_timer_interval ns id (<[id := mkKtimer t SIGALRM None]> k) = <[id := mkKtimer t SIGALRM (armed (i64 ns))]> k.
Proof using Type.
  unfold set_timer_interval, armed. destruct (timer_settime_accepts _); [|done].
  by rewrite alter_insert_eq.
Qed.

(** The kernel's timers when those of the scanner are armed anew. *)
Definition rearmed (ns : Z) (ids : gset Z) (k : gmap Z ktimer) : gmap Z ktimer :=
  map_imap (fun id t => Some (if decide (id ∈ ids) then mkKtimer (kt_tid t) (kt_signo t) (Some ns) else t)) k.

Lemma set_timer_interval_lookup ns id k id' :
  set_timer_interval ns id k !! id' =
    if decide (id = id' /\ timer_settime_accepts (i64 ns) = true)
    then (fun t => mkKtimer (kt_tid t) (kt_signo t) (Some (i64 ns))) <$> k !! id' else k !! id'.
Proof using Type.
  unfold set_timer_interval. destruct (timer_settime_accepts _); case_decide as E; try (by destruct E).
  - destruct E as [-> _]. by rewrite lookup_alter_eq.
  - rewrite lookup_alter_ne; [done|]. tauto.
  - done.
Qed.

Lemma set_timer_intervals_eq ns (ids : gset Z) k :
  foldr (set_timer_interval ns) k (elements ids) = if timer_settime_accepts (i64 ns) then rearmed (i64 ns) ids k else k.
Proof using Type.
  destruct (timer_settime_accepts (i64 ns)) eqn:Eacc.
  2: { induction (elements ids) as [|id l IH]; simpl; [done|]. unfold set_timer_interval at 1. by rewrite Eacc. }
  assert (forall l id, foldr (set_timer_interval ns) k l !! id =
    if decide (id ∈ l) then (fun t => mkKtimer (kt_tid t) (kt_signo t) (Some (i64 ns))) <$> k !! id else k !! id) as Hlook.
  { intros l id. induction l as [|id' l IH]; simpl.
    - done.
    - rewrite set_timer_interval_lookup, IH, Eacc. destruct (k !! id); repeat case_decide; try done; exfalso; set_solver. }
  apply map_eq. intros id. rewrite Hlook. unfold rearmed. rewrite map_lookup_imap.
  destruct (k !! id); simpl; repeat case_decide; try done; exfalso; set_solver.
Qed.

(** Everything but the timers. *)
Definition same_settings (s s' : scanner) : Prop :=
  last_scan_threads_ s' = last_scan_threads_ s /\ metrics_thread_id_ s' = metrics_thread_id_ s /\
  processor_thread_id_ s' = processor_thread_id_ s /\ local_interval_in_ns_ s' = local_interval_in_ns_ s /\
  atomic_interval_in_ns_ s' = atomic_interval_in_ns_ s.

Lemma same_settings_trans s1 s2 s3 : same_settings s1 s2 -> same_settings s2 s3 -> same_settings s1 s3.
Proof using Type. unfold same_settings. intuition congruence. Qed.

Lemma start_profiling_thread_starts tid s :
  same_settings s (start_profiling_thread tid s) /\
  exists refused, starts (i64 (local_interval_in_ns_ s)) [tid] (timers_of s) (timers_of (start_profiling_thread tid s)) refused.
Proof using Type.
  unfold start_profiling_thread, start_timer. destruct (timer_create _ _) as [id|] eqn:E.
  - split; [done|]. eexists. eapply starts_given; [exact E|]. rewrite set_timer_interval_new. apply starts_none.
  - split; [done|]. eexists. apply starts_refused; [exact E|]. apply starts_none.
Qed.

(** What a pid names: a thread that is not one of the agent's own two. *)
Definition scanned (s : scanner) (name : string) : option Z :=
  match name with
  | String "."%char _ => None
  | _ => let pid := i32 (strtol 0 name) in
         if (pid =? metrics_thread_id_ s) || (pid =? processor_thread_id_ s) then None else Some pid
  end.

Lemma scan_entry_eq name threads s :
  scan_entry name (threads, s) =
    match scanned s name with
    | None => (threads, s)
    | Some pid =>
        ({[pid]} ∪ threads,
         if bool_decide (pid ∈ last_scan_threads_ s) then s else start_profiling_thread pid s)
    end.
Proof using Type.
  unfold scan_entry, scanned. destruct name as [|c name]; [by destruct (_ || _)|].
  destruct c as [[] [] [] [] [] [] [] []]; try (by destruct (_ || _)); done.
Qed.

Lemma scanned_settings s s' name : same_settings s s' -> scanned s' name = scanned s name.
Proof using Type. intros (_ & E1 & E2 & _). unfold scanned. by rewrite E1, E2. Qed.

(** The threads a directory lists, and those of them that were not known. *)
Definition listed (s : scanner) (names : list string) : gset Z := list_to_set (omap (scanned s) names).
Definition newcomers (s : scanner) (names : list string) : list Z :=
  filter (fun tid => tid ∉ last_scan_threads_ s) (omap (scanned s) names).

Lemma omap_scanned_settings s s' (names : list string) : same_settings s s' -> omap (scanned s') names = omap (scanned s) names.
Proof using Type.
  intros Hset. apply list_omap_ext. induction names; constructor; [by apply scanned_settings|done].
Qed.

(** Reading the directory starts a timer for each newcomer, in the order listed. *)
Lemma scan_entries_start names threads s :
  let '(threads', s') := fold_left (fun acc name => scan_entry name acc) names (threads, s) in
  threads' = listed s names ∪ threads /\ same_settings s s' /\
  exists refused, starts (i64 (local_interval_in_ns_ s)) (newcomers s names) (timers_of s) (timers_of s') refused.
Proof using Type.
  revert threads s. induction names as [|name names IH]; intros threads s; cbn [fold_left].
  { unfold listed. simpl. rewrite (left_id_L ∅ (∪)). split_and!; try done. eexists. apply starts_none. }
  rewrite scan_entry_eq. unfold listed, newcomers. simpl. destruct (scanned s name) as [pid|]; [|apply IH].
  rewrite filter_cons. case_bool_decide as Hknown.
  - rewrite decide_False by (intros Hn; exact (Hn Hknown)).
    specialize (IH ({[pid]} ∪ threads) s). destruct (fold_left _ names _) as [threads' s'].
    destruct IH as [-> IH]. split; [|exact IH]. unfold listed. simpl. clear. set_solver.
  - rewrite decide_True by exact Hknown. destruct (start_profiling_thread_starts pid s) as [Hset [r1 H1]].
    pose proof Hset as (Elast & _ & _ & Elocal & _).
    specialize (IH ({[pid]} ∪ threads) (start_profiling_thread pid s)).
    unfold listed, newcomers in IH. rewrite Elast, Elocal, (omap_scanned_settings s) in IH by exact Hset.
    destruct (fold_left _ names _) as [threads' s']. destruct IH as (-> & Hset' & r2 & H2).
    split; [simpl; clear; set_solver|]. split; [by eapply same_settings_trans|].
    exists (r1 ++ r2). exact (starts_app _ [pid] _ _ _ _ _ _ H1 H2).
Qed.

Lemma start_threads_start tids s :
  same_settings s (foldr start_profiling_thread s tids) /\
  exists refused, starts (i64 (local_interval_in_ns_ s)) (reverse tids) (timers_of s)
    (timers_of (foldr start_profiling_thread s tids)) refused.
Proof using Type.
  induction tids as [|t tids [IH [r1 H1]]]; [split; [done|]; eexists; apply starts_none|]. cbn [foldr].
  destruct (start_profiling_thread_starts t (foldr start_profiling_thread s tids)) as [Hset [r2 H2]].
  split; [by eapply same_settings_trans|]. destruct IH as (_ & _ & _ & El & _). rewrite El in H2.
  exists (r1 ++ r2). rewrite reverse_cons. by eapply starts_app.
Qed.

(** The first half of a scan: reacting to the interval. *)
Definition noticed (s : scanner) : scanner :=
  if negb (atomic_interval_in_ns_ s =? local_interval_in_ns_ s)
  then on_interval_change (atomic_interval_in_ns_ s) s else s.

(** Timers that run are armed anew when the interval changed, if the kernel takes
    the new one. *)
Definition retimed (s : scanner) : gmap Z ktimer :=
  let ns := atomic_interval_in_ns_ s in
  if negb (ns =? local_interval_in_ns_ s) && negb (local_interval_in_ns_ s =? NOT_SCANNING)
     && timer_settime_accepts (i64 ns)
  then rearmed (i64 ns) (timers_ s) (kernel_timers s) else kernel_timers s.

(** The threads known from before that have no timer because scanning was off. *)
Definition waiting (s : scanner) : list Z :=
  if local_interval_in_ns_ s =? NOT_SCANNING then elements (last_scan_threads_ s) else [].

Lemma noticed_settings s :
  last_scan_threads_ (noticed s) = last_scan_threads_ s /\
  metrics_thread_id_ (noticed s) = metrics_thread_id_ s /\
  processor_thread_id_ (noticed s) = processor_thread_id_ s /\
  local_interval_in_ns_ (noticed s) = atomic_interval_in_ns_ s.
Proof using Type.
  unfold noticed. destruct (Z.eqb_spec (atomic_interval_in_ns_ s) (local_interval_in_ns_ s)) as [E|]; [done|].
  simpl. unfold on_interval_change. destruct (_ =? _); [done|]. destruct (_ =? _); [|done].
  destruct (start_threads_start (elements (last_scan_threads_ (set_local_interval (atomic_interval_in_ns_ s) s)))
    (set_local_interval (atomic_interval_in_ns_ s) s)) as [(-> & -> & -> & -> & _) _]. done.
Qed.

Lemma noticed_starts s :
  atomic_interval_in_ns_ s <> NOT_SCANNING ->
  exists refused, starts (i64 (atomic_interval_in_ns_ s)) (reverse (waiting s)) (timers_ s, retimed s)
    (timers_of (noticed s)) refused.
Proof using Type.
  intros Hon. unfold noticed, retimed, waiting, on_interval_change.
  destruct (Z.eqb_spec (atomic_interval_in_ns_ s) (local_interval_in_ns_ s)) as [E|Hne]; cbn [negb andb].
  { rewrite <- E, (proj2 (Z.eqb_neq _ _)) by done. eexists. apply starts_none. }
  rewrite (proj2 (Z.eqb_neq (atomic_interval_in_ns_ s) _)) by done.
  destruct (local_interval_in_ns_ s =? NOT_SCANNING); cbn [negb andb].
  - destruct (start_threads_start (elements (last_scan_threads_ s)) (set_local_interval (atomic_interval_in_ns_ s) s))
      as [_ Hst]. exact Hst.
  - eexists. unfold timers_of. simpl. rewrite set_timer_intervals_eq. apply starts_none.
Qed.

(** A thread that was attended still is after the interval was noticed. *)
Lemma noticed_timed s missed tid :
  attended s missed -> local_interval_in_ns_ s <> NOT_SCANNING -> tid ∈ last_scan_threads_ s ->
  tid ∈ missed \/ timed (i64 (atomic_interval_in_ns_ s)) (timers_ s, retimed s) tid.
Proof using Type.
  intros Hatt Hlocal Hin. destruct (Hatt Hlocal tid Hin) as [?|(id & t & Hid & Ht & Htid & Hsig & Hper)]; [by left|right].
  unfold retimed. rewrite (proj2 (Z.eqb_neq (local_interval_in_ns_ s) NOT_SCANNING)) by done. rewrite andb_true_r.
  destruct (Z.eqb_spec (atomic_interval_in_ns_ s) (local_interval_in_ns_ s)) as [E|Hne]; cbn [negb andb].
  { rewrite E. by exists id, t. }
  destruct (timer_settime_accepts (i64 (atomic_interval_in_ns_ s))) eqn:Eacc.
  - exists id, (mkKtimer (kt_tid t) (kt_signo t) (Some (i64 (atomic_interval_in_ns_ s)))).
    split; [done|]. split; [|done]. unfold rearmed, timers_of in *. simpl in *. rewrite map_lookup_imap, Ht. simpl.
    by rewrite decide_True.
  - exists id, t. split_and!; try done. by rewrite Eacc.
Qed.

Lemma scan_threads_eq names s :
  metrics_thread_started_ s = true -> processor_thread_started_ s = true ->
  atomic_interval_in_ns_ s <> NOT_SCANNING ->
  scan_threads (Some names) s =
    let '(threads, s') := fold_left (fun acc name => scan_entry name acc) names (∅, noticed s) in
    set_threads threads s'.
Proof using Type.
  intros E1 E2 Hon. unfold scan_threads. rewrite E1, E2. cbn [andb]. fold (noticed s).
  destruct (noticed_settings s) as (_ & _ & _ & ->).
  by destruct (Z.eqb_spec (atomic_interval_in_ns_ s) NOT_SCANNING).
Qed.


(** What POSIX says of [timer_settime]: the nanoseconds of a period are below a
    second. *)
Definition posix_settime : Prop := forall ns, timer_settime_accepts ns = true -> 0 <= ns <= 999999999.

Lemma refused_interval ns id k :
  posix_settime -> ~ (0 <= i64 ns <= 999999999) -> set_timer_interval ns id k = k.
Proof using Type.
  intros Hposix Hns. unfold set_timer_interval. destruct (timer_settime_accepts _) eqn:E; [|done].
  by apply Hposix in E.
Qed.

Lemma refused_intervals ns ids k :
  posix_settime -> ~ (0 <= i64 ns <= 999999999) -> foldr (set_timer_interval ns) k ids = k.
Proof using Type.
  intros Hposix Hns. induction ids as [|id ids IH]; simpl; [done|]. by rewrite IH, refused_interval.
Qed.

Lemma scan_known_threads names threads s :
  (forall tid, tid ∈ listed s names -> tid ∈ last_scan_threads_ s) ->
  (fold_left (fun acc name => scan_entry name acc) names (threads, s)).2 = s.
Proof using Type.
  revert threads. induction names as [|name names IH]; intros threads Hknown; cbn [fold_left]; [done|].
  rewrite scan_entry_eq. unfold listed in Hknown. simpl in Hknown.
  destruct (scanned s name) as [pid|]; [|by apply IH].
  rewrite bool_decide_true by (apply Hknown; clear; set_solver). apply IH.
  intros tid Htid. apply Hknown. clear -Htid. set_solver.
Qed.

(** [stop_scanning_threads] does not stop: the interval it stores wraps to
    another value than [NOT_SCANNING], so the scanner still counts as scanning and
    the next scan leaves every timer armed as it was. *)
Theorem stop_does_not_stop names s :
  posix_settime -> metrics_thread_started_ s = true -> processor_thread_started_ s = true ->
  local_interval_in_ns_ s <> NOT_SCANNING ->
  (forall tid, tid ∈ listed s names -> tid ∈ last_scan_threads_ s) ->
  let s' := scan_threads (Some names) (stop_scanning_threads s) in
  is_scanning_threads s' = true /\ timers_ s' = timers_ s /\ kernel_timers s' = kernel_timers s.
Proof using Type.
  intros Hposix E1 E2 Hlocal Hknown. cbv zeta.
  assert (u64 (NOT_SCANNING * MS_TO_NS) <> NOT_SCANNING) as Hne by (vm_compute; discriminate).
  assert (~ (0 <= i64 (u64 (NOT_SCANNING * MS_TO_NS)) <= 999999999)) as Hbad by (vm_compute; intuition congruence).
  unfold stop_scanning_threads, update_scanning_threads_interval.
  revert Hne Hbad. generalize (u64 (NOT_SCANNING * MS_TO_NS)) as wrapped. intros wrapped Hne Hbad.
  rewrite scan_threads_eq by done.
  destruct (noticed_settings (set_atomic_interval wrapped s)) as (Hlast & Hm & Hp & Hl).
  set (s1 := noticed (set_atomic_interval wrapped s)) in *.
  assert (timers_ s1 = timers_ s /\ kernel_timers s1 = kernel_timers s /\
    atomic_interval_in_ns_ s1 = wrapped) as (Ht & Hk & Ha).
  { unfold s1, noticed. destruct (negb _); [|done]. unfold on_interval_change.
    cbn [atomic_interval_in_ns_ local_interval_in_ns_ set_atomic_interval].
    rewrite (proj2 (Z.eqb_neq wrapped NOT_SCANNING)), (proj2 (Z.eqb_neq (local_interval_in_ns_ s) NOT_SCANNING)) by done.
    split; [done|]. split; [|done]. by apply refused_intervals. }
  pose proof (scan_known_threads names ∅ s1) as Hscan.
  destruct (fold_left _ names (∅, s1)) as [threads s2]. cbn [snd] in Hscan. rewrite Hscan.
  - unfold is_scanning_threads. cbn [atomic_interval_in_ns_ set_threads]. rewrite Ha.
    by rewrite (proj2 (Z.eqb_neq wrapped NOT_SCANNING)).
  - intros tid Htid. rewrite Hlast. apply Hknown. unfold listed, scanned in *. by rewrite Hm, Hp in Htid.
Qed.
End Spec.

(** A kernel that never runs out of timers. *)
Definition ample : TimerKernel := {|
  timer_create k _ := Some (fresh (dom k));
  timer_settime_accepts ns := (0 <=? ns) && (ns <=? 999999999)
|}.

Lemma ample_fresh : fresh_ids (H := ample).
Proof.
  intros k tid id E. simpl in E. injection E as <-. apply not_elem_of_dom. apply is_fresh.
Qed.

Lemma ample_grants ns l p p' refused : starts (H := ample) ns l p p' refused -> refused = [].
Proof. induction 1 as [| |? ? ? ? ? ? E]; [done|done|discriminate E]. Qed.

Definition started : scanner := on_metrics_thread_start 1 (on_processor_thread_start 2 (new_scanner ∅)).

(** Thread 7 was known before scanning began, 9 is new. *)
Definition about_to_scan : scanner := update_scanning_threads_interval 20 (set_threads {[7]} started).


Definition scanning : scanner :=
  mkScanner {[7]} {[3]} 1 2 true true 20000000 20000000 {[3 := mkKtimer 7 SIGALRM (Some 20000000)]}.

Lemma stop_does_not_stop_witness :
  let s' := scan_threads (H := ample) (Some ["1"; "7"]%string) (stop_scanning_threads scanning) in
  is_scanning_threads s' = true /\ timers_ s' = timers_ scanning /\ kernel_timers s' = kernel_timers scanning.
Proof.
  apply (stop_does_not_stop (H := ample)); [|reflexivity|reflexivity|vm_compute; discriminate|].
  - intros ns E. simpl in E. apply andb_prop in E as [E1 E2]. apply Z.leb_le in E1, E2. lia.
  - intros tid Htid. apply elem_of_list_to_set in Htid.
    change (tid ∈ [7]) in Htid. apply list_elem_of_singleton in Htid as ->. reflexivity.
Defined.
