(* ===== verification/Messages.v ===== *)
(** * The messages exchanged with the collector ([lib/data.proto])

    The [oneof] of an envelope is an inductive type.  A field of a message is a
    component of its record; a field the agent never sets is left out. *)
From S2P Require Import Prelude MetricTypes.

(** The most bytes that the length in front of a message takes ([globals.h]). *)
Definition MAX_HEADER_SIZE : nat := 5.

Inductive SampleTimeType := ELAPSED_TIME | PROCESS_TIME | ALLOCATION.
#[export] Instance SampleTimeType_eq_dec : EqDecision SampleTimeType.
Proof. solve_decision. Defined.

Record CompressedFrameEntry := mkCompressedFrameEntry { methodId : Z; line : Z }.

Record StackSample := mkStackSample {
  sample_type : SampleTimeType;
  sample_rate_millis : Z;
  sample_time_epoch_millis : Z;
  sample_thread_id : Z;
  sample_thread_name : string;
  has_max_frames : bool;
  error_code : Z;
  compressedFrames : list CompressedFrameEntry;
  sample_thread_state : Z
}.

(** The metric enumerations of the protocol, which differ from the agent's own. *)
Module Wire.
Inductive MetricVariability := UNKNOWN_VARIABILITY | CONSTANT | VARIABLE | COUNTER.
Inductive MetricDataType := UNKNOWN_TYPE | STRING | LONG.
Inductive MetricUnit :=
  UNKNOWN_UNIT | NONE | BYTES | TICKS | EVENTS | UNIT_STRING | HERTZ | MILLISECONDS | NANOSECONDS.
#[export] Instance MetricVariability_eq_dec : EqDecision MetricVariability.
Proof. solve_decision. Defined.
#[export] Instance MetricDataType_eq_dec : EqDecision MetricDataType.
Proof. solve_decision. Defined.
#[export] Instance MetricUnit_eq_dec : EqDecision MetricUnit.
Proof. solve_decision. Defined.

Record MetricInformation := mkMetricInformation {
  metricId : Z;
  metric_name : string;
  variability : MetricVariability;
  dataType : MetricDataType;
  unit_ : MetricUnit
}.

Inductive value := LongValue (v : Z) | StringValue (v : string) | NoValue.
Record MetricSample := mkMetricSample { sample_metricId : Z; sample_value : value }.
End Wire.

Record AllocationRow := mkAllocationRow {
  row_symbol : Z;
  number_of_allocations : Z;
  total_bytes_allocated : Z;
  outside_tlab : bool
}.

Record AgentStatistics := mkAgentStatistics {
  allocation_enqueue_failures : Z;
  cputime_enqueue_failures : Z;
  wallclock_enqueue_failures : Z;
  thread_id_denials : Z;
  cpu_metric_errors : Z;
  cpu_metric_warnings : Z;
  metric_enqueue_failures : Z;
  allocation_stack_trace_enqueue_failures : Z
}.

Inductive AgentType := UNKNOWN_AGENT | PYTHON | RUBY | JAVA | CSHARP | NODE | OCAML | HASKELL | GO.
Inductive PersonalityType := PERS_JVM | PERS_OCAML.

Record Context := mkContext {
  agent_id : string;
  host_name : string;
  platform_version : string;
  application_version : string;
  agent_version : Z;
  agent_type : AgentType;
  hardware_thread_count : Z;
  agent_git_string : string;
  build_type : string;
  timezone_name : string;
  timezone_offset_seconds : Z;
  personality : PersonalityType
}.

Inductive AgentEnvelope :=
| Hello (api_key : string) (process_id : Z) (context : Context)
| Sample (s : StackSample)
| Heartbeat (time : Z)
| MethodInformation (methodId : Z) (methodName : string) (moduleId : Z)
| ModuleInformation (moduleId : Z) (filename modulename : string)
| AllocationTable (time_epoch_millis : Z) (rows : list AllocationRow)
| Statistics (s : AgentStatistics)
| Notification (payload : string) (category : NotificationCategory.t)
| MetricInfo (i : Wire.MetricInformation)
| MetricSamples (time_epoch_millis : Z) (samples : list Wire.MetricSample)
| ConstantMetricsComplete.

Record SampleRate := mkSampleRate {
  process_time_stack_sample_rate_millis : Z;
  elapsed_time_stack_sample_rate_millis : Z;
  switch_process_time_profiling_on : bool;
  switch_elapsed_time_profiling_on : bool;
  thread_state_on : bool;
  switch_memory_profiling_on : bool;
  memory_profiling_push_rate_millis : Z;
  switch_memory_profiling_stacktrace_on : bool;
  memory_profiling_stack_sample_rate_samples : Z;
  switch_metrics_on : bool;
  metrics_sample_rate_millis : Z;
  metrics_prefixes : list string
}.

Inductive CollectorEnvelope :=
| Terminate
| SampleRateMessage (r : SampleRate)
| CollectorHeartbeat (time : Z)
| Unset.
