(* ===== verification/CollectorController.v ===== *)
(** * The connection to the collector ([lib/collector_controller.cpp])

    The controller owns the life cycle: reconnecting with a backoff, the
    handshake, the heartbeat, the timeouts, and switching the profilers.  The
    network and the metrics component are used through the classes [NetworkApi]
    and [MetricsApi]; the signal handler and the thread scanner are the models of
    their own files.  A steady timer is the time at which its one pending wait
    expires; cancelling it removes the wait, whose handler then does nothing. *)
From S2P Require Import Prelude MetricTypes CircularQueue Messages SignalHandler ProcScanner.

(** How a [sendWithSize] ended.  After [ConnectionLost] the network has closed
    the socket and [CollectorController::onDisconnect] runs. *)
Inductive delivery := Delivered | NotDelivered | ConnectionLost.

Class NetworkApi (N : Type) := {
  network_isConnected : N -> bool;
  network_connect : N -> bool * N;
  network_transmit : AgentEnvelope -> N -> delivery * N;
  network_close : N -> N
}.

Class MetricsApi (M : Type) := {
  metrics_setSampleRate : Z -> M -> M;
  metrics_enable : list string -> M -> M;
  metrics_disable : M -> M;
  metrics_thread_running : M -> bool
}.

Definition TIMEOUT_IN_MS : Z := 10000.
Definition AGENT_STATISTICS_TIMEOUT_IN_MS : Z := 5000.
Definition SEND_TIMEOUT_IN_MS : Z := Z.quot TIMEOUT_IN_MS 4.
Definition MAX_BACKOFF_TIME_IN_MS : Z := 60 * 1000.
Definition MIN_BACKOFF_TIME_IN_MS : Z := 1000.
Definition RANDOMISATION_RANGE_IN_MS : Z := 1000.
Definition DONT_CHANGE_SAMPLE_RATE : Z := 0.
Definition DEFAULT_METRICS_SAMPLE_RATE : Z := 1000.

Inductive State := SOCKET_CONNECTED | SENT_HELLO | CONNECTED | DISCONNECTED | PROMETHEUS_MODE.
#[export] Instance State_eq_dec : EqDecision State.
Proof. solve_decision. Defined.

(** The constant members, and what the build and the system provide. *)
Record settings := mkSettings {
  apiKey_ : string;
  agentId_ : string;
  hostname_ : string;
  applicationVersion_ : string;
  ocamlVersion_ : string;
  processorCount : Z;
  prometheusEnabled : bool;
  prometheusProcessSampleRate : Z;
  prometheusElapsedSampleRate : Z;
  AGENT_VERSION : Z;
  GIT_STR : string;
  BUILD_TYPE : string;
  pid : Z;
  tm_zone : string;
  tm_gmtoff : Z
}.

Record CollectorController := mkController {
  notifications : list (NotificationCategory.t * string);
  backoffTimeInMs_ : Z;
  sendTimer_ : option Z;
  receiveTimer_ : option Z;
  allocationTimer_ : option Z;
  agentStatisticsTimer_ : option Z;
  state_ : State;
  on_ : bool;
  processTimeStackSampleIntervalMillis_ : Z;
  elapsedTimeStackSampleIntervalMillis_ : Z;
  memoryProfilingPushRateMillis_ : Z;
  threadStateOn_ : bool;
  memoryProfilingOn_ : bool;
  metricsOn_ : bool
}.

Definition new_controller (s : settings) (on : bool) : CollectorController :=
  mkController [] 0 None None None None (if prometheusEnabled s then PROMETHEUS_MODE else DISCONNECTED) on
    0 0 0 false false false.

(** Everything the controller reaches: itself, the components it holds
    references to, the failure counters it reports, and the steady clock. *)
Record agent (N M : Type) := mkAgent {
  controller : CollectorController;
  network : N;
  metrics : M;
  signalHandler : SignalHandler;
  scanner : ProcScanner.scanner;
  counters : Failures;
  threadIdDenials : Z;
  cpu_errors : Z;
  cpu_warnings : Z;
  now : Z
}.
Arguments mkAgent {N M}.
Arguments controller {N M}.
Arguments network {N M}.
Arguments metrics {N M}.
Arguments signalHandler {N M}.
Arguments scanner {N M}.
Arguments counters {N M}.
Arguments threadIdDenials {N M}.
Arguments cpu_errors {N M}.
Arguments cpu_warnings {N M}.
Arguments now {N M}.

Section Setters.
Context {N M : Type}.
Implicit Types (a : agent N M) (c : CollectorController).

Definition on_controller (f : CollectorController -> CollectorController) a : agent N M :=
  mkAgent (f (controller a)) (network a) (metrics a) (signalHandler a) (scanner a) (counters a)
    (threadIdDenials a) (cpu_errors a) (cpu_warnings a) (now a).
Definition set_network n a : agent N M :=
  mkAgent (controller a) n (metrics a) (signalHandler a) (scanner a) (counters a)
    (threadIdDenials a) (cpu_errors a) (cpu_warnings a) (now a).
Definition set_metrics m a : agent N M :=
  mkAgent (controller a) (network a) m (signalHandler a) (scanner a) (counters a)
    (threadIdDenials a) (cpu_errors a) (cpu_warnings a) (now a).
Definition set_signalHandler h a : agent N M :=
  mkAgent (controller a) (network a) (metrics a) h (scanner a) (counters a)
    (threadIdDenials a) (cpu_errors a) (cpu_warnings a) (now a).
Definition set_scanner s a : agent N M :=
  mkAgent (controller a) (network a) (metrics a) (signalHandler a) s (counters a)
    (threadIdDenials a) (cpu_errors a) (cpu_warnings a) (now a).
Definition sleep_ms (d : Z) a : agent N M :=
  mkAgent (controller a) (network a) (metrics a) (signalHandler a) (scanner a) (counters a)
    (threadIdDenials a) (cpu_errors a) (cpu_warnings a) (now a + d).

Definition set_notifications l c : CollectorController :=
  mkController l (backoffTimeInMs_ c) (sendTimer_ c) (receiveTimer_ c) (allocationTimer_ c)
    (agentStatisticsTimer_ c) (state_ c) (on_ c) (processTimeStackSampleIntervalMillis_ c)
    (elapsedTimeStackSampleIntervalMillis_ c) (memoryProfilingPushRateMillis_ c) (threadStateOn_ c)
    (memoryProfilingOn_ c) (metricsOn_ c).
Definition set_backoff b c : CollectorController :=
  mkController (notifications c) b (sendTimer_ c) (receiveTimer_ c) (allocationTimer_ c)
    (agentStatisticsTimer_ c) (state_ c) (on_ c) (processTimeStackSampleIntervalMillis_ c)
    (elapsedTimeStackSampleIntervalMillis_ c) (memoryProfilingPushRateMillis_ c) (threadStateOn_ c)
    (memoryProfilingOn_ c) (metricsOn_ c).
Definition set_timers (ts : option Z * option Z * option Z * option Z) c : CollectorController :=
  let '(t1, t2, t3, t4) := ts in
  mkController (notifications c) (backoffTimeInMs_ c) t1 t2 t3 t4 (state_ c) (on_ c)
    (processTimeStackSampleIntervalMillis_ c) (elapsedTimeStackSampleIntervalMillis_ c)
    (memoryProfilingPushRateMillis_ c) (threadStateOn_ c) (memoryProfilingOn_ c) (metricsOn_ c).
Definition set_state s c : CollectorController :=
  mkController (notifications c) (backoffTimeInMs_ c) (sendTimer_ c) (receiveTimer_ c) (allocationTimer_ c)
    (agentStatisticsTimer_ c) s (on_ c) (processTimeStackSampleIntervalMillis_ c)
    (elapsedTimeStackSampleIntervalMillis_ c) (memoryProfilingPushRateMillis_ c) (threadStateOn_ c)
    (memoryProfilingOn_ c) (metricsOn_ c).
Definition set_on b c : CollectorController :=
  mkController (notifications c) (backoffTimeInMs_ c) (sendTimer_ c) (receiveTimer_ c) (allocationTimer_ c)
    (agentStatisticsTimer_ c) (state_ c) b (processTimeStackSampleIntervalMillis_ c)
    (elapsedTimeStackSampleIntervalMillis_ c) (memoryProfilingPushRateMillis_ c) (threadStateOn_ c)
    (memoryProfilingOn_ c) (metricsOn_ c).
Definition set_intervals p e c : CollectorController :=
  mkController (notifications c) (backoffTimeInMs_ c) (sendTimer_ c) (receiveTimer_ c) (allocationTimer_ c)
    (agentStatisticsTimer_ c) (state_ c) (on_ c) p e (memoryProfilingPushRateMillis_ c) (threadStateOn_ c)
    (memoryProfilingOn_ c) (metricsOn_ c).
Definition set_switches threadState memory metrics c : CollectorController :=
  mkController (notifications c) (backoffTimeInMs_ c) (sendTimer_ c) (receiveTimer_ c) (allocationTimer_ c)
    (agentStatisticsTimer_ c) (state_ c) (on_ c) (processTimeStackSampleIntervalMillis_ c)
    (elapsedTimeStackSampleIntervalMillis_ c) (memoryProfilingPushRateMillis_ c) threadState memory metrics.
End Setters.

Section Controller.
Context {N M : Type} `{NetworkApi N} `{MetricsApi M} `{Kernel}.
Context (cfg : settings).
(** The two [std::function] members. *)
Context (socketConnectHandler_ recordAllocationTable_ : agent N M -> agent N M).
Local Abbreviation agent := (agent N M).
Implicit Types a : agent.

Definition isOn a : bool := on_ (controller a).
Definition isConnected a : bool := bool_decide (state_ (controller a) = CONNECTED).
Definition isActive a : bool := isConnected a || bool_decide (state_ (controller a) = PROMETHEUS_MODE).
Definition isThreadStateOn a : bool := threadStateOn_ (controller a).

Definition onMessage a : agent := a.

Definition onTerminate a : agent := onMessage (on_controller (set_on false) a).

Definition set_processInterval p a : agent :=
  on_controller (fun c => set_intervals p (elapsedTimeStackSampleIntervalMillis_ c) c) a.
Definition set_elapsedInterval e a : agent :=
  on_controller (fun c => set_intervals (processTimeStackSampleIntervalMillis_ c) e c) a.

Definition startProfiling (processTimeStackSampleRateMillis elapsedTimeStackSampleRateMillis : Z)
    (switchProcessTimeProfilingOn switchElapsedTimeProfilingOn : bool) a : outcome agent :=
  a ← (if switchProcessTimeProfilingOn then
         if negb (processTimeStackSampleRateMillis =? DONT_CHANGE_SAMPLE_RATE) then
           '(_, h) ← updateProcessInterval (i32 processTimeStackSampleRateMillis) (signalHandler a);
           Ok (set_processInterval processTimeStackSampleRateMillis (set_signalHandler h a))
         else Ok a
       else if isProcessProfiling (signalHandler a) then
         '(_, h) ← stopProcessProfiling (signalHandler a);
         Ok (set_signalHandler h a)
       else Ok a);
  Ok (if switchElapsedTimeProfilingOn then
        if negb (elapsedTimeStackSampleRateMillis =? DONT_CHANGE_SAMPLE_RATE) then
          set_elapsedInterval elapsedTimeStackSampleRateMillis
            (set_scanner (update_scanning_threads_interval elapsedTimeStackSampleRateMillis (scanner a)) a)
        else a
      else if is_scanning_threads (scanner a) then set_scanner (stop_scanning_threads (scanner a)) a
      else a).

(** ** Timers *)

Definition timers (c : CollectorController) := (sendTimer_ c, receiveTimer_ c, allocationTimer_ c, agentStatisticsTimer_ c).

Definition scheduleSendTimer a : agent :=
  on_controller (fun c => set_timers (Some (now a + SEND_TIMEOUT_IN_MS), receiveTimer_ c, allocationTimer_ c,
    agentStatisticsTimer_ c) c) a.
Definition scheduleReceiveTimer a : agent :=
  on_controller (fun c => set_timers (sendTimer_ c, Some (now a + TIMEOUT_IN_MS), allocationTimer_ c,
    agentStatisticsTimer_ c) c) a.
Definition scheduleAllocationTimer a : agent :=
  on_controller (fun c => set_timers (sendTimer_ c, receiveTimer_ c,
    Some (now a + memoryProfilingPushRateMillis_ c), agentStatisticsTimer_ c) c) a.
Definition scheduleAgentStatisticsTimer a : agent :=
  on_controller (fun c => set_timers (sendTimer_ c, receiveTimer_ c, allocationTimer_ c,
    Some (now a + AGENT_STATISTICS_TIMEOUT_IN_MS)) c) a.

(** ** Disconnecting and sending *)

Definition onDisconnect a : agent :=
  let a := on_controller (fun c => set_timers (None, None, None, None) (set_state DISCONNECTED c)) a in
  let a :=
    if metricsOn_ (controller a) then
      let a := if metrics_thread_running (metrics a) then set_metrics (metrics_disable (metrics a)) a else a in
      on_controller (fun c => set_switches (threadStateOn_ c) (memoryProfilingOn_ c) false c) a
    else a in
  set_network (network_close (network a)) a.

Definition recordWithSize (agentEnvelope : AgentEnvelope) a : agent :=
  let '(d, n) := network_transmit agentEnvelope (network a) in
  let a := set_network n a in
  match d with ConnectionLost => onDisconnect a | _ => a end.

Definition sendHello a : agent :=
  recordWithSize
    (Hello (apiKey_ cfg) (pid cfg)
      (mkContext (agentId_ cfg) (hostname_ cfg) (ocamlVersion_ cfg) (applicationVersion_ cfg)
        (AGENT_VERSION cfg) OCAML (processorCount cfg) (GIT_STR cfg) (BUILD_TYPE cfg) (tm_zone cfg) (tm_gmtoff cfg) PERS_OCAML)) a.

(** [millis]: the system clock. *)
Definition sendHeartbeat (millis : Z) a : agent := recordWithSize (Heartbeat millis) a.

Definition sendStashedNotifications a : agent :=
  let a := fold_left (fun a '(category, payload) => recordWithSize (Notification payload category) a)
             (notifications (controller a)) a in
  on_controller (set_notifications []) a.

Definition stashNotification (category : NotificationCategory.t) (payload : string) a : agent :=
  on_controller (fun c => set_notifications (notifications c ++ [(category, payload)]) c) a.

(** ** Life cycle *)

Definition resetAgentStatisticsCounters a : agent :=
  mkAgent (controller a) (network a) (metrics a) (signalHandler a) (scanner a) no_failures 0 0 0 (now a).

Definition onSentHello a : agent :=
  scheduleReceiveTimer (resetAgentStatisticsCounters (on_controller (set_state SENT_HELLO) a)).

Definition onSocketConnect a : agent :=
  let a := on_controller (fun c => set_backoff 0 (set_state SOCKET_CONNECTED c)) a in
  onSentHello (sendHello (socketConnectHandler_ a)).

Definition onFirstSampleRate a : agent :=
  let a := on_controller (set_state CONNECTED) a in
  let a := sendStashedNotifications a in
  scheduleAgentStatisticsTimer (scheduleReceiveTimer (scheduleSendTimer a)).

Definition onSampleRate (r : SampleRate) a : outcome agent :=
  a ← startProfiling (process_time_stack_sample_rate_millis r) (elapsed_time_stack_sample_rate_millis r)
        (switch_process_time_profiling_on r) (switch_elapsed_time_profiling_on r) a;
  let a :=
    if switch_metrics_on r then
      let a := if negb (metrics_sample_rate_millis r =? DONT_CHANGE_SAMPLE_RATE)
               then set_metrics (metrics_setSampleRate (metrics_sample_rate_millis r) (metrics a)) a else a in
      set_metrics (metrics_enable (metrics_prefixes r) (metrics a)) a
    else set_metrics (metrics_disable (metrics a)) a in
  let a := on_controller (set_switches (thread_state_on r) (switch_memory_profiling_on r) (switch_metrics_on r)) a in
  let a := if bool_decide (state_ (controller a) = SENT_HELLO) then onFirstSampleRate a else a in
  Ok (onMessage a).

Definition onHeartbeat a : agent := scheduleReceiveTimer (onMessage a).

(** The rates of the configuration are [int]s passed as [uint64_t]s. *)
Definition onStart a : outcome agent :=
  if isOn a && bool_decide (state_ (controller a) = SOCKET_CONNECTED) then Ok (onSocketConnect a)
  else if bool_decide (state_ (controller a) = PROMETHEUS_MODE) then
    startProfiling (u64 (prometheusProcessSampleRate cfg)) (u64 (prometheusElapsedSampleRate cfg)) true true a
  else Ok a.

Definition onEnd a : outcome agent :=
  '(_, h) ← stopProcessProfiling (signalHandler a);
  Ok (onDisconnect (set_signalHandler h a)).

Definition attemptConnect a : bool * agent :=
  let '(connected, n) := network_connect (network a) in
  let a := set_network n a in
  if connected then (true, onSocketConnect a) else (false, a).

(** [backoffTimeInMs_ * 1.5] is exact in a [double] and truncated. *)
Definition backoff (randomNumber : Z) a : agent :=
  let b := backoffTimeInMs_ (controller a) in
  if b =? 0 then on_controller (set_backoff MIN_BACKOFF_TIME_IN_MS) a
  else
    let b := Z.min (u32 (Z.quot (b * 3) 2)) MAX_BACKOFF_TIME_IN_MS in
    sleep_ms (u32 (b + randomNumber)) (on_controller (set_backoff b) a).

Definition poll (randomNumber : Z) a : bool * agent :=
  match state_ (controller a) with
  | DISCONNECTED => attemptConnect (backoff randomNumber a)
  | _ => (false, a)
  end.

(** ** Timer handlers, for a wait that was not cancelled *)

Definition onSendTimer (millis : Z) a : agent := scheduleSendTimer (sendHeartbeat millis a).

Definition onReceiveTimer a : agent := scheduleReceiveTimer (onDisconnect a).

Definition onAllocationTimer a : agent := scheduleAllocationTimer (recordAllocationTable_ a).

Definition agent_statistics a : AgentStatistics :=
  mkAgentStatistics (allocationFailures (counters a)) (cputimeFailures (counters a)) (wallclockFailures (counters a))
    (threadIdDenials a) (cpu_errors a) (cpu_warnings a) (metricFailures (counters a))
    (allocationStackTraceFailures (counters a)).

Definition onAgentStatisticsTimer a : agent :=
  scheduleAgentStatisticsTimer (recordWithSize (Statistics (agent_statistics a)) a).

Definition on_fork a : agent :=
  on_controller (fun c =>
    mkController [] 0 (sendTimer_ c) (receiveTimer_ c) (allocationTimer_ c) (agentStatisticsTimer_ c)
      DISCONNECTED (on_ c) 0 0 0 false false false) a.
End Controller.
