(* ===== verification/CollectorControllerSpec.v ===== *)
(** * The life cycle of the connection

    [step]: one event of the processor thread.  [good] is the invariant of every
    reachable agent. *)
From S2P Require Import Prelude MetricTypes CircularQueue Messages SignalHandler ProcScanner CollectorController.

Section Spec.
Context {N M : Type} `{NetworkApi N} `{MetricsApi M} `{Kernel}.
Context (cfg : settings).
Context (socketConnectHandler_ recordAllocationTable_ : agent N M -> agent N M).
Local Abbreviation agent := (agent N M).
Implicit Types a : agent.

(** The connect handler reads and clears caches; it leaves the controller and
    the clock alone. *)
Definition well_behaved_handler : Prop :=
  forall a, controller (socketConnectHandler_ a) = controller a /\ now (socketConnectHandler_ a) = now a.

(** A wait whose time has come. *)
Definition due (t : option Z) (a : agent) : Prop := exists d, t = Some d /\ d <= now a.

(** Whether an event is the arrival of a message. *)
Inductive origin := Local | Collector.

Inductive step : origin -> agent -> agent -> Prop :=
| step_time d a : 0 <= d -> step Local a (sleep_ms d a)
| step_poll r a :
    0 <= r <= RANDOMISATION_RANGE_IN_MS -> step Local a (poll cfg socketConnectHandler_ r a).2
| step_start a a' : onStart cfg socketConnectHandler_ a = Ok a' -> step Local a a'
| step_terminate a : step Collector a (onTerminate a)
| step_sample_rate r a a' : onSampleRate r a = Ok a' -> step Collector a a'
| step_heartbeat a : step Collector a (onHeartbeat a)
| step_send_timer millis a : due (sendTimer_ (controller a)) a -> step Local a (onSendTimer millis a)
| step_receive_timer a : due (receiveTimer_ (controller a)) a -> step Local a (onReceiveTimer a)
| step_allocation_timer a :
    due (allocationTimer_ (controller a)) a -> step Local a (onAllocationTimer recordAllocationTable_ a)
| step_statistics_timer a :
    due (agentStatisticsTimer_ (controller a)) a -> step Local a (onAgentStatisticsTimer a)
| step_stash k p a : step Local a (stashNotification k p a)
| step_send e a : step Local a (recordWithSize e a)
| step_fork a : step Local a (on_fork a)
| step_end a a' : onEnd a = Ok a' -> step Local a a'
(** the other components work on their own *)
| step_elsewhere a a' : controller a' = controller a -> now a' = now a -> step Local a a'.

Definition awaiting_collector (s : State) : bool :=
  match s with SENT_HELLO | CONNECTED => true | _ => false end.

(** A timer that is armed, for at most [d] from now. *)
Definition armed (t : option Z) (d : Z) (a : agent) : Prop := exists at_, t = Some at_ /\ at_ <= now a + d.

Definition supervised (a : agent) : Prop := armed (receiveTimer_ (controller a)) TIMEOUT_IN_MS a.

(** The two timers of an established connection. *)
Definition reporting (a : agent) : Prop :=
  armed (sendTimer_ (controller a)) SEND_TIMEOUT_IN_MS a /\
  armed (agentStatisticsTimer_ (controller a)) AGENT_STATISTICS_TIMEOUT_IN_MS a.

Record good (a : agent) : Prop := {
  good_backoff : backoffTimeInMs_ (controller a) = 0 \/
    MIN_BACKOFF_TIME_IN_MS <= backoffTimeInMs_ (controller a) <= MAX_BACKOFF_TIME_IN_MS;
  good_supervised : awaiting_collector (state_ (controller a)) = true -> supervised a;
  good_reporting : state_ (controller a) = CONNECTED -> reporting a;
  good_allocation : allocationTimer_ (controller a) = None;
  good_socket : state_ (controller a) <> SOCKET_CONNECTED;
  good_prometheus : state_ (controller a) = PROMETHEUS_MODE -> prometheusEnabled cfg = true
}.

Lemma good_new s n m h sc cnt on t : s = cfg -> good (mkAgent (new_controller s on) n m h sc cnt 0 0 0 t).
Proof using Type.
  intros ->. split; simpl; try done; [by left|..]; by destruct (prometheusEnabled cfg).
Qed.

(** Two agents the invariant does not tell apart. *)
Definition same_life (a a' : agent) : Prop :=
  now a' = now a /\ backoffTimeInMs_ (controller a') = backoffTimeInMs_ (controller a) /\
  timers (controller a') = timers (controller a) /\ state_ (controller a') = state_ (controller a).

Lemma good_same a a' : same_life a a' -> good a -> good a'.
Proof using Type.
  unfold same_life, timers. intros (E1 & E2 & [= T1 T2 T3 T4] & E5) [G1 G2 G2' G3 G4 G5].
  split; unfold supervised, reporting, armed; rewrite ?E1, ?E2, ?E5, ?T1, ?T2, ?T3, ?T4; done.
Qed.

Lemma good_later d a : 0 <= d -> good a -> good (sleep_ms d a).
Proof using Type.
  intros Hd [G1 G2 G2' G3 G4 G5].
  assert (forall t e, armed t e a -> armed t e (sleep_ms d a)) as Hlater.
  { intros t e (x & -> & Hx). exists x. split; [done|]. simpl. lia. }
  split; try done; [intros Hs; by apply Hlater, G2|]. intros Hs. destruct (G2' Hs). by split; apply Hlater.
Qed.

Lemma onDisconnect_controller a :
  state_ (controller (onDisconnect a)) = DISCONNECTED /\
  timers (controller (onDisconnect a)) = (None, None, None, None) /\
  backoffTimeInMs_ (controller (onDisconnect a)) = backoffTimeInMs_ (controller a) /\
  now (onDisconnect a) = now a /\
  notifications (controller (onDisconnect a)) = notifications (controller a) /\
  on_ (controller (onDisconnect a)) = on_ (controller a).
Proof using Type.
  unfold onDisconnect. simpl. destruct (metricsOn_ (controller a)); simpl; [|done].
  by destruct (metrics_thread_running (metrics a)).
Qed.

Lemma onDisconnect_good a : good a -> good (onDisconnect a).
Proof using Type.
  intros [G1 G2 G2' G3 G4 G5]. destruct (onDisconnect_controller a) as (E1 & E2 & E3 & E4 & _).
  unfold timers in E2. simplify_eq. split; rewrite ?E1; try done. by rewrite E3.
Qed.

(** A send either changes nothing here or ends in [onDisconnect]. *)
Lemma recordWithSize_cases e a :
  exists n, recordWithSize e a = set_network n a \/ recordWithSize e a = onDisconnect (set_network n a).
Proof using Type.
  unfold recordWithSize. destruct (network_transmit e (network a)) as [d n]. exists n. destruct d; auto.
Qed.

Lemma recordWithSize_good e a : good a -> good (recordWithSize e a).
Proof using Type.
  intros Ha. destruct (recordWithSize_cases e a) as [n [-> | ->]].
  - by eapply good_same; [|exact Ha].
  - apply onDisconnect_good. by eapply good_same; [|exact Ha].
Qed.

(** What an envelope does to the network: a lost connection is closed. *)
Definition offer (e : AgentEnvelope) (n : N) : N :=
  let '(d, n) := network_transmit e n in match d with ConnectionLost => network_close n | _ => n end.
Definition offers (es : list AgentEnvelope) (n : N) : N := fold_left (fun n e => offer e n) es n.

Lemma offers_app l l' n : offers (l ++ l') n = offers l' (offers l n).
Proof using Type. apply fold_left_app. Qed.

Lemma recordWithSize_network e a : network (recordWithSize e a) = offer e (network a).
Proof using Type.
  unfold recordWithSize, offer. destruct (network_transmit e (network a)) as [[] n]; try done.
  unfold onDisconnect. simpl. destruct (metricsOn_ _); [|done]. by destruct (metrics_thread_running _).
Qed.

Lemma recordWithSize_now e a : now (recordWithSize e a) = now a.
Proof using Type.
  destruct (recordWithSize_cases e a) as [n [-> | ->]]; [done|]. by destruct (onDisconnect_controller (set_network n a)) as (_ & _ & _ & -> & _).
Qed.

Lemma recordWithSize_backoff e a :
  backoffTimeInMs_ (controller (recordWithSize e a)) = backoffTimeInMs_ (controller a) /\
  on_ (controller (recordWithSize e a)) = on_ (controller a) /\
  (allocationTimer_ (controller a) = None -> allocationTimer_ (controller (recordWithSize e a)) = None).
Proof using Type.
  destruct (recordWithSize_cases e a) as [n [-> | ->]]; [done|].
  destruct (onDisconnect_controller (set_network n a)) as (_ & E & -> & _ & _ & ->).
  unfold timers in E. by simplify_eq.
Qed.

Lemma armed_now t d a : t = Some (now a + d) -> armed t d a.
Proof using Type. intros ->. eexists. split; [done|]. lia. Qed.

Lemma scheduleReceiveTimer_supervised a : supervised (scheduleReceiveTimer a).
Proof using Type. by apply armed_now. Qed.

(** Arming a timer anew. *)
Lemma scheduleSendTimer_good a : good a -> good (scheduleSendTimer a).
Proof using Type. intros []. split; try done. intros Hs. destruct (good_reporting0 Hs). split; [by apply armed_now|done]. Qed.

Lemma scheduleReceiveTimer_good a : good a -> good (scheduleReceiveTimer a).
Proof using Type. intros []. split; try done. intros _. apply scheduleReceiveTimer_supervised. Qed.

Lemma scheduleAgentStatisticsTimer_good a : good a -> good (scheduleAgentStatisticsTimer a).
Proof using Type. intros []. split; try done. intros Hs. destruct (good_reporting0 Hs). split; [done|by apply armed_now]. Qed.

(** The invariant without the deadline, for the middle of an event. *)
Record sound (a : agent) : Prop := {
  sound_backoff : backoffTimeInMs_ (controller a) = 0 \/
    MIN_BACKOFF_TIME_IN_MS <= backoffTimeInMs_ (controller a) <= MAX_BACKOFF_TIME_IN_MS;
  sound_allocation : allocationTimer_ (controller a) = None;
  sound_prometheus : state_ (controller a) = PROMETHEUS_MODE -> prometheusEnabled cfg = true
}.

Lemma good_sound a : good a -> sound a.
Proof using Type. by intros []. Qed.

Lemma sound_good a :
  sound a -> state_ (controller a) <> SOCKET_CONNECTED ->
  (awaiting_collector (state_ (controller a)) = true -> supervised a) ->
  (state_ (controller a) = CONNECTED -> reporting a) -> good a.
Proof using Type. by intros [] ???. Qed.

Lemma recordWithSize_sound e a : sound a -> sound (recordWithSize e a).
Proof using Type.
  intros [G1 G2 G3]. destruct (recordWithSize_backoff e a) as (E1 & _ & E2).
  split; rewrite ?E1; [done|by apply E2|].
  destruct (recordWithSize_cases e a) as [n [-> | ->]]; [done|].
  by destruct (onDisconnect_controller (set_network n a)) as (-> & _).
Qed.

Lemma recordWithSize_state e a :
  state_ (controller (recordWithSize e a)) = state_ (controller a) \/
  state_ (controller (recordWithSize e a)) = DISCONNECTED.
Proof using Type.
  destruct (recordWithSize_cases e a) as [n [-> | ->]]; [by left|right].
  by destruct (onDisconnect_controller (set_network n a)) as (-> & _).
Qed.

Lemma onSocketConnect_good a :
  well_behaved_handler -> allocationTimer_ (controller a) = None -> good (onSocketConnect cfg socketConnectHandler_ a).
Proof using Type.
  intros Hh Ha. unfold onSocketConnect, onSentHello, sendHello.
  set (a1 := on_controller _ a). destruct (Hh a1) as [Hc Hn].
  set (hello := Hello _ _ _).
  destruct (recordWithSize_backoff hello (socketConnectHandler_ a1)) as (E1 & _ & E2).
  apply sound_good; [|done|intros _; apply scheduleReceiveTimer_supervised|done].
  split; simpl; [|by apply E2; rewrite Hc|done]. rewrite E1, Hc. by left.
Qed.

Lemma stashed_sound l a :
  sound a -> state_ (controller a) <> SOCKET_CONNECTED ->
  let a' := fold_left (fun a '(category, payload) => recordWithSize (Notification payload category) a) l a in
  sound a' /\ state_ (controller a') <> SOCKET_CONNECTED.
Proof using Type.
  revert a. induction l as [|[k p] l IH]; intros a Ha Hs; [done|]. simpl. apply IH; [by apply recordWithSize_sound|].
  by destruct (recordWithSize_state (Notification p k) a) as [-> | ->].
Qed.

Lemma onFirstSampleRate_good a : good a -> good (onFirstSampleRate a).
Proof using Type.
  intros Ha. unfold onFirstSampleRate, sendStashedNotifications.
  destruct (stashed_sound (notifications (controller (on_controller (set_state CONNECTED) a)))
    (on_controller (set_state CONNECTED) a)) as [[G1 G2 G3] Hs]; [|done|].
  { destruct Ha. by split. }
  set (a1 := fold_left _ _ _) in *. apply sound_good; [by split|done|..].
  - intros _. by apply armed_now.
  - intros _. split; by apply armed_now.
Qed.

Lemma startProfiling_life p e sp se a a' : startProfiling p e sp se a = Ok a' -> same_life a a'.
Proof using Type.
  unfold startProfiling. intros E. apply bind_ok in E as (a1 & E1 & E2). injection E2 as <-.
  assert (same_life a a1) as Hlife.
  { destruct sp; [destruct (negb _)|destruct (isProcessProfiling _)]; try (by injection E1 as <-);
      apply bind_ok in E1 as ([b h] & _ & E1); by injection E1 as <-. }
  destruct Hlife as (? & ? & ? & ?). clear E1.
  by destruct se; [destruct (negb _)|destruct (is_scanning_threads _)]; split_and!.
Qed.

Lemma onSampleRate_good r a a' : good a -> onSampleRate r a = Ok a' -> good a'.
Proof using Type.
  intros Ha E. unfold onSampleRate in E. apply bind_ok in E as (a1 & E1 & E2).
  apply startProfiling_life in E1. injection E2 as <-. unfold onMessage.
  set (a2 := on_controller (set_switches _ _ _) _).
  assert (good a2) as Ha2.
  { eapply good_same; [|exact Ha]. unfold a2. destruct E1 as (E1 & E2 & E3 & E4).
    destruct (switch_metrics_on r); [destruct (negb _)|]; by split_and!. }
  case_bool_decide; [by apply onFirstSampleRate_good|done].
Qed.

Lemma backoff_range r a :
  good a -> 0 <= r <= RANDOMISATION_RANGE_IN_MS ->
  MIN_BACKOFF_TIME_IN_MS <= backoffTimeInMs_ (controller (backoff r a)) <= MAX_BACKOFF_TIME_IN_MS /\
  now a <= now (backoff r a) <= now a + MAX_BACKOFF_TIME_IN_MS + RANDOMISATION_RANGE_IN_MS.
Proof using Type.
  intros [G1 _ _ _ _ _] Hr. unfold backoff.
  unfold MIN_BACKOFF_TIME_IN_MS, MAX_BACKOFF_TIME_IN_MS, RANDOMISATION_RANGE_IN_MS in *.
  destruct (Z.eqb_spec (backoffTimeInMs_ (controller a)) 0) as [|Hne]; simpl; [lia|].
  rewrite Z.quot_div_nonneg by lia.
  pose proof (Z.div_mod (backoffTimeInMs_ (controller a) * 3) 2 ltac:(lia)).
  pose proof (Z.mod_pos_bound (backoffTimeInMs_ (controller a) * 3) 2 ltac:(lia)).
  rewrite (u32_small (backoffTimeInMs_ (controller a) * 3 / 2)) by lia.
  rewrite u32_small by lia. lia.
Qed.

Lemma backoff_good r a :
  good a -> 0 <= r <= RANDOMISATION_RANGE_IN_MS -> state_ (controller a) = DISCONNECTED -> good (backoff r a).
Proof using Type.
  intros Ha Hr Hs. pose proof (backoff_range r a Ha Hr) as [Hb _]. destruct Ha.
  assert (state_ (controller (backoff r a)) = DISCONNECTED /\
    allocationTimer_ (controller (backoff r a)) = allocationTimer_ (controller a)) as [E1 E2].
  { unfold backoff. by destruct (_ =? _). }
  split; rewrite ?E1, ?E2; try done. by right.
Qed.

Lemma poll_good r a :
  well_behaved_handler -> good a -> 0 <= r <= RANDOMISATION_RANGE_IN_MS ->
  good (poll cfg socketConnectHandler_ r a).2.
Proof using Type.
  intros Hh Ha Hr. unfold poll. destruct (state_ (controller a)) eqn:Es; try done.
  pose proof (backoff_good r a Ha Hr Es) as Hb. unfold attemptConnect.
  destruct (network_connect _) as [[] n]; simpl.
  - apply onSocketConnect_good; [done|]. by destruct Hb.
  - by eapply good_same; [|exact Hb].
Qed.

Lemma step_good o a a' : well_behaved_handler -> good a -> step o a a' -> good a'.
Proof using Type.
  intros Hh Ha Hstep. destruct Hstep as [d a Hd|r a Hr|a a' E|a|r a a' E|a|millis a _|a _|a Hdue|a _|k p a|e a|a|a a' E|a a' Ec En].
  - by apply good_later.
  - by apply poll_good.
  - unfold onStart in E. destruct (isOn a && _) eqn:Es.
    { injection E as <-. apply onSocketConnect_good; [done|]. by destruct Ha. }
    case_bool_decide; [|by injection E as <-]. eapply good_same; [by eapply startProfiling_life|done].
  - by eapply good_same; [|exact Ha].
  - by eapply onSampleRate_good.
  - by apply scheduleReceiveTimer_good.
  - by apply scheduleSendTimer_good, recordWithSize_good.
  - by apply scheduleReceiveTimer_good, onDisconnect_good.
  - destruct Hdue as (t & Ht & _). destruct Ha. congruence.
  - by apply scheduleAgentStatisticsTimer_good, recordWithSize_good.
  - by eapply good_same; [|exact Ha].
  - by apply recordWithSize_good.
  - destruct Ha. split; simpl; try done. by left.
  - unfold onEnd in E. apply bind_ok in E as ([b h] & _ & E). injection E as <-.
    apply onDisconnect_good. by eapply good_same; [|exact Ha].
  - eapply good_same; [|exact Ha]. unfold same_life, timers. by rewrite Ec, En.
Qed.

Definition any_step (a a' : agent) : Prop := exists o, step o a a'.

(** ** The metrics *)

(** A message comes from a collector that was greeted. *)
Definition expected_step (a a' : agent) : Prop :=
  exists o, step o a a' /\ (o = Collector -> awaiting_collector (state_ (controller a)) = true).

(** The metrics are taken to be on only while there is a collector to get them. *)
Definition metrics_fit (a : agent) : Prop := metricsOn_ (controller a) = true -> state_ (controller a) = CONNECTED.

Lemma metrics_fit_same a a' :
  metricsOn_ (controller a') = metricsOn_ (controller a) -> state_ (controller a') = state_ (controller a) ->
  metrics_fit a -> metrics_fit a'.
Proof using Type. unfold metrics_fit. by intros -> ->. Qed.

Lemma metrics_off_fit a : metricsOn_ (controller a) = false -> metrics_fit a.
Proof using Type. unfold metrics_fit. by intros ->. Qed.

Lemma fit_off a : metrics_fit a -> state_ (controller a) <> CONNECTED -> metricsOn_ (controller a) = false.
Proof using Type. unfold metrics_fit. intros Ha Hs. destruct (metricsOn_ _); [by destruct Hs; apply Ha|done]. Qed.

Lemma onDisconnect_metrics a : metricsOn_ (controller (onDisconnect a)) = false.
Proof using Type.
  unfold onDisconnect. simpl. destruct (metricsOn_ (controller a)) eqn:E; simpl; [|done].
  by destruct (metrics_thread_running (metrics a)).
Qed.

Lemma recordWithSize_fit e a : metrics_fit a -> metrics_fit (recordWithSize e a).
Proof using Type.
  intros Ha. destruct (recordWithSize_cases e a) as [n [-> | ->]]; [exact Ha|].
  apply metrics_off_fit, onDisconnect_metrics.
Qed.

Lemma onSocketConnect_fit a :
  well_behaved_handler -> metricsOn_ (controller a) = false -> metrics_fit (onSocketConnect cfg socketConnectHandler_ a).
Proof using Type.
  intros Hh Ha. unfold onSocketConnect, onSentHello, sendHello. set (a1 := on_controller _ a).
  destruct (Hh a1) as [Hc _]. set (hello := Hello _ _ _). apply metrics_off_fit.
  change (metricsOn_ (controller (recordWithSize hello (socketConnectHandler_ a1))) = false).
  destruct (recordWithSize_cases hello (socketConnectHandler_ a1)) as [n [-> | ->]]; [simpl; by rewrite Hc|].
  apply onDisconnect_metrics.
Qed.

Lemma startProfiling_metrics p e sp se a a' :
  startProfiling p e sp se a = Ok a' -> metricsOn_ (controller a') = metricsOn_ (controller a).
Proof using Type.
  unfold startProfiling. intros E. apply bind_ok in E as (a1 & E1 & E2). injection E2 as <-.
  trans (metricsOn_ (controller a1)).
  - clear E1. by destruct se; [destruct (negb _)|destruct (is_scanning_threads _)].
  - destruct sp; [destruct (negb _)|destruct (isProcessProfiling _)]; try (by injection E1 as <-);
      apply bind_ok in E1 as ([b h] & _ & E1); by injection E1 as <-.
Qed.

Lemma stashed_fit l a :
  metrics_fit a ->
  metrics_fit (fold_left (fun a '(category, payload) => recordWithSize (Notification payload category) a) l a).
Proof using Type. revert a. induction l as [|[k p] l IH]; intros a Ha; [done|]. simpl. by apply IH, recordWithSize_fit. Qed.

Lemma onSampleRate_fit r a a' :
  awaiting_collector (state_ (controller a)) = true -> onSampleRate r a = Ok a' -> metrics_fit a'.
Proof using Type.
  intros Hs E. unfold onSampleRate in E. apply bind_ok in E as (a1 & E1 & E2).
  destruct (startProfiling_life _ _ _ _ _ _ E1) as (_ & _ & _ & Es). injection E2 as <-. unfold onMessage.
  set (a2 := on_controller (set_switches _ _ _) _).
  assert (state_ (controller a2) = state_ (controller a)) as Es2.
  { rewrite <- Es. unfold a2. by destruct (switch_metrics_on r); [destruct (negb _)|]. }
  case_bool_decide as Hhello.
  - unfold onFirstSampleRate, sendStashedNotifications. set (a3 := on_controller (set_state CONNECTED) _).
    exact (stashed_fit (notifications (controller a3)) a3 (fun _ => eq_refl)).
  - intros _. rewrite Es2 in *. by destruct (state_ (controller a)).
Qed.

Lemma poll_fit r a : well_behaved_handler -> metrics_fit a -> metrics_fit (poll cfg socketConnectHandler_ r a).2.
Proof using Type.
  intros Hh Ha. unfold poll. destruct (state_ (controller a)) eqn:Es; try done.
  assert (metricsOn_ (controller (backoff r a)) = false) as Hb.
  { rewrite <- (fit_off a Ha) by congruence. unfold backoff. by destruct (_ =? _). }
  unfold attemptConnect. destruct (network_connect _) as [[] n]; simpl; [by apply onSocketConnect_fit|by apply metrics_off_fit].
Qed.

Lemma step_fit a a' : well_behaved_handler -> good a -> metrics_fit a -> expected_step a a' -> metrics_fit a'.
Proof using Type.
  intros Hh Hg Ha (o & Hstep & Ho).
  destruct Hstep as [d a Hd|r a Hr|a a' E|a|r a a' E|a|millis a _|a _|a Hdue|a _|k p a|e a|a|a a' E|a a' Ec En].
  - exact Ha.
  - by apply poll_fit.
  - unfold onStart in E. destruct (isOn a && _) eqn:Es.
    { injection E as <-. apply andb_true_iff in Es as [_ Es]. apply bool_decide_eq_true in Es.
      apply onSocketConnect_fit; [done|]. apply fit_off; [done|congruence]. }
    case_bool_decide; [|by injection E as <-].
    eapply metrics_fit_same; [by eapply startProfiling_metrics|by eapply startProfiling_life|done].
  - exact Ha.
  - eapply onSampleRate_fit; [by apply Ho|exact E].
  - exact Ha.
  - eapply metrics_fit_same; [..|by apply (recordWithSize_fit (Heartbeat millis) a)]; done.
  - apply metrics_off_fit. exact (onDisconnect_metrics a).
  - destruct Hdue as (t & Ht & _). destruct Hg. congruence.
  - eapply metrics_fit_same; [..|by apply (recordWithSize_fit (Statistics (agent_statistics a)) a)]; done.
  - exact Ha.
  - by apply recordWithSize_fit.
  - by apply metrics_off_fit.
  - unfold onEnd in E. apply bind_ok in E as ([b h] & _ & E). injection E as <-. apply metrics_off_fit, onDisconnect_metrics.
  - eapply metrics_fit_same; [..|exact Ha]; by rewrite Ec.
Qed.

(** C6. Whatever happens, the backoff stays between its bounds; from the hello
    on the receive timer is armed for at most [TIMEOUT_IN_MS] ahead, so a silent
    collector is noticed; on an established connection the timers of the
    heartbeat and of the statistics are armed within their periods; and the
    allocation timer is never armed.  If moreover messages only come from a
    collector that was greeted, the metrics are on only while connected. *)
Theorem controller_stays_good on n m h sc cnt t a :
  well_behaved_handler ->
  let first := mkAgent (new_controller cfg on) n m h sc cnt 0 0 0 t in
  (rtc any_step first a -> good a) /\ (rtc expected_step first a -> good a /\ metrics_fit a).
Proof using Type.
  intros Hh first. assert (good first) as Hgood by (by apply good_new).
  assert (metrics_fit first) as Hfit by done. split; intros Hsteps.
  - clear Hfit. induction Hsteps as [|a b c [o Hab] _ IH]; [done|]. apply IH. by eapply step_good.
  - induction Hsteps as [|a b c Hab _ IH]; [done|]. apply IH; [|by eapply step_fit].
    destruct Hab as (o & Hab & _). by eapply step_good.
Qed.

(** ** Backoff *)

(** The wait before the attempts that follow a first failure. *)
Fixpoint schedule (n : nat) : Z :=
  match n with
  | O => MIN_BACKOFF_TIME_IN_MS
  | S n => Z.min (Z.quot (schedule n * 3) 2) MAX_BACKOFF_TIME_IN_MS
  end.

Lemma schedule_range n : MIN_BACKOFF_TIME_IN_MS <= schedule n <= MAX_BACKOFF_TIME_IN_MS.
Proof using Type.
  unfold MIN_BACKOFF_TIME_IN_MS, MAX_BACKOFF_TIME_IN_MS.
  induction n as [|n IH]; cbn [schedule]; unfold MIN_BACKOFF_TIME_IN_MS, MAX_BACKOFF_TIME_IN_MS; [lia|].
  rewrite Z.quot_div_nonneg by lia.
  pose proof (Z.div_mod (schedule n * 3) 2 ltac:(lia)).
  pose proof (Z.mod_pos_bound (schedule n * 3) 2 ltac:(lia)). lia.
Qed.

Lemma schedule_cap n : schedule (11 + n) = MAX_BACKOFF_TIME_IN_MS.
Proof using Type.
  induction n as [|n IH]; [by vm_compute|]. rewrite Nat.add_succ_r. cbn [schedule]. by rewrite IH.
Qed.

Definition collector_down : Prop := forall n : N, (network_connect n).1 = false.

Definition polls (rs : list Z) (a : agent) : agent :=
  fold_left (fun a r => (poll cfg socketConnectHandler_ r a).2) rs a.

Lemma failed_poll r a :
  collector_down -> state_ (controller a) = DISCONNECTED ->
  let a' := (poll cfg socketConnectHandler_ r a).2 in
  state_ (controller a') = DISCONNECTED /\
  backoffTimeInMs_ (controller a') = backoffTimeInMs_ (controller (backoff r a)) /\ now a' = now (backoff r a).
Proof using Type.
  intros Hdown Hs. unfold poll. rewrite Hs. unfold attemptConnect.
  specialize (Hdown (network (backoff r a))). destruct (network_connect _) as [b n]. simpl in Hdown. subst b.
  simpl. split_and!; try done. unfold backoff. by destruct (_ =? _).
Qed.

Lemma backoff_schedule r a n :
  backoffTimeInMs_ (controller a) = schedule n -> 0 <= r <= RANDOMISATION_RANGE_IN_MS ->
  backoffTimeInMs_ (controller (backoff r a)) = schedule (S n) /\
  now (backoff r a) = now a + schedule (S n) + r.
Proof using Type.
  intros Hb Hr. pose proof (schedule_range n). pose proof (schedule_range (S n)).
  unfold backoff. rewrite Hb. unfold RANDOMISATION_RANGE_IN_MS in *.
  unfold MIN_BACKOFF_TIME_IN_MS, MAX_BACKOFF_TIME_IN_MS in *.
  destruct (Z.eqb_spec (schedule n) 0); [lia|]. simpl. unfold MAX_BACKOFF_TIME_IN_MS.
  rewrite Z.quot_div_nonneg by lia.
  pose proof (Z.div_mod (schedule n * 3) 2 ltac:(lia)).
  pose proof (Z.mod_pos_bound (schedule n * 3) 2 ltac:(lia)).
  rewrite (u32_small (schedule n * 3 / 2)) by lia. split; [done|]. rewrite u32_small; lia.
Qed.

(** How long [n] attempts wait at least, the first of which waits not at all. *)
Fixpoint waited (from : nat) (rs : list Z) : Z :=
  match rs with [] => 0 | r :: rs => schedule (S from) + r + waited (S from) rs end.

Lemma polls_schedule rs a n :
  collector_down -> state_ (controller a) = DISCONNECTED -> backoffTimeInMs_ (controller a) = schedule n ->
  Forall (fun r => 0 <= r <= RANDOMISATION_RANGE_IN_MS) rs ->
  state_ (controller (polls rs a)) = DISCONNECTED /\
  backoffTimeInMs_ (controller (polls rs a)) = schedule (n + length rs) /\
  now (polls rs a) = now a + waited n rs.
Proof using Type.
  intros Hdown. revert a n. induction rs as [|r rs IH]; intros a n Hs Hb Hrs; cbn [polls fold_left waited length].
  { rewrite Nat.add_0_r, Z.add_0_r. done. }
  apply Forall_cons_1 in Hrs as [Hr Hrs].
  destruct (failed_poll r a Hdown Hs) as (Hs1 & Hb1 & Hn1).
  destruct (backoff_schedule r a n Hb Hr) as [Hb2 Hn2]. rewrite Hb2 in Hb1.
  destruct (IH _ (S n) Hs1 Hb1 Hrs) as (Hs3 & Hb3 & Hn3). unfold polls in Hs3, Hb3, Hn3.
  split; [done|]. split; [by rewrite Hb3, Nat.add_succ_comm|]. rewrite Hn3, Hn1, Hn2. lia.
Qed.

(** While the collector is down the attempts follow the schedule: the first
    at once, then after waits that grow by half from [MIN_BACKOFF_TIME_IN_MS] up
    to [MAX_BACKOFF_TIME_IN_MS], which the thirteenth reaches, each lengthened by
    its random number. *)
Theorem backoff_follows_schedule r rs a :
  collector_down -> state_ (controller a) = DISCONNECTED -> backoffTimeInMs_ (controller a) = 0 ->
  Forall (fun r => 0 <= r <= RANDOMISATION_RANGE_IN_MS) rs ->
  let a' := polls (r :: rs) a in
  state_ (controller a') = DISCONNECTED /\ now a' = now a + waited 0 rs /\
  backoffTimeInMs_ (controller a') = schedule (length rs) /\
  ((11 <= length rs)%nat -> backoffTimeInMs_ (controller a') = MAX_BACKOFF_TIME_IN_MS).
Proof using Type.
  intros Hdown Hs Hb Hrs. cbv zeta. change (polls (r :: rs) a) with (polls rs (polls [r] a)).
  destruct (failed_poll r a Hdown Hs) as (Hs1 & Hb1 & Hn1).
  assert (backoffTimeInMs_ (controller (backoff r a)) = schedule 0 /\ now (backoff r a) = now a) as [Hb2 Hn2].
  { unfold backoff. by rewrite Hb. }
  rewrite Hb2 in Hb1. rewrite Hn2 in Hn1.
  destruct (polls_schedule rs (polls [r] a) 0 Hdown Hs1 Hb1 Hrs) as (Hs3 & Hb3 & Hn3).
  split; [done|]. split; [unfold polls in *; simpl in *; congruence|]. split; [done|].
  intros Hlen. rewrite Hb3, Nat.add_0_l. replace (length rs) with (11 + (length rs - 11))%nat by lia. apply schedule_cap.
Qed.

(** ** A collector that answers *)

(** The network connects, and keeps the connection while sending. *)
Definition reliable : Prop :=
  (forall n : N, (network_connect n).1 = true /\ network_isConnected (network_connect n).2 = true) /\
  forall e (n : N), network_isConnected n = true ->
    exists n', network_transmit e n = (Delivered, n') /\ network_isConnected n' = true.

(** The network once the envelopes were sent. *)
Definition transmits (es : list AgentEnvelope) (n : N) : N := fold_left (fun n e => (network_transmit e n).2) es n.

Lemma send_reliable e a :
  reliable -> network_isConnected (network a) = true ->
  recordWithSize e a = set_network (transmits [e] (network a)) a /\
  network_isConnected (transmits [e] (network a)) = true.
Proof using Type.
  intros [_ Hr] Hc. unfold recordWithSize, transmits. simpl. destruct (Hr e _ Hc) as (n' & -> & Hn'). by split.
Qed.

Definition notification_of (x : NotificationCategory.t * string) : AgentEnvelope := Notification x.2 x.1.

Lemma sends_reliable l a :
  reliable -> network_isConnected (network a) = true ->
  fold_left (fun a '(category, payload) => recordWithSize (Notification payload category) a) l a =
    set_network (transmits (notification_of <$> l) (network a)) a /\
  network_isConnected (transmits (notification_of <$> l) (network a)) = true.
Proof using Type.
  intros Hr. revert a. induction l as [|[k s] l IH]; intros a Hc; [by destruct a|].
  cbn [fold_left fmap list_fmap notification_of fst snd].
  destruct (send_reliable (Notification s k) a Hr Hc) as [-> Hc1].
  destruct (IH (set_network (transmits [Notification s k] (network a)) a) Hc1) as [-> Hc2]. by split.
Qed.

(** The interval of the process timer can be computed. *)
Definition timer_fits (r : SampleRate) : Prop :=
  INT_MIN <= i32 (process_time_stack_sample_rate_millis r) * 1000 <= INT_MAX.

Lemma updateProcessInterval_ok t h :
  INT_MIN <= t * 1000 <= INT_MAX -> exists b h', updateProcessInterval t h = Ok (b, h').
Proof using Type.
  intros Ht. unfold updateProcessInterval, updateInterval. destruct (t =? currentProcessInterval_ h); [by eexists _, _|].
  unfold int_mul. rewrite (proj2 (Z.leb_le _ _)), (proj2 (Z.leb_le _ _)) by lia. cbn [andb mbind outcome_bind].
  destruct (setitimer_succeeds _ _); by eexists _, _.
Qed.

(** The rate a message asks for, 0 keeping the one there is. *)
Definition new_rate (on : bool) (asked current : Z) : Z :=
  if on && negb (asked =? DONT_CHANGE_SAMPLE_RATE) then asked else current.

Lemma startProfiling_ok r a :
  timer_fits r ->
  exists a', startProfiling (process_time_stack_sample_rate_millis r) (elapsed_time_stack_sample_rate_millis r)
      (switch_process_time_profiling_on r) (switch_elapsed_time_profiling_on r) a = Ok a' /\
    network a' = network a /\ now a' = now a /\
    controller a' = set_intervals
      (new_rate (switch_process_time_profiling_on r) (process_time_stack_sample_rate_millis r)
        (processTimeStackSampleIntervalMillis_ (controller a)))
      (new_rate (switch_elapsed_time_profiling_on r) (elapsed_time_stack_sample_rate_millis r)
        (elapsedTimeStackSampleIntervalMillis_ (controller a))) (controller a).
Proof using Type.
  intros Hfit. unfold startProfiling, new_rate.
  set (first := if switch_process_time_profiling_on r then _ else _).
  assert (exists a1, first = Ok a1 /\ network a1 = network a /\ now a1 = now a /\ controller a1 = set_intervals
    (if switch_process_time_profiling_on r && negb (process_time_stack_sample_rate_millis r =? DONT_CHANGE_SAMPLE_RATE)
     then process_time_stack_sample_rate_millis r else processTimeStackSampleIntervalMillis_ (controller a))
    (elapsedTimeStackSampleIntervalMillis_ (controller a)) (controller a)) as (a1 & -> & En & Et & Ec).
  { subst first. destruct (switch_process_time_profiling_on r); cbn [andb].
    - destruct (negb (process_time_stack_sample_rate_millis r =? _)).
      + destruct (updateProcessInterval_ok (i32 (process_time_stack_sample_rate_millis r)) (signalHandler a) Hfit)
          as (b & h & ->). by eexists.
      + exists a. split_and!; try done. by destruct (controller a).
    - destruct (isProcessProfiling _).
      + destruct (updateProcessInterval_ok 0 (signalHandler a)) as (b & h & E); [done|].
        unfold stopProcessProfiling, NOT_PROFILING. rewrite E. eexists. split_and!; try done. simpl. by destruct (controller a).
      + exists a. split_and!; try done. by destruct (controller a). }
  cbn [mbind outcome_bind]. eexists. split; [done|].
  destruct (switch_elapsed_time_profiling_on r); cbn [andb];
    [destruct (negb (elapsed_time_stack_sample_rate_millis r =? _))|destruct (is_scanning_threads _)];
    (split_and!; [exact En|exact Et|]); simpl; rewrite Ec; by destruct (controller a).
Qed.

(** The first sample rate after the hello. *)
Lemma first_sample_rate r a :
  reliable -> network_isConnected (network a) = true -> state_ (controller a) = SENT_HELLO -> timer_fits r ->
  exists a', onSampleRate r a = Ok a' /\
    state_ (controller a') = CONNECTED /\ now a' = now a /\
    network a' = transmits (notification_of <$> notifications (controller a)) (network a) /\
    network_isConnected (network a') = true /\ notifications (controller a') = [] /\
    timers (controller a') = (Some (now a + SEND_TIMEOUT_IN_MS), Some (now a + TIMEOUT_IN_MS),
      allocationTimer_ (controller a), Some (now a + AGENT_STATISTICS_TIMEOUT_IN_MS)) /\
    processTimeStackSampleIntervalMillis_ (controller a') =
      new_rate (switch_process_time_profiling_on r) (process_time_stack_sample_rate_millis r)
        (processTimeStackSampleIntervalMillis_ (controller a)) /\
    elapsedTimeStackSampleIntervalMillis_ (controller a') =
      new_rate (switch_elapsed_time_profiling_on r) (elapsed_time_stack_sample_rate_millis r)
        (elapsedTimeStackSampleIntervalMillis_ (controller a)).
Proof using Type.
  intros Hr Hc Hs Hfit. unfold onSampleRate.
  destruct (startProfiling_ok r a Hfit) as (a1 & -> & En & Et & Ec). cbn [mbind outcome_bind].
  set (a2 := if switch_metrics_on r then _ else _).
  assert (controller a2 = controller a1 /\ network a2 = network a1 /\ now a2 = now a1) as (F1 & F2 & F3).
  { subst a2. destruct (switch_metrics_on r); [destruct (negb _)|]; done. }
  clearbody a2. set (a3 := on_controller _ a2).
  assert (state_ (controller a3) = SENT_HELLO) as Es by (simpl; by rewrite F1, Ec).
  rewrite (bool_decide_true _ Es). unfold onMessage, onFirstSampleRate, sendStashedNotifications.
  set (a4 := on_controller (set_state CONNECTED) a3).
  assert (network_isConnected (network a4) = true) as Hc4 by (simpl; by rewrite F2, En).
  destruct (sends_reliable (notifications (controller a4)) a4 Hr Hc4) as [-> Hc5].
  assert (notifications (controller a4) = notifications (controller a)) as Enot by (simpl; by rewrite F1, Ec).
  assert (network a4 = network a) as Enet by (simpl; by rewrite F2, En).
  rewrite Enot, Enet in *. eexists. split; [done|]. simpl. rewrite F3, Et, F1, Ec. by split_and!.
Qed.

(** ** What goes wrong *)

(** No message of the collector arrives. *)
Definition local_step a a' : Prop := step Local a a'.

Record inactive (a : agent) : Prop := {
  inactive_state : state_ (controller a) = DISCONNECTED \/ state_ (controller a) = SENT_HELLO;
  inactive_allocation : allocationTimer_ (controller a) = None
}.

Lemma inactive_same a a' :
  state_ (controller a') = state_ (controller a) -> allocationTimer_ (controller a') = allocationTimer_ (controller a) ->
  inactive a -> inactive a'.
Proof using Type. intros E1 E2 []. split; congruence. Qed.

Lemma onDisconnect_inactive a : inactive (onDisconnect a).
Proof using Type.
  destruct (onDisconnect_controller a) as (E1 & E2 & _). unfold timers in E2. simplify_eq. split; [by left|done].
Qed.

Lemma recordWithSize_inactive e a : inactive a -> inactive (recordWithSize e a).
Proof using Type.
  intros Ha. destruct (recordWithSize_cases e a) as [n [-> | ->]]; [by eapply inactive_same; [..|exact Ha]|].
  apply onDisconnect_inactive.
Qed.

Lemma onSocketConnect_inactive a :
  well_behaved_handler -> allocationTimer_ (controller a) = None ->
  inactive (onSocketConnect cfg socketConnectHandler_ a).
Proof using Type.
  intros Hh Ha. destruct (onSocketConnect_good a Hh Ha) as [_ _ _ G _ _]. split; [by right|done].
Qed.

Lemma local_step_inactive a a' : well_behaved_handler -> inactive a -> local_step a a' -> inactive a'.
Proof using Type.
  intros Hh Ha Hstep. pose proof Ha as [Hs Ht].
  inversion Hstep as [d b Hd|r b Hr|b b' E| | | |millis b _|b _|b Hdue|b _|k p b|e b|b|b b' E|b b' Ec En]; subst.
  - by eapply inactive_same; [..|exact Ha].
  - unfold poll. destruct (state_ (controller a)) eqn:Es; try done. unfold attemptConnect.
    assert (inactive (backoff r a)) as Hb.
    { eapply inactive_same; [..|exact Ha]; unfold backoff; by destruct (_ =? _). }
    destruct (network_connect _) as [[] n]; simpl; [|by eapply inactive_same; [..|exact Hb]].
    apply onSocketConnect_inactive; [done|]. by destruct Hb.
  - unfold onStart in E. rewrite bool_decide_false, andb_false_r in E by (destruct Hs; congruence).
    rewrite bool_decide_false in E by (destruct Hs; congruence). by injection E as <-.
  - eapply inactive_same; [..|by apply (recordWithSize_inactive (Heartbeat millis) a)]; done.
  - eapply inactive_same; [..|apply (onDisconnect_inactive a)]; done.
  - destruct Hdue as (t & E & _). congruence.
  - eapply inactive_same; [..|by apply (recordWithSize_inactive (Statistics (agent_statistics a)) a)]; done.
  - by eapply inactive_same; [..|exact Ha].
  - by apply recordWithSize_inactive.
  - split; [by left|done].
  - unfold onEnd in E. apply bind_ok in E as ([c h] & _ & E). injection E as <-. apply onDisconnect_inactive.
  - eapply inactive_same; [..|exact Ha]; by rewrite Ec.
Qed.

(** A child process never profiles in Prometheus mode: [on_fork] leaves
    [PROMETHEUS_MODE], and without a collector no event makes the child active
    again, so its processor never empties the queues. *)
Theorem forked_child_stays_inactive a a' :
  well_behaved_handler -> good a -> rtc local_step (on_fork a) a' -> isActive a' = false.
Proof using Type.
  intros Hh Ha Hsteps.
  assert (inactive (on_fork a)) as Hin by (destruct Ha; by split; [left|]).
  assert (inactive a') as [Hs _].
  { induction Hsteps as [|b c d Hbc _ IH]; [done|]. apply IH. by eapply local_step_inactive. }
  unfold isActive, isConnected. destruct Hs as [-> | ->]; done.
Qed.

(** When the connection is lost while the hello is sent, the controller
    still moves to [SENT_HELLO]: it does not reconnect until the receive timer
    fires, [TIMEOUT_IN_MS] later. *)
Theorem lost_hello_is_noticed_late r a :
  well_behaved_handler ->
  (forall e n, exists n', network_transmit e n = (ConnectionLost, n')) ->
  let a' := onSocketConnect cfg socketConnectHandler_ a in
  state_ (controller a') = SENT_HELLO /\ poll cfg socketConnectHandler_ r a' = (false, a') /\
  timers (controller a') = (None, Some (now a + TIMEOUT_IN_MS), None, None).
Proof using Type.
  intros Hh Hlost. cbv zeta. unfold onSocketConnect. set (a1 := on_controller _ a).
  destruct (Hh a1) as [_ Hn]. unfold sendHello, recordWithSize. set (hello := Hello _ _ _).
  destruct (Hlost hello (network (socketConnectHandler_ a1))) as [n' ->].
  destruct (onDisconnect_controller (set_network n' (socketConnectHandler_ a1))) as (_ & E & _ & Hnow & _).
  split; [done|]. split; [done|]. unfold timers in *. simplify_eq.
  unfold onSentHello, scheduleReceiveTimer. simpl. simpl in *. congruence.
Qed.

(** A sample rate message sets the process timer and the scanning interval to
    what it asks for: 0 keeps the current rate, switching off disarms the process
    timer.  (Switching scanning off stores the wrapped interval.) *)
Theorem startProfiling_sets_rates p e sp se a :
  (forall sec usec, setitimer_succeeds sec usec = true) ->
  isProcessProfiling_ (signalHandler a) = negb (currentProcessInterval_ (signalHandler a) =? NOT_PROFILING) ->
  0 <= p <= 2147483 ->
  exists a', startProfiling p e sp se a = Ok a' /\
    currentProcessInterval_ (signalHandler a') =
      (if sp then if p =? 0 then currentProcessInterval_ (signalHandler a) else p else 0) /\
    atomic_interval_in_ns_ (scanner a') =
      (if se then if e =? 0 then atomic_interval_in_ns_ (scanner a) else u64 (e * 1000000)
       else if is_scanning_threads (scanner a) then u64 (NOT_SCANNING * 1000000) else NOT_SCANNING).
Proof using Type.
  intros Hkernel Hflag Hp. unfold startProfiling.
  set (first := if sp then _ else _).
  assert (exists a1, first = Ok a1 /\ scanner a1 = scanner a /\ currentProcessInterval_ (signalHandler a1) =
      (if sp then if p =? 0 then currentProcessInterval_ (signalHandler a) else p else 0)) as (a1 & -> & Hsc & Hcur).
  { assert (forall ms h, 0 <= ms <= 2147483 -> exists h', updateProcessInterval ms h = Ok (true, h') /\
        currentProcessInterval_ h' = ms) as Hupdate.
    { intros ms h Hms. unfold updateProcessInterval, updateInterval, int_mul, INT_MIN, INT_MAX.
      destruct (Z.eqb_spec ms (currentProcessInterval_ h)); simpl; [by eexists|].
      destruct (Z.leb_spec (- 2 ^ 31) (ms * 1000)); [|lia].
      destruct (Z.leb_spec (ms * 1000) (2 ^ 31 - 1)); [|lia]. simpl. rewrite Hkernel. simpl. by eexists. }
    subst first. unfold DONT_CHANGE_SAMPLE_RATE, isProcessProfiling, stopProcessProfiling. rewrite Hflag.
    destruct sp; [destruct (Z.eqb_spec p 0); simpl; [by eexists|]|destruct (Z.eqb_spec (currentProcessInterval_ (signalHandler a)) NOT_PROFILING); simpl; [by eexists|]].
    - unfold i32. rewrite (signed_small 32) by lia.
      destruct (Hupdate p (signalHandler a) Hp) as (h & -> & Hh). simpl. by eexists.
    - destruct (Hupdate NOT_PROFILING (signalHandler a)) as (h & -> & Hh); [unfold NOT_PROFILING; lia|]. simpl. by eexists. }
  cbn [mbind outcome_bind]. eexists. split; [done|]. rewrite Hsc. unfold DONT_CHANGE_SAMPLE_RATE.
  unfold is_scanning_threads.
  destruct se; [destruct (Z.eqb_spec e 0)|destruct (Z.eqb_spec (atomic_interval_in_ns_ (scanner a)) NOT_SCANNING)];
    cbn [negb]; split; try done; by rewrite Hsc.
Qed.
End Spec.

(** ** Concrete agents *)

Definition test_settings (prometheus : bool) : settings :=
  mkSettings "key" "agent" "host" "1.0" "4.14.0" 1 prometheus 100 100 1 "git" "test" 42 "UTC" 0.

(** A collector that accepts connections and drops them at the first send, and one
    that is down. *)
Inductive flaky := Flaky.
Inductive down := Down.

#[local] Instance flaky_network : NetworkApi flaky := {
  network_isConnected _ := true;
  network_connect n := (true, n);
  network_transmit _ n := (ConnectionLost, n);
  network_close n := n
}.

#[local] Instance down_network : NetworkApi down := {
  network_isConnected _ := false;
  network_connect n := (false, n);
  network_transmit _ n := (NotDelivered, n);
  network_close n := n
}.

#[local] Instance no_metrics : MetricsApi unit := {
  metrics_setSampleRate _ m := m;
  metrics_enable _ m := m;
  metrics_disable m := m;
  metrics_thread_running _ := true
}.

#[local] Instance willing_kernel : Kernel := { setitimer_succeeds _ _ := true; sigaction_succeeds _ := true }.

Definition first_agent {N} (n : N) (prometheus : bool) : agent N unit :=
  mkAgent (new_controller (test_settings prometheus) true) n tt (new_SignalHandler ∅) (new_scanner ∅) no_failures 0 0 0 0.

Lemma id_well_behaved {N} : well_behaved_handler (N := N) (M := unit) id.
Proof. done. Qed.

Lemma controller_stays_good_witness :
  let a := (poll (test_settings false) id 500 (first_agent Flaky false)).2 in
  good (test_settings false) a /\ metrics_fit a.
Proof.
  apply (controller_stays_good (test_settings false) id id
    true Flaky tt (new_SignalHandler ∅) (new_scanner ∅) no_failures 0); [exact id_well_behaved|].
  apply rtc_once. exists Local. split; [|done]. apply step_poll. unfold RANDOMISATION_RANGE_IN_MS. lia.
Defined.

Lemma backoff_follows_schedule_witness :
  let a := polls (test_settings false) id [0; 7; 900] (first_agent Down false) in
  state_ (controller a) = DISCONNECTED /\ now a = 1500 + 7 + (2250 + 900) /\
  backoffTimeInMs_ (controller a) = 2250 /\ ((11 <= 2)%nat -> backoffTimeInMs_ (controller a) = 60000).
Proof.
  apply (backoff_follows_schedule (test_settings false) id 0 [7; 900] (first_agent Down false));
    [done|reflexivity|reflexivity|].
  repeat constructor; unfold RANDOMISATION_RANGE_IN_MS; lia.
Defined.

Lemma forked_child_stays_inactive_witness :
  isActive (poll (test_settings true) id 500 (on_fork (first_agent Flaky true))).2 = false.
Proof.
  apply (forked_child_stays_inactive (test_settings true) id id (first_agent Flaky true));
    [exact id_well_behaved|by apply good_new|].
  apply rtc_once. apply step_poll. unfold RANDOMISATION_RANGE_IN_MS. lia.
Defined.

Lemma lost_hello_is_noticed_late_witness :
  let a := onSocketConnect (test_settings false) id (first_agent Flaky false) in
  state_ (controller a) = SENT_HELLO /\ poll (test_settings false) id 500 a = (false, a) /\
  timers (controller a) = (None, Some 10000, None, None).
Proof.
  apply (lost_hello_is_noticed_late (test_settings false) id 500 (first_agent Flaky false));
    [exact id_well_behaved|by eexists].
Defined.

Lemma startProfiling_sets_rates_witness :
  exists a, startProfiling 20 0 true false (first_agent Flaky false) = Ok a /\
    currentProcessInterval_ (signalHandler a) = 20 /\ atomic_interval_in_ns_ (scanner a) = NOT_SCANNING.
Proof.
  apply (startProfiling_sets_rates 20 0 true false (first_agent Flaky false)); [reflexivity|reflexivity|lia].
Defined.
