(* ===== verification/Metrics.v ===== *)
(** * Collecting metrics ([lib/metrics.cpp])

    [Listener] is [InternalDataListener]: it names metrics by numbers and pushes
    samples.  [Metrics] holds the two readers, which are used through the class
    [MetricSource], and runs the duty cycle of the metrics thread, one turn at a
    time.  The calls of the processor thread ([enable], [disable]) happen between
    the critical sections of a turn. *)
From S2P Require Import Prelude InternalQueue MetricTypes CircularQueue ProcScanner.

Definition DURATION_NAME : string := "opsian.metrics.read_duration".
Definition DURATION_ID : Z := 1.
Definition NANOS_IN_SECOND : Z := 1000000000.
Definition DEFAULT_METRICS_SAMPLE_RATE_MILLIS : Z := 1000.

Definition DURATION_INFO : MetricInformation :=
  mkMetricInformation DURATION_NAME DURATION_ID MetricVariability.VARIABLE MetricDataType.LONG MetricUnit.NANOSECONDS.

Definition deltaInNs (start_ end_ : timespec) : Z :=
  (tv_nsec end_ - tv_nsec start_) + (tv_sec end_ - tv_sec start_) * NANOS_IN_SECOND.
(** The macro divides the result of [deltaInNs]. *)
Definition deltaInMs (start_ end_ : timespec) : Z := Z.quot (deltaInNs start_ end_) 1000000.

(** ** The listener *)

Record listener := mkListener {
  queue_ : CircularQueue;
  metricNameToId : gmap string Z;
  retryEntries_ : list MetricListenerEntry
}.

Definition with_queue c (l : listener) : listener := mkListener c (metricNameToId l) (retryEntries_ l).
Definition with_names m (l : listener) : listener := mkListener (queue_ l) m (retryEntries_ l).
Definition with_retry r (l : listener) : listener := mkListener (queue_ l) (metricNameToId l) r.

Definition findOrCreateMetricId (entry : MetricListenerEntry) (l : listener) : Z * listener :=
  match metricNameToId l !! entry_name entry with
  | Some metricId => (metricId, l)
  | None =>
      let metricId := u32 (u32 (Z.of_nat (size (metricNameToId l))) + 1) in
      let l := with_names (<[entry_name entry := metricId]> (metricNameToId l)) l in
      let info := mkMetricInformation (entry_name entry) metricId (entry_variability entry)
                    (type (entry_data entry)) (entry_unit entry) in
      let '(pushed, c) := pushMetricInformation info (queue_ l) in
      let l := with_queue c l in
      if pushed then (metricId, l)
      else (0, with_names (delete (entry_name entry) (metricNameToId l)) l)
  end.

Fixpoint attemptRecordEntries (entries : list MetricListenerEntry) (samples : list MetricSample)
    (failedConstantEntries : list MetricListenerEntry) (l : listener)
    : list MetricSample * list MetricListenerEntry * listener :=
  match entries with
  | [] => (samples, failedConstantEntries, l)
  | entry :: entries =>
      let '(metricId, l) := findOrCreateMetricId entry l in
      if metricId =? 0 then
        attemptRecordEntries entries samples
          (if bool_decide (entry_variability entry = MetricVariability.CONSTANT)
           then failedConstantEntries ++ [entry] else failedConstantEntries) l
      else attemptRecordEntries entries (samples ++ [mkMetricSample metricId (entry_data entry)])
             failedConstantEntries l
  end.

Definition listener_recordEntries (entries : list MetricListenerEntry) (timestampInMs : Z) (l : listener) : listener :=
  let '(samples, failedConstantEntries, l) := attemptRecordEntries entries [] [] l in
  let '(samples, failedConstantEntries, l) :=
    attemptRecordEntries (retryEntries_ l) samples failedConstantEntries l in
  let l := with_queue (pushMetricSamples samples timestampInMs (queue_ l)).2 l in
  with_retry failedConstantEntries l.

Definition noRemainingConstantsToSend (l : listener) : bool :=
  match retryEntries_ l with [] => true | _ => false end.

Definition listener_recordNotification (category : NotificationCategory.t) (payload : string) (l : listener) : listener :=
  with_queue (pushNotification category payload (queue_ l)).2 l.

#[export] Instance listener_MetricDataListener : MetricDataListener listener := {
  recordEntries := listener_recordEntries;
  recordMetricNotification := listener_recordNotification
}.

Definition sendDuration (durationInMs : Z) (timestamp : timespec) (l : listener) : listener :=
  let durationSample := mkMetricSample DURATION_ID (mkMetricData MetricDataType.LONG EmptyString (i64 durationInMs)) in
  with_queue (pushMetricSamples [durationSample] (toMillis timestamp) (queue_ l)).2 l.

(** ** The component *)

(** A reader: [CPUDataReader] or [EventRingReader].  [source_read] reports to the
    listener and returns how many events it read. *)
Class MetricSource (R : Type) := {
  source_new : list string -> R;
  source_updateEntryPrefixes : list string -> R -> R;
  source_read : Z -> R -> listener -> Z * R * listener;
  source_hasEmittedConstantMetrics : R -> bool
}.

Record Metrics (C R : Type) := mkMetrics {
  mustSendDurationMetric : bool;
  enabled_ : bool;
  sampleRateMillis_ : Z;
  eventRingReader_ : option R;
  cpudataReader_ : option C;
  needsToSendConstantMetrics : bool;
  metricListener : listener
}.
Arguments mkMetrics {C R}.
Arguments mustSendDurationMetric {C R}.
Arguments enabled_ {C R}.
Arguments sampleRateMillis_ {C R}.
Arguments eventRingReader_ {C R}.
Arguments cpudataReader_ {C R}.
Arguments needsToSendConstantMetrics {C R}.
Arguments metricListener {C R}.

Section Component.
Context {C R : Type} `{MetricSource C} `{MetricSource R}.
Implicit Types m : Metrics C R.

Definition new_Metrics (queue : CircularQueue) : Metrics C R :=
  mkMetrics false false DEFAULT_METRICS_SAMPLE_RATE_MILLIS None None false (mkListener queue ∅ []).

Definition with_listener l m : Metrics C R :=
  mkMetrics (mustSendDurationMetric m) (enabled_ m) (sampleRateMillis_ m) (eventRingReader_ m)
    (cpudataReader_ m) (needsToSendConstantMetrics m) l.

(** The readers exist while the component is enabled; using an absent one is a
    null dereference. *)
Definition enable (disabledPrefixes : list string) m : outcome (Metrics C R) :=
  if negb (enabled_ m) then
    Ok (mkMetrics true true (sampleRateMillis_ m) (Some (source_new disabledPrefixes))
          (Some (source_new disabledPrefixes)) true (metricListener m))
  else
    cpu ← in_bounds (cpudataReader_ m);
    ring ← in_bounds (eventRingReader_ m);
    Ok (mkMetrics (mustSendDurationMetric m) true (sampleRateMillis_ m)
          (Some (source_updateEntryPrefixes disabledPrefixes ring))
          (Some (source_updateEntryPrefixes disabledPrefixes cpu))
          (needsToSendConstantMetrics m) (metricListener m)).

Definition disable m : outcome (Metrics C R) :=
  if enabled_ m then
    _ ← in_bounds (eventRingReader_ m);
    Ok (mkMetrics false false (sampleRateMillis_ m) None None (needsToSendConstantMetrics m)
          (with_names ∅ (metricListener m)))
  else
    Ok (mkMetrics false false (sampleRateMillis_ m) (eventRingReader_ m) (cpudataReader_ m)
          (needsToSendConstantMetrics m) (metricListener m)).

Definition setSampleRate (sampleRateMillis : Z) m : Metrics C R :=
  mkMetrics (mustSendDurationMetric m) (enabled_ m) sampleRateMillis (eventRingReader_ m) (cpudataReader_ m)
    (needsToSendConstantMetrics m) (metricListener m).

(** Without room in the queue the code sleeps and tries again until there is. *)
Definition sendDurationMetricId m : outcome (Metrics C R) :=
  if mustSendDurationMetric m then
    let l := metricListener m in
    let l := match metricNameToId l !! DURATION_NAME with
             | Some _ => l
             | None => with_names (<[DURATION_NAME := DURATION_ID]> (metricNameToId l)) l
             end in
    match pushMetricInformation DURATION_INFO (queue_ l) with
    | (false, _) => Blocked
    | (true, c) =>
        Ok (mkMetrics false (enabled_ m) (sampleRateMillis_ m) (eventRingReader_ m) (cpudataReader_ m)
              (needsToSendConstantMetrics m) (with_queue c l))
    end
  else Ok m.

(** The critical section of a turn; the result tells whether the event ring may
    have more events. *)
Definition read_readers (startWorkInMs : Z) m : outcome (bool * Metrics C R) :=
  if enabled_ m then
    cpu ← in_bounds (cpudataReader_ m);
    let '(_, cpu, l) := source_read startWorkInMs cpu (metricListener m) in
    ring ← in_bounds (eventRingReader_ m);
    let '(events, ring, l) := source_read startWorkInMs ring l in
    let '(needs, l) :=
      if needsToSendConstantMetrics m then
        if source_hasEmittedConstantMetrics cpu && source_hasEmittedConstantMetrics ring
           && noRemainingConstantsToSend l
        then let '(pushed, c) := pushConstantMetricsComplete (queue_ l) in (negb pushed, with_queue c l)
        else (true, l)
      else (false, l) in
    Ok (0 <? events,
        mkMetrics (mustSendDurationMetric m) true (sampleRateMillis_ m) (Some ring) (Some cpu) needs l)
  else Ok (false, m).

(** The polling inside the window.  [clock] lists what the clock reads before and
    after each poll; when the list is exhausted the loop is still running. *)
Fixpoint eliminate (clock : list (timespec * timespec)) (hasRemainingEvents : bool) (remainingWindowInMs : Z)
    (endWork : timespec) m : outcome (Z * timespec * Metrics C R) :=
  if negb hasRemainingEvents then Ok (remainingWindowInMs, endWork, m)
  else
    match clock with
    | [] => Blocked
    | (startWork, endWork') :: clock =>
        if enabled_ m then
          ring ← in_bounds (eventRingReader_ m);
          let '(events, ring, l) := source_read (toMillis startWork) ring (metricListener m) in
          let workInMs := u64 (deltaInMs startWork endWork') in
          eliminate clock (0 <? events)
            (if remainingWindowInMs <=? workInMs then 0 else remainingWindowInMs - workInMs) endWork'
            (mkMetrics (mustSendDurationMetric m) (enabled_ m) (sampleRateMillis_ m) (Some ring)
               (cpudataReader_ m) (needsToSendConstantMetrics m) l)
        else Ok (remainingWindowInMs, endWork, m)
    end.

(** The second half of a turn, from the time the readers were read; the result is
    how long the thread then sleeps. *)
Definition finish_window (running : bool) (startWork endWork : timespec) (clock : list (timespec * timespec))
    (hasRemainingEvents : bool) m : outcome (Z * Metrics C R) :=
  let workInMs := u64 (deltaInMs startWork endWork) in
  let sampleRateInMs := sampleRateMillis_ m in
  if workInMs <? sampleRateInMs then
    '(remainingWindowInMs, endWork, m) ← eliminate clock hasRemainingEvents (sampleRateInMs - workInMs) endWork m;
    let m := with_listener (sendDuration (sampleRateInMs - remainingWindowInMs) endWork (metricListener m)) m in
    Ok (if (0 <? remainingWindowInMs) && running then remainingWindowInMs else 0, m)
  else Ok (0, m).

Definition on_fork m : Metrics C R :=
  mkMetrics false false DEFAULT_METRICS_SAMPLE_RATE_MILLIS None None false (with_names ∅ (metricListener m)).
End Component.
