(* ===== verification/MetricsSpec.v ===== *)
(** * Metric identifiers, samples and the duty cycle *)
From S2P Require Import Prelude InternalQueue InternalQueueSpec MetricTypes CircularQueue CircularQueueSpec Metrics.

(** ** Identifiers are numbered 1, 2, ... without gaps or repetitions *)

Record numbered (names : gmap string Z) : Prop := {
  numbered_range : forall k id, names !! k = Some id -> 1 <= id <= Z.of_nat (size names);
  numbered_injective : forall k k' id, names !! k = Some id -> names !! k' = Some id -> k = k';
  numbered_onto : forall id, 1 <= id <= Z.of_nat (size names) -> exists k, names !! k = Some id
}.

Lemma numbered_empty : numbered ∅.
Proof.
  split.
  - intros k id E. by rewrite lookup_empty in E.
  - intros k k' id E. by rewrite lookup_empty in E.
  - intros id Hid. rewrite map_size_empty in Hid. lia.
Qed.

Lemma numbered_insert names k :
  numbered names -> names !! k = None -> numbered (<[k := Z.of_nat (size names) + 1]> names).
Proof.
  intros [Hrange Hinj Honto] Hk. split.
  - intros k' id E. rewrite map_size_insert_None by done. apply lookup_insert_Some in E as [[<- <-]|[_ E]]; [lia|].
    apply Hrange in E. lia.
  - intros k1 k2 id E1 E2. apply lookup_insert_Some in E1 as [[<- <-]|[_ E1]], E2 as [[<- E2]|[_ E2]]; try done.
    + apply Hrange in E2. lia.
    + subst. apply Hrange in E1. lia.
    + by eapply Hinj.
  - intros id Hid. rewrite map_size_insert_None in Hid by done.
    destruct (decide (id = Z.of_nat (size names) + 1)) as [->|]; [exists k; by rewrite lookup_insert_eq|].
    destruct (Honto id ltac:(lia)) as [k' Hk']. exists k'. rewrite lookup_insert_ne; [done|congruence].
Qed.

(** ** Recording entries *)

(** The metric information pushed for an entry. *)
Definition info_for (e : MetricListenerEntry) (id : Z) : MetricInformation :=
  mkMetricInformation (entry_name e) id (entry_variability e) (type (entry_data e)) (entry_unit e).

(** [s] carries the data of [e] under the number of its name. *)
Definition samples_entry (names : gmap string Z) (e : MetricListenerEntry) (s : MetricSample) : Prop :=
  names !! entry_name e = Some (sample_id s) /\ sample_data s = entry_data e.

Definition constants (l : list MetricListenerEntry) : list MetricListenerEntry :=
  filter (fun e => entry_variability e = MetricVariability.CONSTANT) l.

(** [l'] has sent the information of exactly the names [l] did not know. *)
Record extends (max : nat) (l l' : listener) (c c' : contents) (infos : list MetricInformation) : Prop := {
  extends_queue : holds max (queue_ l') c';
  extends_items : c' = Contents (main_items c ++ (InformationSent <$> infos)) (alloc_items c) (stack_items c);
  extends_numbered : numbered (metricNameToId l');
  extends_names : metricNameToId l ⊆ metricNameToId l';
  extends_size : size (metricNameToId l') = (size (metricNameToId l) + length infos)%nat;
  extends_infos : Forall (fun i => metricNameToId l !! info_name i = None /\
                                   metricNameToId l' !! info_name i = Some (info_id i)) infos;
  extends_new : forall name id, metricNameToId l' !! name = Some id -> metricNameToId l !! name = None ->
    exists i, i ∈ infos /\ info_name i = name /\ info_id i = id;
  extends_retry : retryEntries_ l' = retryEntries_ l
}.

Lemma extends_refl max l c : holds max (queue_ l) c -> numbered (metricNameToId l) -> extends max l l c c [].
Proof.
  intros. split; [done|destruct c; simpl; by rewrite app_nil_r|done|done|simpl; lia|constructor|congruence|done].
Qed.

Lemma extends_trans max l1 l2 l3 c1 c2 c3 i j :
  extends max l1 l2 c1 c2 i -> extends max l2 l3 c2 c3 j -> extends max l1 l3 c1 c3 (i ++ j).
Proof.
  intros [Q1 I1 N1 S1 Z1 F1 W1 R1] [Q2 I2 N2 S2 Z2 F2 W2 R2]. split; try done.
  - subst. simpl. by rewrite fmap_app, app_assoc.
  - by transitivity (metricNameToId l2).
  - rewrite length_app. lia.
  - apply Forall_app. split.
    + eapply Forall_impl; [|exact F1]. intros x [? Hx]. split; [done|]. by eapply lookup_weaken.
    + eapply Forall_impl; [|exact F2]. intros x [Hx ?]. split; [|done].
      destruct (metricNameToId l1 !! info_name x) eqn:E; [|done].
      eapply lookup_weaken in E; [|exact S1]. congruence.
  - intros name id E3 E1. destruct (metricNameToId l2 !! name) as [id2|] eqn:E2.
    + pose proof (lookup_weaken _ _ _ _ E2 S2) as E. rewrite E3 in E. injection E as <-.
      destruct (W1 name id E2 E1) as (x & Hx & Ex). exists x. split; [apply elem_of_app; by left|done].
    + destruct (W2 name id E3 E2) as (x & Hx & Ex). exists x. split; [apply elem_of_app; by right|done].
  - congruence.
Qed.

(** The announcements of [es], with the numbers that follow the first [n]. *)
Definition announced_as (n : nat) (es : list MetricListenerEntry) : list MetricInformation :=
  imap (fun k e => info_for e (Z.of_nat (n + k) + 1)) es.

Lemma announced_as_app n es1 es2 : announced_as n (es1 ++ es2) = announced_as n es1 ++ announced_as (n + length es1) es2.
Proof. unfold announced_as. rewrite imap_app. f_equal. apply imap_ext. intros k e _. simpl. do 3 f_equal. lia. Qed.

(** Some of the entries were announced, in order and with the numbers that come
    next; an entry was rejected only if its name was new and the ring was full. *)
Record announcing (l : listener) (c' : contents) (entries : list MetricListenerEntry)
    (infos : list MetricInformation) (rejected : list MetricListenerEntry) : Prop := {
  announcing_infos : exists es, es `sublist_of` entries /\ infos = announced_as (size (metricNameToId l)) es;
  announcing_rejected : Forall (fun e => metricNameToId l !! entry_name e = None) rejected;
  announcing_full : rejected <> [] -> MainQueueSize <= Z.of_nat (length (main_items c'))
}.

Lemma announcing_app max l l1 l2 c c1 c2 i1 i2 e1 e2 r1 r2 :
  extends max l l1 c c1 i1 -> extends max l1 l2 c1 c2 i2 ->
  announcing l c1 e1 i1 r1 -> announcing l1 c2 e2 i2 r2 -> announcing l c2 (e1 ++ e2) (i1 ++ i2) (r1 ++ r2).
Proof.
  intros X1 X2 [(es1 & S1 & ->) R1 F1] [(es2 & S2 & ->) R2 F2].
  pose proof (extends_size _ _ _ _ _ _ X1) as Z1. unfold announced_as in Z1 at 1. rewrite length_imap in Z1.
  pose proof (extends_names _ _ _ _ _ _ X1) as Hsub. pose proof (extends_items _ _ _ _ _ _ X2) as C2. split.
  - exists (es1 ++ es2). split; [by apply sublist_app|]. by rewrite announced_as_app, Z1.
  - apply Forall_app. split; [done|]. eapply Forall_impl; [|exact R2]. intros e He. simpl in He.
    destruct (metricNameToId l !! entry_name e) as [id|] eqn:E; [|done].
    rewrite (lookup_weaken _ _ _ _ E Hsub) in He. done.
  - intros Hne. destruct r2 as [|r r2]; [|by apply F2]. rewrite app_nil_r in Hne. specialize (F1 Hne).
    subst c2. cbn [main_items]. rewrite length_app. lia.
Qed.

(** A refused information leaves no trace in the names. *)
Lemma findOrCreateMetricId_spec max e l c :
  holds max (queue_ l) c -> numbered (metricNameToId l) -> Z.of_nat (size (metricNameToId l)) < 2 ^ 32 - 1 ->
  let '(id, l') := findOrCreateMetricId e l in
  exists infos c', extends max l l' c c' infos /\ (length infos <= 1)%nat /\
    announcing l c' [e] infos (if id =? 0 then [e] else []) /\
    if id =? 0 then infos = [] /\ metricNameToId l !! entry_name e = None /\ metricNameToId l' = metricNameToId l
    else metricNameToId l' !! entry_name e = Some id.
Proof.
  intros Hc Hnum Hsize. unfold findOrCreateMetricId.
  destruct (metricNameToId l !! entry_name e) as [id|] eqn:E.
  { exists [], c. split; [by apply extends_refl|]. split; [simpl; lia|].
    destruct (Z.eqb_spec id 0) as [->|]; [apply (numbered_range _ Hnum) in E; lia|]. split; [|done].
    split; [|constructor|done]. exists []. split; [apply sublist_nil_l|done]. }
  rewrite (u32_small (Z.of_nat _)), u32_small by lia. cbn [queue_ with_names].
  set (id := Z.of_nat (size (metricNameToId l)) + 1).
  change (mkMetricInformation _ _ _ _ _) with (info_for e id).
  destruct (push_information_spec max (queue_ l) c (info_for e id) Hc) as (q & Hpush & Hres).
  cbn [exec_push op_event count_refusal] in Hpush, Hres. 
  assert (pushMetricInformation (info_for e id) (queue_ l) =
    (has_room c (MainEvent (InformationSent (info_for e id))), q)) as -> by (by injection Hpush).
  destruct (has_room c _) eqn:Eroom; cbn [with_queue with_names queue_ metricNameToId].
  - destruct Hres as [Hres _]. exists [info_for e id]. eexists. split; [split|].
    + exact Hres.
    + done.
    + by apply numbered_insert.
    + by apply insert_subseteq.
    + simpl. rewrite map_size_insert_None by done. lia.
    + constructor; [|constructor]. split; [done|]. simpl. by rewrite lookup_insert_eq.
    + intros name' id' E1 E2. simpl in E1. apply lookup_insert_Some in E1 as [[<- <-]|[_ E1]]; [|congruence].
      exists (info_for e id). split; [by left|done].
    + done.
    + split; [simpl; lia|]. destruct (Z.eqb_spec id 0); [subst id; lia|]. simpl. rewrite lookup_insert_eq. split; [|done].
      split; [|constructor|done]. exists [e]. split; [done|]. unfold announced_as. simpl. by rewrite Nat.add_0_r.
  - exists [], c. rewrite delete_insert_id by done. cbn. split; [|split; [lia|split; [|done]]].
    split; [subst q; by apply holds_set_failures|destruct c; simpl; by rewrite app_nil_r|done|done|simpl; lia|constructor|intros ? ? E1 ?; simpl in E1; congruence|done].
    split; [exists []; split; [apply sublist_nil_l|done]|by repeat constructor|]. intros _. by apply Z.ltb_ge in Eroom.
Qed.

(** The entries of [entries], split into those with a sample and those without. *)
Record attempted (names : gmap string Z) (entries accepted rejected : list MetricListenerEntry)
    (new : list MetricSample) : Prop := {
  attempted_all : entries ≡ₚ accepted ++ rejected;
  attempted_order : accepted `sublist_of` entries;
  attempted_samples : Forall2 (samples_entry names) accepted new
}.

Lemma samples_entry_weaken names names' e s : names ⊆ names' -> samples_entry names e s -> samples_entry names' e s.
Proof. intros Hsub [Hn Hd]. split; [by eapply lookup_weaken|done]. Qed.

Lemma attempted_app names names' e1 e2 a1 a2 r1 r2 n1 n2 :
  names ⊆ names' -> attempted names e1 a1 r1 n1 -> attempted names' e2 a2 r2 n2 ->
  attempted names' (e1 ++ e2) (a1 ++ a2) (r1 ++ r2) (n1 ++ n2).
Proof.
  intros Hsub [P1 O1 S1] [P2 O2 S2]. split.
  - rewrite P1, P2. solve_Permutation.
  - by apply sublist_app.
  - apply Forall2_app; [|done]. eapply Forall2_impl; [|exact S1]. intros x y. by apply samples_entry_weaken.
Qed.

Lemma attemptRecordEntries_spec max entries samples failed l c :
  holds max (queue_ l) c -> numbered (metricNameToId l) ->
  Z.of_nat (size (metricNameToId l) + length entries) < 2 ^ 32 ->
  let '(samples', failed', l') := attemptRecordEntries entries samples failed l in
  exists infos c' accepted rejected new, extends max l l' c c' infos /\ (length infos <= length entries)%nat /\
    attempted (metricNameToId l') entries accepted rejected new /\ announcing l c' entries infos rejected /\
    samples' = samples ++ new /\ failed' = failed ++ constants rejected.
Proof.
  revert samples failed l c. induction entries as [|e entries IH]; intros samples failed l c Hc Hnum Hsize;
    cbn [attemptRecordEntries length] in *.
  { exists [], c, [], [], []. rewrite !app_nil_r. split; [by apply extends_refl|]. split_and!; try done.
    split; [by exists []|constructor|done]. }
  pose proof (findOrCreateMetricId_spec max e l c Hc Hnum ltac:(lia)) as Hfind.
  destruct (findOrCreateMetricId e l) as [id l1]. destruct Hfind as (infos & c1 & Hext & Hlen & Hann & Hid).
  pose proof (extends_size _ _ _ _ _ _ Hext) as Hs.
  assert (Z.of_nat (size (metricNameToId l1) + length entries) < 2 ^ 32) as Hsize1 by lia.
  assert (forall samples failed,
    let '(samples', failed', l') := attemptRecordEntries entries samples failed l1 in
    exists infos' c' accepted rejected new, extends max l l' c c' (infos ++ infos') /\
      (length (infos ++ infos') <= S (length entries))%nat /\ metricNameToId l1 ⊆ metricNameToId l' /\
      attempted (metricNameToId l') entries accepted rejected new /\
      announcing l c' (e :: entries) (infos ++ infos') ((if id =? 0 then [e] else []) ++ rejected) /\
      samples' = samples ++ new /\ failed' = failed ++ constants rejected) as Hrest.
  { intros samples1 failed1.
    specialize (IH samples1 failed1 l1 c1 (extends_queue _ _ _ _ _ _ Hext) (extends_numbered _ _ _ _ _ _ Hext) Hsize1).
    destruct (attemptRecordEntries entries samples1 failed1 l1) as [[samples' failed'] l'].
    destruct IH as (infos' & c' & acc & rej & new & Hext' & Hlen' & Hatt & Hann' & Es & Ef).
    exists infos', c', acc, rej, new. split; [by eapply extends_trans|].
    split; [rewrite length_app; lia|]. split; [by destruct Hext'|]. split; [done|]. split; [|done].
    exact (announcing_app max l l1 l' c c1 c' _ _ [e] entries _ _ Hext Hext' Hann Hann'). }
  destruct (Z.eqb_spec id 0) as [->|Hne].
  - specialize (Hrest samples (if bool_decide (entry_variability e = MetricVariability.CONSTANT)
      then failed ++ [e] else failed)).
    destruct (attemptRecordEntries entries _ _ l1) as [[samples' failed'] l'].
    destruct Hrest as (infos' & c' & acc & rej & new & Hext' & Hlen' & Hsub & [P O S] & Hann' & Es & Ef).
    exists (infos ++ infos'), c', acc, (e :: rej), new. split; [done|]. split; [done|]. split; [split|split; [exact Hann'|split]].
    + rewrite P. solve_Permutation.
    + by constructor.
    + done.
    + done.
    + rewrite Ef. unfold constants. rewrite filter_cons. case_bool_decide; case_decide; try done.
      by rewrite <- app_assoc.
  - specialize (Hrest (samples ++ [mkMetricSample id (entry_data e)]) failed).
    destruct (attemptRecordEntries entries _ _ l1) as [[samples' failed'] l'].
    destruct Hrest as (infos' & c' & acc & rej & new & Hext' & Hlen' & Hsub & [P O S] & Hann' & Es & Ef).
    exists (infos ++ infos'), c', (e :: acc), rej, (mkMetricSample id (entry_data e) :: new).
    split; [done|]. split; [done|]. split; [split|split; [exact Hann'|split]].
    + by rewrite P.
    + by constructor.
    + constructor; [|done]. split; [|done]. by eapply lookup_weaken.
    + by rewrite Es, <- app_assoc.
    + done.
Qed.

(** With room in the ring every announcement is taken. *)
Lemma findOrCreateMetricId_succeeds max e l c :
  holds max (queue_ l) c -> numbered (metricNameToId l) -> Z.of_nat (size (metricNameToId l)) < 2 ^ 32 - 1 ->
  Z.of_nat (length (main_items c)) < MainQueueSize -> (findOrCreateMetricId e l).1 <> 0.
Proof.
  intros Hc Hnum Hsize Hroom. unfold findOrCreateMetricId. destruct (metricNameToId l !! entry_name e) as [id|] eqn:E.
  { apply (numbered_range _ Hnum) in E. simpl. lia. }
  rewrite (u32_small (Z.of_nat _)), u32_small by lia. cbn [queue_ with_names].
  destruct (push_information_spec max (queue_ l) c (info_for e (Z.of_nat (size (metricNameToId l)) + 1)) Hc) as (q & Hpush & _).
  cbn [exec_push op_event has_room] in Hpush. unfold info_for in Hpush. rewrite (proj2 (Z.ltb_lt _ _) Hroom) in Hpush.
  injection Hpush as ->. simpl. lia.
Qed.

Lemma attempt_samples_all max entries samples failed l c :
  holds max (queue_ l) c -> numbered (metricNameToId l) ->
  Z.of_nat (size (metricNameToId l) + length entries) < 2 ^ 32 ->
  Z.of_nat (length (main_items c) + length entries) <= MainQueueSize ->
  length (attemptRecordEntries entries samples failed l).1.1 = (length samples + length entries)%nat.
Proof.
  revert samples failed l c. induction entries as [|e entries IH]; intros samples failed l c Hc Hnum Hsize Hroom;
    cbn [attemptRecordEntries length] in *; [simpl; lia|].
  pose proof (findOrCreateMetricId_spec max e l c Hc Hnum ltac:(lia)) as Hfind.
  pose proof (findOrCreateMetricId_succeeds max e l c Hc Hnum ltac:(lia) ltac:(lia)) as Hid.
  destruct (findOrCreateMetricId e l) as [id l1]. cbn [fst] in Hid. destruct Hfind as (infos & c1 & Hext & Hlen & _).
  rewrite (proj2 (Z.eqb_neq id 0) Hid). pose proof (extends_size _ _ _ _ _ _ Hext).
  rewrite (IH _ _ l1 c1 (extends_queue _ _ _ _ _ _ Hext) (extends_numbered _ _ _ _ _ _ Hext));
    [rewrite length_app; simpl; lia|lia|]. rewrite (extends_items _ _ _ _ _ _ Hext). simpl. rewrite length_app, length_fmap. lia.
Qed.

Lemma sublist_whole {A} (l k : list A) : l `sublist_of` k -> (length k <= length l)%nat -> l = k.
Proof.
  induction 1 as [|x l k Hs IH|x l k Hs IH]; simpl; intros Hlen; [done|f_equal; apply IH; lia|].
  apply sublist_length in Hs. lia.
Qed.

Lemma attempted_whole names entries accepted rejected new :
  attempted names entries accepted rejected new -> length new = length entries -> rejected = [] /\ accepted = entries.
Proof.
  intros [P O S] Hlen. pose proof (Permutation_length P) as Hp. rewrite length_app in Hp.
  assert (length accepted = length new) by (by eapply Forall2_length). split; [destruct rejected; [done|simpl in *; lia]|].
  by apply sublist_whole; [|lia].
Qed.

(** What [recordEntries] does to the names and the queue. *)
Record records max ts l c entries l' infos accepted rejected new : Prop := {
  records_numbered : numbered (metricNameToId l');
  records_names : metricNameToId l ⊆ metricNameToId l';
  records_announced : exists es, es `sublist_of` entries ++ retryEntries_ l /\
    infos = announced_as (size (metricNameToId l)) es;
  records_rejected : Forall (fun e => metricNameToId l !! entry_name e = None) rejected;
  records_full : rejected <> [] -> MainQueueSize <= Z.of_nat (length (main_items c) + length infos);
  records_infos : Forall (fun i => metricNameToId l !! info_name i = None /\
                                   metricNameToId l' !! info_name i = Some (info_id i)) infos;
  records_new : forall name id, metricNameToId l' !! name = Some id -> metricNameToId l !! name = None ->
    exists i, i ∈ infos /\ info_name i = name /\ info_id i = id;
  records_samples : attempted (metricNameToId l') (entries ++ retryEntries_ l) accepted rejected new;
  records_retry : retryEntries_ l' = constants rejected;
  records_queue :
    holds max (queue_ l') (append_if_room (Contents (main_items c ++ (InformationSent <$> infos)) (alloc_items c) (stack_items c))
      (MainEvent (SamplesSent ts new)));
  records_few : (length infos <= length entries + length (retryEntries_ l))%nat;
  records_all : Z.of_nat (length (main_items c) + length entries + length (retryEntries_ l)) <= MainQueueSize ->
    accepted = entries ++ retryEntries_ l /\ rejected = []
}.

Lemma recordEntries_spec max entries ts l c :
  holds max (queue_ l) c -> numbered (metricNameToId l) ->
  Z.of_nat (size (metricNameToId l) + length entries + length (retryEntries_ l)) < 2 ^ 32 ->
  exists infos accepted rejected new, records max ts l c entries (listener_recordEntries entries ts l) infos accepted rejected new.
Proof.
  intros Hc Hnum Hsize. unfold listener_recordEntries.
  pose proof (attemptRecordEntries_spec max entries [] [] l c Hc Hnum ltac:(lia)) as H1.
  pose proof (attempt_samples_all max entries [] [] l c Hc Hnum ltac:(lia)) as All1.
  destruct (attemptRecordEntries entries [] [] l) as [[s1 f1] l1]. cbn [fst length Nat.add] in All1.
  destruct H1 as (i1 & c1 & a1 & r1 & n1 & X1 & L1 & A1 & N1 & Es1 & Ef1).
  pose proof (extends_size _ _ _ _ _ _ X1) as Z1. pose proof (extends_retry _ _ _ _ _ _ X1) as R1.
  pose proof (extends_items _ _ _ _ _ _ X1) as C1.
  pose proof (attemptRecordEntries_spec max (retryEntries_ l1) s1 f1 l1 c1 (extends_queue _ _ _ _ _ _ X1)
    (extends_numbered _ _ _ _ _ _ X1) ltac:(rewrite R1, Z1; lia)) as H2.
  pose proof (attempt_samples_all max (retryEntries_ l1) s1 f1 l1 c1 (extends_queue _ _ _ _ _ _ X1)
    (extends_numbered _ _ _ _ _ _ X1) ltac:(rewrite R1, Z1; lia)) as All2.
  destruct (attemptRecordEntries (retryEntries_ l1) s1 f1 l1) as [[s2 f2] l2]. cbn [fst] in All2.
  destruct H2 as (i2 & c2 & a2 & r2 & n2 & X2 & L2 & A2 & N2 & Es2 & Ef2).
  destruct (announcing_app _ _ _ _ _ _ _ _ _ _ _ _ _ X1 X2 N1 N2) as [Hes Hrej Hfull]. rewrite R1 in Hes.
  pose proof (extends_trans _ _ _ _ _ _ _ _ _ X1 X2) as [Q I N S _ F W _].
  assert (attempted (metricNameToId l2) (entries ++ retryEntries_ l) (a1 ++ a2) (r1 ++ r2) (n1 ++ n2)) as A.
  { rewrite <- R1. eapply attempted_app; [|done|done]. by destruct X2. }
  exists (i1 ++ i2), (a1 ++ a2), (r1 ++ r2), (n1 ++ n2). split; try done.
  - intros Hne. specialize (Hfull Hne). rewrite I in Hfull. cbn [main_items] in Hfull. rewrite length_app, length_fmap in Hfull. lia.
  - subst. unfold constants. by rewrite list.filter_app.
  - rewrite <- I. subst s2 s1. simpl. by apply samples_holds.
  - rewrite length_app, R1 in *. lia.
  - intros Hroom. destruct (attempted_whole _ _ _ _ _ A) as [-> ->]; [|done].
    rewrite R1 in *. specialize (All1 ltac:(lia)).
    assert (length s2 = length s1 + length (retryEntries_ l))%nat as E.
    { apply All2. rewrite C1. simpl. rewrite length_app, length_fmap. lia. }
    subst s2 s1. rewrite !length_app in *. simpl in *. lia.
Qed.

(** C34. Recording entries announces every name that is new to the listener, in
    the order of the entries, with the kind of its metric and the next free number
    ([announced_as]); then it pushes one message with a sample per entry that has a
    number, under that number.  An entry goes without a sample only if its name was
    new and the ring was full; such entries are dropped, except that constants are
    kept for the next call. *)
Theorem recordEntries_announces_before_sampling max entries ts l c :
  holds max (queue_ l) c -> numbered (metricNameToId l) ->
  Z.of_nat (size (metricNameToId l) + length entries + length (retryEntries_ l)) < 2 ^ 32 ->
  let l' := listener_recordEntries entries ts l in
  exists infos accepted rejected new,
    numbered (metricNameToId l') /\ metricNameToId l ⊆ metricNameToId l' /\
    (exists es, es `sublist_of` entries ++ retryEntries_ l /\ infos = announced_as (size (metricNameToId l)) es) /\
    (forall name id, metricNameToId l !! name = None ->
       metricNameToId l' !! name = Some id <-> exists i, i ∈ infos /\ info_name i = name /\ info_id i = id) /\
    attempted (metricNameToId l') (entries ++ retryEntries_ l) accepted rejected new /\
    retryEntries_ l' = constants rejected /\
    Forall (fun e => metricNameToId l !! entry_name e = None) rejected /\
    (rejected <> [] -> MainQueueSize <= Z.of_nat (length (main_items c) + length infos)) /\
    (Z.of_nat (length (main_items c) + length entries + length (retryEntries_ l)) <= MainQueueSize -> rejected = []) /\
    let announced := Contents (main_items c ++ (InformationSent <$> infos)) (alloc_items c) (stack_items c) in
    holds max (queue_ l') (append_if_room announced (MainEvent (SamplesSent ts new))).
Proof.
  intros Hc Hnum Hsize. destruct (recordEntries_spec max entries ts l c Hc Hnum Hsize) as (infos & accepted & rejected & new & []).
  exists infos, accepted, rejected, new. split_and!; try done; [|intros Hroom; by apply records_all0].
  intros name id Hnew. split; [intros E; by apply records_new0|]. intros (i & Hi & <- & <-).
  rewrite list.Forall_forall in records_infos0. by apply records_infos0.
Qed.

(** A constant is lost for good when the ring has room for its announcement
    but not for its sample: nothing is kept for the next call. *)
Theorem constant_lost_between_pushes max e ts l c :
  holds max (queue_ l) c -> numbered (metricNameToId l) -> Z.of_nat (size (metricNameToId l)) < 2 ^ 32 - 1 ->
  entry_variability e = MetricVariability.CONSTANT -> metricNameToId l !! entry_name e = None ->
  retryEntries_ l = [] -> Z.of_nat (length (main_items c)) = MainQueueSize - 1 ->
  let l' := listener_recordEntries [e] ts l in
  retryEntries_ l' = [] /\
  holds max (queue_ l') (Contents (main_items c ++ [InformationSent
    (info_for e (Z.of_nat (size (metricNameToId l)) + 1))]) (alloc_items c) (stack_items c)).
Proof.
  intros Hc Hnum Hsize Hconst Hnew Hretry Hroom.
  set (id := Z.of_nat (size (metricNameToId l)) + 1).
  assert (exists q, findOrCreateMetricId e l =
    (id, mkListener q (<[entry_name e := id]> (metricNameToId l)) []) /\
    holds max q (append c (MainEvent (InformationSent (info_for e id))))) as (q & Hfind & Hq).
  { unfold findOrCreateMetricId. rewrite Hnew, (u32_small (Z.of_nat _)), u32_small by lia. fold id.
    change (mkMetricInformation _ _ _ _ _) with (info_for e id). cbn [queue_ with_names].
    destruct (push_information_spec max (queue_ l) c (info_for e id) Hc) as (q & Hpush & Hres).
    cbn [exec_push op_event count_refusal] in Hpush, Hres.
    assert (has_room c (MainEvent (InformationSent (info_for e id))) = true) as Er by (apply Z.ltb_lt; lia).
    rewrite Er in Hpush, Hres. injection Hpush as ->. exists q. unfold with_queue, with_names. simpl.
    rewrite Hretry. split; [done|]. by destruct Hres. }
  unfold listener_recordEntries. cbn [attemptRecordEntries]. rewrite Hfind.
  destruct (Z.eqb_spec id 0); [subst id; lia|]. cbn [attemptRecordEntries retryEntries_ app queue_ with_queue with_retry].
  split; [done|].
  pose proof (samples_holds max q _ [mkMetricSample id (entry_data e)] ts Hq) as Hs.
  unfold append_if_room in Hs.
  assert (has_room (append c (MainEvent (InformationSent (info_for e id))))
    (MainEvent (SamplesSent ts [mkMetricSample id (entry_data e)])) = false) as Er.
  { apply Z.ltb_ge. simpl. rewrite length_app. simpl. lia. }
  by rewrite Er in Hs.
Qed.

(** ** The component *)

Section Component.
Context {C R : Type} `{MetricSource C} `{MetricSource R}.

(** The names the duration metric may be added to: none yet, or itself first. *)
Definition fresh_names (names : gmap string Z) : Prop :=
  names = ∅ \/ names !! DURATION_NAME = Some DURATION_ID.

Lemma sendDurationMetricId_numbered (m m' : Metrics C R) :
  numbered (metricNameToId (metricListener m)) -> fresh_names (metricNameToId (metricListener m)) ->
  sendDurationMetricId m = Ok m' -> numbered (metricNameToId (metricListener m')).
Proof using Type.
  intros Hnum Hfresh. unfold sendDurationMetricId. destruct (mustSendDurationMetric m); [|by intros [= <-]].
  destruct (pushMetricInformation _ _) as [[] q]; [|done]. intros [= <-]. simpl.
  destruct Hfresh as [E|E].
  - rewrite E, lookup_empty. simpl. 
    pose proof (numbered_insert ∅ DURATION_NAME numbered_empty (lookup_empty _)) as Hd.
    by rewrite map_size_empty in Hd.
  - by rewrite E.
Qed.

(** When [enable] runs after the metrics thread looked for the duration metric
    in its turn, the readers name a metric first; the next turn announces the
    duration metric under a number that already belongs to another name. *)
Theorem late_duration_id_collides (m m' : Metrics C R) :
  numbered (metricNameToId (metricListener m)) -> metricNameToId (metricListener m) <> ∅ ->
  metricNameToId (metricListener m) !! DURATION_NAME = None ->
  mustSendDurationMetric m = true -> sendDurationMetricId m = Ok m' ->
  exists name, name <> DURATION_NAME /\
    metricNameToId (metricListener m') !! name = Some DURATION_ID /\
    metricNameToId (metricListener m') !! DURATION_NAME = Some DURATION_ID.
Proof using Type.
  intros Hnum Hne Hnone Hmust. unfold sendDurationMetricId. rewrite Hmust, Hnone.
  destruct (pushMetricInformation _ _) as [[] q]; [|done]. intros [= <-]. simpl.
  destruct (numbered_onto _ Hnum DURATION_ID) as [name Hname].
  { unfold DURATION_ID.
    destruct (decide (size (metricNameToId (metricListener m)) = 0%nat)) as [E|]; [|lia].
    by apply map_size_empty_inv in E. }
  exists name. assert (name <> DURATION_NAME) as Hdiff by congruence.
  split; [done|]. by rewrite lookup_insert_ne, lookup_insert_eq.
Qed.

(** While the event ring always has more events, the polling loop never ends,
    not even once the window is used up: no turn follows, no thread is scanned. *)
Theorem busy_ring_never_ends clock window endWork (m : Metrics C R) :
  (forall t (r : R) l, 0 < (source_read t r l).1.1) -> enabled_ m = true -> eventRingReader_ m <> None ->
  eliminate clock true window endWork m = Blocked.
Proof using Type.
  intros Hbusy. revert window endWork m.
  induction clock as [|[startWork endWork'] clock IH]; intros window endWork m Hon Hring; [done|]. simpl.
  rewrite Hon. destruct (eventRingReader_ m) as [r|]; [|done]. simpl.
  specialize (Hbusy (toMillis startWork) r (metricListener m)).
  destruct (source_read _ _ _) as [[events r'] l']. simpl in Hbusy.
  destruct (Z.ltb_spec 0 events); [|lia]. by apply IH.
Qed.

(** When the readers are done within the window, the turn reports the time
    they took and sleeps for exactly the rest; otherwise it does neither. *)
Theorem turn_fills_window startWork endWork clock (m : Metrics C R) :
  0 <= deltaInMs startWork endWork < 2 ^ 64 ->
  let work := deltaInMs startWork endWork in
  exists slept m', finish_window true startWork endWork clock false m = Ok (slept, m') /\
    slept = Z.max 0 (sampleRateMillis_ m - work) /\
    metricListener m' =
      (if work <? sampleRateMillis_ m then sendDuration work endWork (metricListener m) else metricListener m).
Proof using Type.
  intros Hwork. cbv zeta. unfold finish_window. rewrite u64_small by lia.
  destruct (Z.ltb_spec (deltaInMs startWork endWork) (sampleRateMillis_ m)).
  - cbn. destruct clock; simpl.
    all: eexists _, _; split; [done|]; rewrite andb_true_r.
    all: destruct (Z.ltb_spec 0 (sampleRateMillis_ m - deltaInMs startWork endWork)); [|lia].
    all: split; [lia|]; simpl; by replace (sampleRateMillis_ m - (sampleRateMillis_ m - deltaInMs startWork endWork))
      with (deltaInMs startWork endWork) by lia.
  - eexists _, _. split; [done|]. split; [lia|done].
Qed.
End Component.

(** ** Concrete runs *)

#[local] Instance endless_source : MetricSource unit := {
  source_new _ := tt;
  source_updateEntryPrefixes _ r := r;
  source_read _ r l := (1, r, l);
  source_hasEmittedConstantMetrics _ := true
}.

Definition cpu_model : MetricListenerEntry :=
  mkMetricListenerEntry "cpu.model" MetricVariability.CONSTANT MetricUnit.STRING
    (mkMetricData MetricDataType.STRING "x86" 0).

Definition empty_listener : listener := mkListener (new_CircularQueue None 0 4) ∅ [].

Lemma recordEntries_announces_before_sampling_witness :
  let l' := listener_recordEntries [cpu_model] 7 empty_listener in
  exists new, metricNameToId l' !! "cpu.model"%string = Some 1 /\ samples_entry (metricNameToId l') cpu_model new /\
    holds 4 (queue_ l') (append_if_room (Contents [InformationSent (info_for cpu_model 1)] [] []) (MainEvent (SamplesSent 7 [new]))).
Proof.
  destruct (recordEntries_announces_before_sampling 4 [cpu_model] 7 empty_listener (Contents [] [] []) (qrep_new None 0 4)
    numbered_empty ltac:(reflexivity)) as (infos & accepted & rejected & new & _ & _ & (es & Hes & ->) & Hann & [P _ S] & _ & _ & _ & Hroom & Hq).
  rewrite (Hroom ltac:(done)) in P. change (retryEntries_ empty_listener) with (@nil MetricListenerEntry) in *.
  rewrite !app_nil_r in *. apply Permutation_singleton_l in P as <-.
  destruct new as [|x [|y new]]; [inversion S| |apply Forall2_length in S; discriminate S].
  apply Forall2_cons_1 in S as [Hx _]. exists x.
  destruct (proj1 (Hann "cpu.model"%string _ (lookup_empty _)) (proj1 Hx)) as (i & Hi & _ & _).
  assert (es = [cpu_model]) as ->.
  { apply sublist_cons_r in Hes as [Hes|(k & -> & Hes)]; apply sublist_nil_r in Hes; subst; [by apply not_elem_of_nil in Hi|done]. }
  split; [|split; [exact Hx|exact Hq]]. apply (Hann "cpu.model"%string 1 (lookup_empty _)).
  exists (info_for cpu_model 1). split; [by left|done].
Defined.

(** A main ring with [n] notifications. *)
Fixpoint filled (n : nat) : CircularQueue :=
  match n with
  | O => new_CircularQueue None 0 4
  | S n => (pushNotification_value NotificationCategory.INFO_LOGGING "x" 0 (filled n)).2
  end.

Lemma filled_holds n :
  Z.of_nat n <= MainQueueSize ->
  holds 4 (filled n) (Contents (replicate n (Notified NotificationCategory.INFO_LOGGING "x" 0)) [] []).
Proof.
  induction n as [|n IH]; intros Hn; [exact (qrep_new None 0 4)|]. cbn [filled].
  rewrite replicate_S_end.
  apply (push_notification_holds 4 _ (Contents (replicate n _) [] [])); [apply IH; lia|].
  cbn [main_items]. rewrite length_replicate. lia.
Qed.

Definition nearly_full : nat := Z.to_nat (MainQueueSize - 1).

Lemma constant_lost_between_pushes_witness :
  let l' := listener_recordEntries [cpu_model] 7 (mkListener (filled nearly_full) ∅ []) in
  retryEntries_ l' = [] /\
  holds 4 (queue_ l') (Contents (replicate nearly_full (Notified NotificationCategory.INFO_LOGGING "x" 0)
    ++ [InformationSent (info_for cpu_model (Z.of_nat (size (∅ : gmap string Z)) + 1))]) [] []).
Proof.
  apply (constant_lost_between_pushes 4 cpu_model 7 (mkListener (filled nearly_full) ∅ [])
    (Contents (replicate nearly_full (Notified NotificationCategory.INFO_LOGGING "x" 0)) [] []));
    [apply filled_holds; unfold nearly_full, MainQueueSize; lia|exact numbered_empty|reflexivity|reflexivity
    |reflexivity|reflexivity|].
  cbn [main_items]. rewrite length_replicate. unfold nearly_full, MainQueueSize. lia.
Defined.

Definition named_with (q : CircularQueue) : Metrics unit unit :=
  mkMetrics true true 1000 (Some tt) (Some tt) true (mkListener q {["cpu.model" := 1]} []).
Definition named_first : Metrics unit unit := named_with (new_CircularQueue None 0 4).

Lemma named_with_sends q :
  holds 4 q (Contents [] [] []) ->
  exists q', sendDurationMetricId (named_with q) =
    Ok (mkMetrics false true 1000 (Some tt) (Some tt) true
          (mkListener q' (<[DURATION_NAME := DURATION_ID]> {["cpu.model" := 1]}) [])).
Proof.
  intros Hq. destruct (push_information_spec 4 q (Contents [] [] []) DURATION_INFO Hq) as (q' & Hpush & _).
  exists q'. cbn [exec_push op_event] in Hpush. injection Hpush as Hpush. unfold sendDurationMetricId, named_with.
  cbn [mustSendDurationMetric metricListener metricNameToId queue_ with_names].
  rewrite (lookup_singleton_ne "cpu.model") by done. cbn [queue_ with_names]. by rewrite Hpush.
Qed.

Lemma late_duration_id_collides_witness :
  exists m name, sendDurationMetricId named_first = Ok m /\ name <> DURATION_NAME /\
    metricNameToId (metricListener m) !! name = Some DURATION_ID /\
    metricNameToId (metricListener m) !! DURATION_NAME = Some DURATION_ID.
Proof.
  destruct (named_with_sends (new_CircularQueue None 0 4) (qrep_new None 0 4)) as [q Hsend]. eexists.
  destruct (late_duration_id_collides named_first _ (numbered_insert ∅ "cpu.model" numbered_empty eq_refl)
    ltac:(discriminate) eq_refl eq_refl Hsend) as (name & Hname).
  exists name. split; [exact Hsend|exact Hname].
Defined.

Lemma busy_ring_never_ends_witness :
  eliminate [(midnight, midnight); (midnight, mkTimespec 5 0)] true 100 midnight named_first = Blocked.
Proof. apply busy_ring_never_ends; [reflexivity|reflexivity|discriminate]. Defined.

Lemma turn_fills_window_witness :
  exists slept m, finish_window true midnight (mkTimespec 0 5000000) [] false named_first = Ok (slept, m) /\
    slept = 995 /\ metricListener m = sendDuration 5 (mkTimespec 0 5000000) (metricListener named_first).
Proof.
  apply (turn_fills_window midnight (mkTimespec 0 5000000) [] named_first).
  change (0 <= 5 < 2 ^ 64). lia.
Defined.
