(* ===== verification/MetricsDuty.v ===== *)
(** * The metrics thread ([Metrics::run] of [lib/metrics.cpp])

    One step of the thread is what it does between two points at which the
    processor thread may come in between: the calls of [enable] and [disable]
    wait for the mutex of the readers, and nothing else is held against them.
    [clock] is what [clock_gettime] reads in the step, [task] the directory
    [scan_threads] reads. *)
From S2P Require Import Prelude InternalQueue MetricTypes CircularQueue ProcScanner Metrics.

Inductive phase :=
| TurnBegins
(** the duration metric has its name, and is being announced *)
| Announcing (startWork : timespec)
| Reading (startWork : timespec)
| ReadersDone (startWork : timespec) (hasRemainingEvents : bool)
(** inside the window *)
| Polling (sampleRateInMs remainingWindowInMs : Z) (endWork : timespec) (hasRemainingEvents : bool)
| PollDone (sampleRateInMs remainingWindowInMs : Z) (startWork : timespec) (hasRemainingEvents : bool)
| ThreadEnded.

Record duty (C R : Type) := mkDuty {
  phase_ : phase;
  component : Metrics C R;
  scanner_ : scanner;
  running_ : bool;
  slept : Z
}.
Arguments mkDuty {C R}.
Arguments phase_ {C R}.
Arguments component {C R}.
Arguments scanner_ {C R}.
Arguments running_ {C R}.
Arguments slept {C R}.

Section Duty.
Context {C R : Type} `{MetricSource C} `{MetricSource R} `{TimerKernel}.
Implicit Types (d : duty C R) (m : Metrics C R).

Definition set_phase p d : duty C R := mkDuty p (component d) (scanner_ d) (running_ d) (slept d).
Definition set_component m d : duty C R := mkDuty (phase_ d) m (scanner_ d) (running_ d) (slept d).
Definition scan (task : option (list string)) d : duty C R :=
  mkDuty (phase_ d) (component d) (scan_threads task (scanner_ d)) (running_ d) (slept d).
Definition sleep (ms : Z) d : duty C R := mkDuty (phase_ d) (component d) (scanner_ d) (running_ d) (slept d + ms).

(** [metricNameToId.insert], which keeps a number that is there. *)
Definition name_duration m : Metrics C R :=
  let l := metricListener m in
  match metricNameToId l !! DURATION_NAME with
  | Some _ => m
  | None => with_listener (with_names (<[DURATION_NAME := DURATION_ID]> (metricNameToId l)) l) m
  end.

Definition announced m c : Metrics C R :=
  mkMetrics false (enabled_ m) (sampleRateMillis_ m) (eventRingReader_ m) (cpudataReader_ m)
    (needsToSendConstantMetrics m) (with_queue c (metricListener m)).

(** One poll of the event ring; [None] when the component has been disabled. *)
Definition poll_ring (startWorkInMs : Z) m : outcome (option (bool * Metrics C R)) :=
  if enabled_ m then
    ring ← in_bounds (eventRingReader_ m);
    let '(events, ring, l) := source_read startWorkInMs ring (metricListener m) in
    Ok (Some (0 <? events,
              mkMetrics (mustSendDurationMetric m) (enabled_ m) (sampleRateMillis_ m) (Some ring)
                (cpudataReader_ m) (needsToSendConstantMetrics m) l))
  else Ok None.

(** The end of the window: the duration, and the sleep. *)
Definition close_window (sampleRateInMs remainingWindowInMs : Z) (endWork : timespec) d : duty C R :=
  let l := sendDuration (sampleRateInMs - remainingWindowInMs) endWork (metricListener (component d)) in
  let d := set_phase TurnBegins (set_component (with_listener l (component d)) d) in
  if (0 <? remainingWindowInMs) && running_ d then sleep remainingWindowInMs d else d.

Definition thread_step (clock : timespec) (task : option (list string)) d : outcome (duty C R) :=
  match phase_ d with
  | TurnBegins =>
      if running_ d then
        if mustSendDurationMetric (component d)
        then Ok (set_phase (Announcing clock) (set_component (name_duration (component d)) d))
        else Ok (set_phase (Reading clock) (scan task d))
      else Ok (set_phase ThreadEnded d)
  | Announcing startWork =>
      match pushMetricInformation DURATION_INFO (queue_ (metricListener (component d))) with
      | (false, c) => Ok (sleep 1 (set_component (with_listener (with_queue c (metricListener (component d))) (component d)) d))
      | (true, c) => Ok (set_phase (Reading startWork) (scan task (set_component (announced (component d) c) d)))
      end
  | Reading startWork =>
      '(hasRemainingEvents, m) ← read_readers (toMillis startWork) (component d);
      Ok (set_phase (ReadersDone startWork hasRemainingEvents) (set_component m d))
  | ReadersDone startWork hasRemainingEvents =>
      let workInMs := u64 (deltaInMs startWork clock) in
      let sampleRateInMs := sampleRateMillis_ (component d) in
      Ok (set_phase (if workInMs <? sampleRateInMs
                     then Polling sampleRateInMs (sampleRateInMs - workInMs) clock hasRemainingEvents
                     else TurnBegins) d)
  | Polling sampleRateInMs remainingWindowInMs endWork hasRemainingEvents =>
      if hasRemainingEvents : bool then
        polled ← poll_ring (toMillis clock) (component d);
        match polled with
        | Some (hasRemainingEvents, m) =>
            Ok (set_phase (PollDone sampleRateInMs remainingWindowInMs clock hasRemainingEvents) (set_component m d))
        | None => Ok (close_window sampleRateInMs remainingWindowInMs endWork d)
        end
      else Ok (close_window sampleRateInMs remainingWindowInMs endWork d)
  | PollDone sampleRateInMs remainingWindowInMs startWork hasRemainingEvents =>
      let workInMs := u64 (deltaInMs startWork clock) in
      Ok (set_phase (Polling sampleRateInMs
            (if remainingWindowInMs <=? workInMs then 0 else remainingWindowInMs - workInMs) clock hasRemainingEvents) d)
  | ThreadEnded => Ok d
  end.

(** What the thread does before its loop: its listener is new, so nothing is left
    to be tried again. *)
Definition thread_enter (tid : Z) (task : option (list string)) d : duty C R :=
  let m := component d in
  set_phase TurnBegins
    (scan task (mkDuty (phase_ d) (with_listener (with_retry [] (metricListener m)) m)
      (on_metrics_thread_start tid (scanner_ d)) (running_ d) (slept d))).

(** [startThread], and the thread up to its loop. *)
Definition thread_start (tid : Z) (task : option (list string)) d : duty C R :=
  thread_enter tid task (mkDuty (phase_ d) (component d) (scanner_ d) true (slept d)).

(** The calls of the processor thread. *)
Inductive request := Enable (disabledPrefixes : list string) | Disable | SetSampleRate (sampleRateMillis : Z).

Definition serve_request (r : request) d : outcome (duty C R) :=
  match r with
  | Enable disabledPrefixes => m ← enable disabledPrefixes (component d); Ok (set_component m d)
  | Disable => m ← disable (component d); Ok (set_component m d)
  | SetSampleRate rate => Ok (set_component (setSampleRate rate (component d)) d)
  end.

(** The exit handler, and the child of a fork, whose thread starts anew. *)
Definition onMetricsExit d : duty C R := mkDuty (phase_ d) (component d) (scanner_ d) false (slept d).

Definition fork (tid : Z) (task : option (list string)) d : duty C R :=
  thread_start tid task (mkDuty (phase_ d) (on_fork (component d)) (reset_scan_threads (scanner_ d)) (running_ d) (slept d)).
End Duty.
