(* ===== verification/MetricsDutySpec.v ===== *)
(** * The metrics thread among the calls of the processor thread *)
From S2P Require Import Prelude InternalQueue InternalQueueSpec MetricTypes CircularQueue CircularQueueSpec ProcScanner.
From S2P Require Import Metrics MetricsSpec MetricsDuty.

Section Spec.
Context {C R : Type} `{MetricSource C} `{MetricSource R} `{TimerKernel}.
Implicit Types (d : duty C R) (m : Metrics C R).

(** ** No reader is used that does not exist *)

Definition readers_exist m : Prop :=
  if enabled_ m then is_Some (cpudataReader_ m) /\ is_Some (eventRingReader_ m)
  else cpudataReader_ m = None /\ eventRingReader_ m = None.

(** A call that returns, with the readers as they should be. *)
Definition returns_sound (o : outcome (duty C R)) : Prop := exists d', o = Ok d' /\ readers_exist (component d').

Lemma read_readers_sound t m :
  readers_exist m -> exists b m', read_readers t m = Ok (b, m') /\ readers_exist m'.
Proof using Type.
  unfold readers_exist, read_readers. destruct (enabled_ m) eqn:E; [|by intros Hm; exists false, m; rewrite E].
  intros [[cpu Ec] [ring Er]]. rewrite Ec, Er. cbn [in_bounds mbind outcome_bind].
  destruct (source_read t cpu (metricListener m)) as [[n1 cpu'] l1]. cbn [in_bounds mbind outcome_bind].
  destruct (source_read t ring l1) as [[n2 ring'] l2].
  destruct (if needsToSendConstantMetrics m then _ else _) as [needs l3]. eexists _, _. split; [done|]. by split; eexists.
Qed.

Lemma poll_ring_sound t m :
  readers_exist m -> exists polled, poll_ring t m = Ok polled /\
    match polled with Some (_, m') => readers_exist m' | None => enabled_ m = false end.
Proof using Type.
  unfold readers_exist, poll_ring. destruct (enabled_ m) eqn:E; [|by intros Hm; exists None].
  intros [[cpu Ec] [ring Er]]. rewrite Er. cbn [in_bounds mbind outcome_bind].
  destruct (source_read t ring (metricListener m)) as [[n ring'] l]. eexists. split; [done|].
  cbn. rewrite Ec. by split; eexists.
Qed.

Lemma enable_sound prefixes m : readers_exist m -> exists m', enable prefixes m = Ok m' /\ readers_exist m'.
Proof using Type.
  unfold readers_exist, enable. destruct (enabled_ m); cbn [negb].
  - intros [[cpu ->] [ring ->]]. cbn. eexists. split; [done|]. by split; eexists.
  - intros _. eexists. split; [done|]. by split; eexists.
Qed.

Lemma disable_sound m : readers_exist m -> exists m', disable m = Ok m' /\ readers_exist m'.
Proof using Type.
  unfold readers_exist, disable. destruct (enabled_ m).
  - intros [_ [ring ->]]. cbn. by eexists.
  - intros [Ec Er]. by eexists.
Qed.

Lemma serve_request_sound r d : readers_exist (component d) -> returns_sound (serve_request r d).
Proof using Type.
  intros Hd. destruct r as [prefixes| |rate]; cbn [serve_request].
  - destruct (enable_sound prefixes _ Hd) as (m & -> & Hm). by eexists.
  - destruct (disable_sound _ Hd) as (m & -> & Hm). by eexists.
  - by eexists.
Qed.

Lemma close_window_sound rate remaining endWork d :
  readers_exist (component d) -> readers_exist (component (close_window rate remaining endWork d)).
Proof using Type. intros Hd. unfold close_window. by case_match. Qed.

Lemma thread_step_sound clock task d : readers_exist (component d) -> returns_sound (thread_step clock task d).
Proof using Type.
  intros Hd. unfold thread_step. destruct (phase_ d) as [|s|s|s b|r w e b|r w s b|].
  - destruct (running_ d); [|by eexists]. destruct (mustSendDurationMetric _); [|by eexists].
    eexists. split; [done|]. cbn. unfold name_duration. by case_match.
  - destruct (pushMetricInformation _ _) as [[] c]; by eexists.
  - destruct (read_readers_sound (toMillis s) _ Hd) as (b & m & -> & Hm). by eexists.
  - by eexists.
  - destruct b; [|eexists; split; [done|by apply close_window_sound]].
    destruct (poll_ring_sound (toMillis clock) _ Hd) as (polled & -> & Hm). cbn [mbind outcome_bind].
    destruct polled as [[b m]|]; [by eexists|]. eexists. split; [done|by apply close_window_sound].
  - by eexists.
  - by eexists.
Qed.

(** Whether the component is enabled is for the processor thread to say. *)
Lemma thread_step_enabled clock task d d' :
  thread_step clock task d = Ok d' -> Metrics.enabled_ (component d') = Metrics.enabled_ (component d).
Proof using Type.
  unfold thread_step, close_window. intros E. destruct (phase_ d) as [|s|s|s b|r w e b|r w s b|].
  - destruct (running_ d); [destruct (mustSendDurationMetric _)|]; injection E as <-; try done.
    cbn. unfold name_duration. by case_match.
  - by destruct (pushMetricInformation _ _) as [[] c]; injection E as <-.
  - apply bind_ok in E as ([b m] & E & [= <-]). cbn [component set_phase set_component]. unfold read_readers in E.
    destruct (Metrics.enabled_ (component d)) eqn:Ee; [|by injection E as _ <-].
    apply bind_ok in E as (cpu & _ & E). destruct (source_read _ cpu _) as [[n1 c1] l1].
    apply bind_ok in E as (ring & _ & E). destruct (source_read _ ring _) as [[n2 r2] l2].
    destruct (if needsToSendConstantMetrics _ then _ else _) as [needs l3]. by injection E as _ <-.
  - by injection E as <-.
  - destruct b; [|injection E as <-; by case_match]. apply bind_ok in E as (polled & E1 & E).
    unfold poll_ring in E1. destruct (Metrics.enabled_ (component d)) eqn:Ee.
    + apply bind_ok in E1 as (ring & _ & E1). destruct (source_read _ ring _) as [[n r2] l2]. injection E1 as <-. by injection E as <-.
    + injection E1 as <-. injection E as <-. by case_match.
  - by injection E as <-.
  - by injection E as <-.
Qed.

(** The thread, the processor thread, the exit handler and forks take turns in
    any order. *)
Inductive duty_step d : duty C R -> Prop :=
| duty_thread clock task d' : thread_step clock task d = Ok d' -> duty_step d d'
| duty_request r d' : serve_request r d = Ok d' -> duty_step d d'
| duty_exit : duty_step d (onMetricsExit d)
| duty_fork tid task : duty_step d (fork tid task d).

(** However the calls of the processor thread fall between the steps of the
    metrics thread, every step and every call returns: none of them uses a
    reader that [disable] has deleted, or that [enable] has not made yet. *)
Theorem readers_never_dangle queue tid task k d :
  let start := thread_start tid task (mkDuty TurnBegins (new_Metrics queue) (new_scanner k) false 0) in
  rtc duty_step start d ->
  (forall clock task, exists d', thread_step clock task d = Ok d') /\ (forall r, exists d', serve_request r d = Ok d').
Proof using Type.
  intros start Hsteps. assert (readers_exist (component start)) as Hstart by done.
  assert (readers_exist (component d)) as Hd.
  { induction Hsteps as [|d1 d2 d3 Hstep _ IH]; [done|]. apply IH.
    destruct Hstep as [clock task' d' E|r d' E| |tid' task']; [| |done|done].
    - destruct (thread_step_sound clock task' d1 Hstart) as (d'' & E' & Hd''). rewrite E in E'. by injection E' as <-.
    - destruct (serve_request_sound r d1 Hstart) as (d'' & E' & Hd''). rewrite E in E'. by injection E' as <-. }
  split.
  - intros clock task'. destruct (thread_step_sound clock task' d Hd) as (d' & E & _). by exists d'.
  - intros r. destruct (serve_request_sound r d Hd) as (d' & E & _). by exists d'.
Qed.

(** ** A turn that nothing comes between *)

Fixpoint run_thread (clocks : list timespec) (task : option (list string)) d : outcome (duty C R) :=
  match clocks with
  | [] => Ok d
  | clock :: clocks => d ← thread_step clock task d; run_thread clocks task d
  end.

Lemma run_thread_app c1 c2 task d d' :
  run_thread c1 task d = Ok d' -> run_thread (c1 ++ c2) task d = run_thread c2 task d'.
Proof using Type.
  revert d. induction c1 as [|c c1 IH]; intros d E; simpl in *; [by injection E as ->|].
  apply bind_ok in E as (d1 & E1 & E). rewrite E1. cbn [mbind outcome_bind]. by apply IH.
Qed.

Lemma run_thread_cons c cs task d d1 :
  thread_step c task d = Ok d1 -> run_thread (c :: cs) task d = run_thread cs task d1.
Proof using Type. intros E. simpl. by rewrite E. Qed.

(** The polling of the window. *)
Lemma eliminate_steps clock task rate : forall has remaining endWork d remaining' endWork' m',
  phase_ d = Polling rate remaining endWork has ->
  eliminate clock has remaining endWork (component d) = Ok (remaining', endWork', m') ->
  exists clocks, run_thread clocks task d = Ok (close_window rate remaining' endWork' (set_component m' d)).
Proof using Type.
  induction clock as [|[s e] clock IH]; intros has remaining endWork d remaining' endWork' m' Hp E.
  - destruct has; simpl in E; [done|]. injection E as <- <- <-. exists [endWork].
    simpl. unfold thread_step. rewrite Hp. by destruct d.
  - destruct has; simpl in E.
    2: { injection E as <- <- <-. exists [endWork]. simpl. unfold thread_step. rewrite Hp. by destruct d. }
    destruct (enabled_ (component d)) eqn:Een.
    2: { injection E as <- <- <-. exists [s]. simpl. unfold thread_step. rewrite Hp. unfold poll_ring. rewrite Een.
         by destruct d. }
    apply bind_ok in E as (ring & Er & E). destruct (source_read (toMillis s) ring (metricListener (component d))) as [[n ring'] l] eqn:Es.
    set (m1 := mkMetrics _ _ _ _ _ _ _) in E.
    set (d1 := set_phase (PollDone rate remaining s (0 <? n)) (set_component m1 d)).
    assert (thread_step s task d = Ok d1) as E1.
    { unfold thread_step. rewrite Hp. unfold poll_ring. rewrite Een, Er. cbn [mbind outcome_bind]. by rewrite Es. }
    set (w := u64 (deltaInMs s e)) in E.
    set (d2 := set_phase (Polling rate (if remaining <=? w then 0 else remaining - w) e (0 <? n)) d1).
    assert (thread_step e task d1 = Ok d2) as E2 by done.
    destruct (IH (0 <? n) _ e d2 remaining' endWork' m' eq_refl E) as (clocks & Hrun).
    exists (s :: e :: clocks). rewrite (run_thread_cons _ _ _ _ _ E1), (run_thread_cons _ _ _ _ _ E2), Hrun.
    by destruct d.
Qed.

Lemma finish_steps clock task startWork endWork has d slept' m' :
  phase_ d = ReadersDone startWork has ->
  finish_window (running_ d) startWork endWork clock has (component d) = Ok (slept', m') ->
  exists clocks, run_thread (endWork :: clocks) task d =
    Ok (sleep slept' (set_phase TurnBegins (set_component m' d))).
Proof using Type.
  intros Hp E. unfold finish_window in E.
  set (w := u64 (deltaInMs startWork endWork)) in *. set (rate := sampleRateMillis_ (component d)) in *.
  destruct (w <? rate) eqn:Ew.
  - apply bind_ok in E as ([[remaining e'] m1] & E1 & [= <- <-]).
    set (d1 := set_phase (Polling rate (rate - w) endWork has) d).
    destruct (eliminate_steps clock task rate has (rate - w) endWork d1 remaining e' m1 eq_refl E1) as (clocks & Hrun).
    exists clocks. assert (thread_step endWork task d = Ok d1) as Es.
    { unfold thread_step. rewrite Hp. fold w rate. by rewrite Ew. }
    rewrite (run_thread_cons _ _ _ _ _ Es), Hrun. f_equal. unfold close_window. cbn.
    destruct ((0 <? remaining) && running_ d); destruct d; unfold sleep; cbn; [done|]. by rewrite Z.add_0_r.
  - injection E as <- <-. exists []. simpl. unfold thread_step. rewrite Hp. fold w rate. rewrite Ew. cbn.
    destruct d; unfold sleep; cbn. by rewrite Z.add_0_r.
Qed.

Lemma announce_steps startWork task d m1 :
  phase_ d = TurnBegins -> running_ d = true -> sendDurationMetricId (component d) = Ok m1 ->
  exists clocks, run_thread (startWork :: clocks) task d =
    Ok (set_phase (Reading startWork) (scan task (set_component m1 d))).
Proof using Type.
  intros Hp Hr E. unfold sendDurationMetricId in E. destruct (mustSendDurationMetric (component d)) eqn:Em.
  - set (d1 := set_phase (Announcing startWork) (set_component (name_duration (component d)) d)).
    assert (thread_step startWork task d = Ok d1) as E1 by (unfold thread_step; by rewrite Hp, Hr, Em).
    exists [startWork]. rewrite (run_thread_cons _ _ _ _ _ E1). simpl. unfold thread_step. cbn [phase_ d1 set_phase].
    assert (queue_ (metricListener (component d1)) = queue_ (metricListener (component d))) as Eq
      by (unfold d1, name_duration; cbn; by destruct (metricNameToId _ !! DURATION_NAME)).
    rewrite Eq.
    assert (queue_ (match metricNameToId (metricListener (component d)) !! DURATION_NAME with
      | Some _ => metricListener (component d)
      | None => with_names (<[DURATION_NAME := DURATION_ID]> (metricNameToId (metricListener (component d)))) (metricListener (component d))
      end) = queue_ (metricListener (component d))) as Eq2
      by (by destruct (metricNameToId _ !! DURATION_NAME)).
    rewrite Eq2 in E. destruct (pushMetricInformation _ _) as [[] c]; [|done]. injection E as <-.
    cbn [mbind outcome_bind]. f_equal. unfold announced, d1, name_duration. cbn.
    by destruct (metricNameToId _ !! DURATION_NAME).
  - injection E as <-. exists []. simpl. unfold thread_step. rewrite Hp, Hr, Em. cbn. by destruct d.
Qed.

(** A turn nothing comes between announces the duration metric if that is
    due, scans the threads once, reads both readers, and then polls, reports and
    sleeps as [finish_window] says. *)
Theorem uninterrupted_turn startWork endWork clock task d m1 has m2 slept' m3 :
  phase_ d = TurnBegins -> running_ d = true ->
  sendDurationMetricId (component d) = Ok m1 ->
  read_readers (toMillis startWork) m1 = Ok (has, m2) ->
  finish_window true startWork endWork clock has m2 = Ok (slept', m3) ->
  exists announcing polling,
    run_thread (startWork :: announcing ++ startWork :: endWork :: polling) task d =
      Ok (mkDuty TurnBegins m3 (scan_threads task (scanner_ d)) true (slept d + slept')).
Proof using Type.
  intros Hp Hr E1 E2 E3. destruct (announce_steps startWork task d m1 Hp Hr E1) as (announcing & Ha).
  set (d1 := set_phase (Reading startWork) (scan task (set_component m1 d))) in *.
  set (d2 := set_phase (ReadersDone startWork has) (set_component m2 d1)).
  assert (thread_step startWork task d1 = Ok d2) as Es by (unfold thread_step; cbn [phase_ d1 set_phase component scan set_component]; by rewrite E2).
  destruct (finish_steps clock task startWork endWork has d2 slept' m3 eq_refl) as (polling & Hf).
  { change (running_ d2) with (running_ d). rewrite Hr. exact E3. }
  exists announcing, polling. rewrite app_comm_cons, (run_thread_app _ _ _ _ _ Ha), (run_thread_cons _ _ _ _ _ Es), Hf.
  unfold d2, d1, sleep, scan, set_phase, set_component. cbn [phase_ component scanner_ running_ slept]. by rewrite Hr.
Qed.
End Spec.

(** ** A thread with readers that find nothing *)

#[local] Instance empty_source : MetricSource unit := {
  source_new _ := tt;
  source_updateEntryPrefixes _ r := r;
  source_read _ r l := (0, r, l);
  source_hasEmittedConstantMetrics _ := false
}.
#[local] Instance no_timers : TimerKernel := { timer_create _ _ := None; timer_settime_accepts _ := true }.

Definition started : duty unit unit :=
  thread_start 7 None (mkDuty TurnBegins (new_Metrics (new_CircularQueue None 0 4)) (new_scanner ∅) false 0).

Lemma readers_never_dangle_witness :
  exists d, serve_request (Enable []) started = Ok d /\
    (forall clock task, exists d', thread_step clock task d = Ok d') /\ (forall r, exists d', serve_request r d = Ok d').
Proof.
  destruct (serve_request (Enable []) started) as [d| | |] eqn:E; [|discriminate..].
  exists d. split; [reflexivity|].
  apply (readers_never_dangle (new_CircularQueue None 0 4) 7 None ∅ d). apply rtc_once. exact (duty_request started (Enable []) d E).
Defined.

Lemma uninterrupted_turn_witness :
  exists announcing polling m,
    run_thread (midnight :: announcing ++ midnight :: mkTimespec 0 5000000 :: polling) None started =
      Ok (mkDuty TurnBegins m (scan_threads None (scanner_ started)) true 995).
Proof.
  destruct (uninterrupted_turn midnight (mkTimespec 0 5000000) [] None started (component started) false (component started)
    995 (with_listener (sendDuration 5 (mkTimespec 0 5000000) (metricListener (component started))) (component started))
    eq_refl eq_refl eq_refl eq_refl) as (announcing & polling & E).
  - reflexivity.
  - exists announcing, polling. eexists. exact E.
Defined.
