(* ===== verification/Options.v ===== *)
(** * Configuration ([lib/lib_opsian.cpp], [ConfigurationOptions] of [lib/globals.h])

    Parsing the [OPSIAN_OPTS] string and substituting the process name, the
    program name and the process number in some of the options. *)
From S2P Require Import Prelude MetricTypes CString.
From Stdlib Require Import Ascii.
From stdpp Require Import pretty.
#[local] Open Scope Z_scope.

Record ConfigurationOptions := mkOptions {
  logFilePath : string;
  host : string;
  port : string;
  maxFramesToCapture : Z;
  apiKey : string;
  agentId : string;
  debugLogPath : string;
  errorLogPath : string;
  applicationVersion : string;
  customCertificateFile : string;
  onPremHost : bool;
  logCorruption : bool;
  prometheusEnabled : bool;
  prometheusHost : string;
  prometheusPorts : list Z;
  prometheusSegment : string;
  prometheusProcessSampleRate : Z;
  prometheusElapsedSampleRate : Z
}.

Definition DEFAULT_HOST : string := "collector.opsian.com".
Definition DEFAULT_PORT : string := "50052".
Definition DEFAULT_PROMETHEUS_PROCESS_SAMPLE_RATE : Z := 100.
Definition DEFAULT_PROMETHEUS_ELAPSED_SAMPLE_RATE : Z := 100.

(** [ON_PREM_HOST_DEFAULT] comes from the build. *)
Definition default_options (ON_PREM_HOST_DEFAULT : string) : ConfigurationOptions :=
  mkOptions EmptyString DEFAULT_HOST DEFAULT_PORT MAX_FRAMES EmptyString EmptyString EmptyString EmptyString
    EmptyString EmptyString (String.eqb ON_PREM_HOST_DEFAULT "Y") false false EmptyString [] EmptyString
    DEFAULT_PROMETHEUS_PROCESS_SAMPLE_RATE DEFAULT_PROMETHEUS_ELAPSED_SAMPLE_RATE.

(** The options the parser tells apart, in the order it tests their names. *)
Inductive option_name :=
| OLogPath | OMaxFrames | OPort | OHost | OApiKey | OAgentId | ODebugLogPath | OErrorLogPath
| OApplicationVersion | OCustomCertificateFile | OOnPremHost | OPrometheusPort | OPrometheusHost
| OPrometheusSegment | OPrometheusProcessSampleRate | OPrometheusElapsedSampleRate | OLogCorruption.

Definition option_names : list (string * option_name) :=
  [("__logPath", OLogPath); ("__maxFrames", OMaxFrames); ("__port", OPort); ("host", OHost); ("apiKey", OApiKey);
   ("agentId", OAgentId); ("debugLogPath", ODebugLogPath); ("errorLogPath", OErrorLogPath);
   ("applicationVersion", OApplicationVersion); ("customCertificateFile", OCustomCertificateFile);
   ("onPremHost", OOnPremHost); ("prometheusPort", OPrometheusPort); ("prometheusHost", OPrometheusHost);
   ("prometheusSegment", OPrometheusSegment); ("prometheusProcessSampleRate", OPrometheusProcessSampleRate);
   ("prometheusElapsedSampleRate", OPrometheusElapsedSampleRate); ("__logCorruption", OLogCorruption)]%string.

Fixpoint lookup_name (key : string) (names : list (string * option_name)) : option option_name :=
  match names with
  | [] => None
  | (n, o) :: names => if strstr_at_start key n then Some o else lookup_name key names
  end.

(** [assign_range (value, next, to)]: [len] is [next - value], [None] for a null
    [next].  A negative length wraps to a size that [std::string::assign] rejects. *)
Definition assign_range (value : string) (len : option Z) : outcome string :=
  match len with
  | None => Ok value
  | Some n => if n <? 0 then Throws "std::length_error" else Ok (take_string (Z.to_nat n) value)
  end.

Definition yes (value : string) : bool :=
  match value with String c _ => Ascii.eqb c "y" || Ascii.eqb c "Y" | EmptyString => false end.

Definition set_text (o : option_name) (v : string) (c : ConfigurationOptions) : ConfigurationOptions :=
  let f f1 f2 f3 f5 f6 f7 f8 f9 f10 f14 f16 :=
    mkOptions f1 f2 f3 (maxFramesToCapture c) f5 f6 f7 f8 f9 f10 (onPremHost c) (logCorruption c)
      (prometheusEnabled c) f14 (prometheusPorts c) f16 (prometheusProcessSampleRate c)
      (prometheusElapsedSampleRate c) in
  let or (o' : bool) old := if o' then v else old in
  f (or (match o with OLogPath => true | _ => false end) (logFilePath c))
    (or (match o with OHost => true | _ => false end) (host c))
    (or (match o with OPort => true | _ => false end) (port c))
    (or (match o with OApiKey => true | _ => false end) (apiKey c))
    (or (match o with OAgentId => true | _ => false end) (agentId c))
    (or (match o with ODebugLogPath => true | _ => false end) (debugLogPath c))
    (or (match o with OErrorLogPath => true | _ => false end) (errorLogPath c))
    (or (match o with OApplicationVersion => true | _ => false end) (applicationVersion c))
    (or (match o with OCustomCertificateFile => true | _ => false end) (customCertificateFile c))
    (or (match o with OPrometheusHost => true | _ => false end) (prometheusHost c))
    (or (match o with OPrometheusSegment => true | _ => false end) (prometheusSegment c)).

Definition set_others (maxFrames : Z) (onPrem corruption enabled : bool) (ports : list Z) (process elapsed : Z)
    (c : ConfigurationOptions) : ConfigurationOptions :=
  mkOptions (logFilePath c) (host c) (port c) maxFrames (apiKey c) (agentId c) (debugLogPath c) (errorLogPath c)
    (applicationVersion c) (customCertificateFile c) onPrem corruption enabled (prometheusHost c) ports
    (prometheusSegment c) process elapsed.

(** The branches of the parser, for the text after the [=] and the distance to the
    next comma. *)
Definition set_option (o : option_name) (value : string) (len : option Z) (c : ConfigurationOptions)
    : outcome ConfigurationOptions :=
  match o with
  | OMaxFrames =>
      Ok (set_others (atoi value) (onPremHost c) (logCorruption c) (prometheusEnabled c) (prometheusPorts c)
            (prometheusProcessSampleRate c) (prometheusElapsedSampleRate c) c)
  | OOnPremHost =>
      Ok (set_others (maxFramesToCapture c) (yes value) (logCorruption c) (prometheusEnabled c) (prometheusPorts c)
            (prometheusProcessSampleRate c) (prometheusElapsedSampleRate c) c)
  | OLogCorruption =>
      Ok (set_others (maxFramesToCapture c) (onPremHost c) (yes value) (prometheusEnabled c) (prometheusPorts c)
            (prometheusProcessSampleRate c) (prometheusElapsedSampleRate c) c)
  | OPrometheusPort =>
      allPorts ← assign_range value len;
      Ok (set_others (maxFramesToCapture c) (onPremHost c) (logCorruption c) (prometheusEnabled c)
            (prometheusPorts c ++ (atoi <$> getlines "|" EmptyString allPorts))
            (prometheusProcessSampleRate c) (prometheusElapsedSampleRate c) c)
  | OPrometheusProcessSampleRate =>
      Ok (set_others (maxFramesToCapture c) (onPremHost c) (logCorruption c) (prometheusEnabled c) (prometheusPorts c)
            (atoi value) (prometheusElapsedSampleRate c) c)
  | OPrometheusElapsedSampleRate =>
      Ok (set_others (maxFramesToCapture c) (onPremHost c) (logCorruption c) (prometheusEnabled c) (prometheusPorts c)
            (prometheusProcessSampleRate c) (atoi value) c)
  | _ => v ← assign_range value len; Ok (set_text o v c)
  end.

(** One turn of the loop, at [key].  The two warnings, for a key without a value
    and for an unknown name, are undefined: [logError] formats their [%s] with its
    [va_list] in the place of the text ([Startup.sprintf_va_list]). *)
Definition parse_key (key : string) (next : option nat) (c : ConfigurationOptions) : outcome ConfigurationOptions :=
  match strchr key "=" with
  | None => Undefined
  | Some eq_ =>
      let value := skip (S eq_) key in
      let len := (fun n => Z.of_nat n - Z.of_nat (S eq_)) <$> next in
      match lookup_name key option_names with
      | None => Undefined
      | Some o => set_option o value len c
      end
  end.

Fixpoint parse_loop (fuel : nat) (key : string) (c : ConfigurationOptions) : outcome ConfigurationOptions :=
  match fuel with
  | O => Blocked
  | S fuel =>
      let next := strchr key "," in
      c ← parse_key key next c;
      match next with
      | None => Ok c
      | Some n => parse_loop fuel (skip (S n) key) c
      end
  end.

(** Every turn but the last goes past a comma. *)
Definition parseArguments (options : string) (c : ConfigurationOptions) : outcome ConfigurationOptions :=
  parse_loop (S (String.length options)) options c.

(** ** Substitutions *)

Fixpoint substitute_loop (fuel : nat) (value search by_ : string) (pos : nat) : outcome string :=
  match fuel with
  | O => Blocked
  | S fuel =>
      match CString.find value search pos with
      | None => Ok value
      | Some pos =>
          substitute_loop fuel (CString.replace value pos (String.length search) by_) search by_ (pos + String.length by_)
      end
  end.

(** Every turn but the last uses up an occurrence of [search]. *)
Definition substitute_option (value search by_ : string) : outcome string :=
  substitute_loop (S (String.length value)) value search by_ 0.

Definition substitutePath (name substitution_variable : string) (c : ConfigurationOptions)
    : outcome ConfigurationOptions :=
  substitution_value ← substitute_option (after_last "/" name) "." "_";
  let sub value := substitute_option value substitution_variable substitution_value in
  l ← sub (logFilePath c);
  e ← sub (errorLogPath c);
  d ← sub (debugLogPath c);
  f ← sub (customCertificateFile c);
  a ← sub (agentId c);
  s ← sub (prometheusSegment c);
  Ok (mkOptions l (host c) (port c) (maxFramesToCapture c) (apiKey c) a d e (applicationVersion c) f
        (onPremHost c) (logCorruption c) (prometheusEnabled c) (prometheusHost c) (prometheusPorts c) s
        (prometheusProcessSampleRate c) (prometheusElapsedSampleRate c)).

(** What the runtime and the system provide. *)
Record process := mkProcess { OCAML_EXE_NAME : string; OCAML_ARGV0 : string; getpid : Z }.

Definition substitute_options (p : process) (c : ConfigurationOptions) : outcome ConfigurationOptions :=
  c ← substitutePath (OCAML_EXE_NAME p) "£{EXE_NAME}" c;
  c ← substitutePath (OCAML_ARGV0 p) "£{ARGV_0}" c;
  substitutePath (pretty (getpid p)) "£{PID}" c.

Definition setup_configuration (p : process) (OPTIONS : string) (c : ConfigurationOptions)
    : outcome ConfigurationOptions :=
  c ← parseArguments OPTIONS c;
  c ← substitute_options p c;
  Ok (set_others (maxFramesToCapture c) (onPremHost c) (logCorruption c)
        (match prometheusPorts c with [] => false | _ => true end) (prometheusPorts c)
        (prometheusProcessSampleRate c) (prometheusElapsedSampleRate c) c).
