(* ===== verification/OptionsSpec.v ===== *)
(** * Parsing terminates and gives each option its meaning; substitution replaces
    every occurrence *)
From S2P Require Import Prelude MetricTypes CString Options.
From Stdlib Require Import Ascii.
#[local] Open Scope Z_scope.

(** ** Strings *)

Lemma string_app_nil b : EmptyString +:+ b = b.
Proof. done. Qed.
Lemma string_app_cons x a b : String x a +:+ b = String x (a +:+ b).
Proof. done. Qed.
Ltac sapp := rewrite ?string_app_nil, ?string_app_cons in *.

Lemma app_assoc_string (a b c : string) : (a +:+ b) +:+ c = a +:+ (b +:+ c).
Proof. induction a as [|x a IH]; sapp; [done|]. by rewrite IH. Qed.

Lemma length_app_string (a b : string) : String.length (a +:+ b) = (String.length a + String.length b)%nat.
Proof. induction a as [|x a IH]; sapp; simpl; [done|]. by rewrite IH. Qed.

Lemma strchr_app s c r : strchr s c = None -> strchr (s +:+ String c r) c = Some (String.length s).
Proof.
  induction s as [|x s IH]; sapp; simpl; [by rewrite Ascii.eqb_refl|].
  destruct (Ascii.eqb x c); [done|]. destruct (strchr s c); [done|]. intros _. by rewrite IH.
Qed.

Lemma strchr_app_None s c r : strchr s c = None -> strchr r c = None -> strchr (s +:+ r) c = None.
Proof.
  induction s as [|x s IH]; sapp; simpl; [done|]. destruct (Ascii.eqb x c); [done|].
  destruct (strchr s c); [done|]. intros _ Hr. by rewrite IH.
Qed.

Lemma skip_app s c r : skip (S (String.length s)) (s +:+ String c r) = r.
Proof. induction s as [|x s IH]; sapp; simpl; [by destruct r|exact IH]. Qed.

Lemma take_string_app s r : take_string (String.length s) (s +:+ r) = s.
Proof. induction s as [|x s IH]; sapp; simpl; [by destruct r|]. by rewrite IH. Qed.

Lemma strchr_skip s c n : strchr s c = Some n -> (String.length (skip (S n) s) < String.length s)%nat.
Proof.
  revert n. induction s as [|x s IH]; intros n; cbn [strchr]; [done|].
  destruct (Ascii.eqb x c); [intros [= <-]; cbn [skip String.length]; destruct s; simpl; lia|].
  destruct (strchr s c) as [m|]; [|done]. intros [= <-]. specialize (IH m eq_refl).
  cbn [skip String.length] in *. lia.
Qed.

Lemma prefix_stops n k c r : strchr n c = None -> String.prefix n (k +:+ String c r) = String.prefix n k.
Proof.
  revert k. induction n as [|x n IH]; intros k; [intros _; by destruct k|]. cbn [strchr].
  destruct (Ascii.eqb_spec x c) as [|Hne]; [done|]. destruct (strchr n c) eqn:E; [done|]. intros _.
  destruct k as [|y k]; sapp; cbn [String.prefix]; destruct (Ascii.ascii_dec x _); try congruence; by apply IH.
Qed.

Lemma digits_stop base acc s r :
  digit base "," = None -> digits base acc (s +:+ String "," r) = digits base acc s.
Proof.
  intros Hc. revert acc. induction s as [|x s IH]; intros acc; sapp; cbn [digits]; [by rewrite Hc|].
  destruct (digit base x); [apply IH|done].
Qed.

Lemma magnitude_stop s r : magnitude 10 (s +:+ String "," r) = magnitude 10 s.
Proof. unfold magnitude. simpl. by apply digits_stop. Qed.

Lemma strtol_stop s r : strtol 10 (s +:+ String "," r) = strtol 10 s.
Proof.
  induction s as [|x s IH]; sapp; [done|]. cbn [strtol]. rewrite IH.
  rewrite <- string_app_cons, !magnitude_stop. done.
Qed.

Lemma atoi_stop s r : atoi (s +:+ String "," r) = atoi s.
Proof. unfold atoi. by rewrite strtol_stop. Qed.

Lemma yes_stop s r : yes (s +:+ String "," r) = yes s.
Proof. by destruct s. Qed.

(** ** Parsing *)

(** The value read to the end of its string: what an option means by itself. *)
Definition apply_option (kv : string * string) (c : ConfigurationOptions) : outcome ConfigurationOptions :=
  match lookup_name kv.1 option_names with
  | None => Undefined
  | Some o => set_option o kv.2 None c
  end.

Fixpoint apply_options (opts : list (string * string)) (c : ConfigurationOptions) : outcome ConfigurationOptions :=
  match opts with
  | [] => Ok c
  | kv :: opts => c ← apply_option kv c; apply_options opts c
  end.

Definition render_option (kv : string * string) : string := kv.1 +:+ String "=" kv.2.

Fixpoint render (kv : string * string) (opts : list (string * string)) : string :=
  match opts with
  | [] => render_option kv
  | kv' :: opts => render_option kv +:+ String "," (render kv' opts)
  end.

(** No separator inside a name or a value. *)
Definition clean (kv : string * string) : Prop :=
  strchr kv.1 "=" = None /\ strchr kv.1 "," = None /\ strchr kv.2 "," = None.

Lemma set_option_stop o v r c :
  set_option o (v +:+ String "," r) (Some (Z.of_nat (String.length v))) c = set_option o v None c.
Proof.
  assert (assign_range (v +:+ String "," r) (Some (Z.of_nat (String.length v))) = assign_range v None) as E.
  { unfold assign_range. destruct (Z.ltb_spec (Z.of_nat (String.length v)) 0); [lia|].
    by rewrite Nat2Z.id, take_string_app. }
  unfold set_option. by destruct o; rewrite ?E, ?atoi_stop, ?yes_stop.
Qed.

Lemma lookup_name_stop k r names :
  Forall (fun n : string * option_name => strchr n.1 "=" = None) names ->
  lookup_name (k +:+ String "=" r) names = lookup_name k names.
Proof.
  induction 1 as [|[n o] names Hn _ IH]; cbn [lookup_name]; [done|].
  unfold strstr_at_start. rewrite prefix_stops by done. by rewrite IH.
Qed.

Lemma option_names_clean : Forall (fun n : string * option_name => strchr n.1 "=" = None) option_names.
Proof. repeat constructor. Qed.

Lemma parse_key_last kv c : clean kv -> parse_key (render_option kv) None c = apply_option kv c.
Proof.
  destruct kv as [k v]. intros (Heq & _ & _). unfold parse_key, render_option, apply_option. simpl fst. simpl snd.
  rewrite strchr_app by done. rewrite lookup_name_stop by apply option_names_clean. by rewrite skip_app.
Qed.

Lemma parse_key_more kv r c :
  clean kv ->
  parse_key (render_option kv +:+ String "," r) (Some (String.length (render_option kv))) c = apply_option kv c.
Proof.
  destruct kv as [k v]. intros (Heq & _ & _). unfold parse_key, render_option, apply_option. simpl fst. simpl snd.
  rewrite app_assoc_string, string_app_cons.
  rewrite strchr_app by done. rewrite lookup_name_stop by apply option_names_clean. rewrite skip_app.
  destruct (lookup_name k option_names) as [o|]; [|done]. simpl fmap.
  rewrite length_app_string. cbn [String.length].
  replace (Z.of_nat (String.length k + S (String.length v)) - Z.of_nat (S (String.length k)))
    with (Z.of_nat (String.length v)) by lia.
  apply set_option_stop.
Qed.

Lemma render_option_clean kv : clean kv -> strchr (render_option kv) "," = None.
Proof.
  destruct kv as [k v]. intros (_ & Hk & Hv). unfold render_option. simpl in *.
  apply strchr_app_None; [done|]. simpl. by rewrite Hv.
Qed.

Lemma parse_loop_render fuel kv opts c :
  Forall clean (kv :: opts) -> (String.length (render kv opts) < fuel)%nat ->
  parse_loop fuel (render kv opts) c = apply_options (kv :: opts) c.
Proof.
  revert fuel kv c. induction opts as [|kv' opts IH]; intros fuel kv c Hclean Hfuel;
    apply Forall_cons_1 in Hclean as [Hkv Hclean]; destruct fuel as [|fuel]; try lia; cbn [parse_loop render apply_options] in *.
  - rewrite render_option_clean by done. rewrite parse_key_last by done. done.
  - rewrite strchr_app by (by apply render_option_clean). rewrite parse_key_more by done.
    destruct (apply_option kv c) as [c'| | |]; cbn [mbind outcome_bind]; try done.
    rewrite skip_app. apply IH; [done|]. rewrite length_app_string in Hfuel. cbn [String.length] in Hfuel. lia.
Qed.

(** ** What the options mean *)

(** The value of the last option whose name begins with [name]. *)
Definition last_of {A : Type} (read : string -> A) (name : string) (opts : list (string * string)) (default : A) : A :=
  fold_left (fun v kv => if String.prefix name kv.1 then read kv.2 else v) opts default.

Definition starts_with_y (v : string) : bool :=
  match v with String "y" _ | String "Y" _ => true | _ => false end.

Definition all_ports (opts : list (string * string)) : list Z :=
  opts ≫= (fun kv => if String.prefix "prometheusPort" kv.1 then atoi <$> getlines "|" EmptyString kv.2 else []).

(** The configuration that a list of options asks for. *)
Definition configured (opts : list (string * string)) (c : ConfigurationOptions) : ConfigurationOptions := {|
  logFilePath := last_of id "__logPath" opts (logFilePath c);
  host := last_of id "host" opts (host c);
  port := last_of id "__port" opts (port c);
  maxFramesToCapture := last_of atoi "__maxFrames" opts (maxFramesToCapture c);
  apiKey := last_of id "apiKey" opts (apiKey c);
  agentId := last_of id "agentId" opts (agentId c);
  debugLogPath := last_of id "debugLogPath" opts (debugLogPath c);
  errorLogPath := last_of id "errorLogPath" opts (errorLogPath c);
  applicationVersion := last_of id "applicationVersion" opts (applicationVersion c);
  customCertificateFile := last_of id "customCertificateFile" opts (customCertificateFile c);
  onPremHost := last_of starts_with_y "onPremHost" opts (onPremHost c);
  logCorruption := last_of starts_with_y "__logCorruption" opts (logCorruption c);
  prometheusEnabled := prometheusEnabled c;
  prometheusHost := last_of id "prometheusHost" opts (prometheusHost c);
  prometheusPorts := prometheusPorts c ++ all_ports opts;
  prometheusSegment := last_of id "prometheusSegment" opts (prometheusSegment c);
  prometheusProcessSampleRate := last_of atoi "prometheusProcessSampleRate" opts (prometheusProcessSampleRate c);
  prometheusElapsedSampleRate := last_of atoi "prometheusElapsedSampleRate" opts (prometheusElapsedSampleRate c)
|}.

Definition known_name (name : string) : bool :=
  existsb (fun n => String.prefix n name)
    ["__logPath"; "host"; "__port"; "__maxFrames"; "apiKey"; "agentId"; "debugLogPath"; "errorLogPath"; "applicationVersion";
     "customCertificateFile"; "onPremHost"; "__logCorruption"; "prometheusHost"; "prometheusPort"; "prometheusSegment";
     "prometheusProcessSampleRate"; "prometheusElapsedSampleRate"]%string.

Lemma prefix_exclusive a b k :
  String.prefix a k = true -> String.prefix a b = false -> String.prefix b a = false -> String.prefix b k = false.
Proof.
  revert b k. induction a as [|x a IH]; intros [|y b] [|z k]; cbn [String.prefix]; try done.
  destruct (Ascii.ascii_dec x z) as [->|]; [|done]. destruct (Ascii.ascii_dec z y) as [->|Hne].
  - destruct (Ascii.ascii_dec y y); [|done]. apply IH.
  - intros _ _ _. by destruct (Ascii.ascii_dec y z) as [->|].
Qed.

Lemma yes_starts_with_y v : yes v = starts_with_y v.
Proof. destruct v as [|[[] [] [] [] [] [] [] []] v]; reflexivity. Qed.

(** No name of the table begins another: at most one branch is for an option. *)
Lemma apply_option_means kv c :
  apply_option kv c = if known_name kv.1 then Ok (configured [kv] c) else Undefined.
Proof.
  destruct kv as [k v]. unfold apply_option, known_name, configured, last_of, all_ports.
  cbn [fst snd lookup_name option_names existsb fold_left mbind list_bind]. unfold strstr_at_start. rewrite app_nil_r.
  repeat match goal with
    |- context [if String.prefix ?n k then _ else _] =>
      let E := fresh "E" in destruct (String.prefix n k) eqn:E;
      [repeat match goal with
         |- context [String.prefix ?b k] => rewrite (prefix_exclusive n b k E eq_refl eq_refl)
       end; cbn; rewrite ?app_nil_r, ?yes_starts_with_y; by destruct c|]
  end.
  done.
Qed.

Lemma configured_more kv opts c : configured opts (configured [kv] c) = configured (kv :: opts) c.
Proof. unfold configured, all_ports. cbn. by rewrite app_nil_r, <- app_assoc. Qed.

Lemma apply_options_mean opts c :
  apply_options opts c = if forallb (fun kv => known_name kv.1) opts then Ok (configured opts c) else Undefined.
Proof.
  revert c. induction opts as [|kv opts IH]; intros c.
  { unfold configured. cbn. rewrite app_nil_r. by destruct c. }
  cbn [apply_options forallb]. rewrite apply_option_means.
  destruct (known_name kv.1); cbn [andb mbind outcome_bind]; [|done]. by rewrite IH, configured_more.
Qed.

(** C36. Parsing a rendered list of options whose names have no separator and
    whose values have no comma: each option of the configuration becomes what the
    last one of its name says, the ports are appended, and nothing else changes.
    A name counts as the one of the table that it begins with; one that is not in
    the table is undefined behaviour, that of the warning about it. *)
Theorem parse_render kv opts c :
  Forall clean (kv :: opts) ->
  parseArguments (render kv opts) c =
    if forallb (fun kv => known_name kv.1) (kv :: opts) then Ok (configured (kv :: opts) c) else Undefined.
Proof.
  intros Hclean. unfold parseArguments. rewrite parse_loop_render by (done || lia). apply apply_options_mean.
Qed.

Lemma set_option_total o v len c :
  match set_option o v len c with Ok _ | Throws _ => True | _ => False end.
Proof.
  assert (match assign_range v len with Ok _ | Throws _ => True | _ => False end) as Ha.
  { unfold assign_range. destruct len as [n|]; [|done]. by destruct (n <? 0). }
  unfold set_option. destruct o; try done; by destruct (assign_range v len).
Qed.

(** Parsing always ends, whatever the input. *)
Lemma parseArguments_total s c : parseArguments s c <> Blocked.
Proof.
  unfold parseArguments. assert (String.length s < S (String.length s))%nat as Hfuel by lia.
  revert Hfuel. generalize (S (String.length s)) as fuel. intros fuel. revert s c.
  induction fuel as [|fuel IH]; intros s c Hfuel; [lia|]. cbn [parse_loop].
  assert (parse_key s (strchr s ",") c <> Blocked) as Hkey.
  { unfold parse_key. destruct (strchr s "="); [|done]. destruct (lookup_name _ _) as [o|]; [|done].
    match goal with |- set_option o ?v ?len c <> _ => pose proof (set_option_total o v len c); by destruct (set_option o v len c) end. }
  destruct (parse_key s (strchr s ",") c) as [c'| | |]; cbn [mbind outcome_bind]; try done.
  destruct (strchr s ",") as [n|] eqn:E; [|done]. apply IH. apply strchr_skip in E. lia.
Qed.

(** A name without [=] before the next comma makes the parser take a negative
    length: it throws, whatever the options before it. *)
Theorem missing_value_throws c : parseArguments "host,apiKey=k" c = Throws "std::length_error".
Proof. reflexivity. Qed.

(** Setting up the configuration twice, as a forked child does, lists every
    Prometheus port twice. *)
Theorem reparsing_doubles_ports p c1 c2 :
  setup_configuration p "prometheusPort=80|81" (default_options "N") = Ok c1 ->
  setup_configuration p "prometheusPort=80|81" c1 = Ok c2 ->
  prometheusPorts c1 = [80; 81] /\ prometheusPorts c2 = [80; 81; 80; 81].
Proof.
  assert (forall name var c c', substitutePath name var c = Ok c' -> prometheusPorts c' = prometheusPorts c) as Hsub.
  { intros name var c c' E. unfold substitutePath in E.
    repeat (apply bind_ok in E as (? & _ & E)). by injection E as <-. }
  assert (forall c c', setup_configuration p "prometheusPort=80|81" c = Ok c' ->
    prometheusPorts c' = prometheusPorts c ++ [80; 81]) as Hsetup.
  { intros c c' E. unfold setup_configuration in E. apply bind_ok in E as (d & Ed & E).
    apply bind_ok in E as (e & Ee & E). injection E as <-. simpl.
    assert (prometheusPorts d = prometheusPorts c ++ [80; 81]) as Hd by (injection Ed as <-; reflexivity).
    unfold substitute_options in Ee.
    apply bind_ok in Ee as (f & Ef & Ee). apply bind_ok in Ee as (g & Eg & Eh).
    apply Hsub in Ef, Eg, Eh. congruence. }
  intros H1 H2. apply Hsetup in H1, H2. rewrite H1 in H2. done.
Qed.

(** ** Substitution *)

(** Every occurrence of [search], left to right, replaced; [n] characters of an
    occurrence are still to be dropped. *)
Fixpoint replace_all (search by_ : string) (n : nat) (s : string) : string :=
  match s with
  | EmptyString => EmptyString
  | String c s' =>
      match n with
      | S n => replace_all search by_ n s'
      | O => if String.prefix search s then by_ +:+ replace_all search by_ (pred (String.length search)) s'
             else String c (replace_all search by_ O s')
      end
  end.

Lemma replace_all_skip search by_ n s : replace_all search by_ n s = replace_all search by_ O (skip n s).
Proof. revert n. induction s as [|c s IH]; intros [|n]; try done. apply IH. Qed.

Lemma prefix_split p s : String.prefix p s = true -> s = p +:+ skip (String.length p) s.
Proof.
  revert s. induction p as [|x p IH]; intros s; [by destruct s|].
  destruct s as [|y s]; cbn [String.prefix]; [done|]. destruct (Ascii.ascii_dec x y) as [->|]; [|done].
  intros Hp. rewrite string_app_cons. f_equal. by apply IH.
Qed.

Lemma find_from_spec search by_ n s :
  search <> EmptyString ->
  match find_from search n s with
  | None => replace_all search by_ O s = s
  | Some m => exists pre post, s = pre +:+ search +:+ post /\ m = (n + String.length pre)%nat /\
      replace_all search by_ O s = pre +:+ by_ +:+ replace_all search by_ O post
  end.
Proof.
  intros Hne. revert n. induction s as [|c s IH]; intros n; cbn [find_from replace_all].
  { destruct (String.prefix search EmptyString) eqn:E; [|done]. by destruct search. }
  destruct (String.prefix search (String c s)) eqn:E.
  - exists EmptyString, (skip (String.length search) (String c s)). split; [by apply prefix_split|].
    split; [simpl; lia|]. rewrite string_app_nil. f_equal. rewrite replace_all_skip. by destruct search.
  - specialize (IH (S n)). destruct (find_from search (S n) s) as [m|]; [|by rewrite IH].
    destruct IH as (pre & post & -> & -> & ->). exists (String c pre), post. simpl. split; [done|]. split; [lia|done].
Qed.

Lemma skip_length a b : skip (String.length a) (a +:+ b) = b.
Proof. induction a as [|x a IH]; sapp; [by destruct b|exact IH]. Qed.

Lemma substitute_loop_spec fuel search by_ before after :
  search <> EmptyString -> (String.length after < fuel)%nat ->
  substitute_loop fuel (before +:+ after) search by_ (String.length before) =
    Ok (before +:+ replace_all search by_ O after).
Proof.
  intros Hne. revert before after. induction fuel as [|fuel IH]; intros before after Hfuel; [lia|].
  cbn [substitute_loop]. unfold CString.find. rewrite skip_length.
  pose proof (find_from_spec search by_ (String.length before) after Hne) as Hfind.
  destruct (find_from search (String.length before) after) as [m|]; [|by rewrite Hfind].
  destruct Hfind as (pre & post & -> & -> & ->).
  assert (CString.replace (before +:+ pre +:+ search +:+ post) (String.length before + String.length pre)
    (String.length search) by_ = (before +:+ pre +:+ by_) +:+ post) as ->.
  { unfold CString.replace. rewrite <- (app_assoc_string before pre), <- (app_assoc_string (before +:+ pre) search).
    rewrite <- !length_app_string, skip_length. rewrite (app_assoc_string (before +:+ pre) search).
    rewrite take_string_app. by rewrite !app_assoc_string. }
  replace (String.length before + String.length pre + String.length by_)%nat with (String.length (before +:+ pre +:+ by_))
    by (rewrite !length_app_string; lia).
  rewrite IH; [by rewrite !app_assoc_string|].
  rewrite !length_app_string in Hfuel. destruct search; [done|]. cbn [String.length] in Hfuel. lia.
Qed.

(** Substitution ends and replaces every occurrence, left to right, without
    looking into the replaced text. *)
Theorem substitute_option_replaces_all value search by_ :
  search <> EmptyString -> substitute_option value search by_ = Ok (replace_all search by_ O value).
Proof.
  intros Hne. apply (substitute_loop_spec _ search by_ EmptyString value Hne). lia.
Qed.

Lemma parse_render_witness :
  parseArguments "host=a.b,apiKey=k,onPremHost=yes" (default_options "N") =
    Ok (configured [("host", "a.b"); ("apiKey", "k"); ("onPremHost", "yes")]%string (default_options "N")).
Proof.
  apply (parse_render ("host", "a.b")%string [("apiKey", "k"); ("onPremHost", "yes")]%string). repeat constructor.
Defined.

Definition with_ports (l : list Z) : ConfigurationOptions :=
  set_others MAX_FRAMES false false true l 100 100 (default_options "N").

Lemma reparsing_doubles_ports_witness :
  prometheusPorts (with_ports [80; 81]) = [80; 81] /\
  prometheusPorts (with_ports [80; 81; 80; 81]) = [80; 81; 80; 81].
Proof.
  apply (reparsing_doubles_ports (mkProcess "x" "x" 1)); vm_compute; reflexivity.
Defined.

Lemma substitute_option_replaces_all_witness :
  substitute_option "camlDune__exe__Main__fun" "__" "." = Ok "camlDune.exe.Main.fun"%string.
Proof. apply (substitute_option_replaces_all "camlDune__exe__Main__fun" "__" "."). discriminate. Defined.
