(* ===== verification/SymbolTable.v ===== *)
(** * Symbolisation ([lib/symbol_table.cpp])

    Program counters are looked up once per connection; functions and files get
    numbers, which are announced through callbacks the first time they occur.
    libbacktrace and [dladdr] are the class [Backtrace]: what they report for a
    program counter. *)
From S2P Require Import Prelude CString Options.

Definition NUMBER_OF_SIGNAL_HANDLER_FRAMES : Z := 3.

Record Location := mkLocation {
  l_methodId : Z;
  lineNumber : Z;
  fileName : string;
  functionName : string
}.

(** One call of a libbacktrace callback. *)
Inductive pc_event :=
| PcInfo (btFileName : option string) (lineNumber : Z) (btFunctionName : option string)
| PcError (errorMessage : string) (errorNumber : Z).
Inductive sym_event :=
| SymInfo (btSymbolName : option string)
| SymError (errorMessage : string) (errorNumber : Z).

Class Backtrace := {
  backtrace_pcinfo : Z -> list pc_event;
  backtrace_syminfo : Z -> list sym_event;
  (** the symbol and file names [dladdr] finds, [None] when it fails *)
  dladdr : Z -> option (option string * option string)
}.

(** The callbacks [init_symbols] installs. *)
Class SymbolListener (W : Type) := {
  onNewFile : Z -> string -> W -> W;
  onNewFunction : Z -> string -> Z -> W -> W;
  handleBtError : string -> Z -> W -> outcome W
}.

Record symbols := mkSymbols {
  nextId_ : Z;
  knownAddrToLocations_ : gmap Z (list Location);
  knownMethodToIds_ : gmap string Z;
  knownFileToIds_ : gmap string Z;
  currentLocations_ : list Location;
  currentSymbolName_ : string
}.

Definition no_symbols : symbols := mkSymbols 1 ∅ ∅ ∅ [] EmptyString.

Definition set_methods m (s : symbols) : symbols :=
  mkSymbols (u64 (nextId_ s + 1)) (knownAddrToLocations_ s) m (knownFileToIds_ s) (currentLocations_ s)
    (currentSymbolName_ s).
Definition set_files f (s : symbols) : symbols :=
  mkSymbols (u64 (nextId_ s + 1)) (knownAddrToLocations_ s) (knownMethodToIds_ s) f (currentLocations_ s)
    (currentSymbolName_ s).
Definition set_current l n (s : symbols) : symbols :=
  mkSymbols (nextId_ s) (knownAddrToLocations_ s) (knownMethodToIds_ s) (knownFileToIds_ s) l n.

Definition is_empty (s : string) : bool := match s with EmptyString => true | _ => false end.

Section Lookup.
Context {W : Type} `{SymbolListener W} `{Backtrace}.

Definition recordFile (fileName : string) (sw : symbols * W) : Z * (symbols * W) :=
  let '(s, w) := sw in
  match knownFileToIds_ s !! fileName with
  | Some fileId => (fileId, (s, w))
  | None =>
      let fileId := nextId_ s in
      (fileId, (set_files (<[fileName := fileId]> (knownFileToIds_ s)) s, onNewFile fileId fileName w))
  end.

Definition recordFunction (functionName : string) (fileId : Z) (sw : symbols * W) : Z * (symbols * W) :=
  let '(s, w) := sw in
  match knownMethodToIds_ s !! functionName with
  | Some functionId => (functionId, (s, w))
  | None =>
      let functionId := nextId_ s in
      (functionId, (set_methods (<[functionName := functionId]> (knownMethodToIds_ s)) s,
                    onNewFunction functionId functionName fileId w))
  end.

Definition handlePcInfo (pc : Z) (btFileName : option string) (line : Z) (btFunctionName : option string)
    (sw : symbols * W) : symbols * W :=
  let '(fileName, (fileId, sw)) :=
    match btFileName with
    | Some f => (f, recordFile f sw)
    | None => (EmptyString, (0, sw))
    end in
  let functionName := default EmptyString btFunctionName in
  let functionName :=
    if is_empty functionName && negb (is_empty (currentSymbolName_ sw.1)) then currentSymbolName_ sw.1
    else functionName in
  let '(functionName, (fileName, (fileId, sw))) :=
    if is_empty functionName || (fileId =? 0) then
      match dladdr pc with
      | None => (functionName, (fileName, (fileId, sw)))
      | Some (dli_sname, dli_fname) =>
          let functionName :=
            if is_empty functionName then
              match dli_sname, dli_fname with
              | Some n, _ => n
              | None, Some f => "In " +:+ f
              | None, None => functionName
              end
            else functionName in
          match dli_fname with
          | Some f => if fileId =? 0 then (functionName, (f, recordFile f sw))
                      else (functionName, (fileName, (fileId, sw)))
          | None => (functionName, (fileName, (fileId, sw)))
          end
      end
    else (functionName, (fileName, (fileId, sw))) in
  let functionName := if is_empty functionName then "Unknown"%string else functionName in
  let '(functionId, (s, w)) := recordFunction functionName fileId sw in
  (set_current (currentLocations_ s ++ [mkLocation functionId line fileName functionName]) (currentSymbolName_ s) s, w).

Definition DUNE_PREFIX : string := "camlDune__exe__".
Definition DUNE_PREFIX_LEN : nat := 15.

Definition handleSyminfo (btSymbolName : option string) (sw : symbols * W) : outcome (symbols * W) :=
  let '(s, w) := sw in
  match btSymbolName with
  | None => Ok sw
  | Some name =>
      if String.prefix DUNE_PREFIX name then
        pretty ← substitute_option (skip DUNE_PREFIX_LEN name) "__" ".";
        Ok (set_current (currentLocations_ s) pretty s, w)
      else Ok (set_current (currentLocations_ s) name s, w)
  end.

Fixpoint on_pc_events (pc : Z) (es : list pc_event) (sw : symbols * W) : outcome (symbols * W) :=
  match es with
  | [] => Ok sw
  | PcInfo f l n :: es => on_pc_events pc es (handlePcInfo pc f l n sw)
  | PcError m n :: es => w ← handleBtError m n sw.2; on_pc_events pc es (sw.1, w)
  end.

Fixpoint on_sym_events (es : list sym_event) (sw : symbols * W) : outcome (symbols * W) :=
  match es with
  | [] => Ok sw
  | SymInfo n :: es => sw ← handleSyminfo n sw; on_sym_events es sw
  | SymError m n :: es => w ← handleBtError m n sw.2; on_sym_events es (sw.1, w)
  end.

Definition lookup_locations (pc : Z) (isForeign : bool) (sw : symbols * W) : outcome (list Location * (symbols * W)) :=
  let '(s, w) := sw in
  match knownAddrToLocations_ s !! pc with
  | Some l => Ok (l, sw)
  | None =>
      let sw := (set_current [] EmptyString s, w) in
      sw ← (if negb isForeign then on_sym_events (backtrace_syminfo pc) sw else Ok sw);
      '(s, w) ← on_pc_events pc (backtrace_pcinfo pc) sw;
      Ok (currentLocations_ s,
          (mkSymbols (nextId_ s) (<[pc := currentLocations_ s]> (knownAddrToLocations_ s)) (knownMethodToIds_ s)
             (knownFileToIds_ s) (currentLocations_ s) (currentSymbolName_ s), w))
  end.
End Lookup.

Definition clear_symbols (s : symbols) : symbols :=
  mkSymbols (nextId_ s) ∅ ∅ ∅ (currentLocations_ s) (currentSymbolName_ s).
