(* ===== verification/SymbolTableSpec.v ===== *)
(** * Every number a location carries was announced on this connection

    [announcements w]: what the callbacks were told so far.  A connection starts
    with [clear_symbols]; [connected before s w] is the invariant of the tables
    against the announcements made since [before]. *)
From S2P Require Import Prelude CString Options OptionsSpec SymbolTable.

Inductive announcement :=
| FileIs (fileId : Z) (fileName : string)
| FunctionIs (functionId : Z) (functionName : string) (fileId : Z).

Definition number (a : announcement) : Z := match a with FileIs i _ | FunctionIs i _ _ => i end.

(** A function names a file announced before it, or none. *)
Inductive files_first : list announcement -> Prop :=
| files_first_nil : files_first []
| files_first_file l i n : files_first l -> files_first (l ++ [FileIs i n])
| files_first_function l i n f :
    files_first l -> f = 0 \/ (exists m, FileIs f m ∈ l) -> files_first (l ++ [FunctionIs i n f]).

Class AnnouncedListener (W : Type) `{SymbolListener W} := {
  announcements : W -> list announcement;
  announce_file i n w :
    0 <= i < 2 ^ 64 -> announcements (onNewFile i n w) = announcements w ++ [FileIs i n];
  announce_function i n f w :
    0 <= i < 2 ^ 64 -> 0 <= f < 2 ^ 64 ->
    announcements (onNewFunction i n f w) = announcements w ++ [FunctionIs i n f]
}.

(** libbacktrace reports no error for a program counter: what the error callback
    then does is up to the listener. *)
Definition pc_quiet (e : pc_event) : Prop := match e with PcInfo _ _ _ => True | PcError _ _ => False end.
Definition sym_quiet (e : sym_event) : Prop := match e with SymInfo _ => True | SymError _ _ => False end.
Definition quiet `{Backtrace} (pc : Z) : Prop :=
  Forall pc_quiet (backtrace_pcinfo pc) /\ Forall sym_quiet (backtrace_syminfo pc).

Section Symbol.
Context {W : Type} `{SymbolListener W} `{Backtrace}.

Lemma handleSyminfo_total n s (w : W) :
  exists name, handleSyminfo n (s, w) = Ok (set_current (currentLocations_ s) name s, w).
Proof.
  destruct n as [name|]; unfold handleSyminfo.
  - destruct (String.prefix DUNE_PREFIX name); [|by exists name].
    assert (exists r, substitute_option (skip DUNE_PREFIX_LEN name) "__" "." = Ok r) as [r ->]; [|by exists r].
    eexists. apply (substitute_loop_spec _ "__" "." EmptyString); [done|apply Nat.lt_succ_diag_r].
  - exists (currentSymbolName_ s). by destruct s.
Qed.

Lemma on_sym_events_total es s (w : W) :
  Forall sym_quiet es ->
  exists name, on_sym_events es (s, w) = Ok (set_current (currentLocations_ s) name s, w).
Proof.
  intros Hq. revert s. induction Hq as [|[n|m n] es He Hq IH]; intros s; cbn [on_sym_events fst snd].
  - exists (currentSymbolName_ s). by destruct s.
  - destruct (handleSyminfo_total n s w) as [name ->]. simpl.
    destruct (IH (set_current (currentLocations_ s) name s)) as (name' & E). by exists name'.
  - done.
Qed.

Lemma find_symbol pc isForeign s (w : W) :
  Forall sym_quiet (backtrace_syminfo pc) ->
  exists name,
    (if negb isForeign then on_sym_events (backtrace_syminfo pc) (set_current [] EmptyString s, w)
     else Ok (set_current [] EmptyString s, w)) = Ok (set_current [] name s, w).
Proof.
  intros Hs. destruct isForeign; simpl; [by exists EmptyString|].
  destruct (on_sym_events_total (backtrace_syminfo pc) (set_current [] EmptyString s) w Hs) as (name & ->).
  by exists name.
Qed.
End Symbol.

Section Spec.
Context {W : Type} `{AnnouncedListener W} `{Backtrace}.

Definition known_function (log : list announcement) (id : Z) (name : string) : Prop :=
  exists f, FunctionIs id name f ∈ log.

Definition locations_known (log : list announcement) (l : list Location) : Prop :=
  Forall (fun x => known_function log (l_methodId x) (functionName x)) l.

Record connected (before : list announcement) (s : symbols) (w : W) (log : list announcement) : Prop := {
  connected_log : announcements w = before ++ log;
  connected_functions : forall n id, knownMethodToIds_ s !! n = Some id -> known_function log id n;
  connected_files : forall n id, knownFileToIds_ s !! n = Some id -> FileIs id n ∈ log;
  connected_addresses : forall pc l, knownAddrToLocations_ s !! pc = Some l -> locations_known log l;
  connected_order : files_first log;
  connected_fresh : Forall (fun a => 1 <= number a < nextId_ s) (before ++ log);
  connected_unique : NoDup (number <$> (before ++ log));
  connected_next : 1 <= nextId_ s
}.

Lemma connected_new w : announcements w = [] -> connected [] no_symbols w [].
Proof using Type. intros E. split; simpl; try done; try constructor. Qed.

(** Reconnecting forgets the tables but not the numbers. *)
Lemma connected_clear before s w log :
  connected before s w log -> connected (before ++ log) (clear_symbols s) w [].
Proof using Type.
  intros [L F Fi A O Fr U N]. split; simpl; try done; try rewrite app_nil_r; try done; try constructor.
Qed.

(** [l] extends [log] and the tables stay in step. *)
Definition grows (before : list announcement) (k : Z) (s : symbols) (s' : symbols) (w' : W)
    (log log' : list announcement) : Prop :=
  connected before s' w' log' /\ log `prefix_of` log' /\ nextId_ s <= nextId_ s' <= nextId_ s + k.

Lemma known_function_weaken log log' id n : log `prefix_of` log' -> known_function log id n -> known_function log' id n.
Proof using Type. intros [k ->] [f Hf]. exists f. rewrite elem_of_app. by left. Qed.

Lemma locations_known_weaken log log' l : log `prefix_of` log' -> locations_known log l -> locations_known log' l.
Proof using Type. intros Hp Hl. eapply Forall_impl; [|exact Hl]. intros x. by apply known_function_weaken. Qed.

Lemma fresh_number before log next :
  Forall (fun a => 1 <= number a < next) (before ++ log) -> next ∉ number <$> (before ++ log).
Proof using Type.
  intros Hf Hin. apply list_elem_of_fmap in Hin as (a & -> & Ha).
  rewrite list.Forall_forall in Hf. apply Hf in Ha. lia.
Qed.

Lemma fresh_snoc before log next a :
  Forall (fun a => 1 <= number a < next) (before ++ log) -> NoDup (number <$> (before ++ log)) ->
  1 <= next -> number a = next ->
  Forall (fun a => 1 <= number a < next + 1) (before ++ log ++ [a]) /\ NoDup (number <$> (before ++ log ++ [a])).
Proof using Type.
  intros Hf Hu Hn Ha. rewrite (app_assoc before). split.
  - apply Forall_app. split; [|constructor; [lia|constructor]]. eapply Forall_impl; [|exact Hf]. simpl. lia.
  - rewrite fmap_app. apply list.NoDup_app. split; [done|]. split.
    + intros x Hx. simpl. rewrite list_elem_of_singleton, Ha. intros ->. by apply (fresh_number before log next) in Hx.
    + apply NoDup_singleton.
Qed.

Lemma recordFile_grows before name s w log :
  connected before s w log -> nextId_ s + 1 < 2 ^ 64 ->
  let '(id, (s', w')) := recordFile name (s, w) in
  exists log', grows before 1 s s' w' log log' /\ FileIs id name ∈ log' /\
    currentLocations_ s' = currentLocations_ s /\ currentSymbolName_ s' = currentSymbolName_ s.
Proof using Type.
  intros [L F Fi A O Fr U N] Hnext. unfold recordFile. destruct (knownFileToIds_ s !! name) as [id|] eqn:E.
  { exists log. split; [split; [by split|split; [done|lia]]|]. by split; [apply Fi|]. }
  destruct (fresh_snoc before log (nextId_ s) (FileIs (nextId_ s) name) Fr U N eq_refl) as [Fr' U'].
  exists (log ++ [FileIs (nextId_ s) name]). split; [split; [split|split]|].
  - by rewrite announce_file, L, app_assoc by lia.
  - intros n id En. apply F in En. eapply known_function_weaken; [|done]. by apply prefix_app_r.
  - intros n id En. simpl in En. rewrite elem_of_app, list_elem_of_singleton.
    apply lookup_insert_Some in En as [[<- <-]|[_ En]]; [by right|]. left. by apply Fi.
  - intros pc l El. apply A in El. eapply locations_known_weaken; [|done]. by apply prefix_app_r.
  - by constructor.
  - simpl. rewrite u64_small by lia. done.
  - done.
  - simpl. rewrite u64_small by lia. lia.
  - by apply prefix_app_r.
  - simpl. rewrite u64_small by lia. lia.
  - split; [|done]. rewrite elem_of_app, list_elem_of_singleton. by right.
Qed.

Lemma settled_range before log next f :
  Forall (fun a => 1 <= number a < next) (before ++ log) -> next + 1 < 2 ^ 64 ->
  f = 0 \/ (exists m, FileIs f m ∈ log) -> 0 <= f < 2 ^ 64.
Proof using Type.
  intros [_ Hf]%Forall_app Hn [->|[m Hm]]; [lia|].
  rewrite list.Forall_forall in Hf. apply Hf in Hm. simpl in Hm. lia.
Qed.

Lemma recordFunction_grows before name f s w log :
  connected before s w log -> nextId_ s + 1 < 2 ^ 64 -> f = 0 \/ (exists m, FileIs f m ∈ log) ->
  let '(id, (s', w')) := recordFunction name f (s, w) in
  exists log', grows before 1 s s' w' log log' /\ known_function log' id name /\
    currentLocations_ s' = currentLocations_ s /\ currentSymbolName_ s' = currentSymbolName_ s.
Proof using Type.
  intros [L F Fi A O Fr U N] Hnext Hf. unfold recordFunction.
  destruct (knownMethodToIds_ s !! name) as [id|] eqn:E.
  { exists log. split; [split; [by split|split; [done|lia]]|]. by split; [apply F|]. }
  destruct (fresh_snoc before log (nextId_ s) (FunctionIs (nextId_ s) name f) Fr U N eq_refl) as [Fr' U'].
  assert (known_function (log ++ [FunctionIs (nextId_ s) name f]) (nextId_ s) name) as Hk.
  { exists f. rewrite elem_of_app, list_elem_of_singleton. by right. }
  exists (log ++ [FunctionIs (nextId_ s) name f]). split; [split; [split|split]|done].
  - rewrite announce_function; [by rewrite L, app_assoc|lia|exact (settled_range before log (nextId_ s) f Fr Hnext Hf)].
  - intros n id En. simpl in En. apply lookup_insert_Some in En as [[<- <-]|[_ En]]; [done|].
    apply F in En. eapply known_function_weaken; [|done]. by apply prefix_app_r.
  - intros n id En. rewrite elem_of_app. left. by apply Fi.
  - intros pc l El. apply A in El. eapply locations_known_weaken; [|done]. by apply prefix_app_r.
  - by constructor.
  - simpl. rewrite u64_small by lia. done.
  - done.
  - simpl. rewrite u64_small by lia. lia.
  - by apply prefix_app_r.
  - simpl. rewrite u64_small by lia. lia.
Qed.

(** Setting the current locations and symbol leaves the tables alone. *)
Lemma connected_current before s w log l n : connected before s w log -> connected before (set_current l n s) w log.
Proof using Type. intros [L F Fi A O Fr U N]. by split. Qed.

Lemma prefix_elem (log log' : list announcement) a : log `prefix_of` log' -> a ∈ log -> a ∈ log'.
Proof using Type. intros [k ->] Ha. rewrite elem_of_app. by left. Qed.

(** The table of locations being built is in step too. *)
Definition building (before : list announcement) (k : Z) (s s' : symbols) (w' : W) (log log' : list announcement) :=
  grows before k s s' w' log log' /\ locations_known log' (currentLocations_ s').

Lemma building_refl before s w log :
  connected before s w log -> locations_known log (currentLocations_ s) -> building before 0 s s w log log.
Proof using Type. intros C L. repeat split; try done; try lia; apply C. Qed.

(** A file number in an announcement of a function: none, or announced. *)
Definition settled (log : list announcement) (f : Z) : Prop := f = 0 \/ (exists m, FileIs f m ∈ log).

(** At most [k] new files, after which the number is settled. *)
Definition files_step before k s (fileId : Z) (sw : symbols * W) log : Prop :=
  exists log', grows before k s sw.1 sw.2 log log' /\ settled log' fileId /\
    currentLocations_ sw.1 = currentLocations_ s.

Lemma files_step_keep before s w log fileId :
  connected before s w log -> settled log fileId -> files_step before 0 s fileId (s, w) log.
Proof using Type. intros C S. exists log. repeat split; try apply C; try done; simpl; lia. Qed.

Lemma files_step_record before s w log name :
  connected before s w log -> nextId_ s + 1 < 2 ^ 64 ->
  files_step before 1 s (recordFile name (s, w)).1 (recordFile name (s, w)).2 log.
Proof using Type.
  intros C Hn. pose proof (recordFile_grows before name s w log C Hn) as Hg.
  destruct (recordFile name (s, w)) as [id [s' w']]. destruct Hg as (log' & G & Hin & El & En).
  exists log'. split; [exact G|]. split; [right; by exists name|done].
Qed.

Lemma files_step_weaken before k k' s fileId sw log :
  files_step before k s fileId sw log -> k <= k' -> files_step before k' s fileId sw log.
Proof using Type.
  intros (log' & (C & P & B) & R) Hk. exists log'. split; [|done]. split; [done|]. split; [done|]. lia.
Qed.

Lemma grows_trans before k k' s s1 s2 w1 w2 log log1 log2 :
  grows before k s s1 w1 log log1 -> grows before k' s1 s2 w2 log1 log2 ->
  grows before (k + k') s s2 w2 log log2.
Proof using Type.
  intros (C & P & B) (C' & P' & B'). split; [done|]. split; [by etrans|lia].
Qed.

Lemma files_step_trans before k k' s f sw f' sw' log :
  files_step before k s f sw log ->
  (forall log1, connected before sw.1 sw.2 log1 -> settled log1 f -> nextId_ sw.1 <= nextId_ s + k ->
    files_step before k' sw.1 f' sw' log1) ->
  files_step before (k + k') s f' sw' log.
Proof using Type.
  intros (log1 & G & S & E) Hk. destruct (Hk log1) as (log2 & G' & S' & E'); [apply G|done|apply G|].
  exists log2. split; [by eapply grows_trans|]. split; [done|]. by rewrite E', E.
Qed.

Lemma record_location before f k s sw log n line fname :
  files_step before k s f sw log -> locations_known log (currentLocations_ s) -> nextId_ s + k + 1 < 2 ^ 64 ->
  let '(functionId, (s', w')) := recordFunction n f sw in
  exists log', building before (k + 1) s
    (set_current (currentLocations_ s' ++ [mkLocation functionId line fname n]) (currentSymbolName_ s') s') w' log log'.
Proof using Type.
  intros (log1 & G & S & E) Hl Hn. destruct sw as [s1 w1]. cbn [fst snd] in *.
  pose proof (recordFunction_grows before n f s1 w1 log1 (proj1 G)) as Hg.
  destruct (recordFunction n f (s1, w1)) as [id [s' w']].
  destruct Hg as (log' & G' & Hf & El & En); [pose proof (proj2 (proj2 G)); lia|exact S|].
  pose proof (grows_trans _ _ _ _ _ _ _ _ _ _ _ G G') as (C & P & B).
  cbn beta iota. exists log'. split; [split; [by apply connected_current|done]|].
  simpl. apply Forall_app. split; [|by repeat constructor].
  rewrite El, E. by eapply locations_known_weaken.
Qed.

Lemma handlePcInfo_builds before pc f l n s w log :
  connected before s w log -> locations_known log (currentLocations_ s) -> nextId_ s + 3 < 2 ^ 64 ->
  let '(s', w') := handlePcInfo pc f l n (s, w) in
  exists log', building before 3 s s' w' log log'.
Proof using Type.
  intros C Hl Hn. unfold handlePcInfo.
  set (first := match f with Some f => (f, recordFile f (s, w)) | None => (EmptyString, (0, (s, w))) end).
  assert (files_step before 1 s first.2.1 first.2.2 log) as F1.
  { subst first. destruct f as [f|]; [apply files_step_record; [done|lia]|].
    eapply files_step_weaken; [apply files_step_keep; [done|by left]|lia]. }
  destruct first as [fname [fid sw]]. simpl in F1.
  set (name := if is_empty (default EmptyString n) && _ then _ else _). clearbody name.
  set (second := if is_empty name || (fid =? 0) then _ else _).
  assert (files_step before 2 s second.2.2.1 second.2.2.2 log) as F2.
  { change 2 with (1 + 1). eapply files_step_trans; [exact F1|]. intros log1 C1 S1 B1.
    assert (files_step before 1 sw.1 fid sw log1).
    { destruct sw. eapply files_step_weaken; [by apply files_step_keep|lia]. }
    subst second. destruct (is_empty name || _); [|done].
    destruct (dladdr pc) as [[dn [df|]]|]; [|done|done].
    destruct (fid =? 0); [|done]. destruct sw. apply files_step_record; [done|simpl in *; lia]. }
  clearbody second. destruct second as [n2 [f2 [fid2 sw2]]]. cbn [fst snd] in F2.
  pose proof (record_location before fid2 2 s sw2 log (if is_empty n2 then "Unknown"%string else n2) l f2 F2 Hl ltac:(lia)) as F3.
  by destruct (recordFunction _ fid2 sw2) as [id [s' w']].
Qed.

Lemma building_trans before k k' s s1 s2 w1 w2 log log1 log2 :
  building before k s s1 w1 log log1 -> building before k' s1 s2 w2 log1 log2 ->
  building before (k + k') s s2 w2 log log2.
Proof using Type. intros [G L] [G' L']. split; [by eapply grows_trans|done]. Qed.

Lemma connected_world before s w w' log :
  connected before s w log -> announcements w' = announcements w -> connected before s w' log.
Proof using Type. intros [L F Fi A O Fr U N] E. split; try done. by rewrite E. Qed.

Lemma on_pc_events_build before pc es s w log :
  connected before s w log -> locations_known log (currentLocations_ s) -> Forall pc_quiet es ->
  nextId_ s + 3 * Z.of_nat (length es) < 2 ^ 64 ->
  exists s' w' log', on_pc_events pc es (s, w) = Ok (s', w') /\
    building before (3 * Z.of_nat (length es)) s s' w' log log'.
Proof using Type.
  revert s w log. induction es as [|[f l n|m n] es IH]; intros s w log C Hl Hq Hn.
  { exists s, w, log. split; [done|]. by apply building_refl. }
  2: { by apply Forall_inv in Hq. }
  cbn [length on_pc_events] in *.
  pose proof (handlePcInfo_builds before pc f l n s w log C Hl ltac:(lia)) as Hp.
  destruct (handlePcInfo pc f l n (s, w)) as [s1 w1]. destruct Hp as (log1 & B1).
  destruct B1 as [(C1 & P1 & Bd1) L1].
  destruct (IH s1 w1 log1 C1 L1 ltac:(by apply Forall_inv_tail in Hq) ltac:(lia)) as (s' & w' & log' & E & B').
  exists s', w', log'. split; [done|].
  replace (3 * Z.of_nat (S (length es))) with (3 + 3 * Z.of_nat (length es)) by lia.
  eapply building_trans; [|exact B']. exact (conj (conj C1 (conj P1 Bd1)) L1).
Qed.

Lemma lookup_locations_spec before pc isForeign s w log :
  connected before s w log -> quiet pc ->
  nextId_ s + 3 * Z.of_nat (length (backtrace_pcinfo pc)) < 2 ^ 64 ->
  exists locations s' w' log',
    lookup_locations pc isForeign (s, w) = Ok (locations, (s', w')) /\
    connected before s' w' log' /\ log `prefix_of` log' /\
    locations_known log' locations /\ knownAddrToLocations_ s' !! pc = Some locations /\
    nextId_ s' <= nextId_ s + 3 * Z.of_nat (length (backtrace_pcinfo pc)).
Proof using Type.
  intros C [Hq Hs] Hn. unfold lookup_locations.
  destruct (knownAddrToLocations_ s !! pc) as [ls|] eqn:E.
  { exists ls, s, w, log. split_and!; try done; [by eapply C|lia]. }
  destruct (find_symbol pc isForeign s w Hs) as (name & ->).
  cbn [mbind outcome_bind].
  destruct (on_pc_events_build before pc (backtrace_pcinfo pc) (set_current [] name s) w log)
    as (s2 & w2 & log' & -> & (C2 & P & Bd) & L2);
    [by apply connected_current|constructor|exact Hq|exact Hn|].
  eexists _, _, _, log'. split; [done|]. split_and!; [|done|done|apply lookup_insert_eq|apply Bd].
  destruct C2 as [L F Fi A O Fr U N]. split; try done. simpl.
  intros pc' l' [[<- <-]|[_ El]]%lookup_insert_Some; [done|by eapply A].
Qed.

(** C16. Looking up a program counter for which libbacktrace reports no error
    succeeds, whatever it and the dynamic linker do report: every function a
    location of the result carries, its number with its name, has been announced
    on this connection, a function names only a file announced before it, and no
    number is announced twice, not even across connections.  The tables are
    ready for the next lookup. *)
Theorem lookup_locations_announced before pc isForeign s w log :
  connected before s w log -> quiet pc ->
  nextId_ s + 3 * Z.of_nat (length (backtrace_pcinfo pc)) < 2 ^ 64 ->
  exists locations s' w' log',
    lookup_locations pc isForeign (s, w) = Ok (locations, (s', w')) /\
    connected before s' w' log' /\ log `prefix_of` log' /\
    locations_known log' locations /\ knownAddrToLocations_ s' !! pc = Some locations.
Proof using Type.
  intros C Hq Hn.
  destruct (lookup_locations_spec before pc isForeign s w log C Hq Hn) as (l & s' & w' & log' & ? & ? & ? & ? & ? & _).
  by exists l, s', w', log'.
Qed.
End Spec.

(** ** What a lookup does besides *)

Section Frame.
Context {W : Type} `{SymbolListener W} `{Backtrace}.
Context (R : relation W) `{!PreOrder R}.
Context (R_file : forall i n w, R w (onNewFile i n w)) (R_function : forall i n f w, R w (onNewFunction i n f w)).

Definition keeps_addresses (s s' : symbols) : Prop := knownAddrToLocations_ s' = knownAddrToLocations_ s.

Definition framed (sw sw' : symbols * W) : Prop := keeps_addresses sw.1 sw'.1 /\ R sw.2 sw'.2.

Lemma framed_trans sw sw1 sw2 : framed sw sw1 -> framed sw1 sw2 -> framed sw sw2.
Proof using PreOrder0. intros [K1 R1] [K2 R2]. split; [unfold keeps_addresses in *; by rewrite K2|by etrans]. Qed.

Lemma framed_refl sw : framed sw sw.
Proof using PreOrder0. by split. Qed.

Lemma recordFile_frame name sw : framed sw (recordFile name sw).2.
Proof using PreOrder0 R_file.
  destruct sw as [s w]. unfold recordFile. destruct (knownFileToIds_ s !! name); [apply framed_refl|].
  split; [done|apply R_file].
Qed.

Lemma recordFunction_frame name f sw : framed sw (recordFunction name f sw).2.
Proof using PreOrder0 R_function.
  destruct sw as [s w]. unfold recordFunction. destruct (knownMethodToIds_ s !! name); [apply framed_refl|].
  split; [done|apply R_function].
Qed.

Lemma handlePcInfo_frame pc f l n sw : framed sw (handlePcInfo pc f l n sw).
Proof using PreOrder0 R_file R_function.
  unfold handlePcInfo.
  set (first := match f with Some f => (f, recordFile f sw) | None => (EmptyString, (0, sw)) end).
  assert (framed sw first.2.2) as F1.
  { subst first. destruct f; [apply recordFile_frame|apply framed_refl]. }
  destruct first as [fname [fid sw1]]. cbn [fst snd] in F1.
  set (name := if is_empty (default EmptyString n) && _ then _ else _). clearbody name.
  set (second := if is_empty name || (fid =? 0) then _ else _).
  assert (framed sw second.2.2.2) as F2.
  { subst second. destruct (is_empty name || _); [|done].
    destruct (dladdr pc) as [[dn [df|]]|]; [|done|done].
    destruct (fid =? 0); [|done]. eapply framed_trans; [exact F1|apply recordFile_frame]. }
  clearbody second. destruct second as [n2 [f2 [fid2 sw2]]]. cbn [fst snd] in F2.
  pose proof (recordFunction_frame (if is_empty n2 then "Unknown"%string else n2) fid2 sw2) as F3.
  destruct (recordFunction _ fid2 sw2) as [id [s3 w3]].
  eapply framed_trans; [exact F2|]. exact F3.
Qed.

Lemma on_pc_events_frame pc es sw :
  Forall pc_quiet es -> exists sw', on_pc_events pc es sw = Ok sw' /\ framed sw sw'.
Proof using PreOrder0 R_file R_function.
  intros Hq. revert sw. induction Hq as [|[f l n|m n] es He Hq IH]; intros sw; cbn [on_pc_events].
  - exists sw. split; [done|apply framed_refl].
  - destruct (IH (handlePcInfo pc f l n sw)) as (sw' & E & F). exists sw'. split; [done|].
    eapply framed_trans; [apply handlePcInfo_frame|done].
  - done.
Qed.

(** Whatever libbacktrace reports, a lookup that returns has done nothing to the
    listener but announce and report errors. *)
Lemma lookup_locations_ok pc isForeign s w l s' w' :
  (forall m n v v', handleBtError m n v = Ok v' -> R v v') ->
  lookup_locations pc isForeign (s, w) = Ok (l, (s', w')) -> R w w'.
Proof using PreOrder0 R_file R_function.
  intros R_error. unfold lookup_locations. destruct (knownAddrToLocations_ s !! pc); [by intros [= _ _ <-]|].
  assert (forall es sw sw', on_sym_events es sw = Ok sw' -> R sw.2 sw'.2) as Hsym.
  { induction es as [|[n|m n] es IH]; intros sw sw' E; cbn [on_sym_events] in E; [by injection E as <-|..];
      apply bind_ok in E as (v & E1 & E2); apply IH in E2.
    - assert (sw.2 = v.2) as ->; [|done]. destruct sw as [s0 w0]. unfold handleSyminfo in E1. destruct n as [name|]; [|by injection E1 as <-].
      destruct (String.prefix _ _); [|by injection E1 as <-]. apply bind_ok in E1 as (? & _ & E1). by injection E1 as <-.
    - etrans; [by eapply R_error|exact E2]. }
  assert (forall es sw sw', on_pc_events pc es sw = Ok sw' -> R sw.2 sw'.2) as Hpc.
  { induction es as [|[f ln n|m n] es IH]; intros sw sw' E; cbn [on_pc_events] in E; [by injection E as <-|..].
    - etrans; [|by eapply IH]. apply handlePcInfo_frame.
    - apply bind_ok in E as (v & E1 & E2). apply IH in E2. etrans; [by eapply R_error|exact E2]. }
  intros E. apply bind_ok in E as (sw1 & E1 & E). apply bind_ok in E as ([s2 w2] & E2 & E). injection E as _ _ <-.
  apply Hpc in E2. etrans; [|exact E2]. destruct (negb isForeign); [by apply Hsym in E1|by injection E1 as <-].
Qed.

(** A lookup that libbacktrace has no error for succeeds; it does nothing to the
    listener but announce, and forgets no program counter. *)
Lemma lookup_locations_frame pc isForeign s w :
  quiet pc ->
  exists l s' w', lookup_locations pc isForeign (s, w) = Ok (l, (s', w')) /\ R w w' /\
    knownAddrToLocations_ s' !! pc = Some l /\ knownAddrToLocations_ s ⊆ knownAddrToLocations_ s'.
Proof using PreOrder0 R_file R_function.
  intros [Hq Hs]. unfold lookup_locations.
  destruct (knownAddrToLocations_ s !! pc) as [ls|] eqn:E; [by exists ls, s, w|].
  destruct (find_symbol pc isForeign s w Hs) as (name & ->).
  cbn [mbind outcome_bind].
  destruct (on_pc_events_frame pc (backtrace_pcinfo pc) (set_current [] name s, w) Hq) as ([s2 w2] & -> & K & HR).
  eexists _, _, _. split; [done|]. split; [done|]. cbn [fst snd keeps_addresses] in K. unfold keeps_addresses in K.
  cbn [knownAddrToLocations_ set_current] in K. split; [apply lookup_insert_eq|].
  cbn [knownAddrToLocations_]. rewrite K. by apply insert_subseteq.
Qed.

Lemma lookup_locations_bt_error pc isForeign s w m n rest :
  (forall w, handleBtError m n w = Undefined) -> knownAddrToLocations_ s !! pc = None ->
  Forall sym_quiet (backtrace_syminfo pc) -> backtrace_pcinfo pc = PcError m n :: rest ->
  lookup_locations pc isForeign (s, w) = Undefined.
Proof using Type.
  clear R PreOrder0 R_file R_function. intros Hu E Hs Hpc. unfold lookup_locations. rewrite E.
  destruct (find_symbol pc isForeign s w Hs) as (name & ->).
  cbn [mbind outcome_bind]. rewrite Hpc. cbn [on_pc_events fst snd]. by rewrite Hu.
Qed.
End Frame.

#[local] Instance log_listener : SymbolListener (list announcement) := {
  onNewFile i n w := w ++ [FileIs i n];
  onNewFunction i n f w := w ++ [FunctionIs i n f];
  handleBtError m n w := Ok w
}.
#[local] Instance log_announced : AnnouncedListener (list announcement).
Proof. refine {| announcements := fun w => w |}; done. Defined.
(** An inlined OCaml function, whose names only [backtrace_syminfo] knows. *)
#[local] Instance one_binary : Backtrace := {
  backtrace_pcinfo pc := [PcInfo (Some "a.ml"%string) 3 None; PcInfo None 0 None];
  backtrace_syminfo pc := [SymInfo (Some "camlDune__exe__A__f"%string)];
  dladdr pc := Some (None, Some "a.exe"%string)
}.

Lemma lookup_locations_announced_witness :
  exists locations s' w' log',
    lookup_locations 100 false (no_symbols, []) = Ok (locations, (s', w')) /\
    connected [] s' w' log' /\ [] `prefix_of` log' /\
    locations_known log' locations /\ knownAddrToLocations_ s' !! 100 = Some locations.
Proof.
  apply (lookup_locations_announced [] 100 false no_symbols [] []).
  - by apply connected_new.
  - split; repeat constructor.
  - simpl. lia.
Defined.

Example lookup_inlined :
  exists s, lookup_locations 100 false (no_symbols, []) =
    Ok ([mkLocation 2 3 "a.ml" "A.f"; mkLocation 2 0 "a.exe" "A.f"]%string,
        (s, [FileIs 1 "a.ml"; FunctionIs 2 "A.f" 1; FileIs 3 "a.exe"]%string)).
Proof. eexists. vm_compute. reflexivity. Qed.
