(* ===== verification/Utf8.v ===== *)
(** * Checking UTF-8 ([deps/protobuf/src/google/protobuf/stubs/structurally_valid.cc])

    The state table, the scanner it drives, and the calls built on it.  A string is
    the list of its bytes together with the address of the first one, which decides
    where the loops over eight bytes start; a pointer into it is an index.  Reading
    outside the string, or outside a table, is [Undefined]. *)
From S2P Require Import Prelude.
#[local] Open Scope Z_scope.

(** The exit codes that are not replacements; a smaller entry of a table is the
    next state. *)
Definition kExitIllegalStructure : Z := 240.
Definition kExitOK : Z := 241.
Definition kExitReject : Z := 242.
Definition kExitDoAgain : Z := 253.

Record RemapEntry := mkRemapEntry { delete_bytes : Z; add_bytes : Z; bytes_offset : Z }.

Record UTF8ScanObj := mkUTF8ScanObj {
  state0 : Z;
  state0_size : Z;
  total_size : Z;
  max_expand : Z;
  entry_shift : Z;
  bytes_per_entry : Z;
  losub : Z;
  hiadd : Z;
  state_table : list Z;
  remap_base : list RemapEntry;
  remap_string : list Z;
  fast_state : list Z
}.

(** ** The table of [utf8acceptnonsurrogates_obj] *)

Local Abbreviation X__ := kExitIllegalStructure.
Local Abbreviation RJ_ := kExitReject.

(** 0x000000 Byte 1. *)
Definition state_0 : list Z := [
  0; 0; 0; 0; 0; 0; 0; 0; 0; 0; 0; 0; 0; 0; 0; 0;
  0; 0; 0; 0; 0; 0; 0; 0; 0; 0; 0; 0; 0; 0; 0; 0;
  0; 0; 0; 0; 0; 0; 0; 0; 0; 0; 0; 0; 0; 0; 0; 0;
  0; 0; 0; 0; 0; 0; 0; 0; 0; 0; 0; 0; 0; 0; 0; 0;
  0; 0; 0; 0; 0; 0; 0; 0; 0; 0; 0; 0; 0; 0; 0; 0;
  0; 0; 0; 0; 0; 0; 0; 0; 0; 0; 0; 0; 0; 0; 0; 0;
  0; 0; 0; 0; 0; 0; 0; 0; 0; 0; 0; 0; 0; 0; 0; 0;
  0; 0; 0; 0; 0; 0; 0; 0; 0; 0; 0; 0; 0; 0; 0; 0;
  X__; X__; X__; X__; X__; X__; X__; X__; X__; X__; X__; X__; X__; X__; X__; X__;
  X__; X__; X__; X__; X__; X__; X__; X__; X__; X__; X__; X__; X__; X__; X__; X__;
  X__; X__; X__; X__; X__; X__; X__; X__; X__; X__; X__; X__; X__; X__; X__; X__;
  X__; X__; X__; X__; X__; X__; X__; X__; X__; X__; X__; X__; X__; X__; X__; X__;
  X__; X__; 1; 1; 1; 1; 1; 1; 1; 1; 1; 1; 1; 1; 1; 1;
  1; 1; 1; 1; 1; 1; 1; 1; 1; 1; 1; 1; 1; 1; 1; 1;
  2; 3; 3; 3; 3; 3; 3; 3; 3; 3; 3; 3; 3; 7; 3; 3;
  4; 5; 5; 5; 6; X__; X__; X__; X__; X__; X__; X__; X__; X__; X__; X__].

(** 0x000080 Byte 2 of 2. *)
Definition state_1 : list Z := [
  X__; X__; X__; X__; X__; X__; X__; X__; X__; X__; X__; X__; X__; X__; X__; X__;
  X__; X__; X__; X__; X__; X__; X__; X__; X__; X__; X__; X__; X__; X__; X__; X__;
  X__; X__; X__; X__; X__; X__; X__; X__; X__; X__; X__; X__; X__; X__; X__; X__;
  X__; X__; X__; X__; X__; X__; X__; X__; X__; X__; X__; X__; X__; X__; X__; X__;
  X__; X__; X__; X__; X__; X__; X__; X__; X__; X__; X__; X__; X__; X__; X__; X__;
  X__; X__; X__; X__; X__; X__; X__; X__; X__; X__; X__; X__; X__; X__; X__; X__;
  X__; X__; X__; X__; X__; X__; X__; X__; X__; X__; X__; X__; X__; X__; X__; X__;
  X__; X__; X__; X__; X__; X__; X__; X__; X__; X__; X__; X__; X__; X__; X__; X__;
  0; 0; 0; 0; 0; 0; 0; 0; 0; 0; 0; 0; 0; 0; 0; 0;
  0; 0; 0; 0; 0; 0; 0; 0; 0; 0; 0; 0; 0; 0; 0; 0;
  0; 0; 0; 0; 0; 0; 0; 0; 0; 0; 0; 0; 0; 0; 0; 0;
  0; 0; 0; 0; 0; 0; 0; 0; 0; 0; 0; 0; 0; 0; 0; 0;
  X__; X__; X__; X__; X__; X__; X__; X__; X__; X__; X__; X__; X__; X__; X__; X__;
  X__; X__; X__; X__; X__; X__; X__; X__; X__; X__; X__; X__; X__; X__; X__; X__;
  X__; X__; X__; X__; X__; X__; X__; X__; X__; X__; X__; X__; X__; X__; X__; X__;
  X__; X__; X__; X__; X__; X__; X__; X__; X__; X__; X__; X__; X__; X__; X__; X__].

(** 0x000000 Byte 2 of 3. *)
Definition state_2 : list Z := [
  X__; X__; X__; X__; X__; X__; X__; X__; X__; X__; X__; X__; X__; X__; X__; X__;
  X__; X__; X__; X__; X__; X__; X__; X__; X__; X__; X__; X__; X__; X__; X__; X__;
  X__; X__; X__; X__; X__; X__; X__; X__; X__; X__; X__; X__; X__; X__; X__; X__;
  X__; X__; X__; X__; X__; X__; X__; X__; X__; X__; X__; X__; X__; X__; X__; X__;
  X__; X__; X__; X__; X__; X__; X__; X__; X__; X__; X__; X__; X__; X__; X__; X__;
  X__; X__; X__; X__; X__; X__; X__; X__; X__; X__; X__; X__; X__; X__; X__; X__;
  X__; X__; X__; X__; X__; X__; X__; X__; X__; X__; X__; X__; X__; X__; X__; X__;
  X__; X__; X__; X__; X__; X__; X__; X__; X__; X__; X__; X__; X__; X__; X__; X__;
  X__; X__; X__; X__; X__; X__; X__; X__; X__; X__; X__; X__; X__; X__; X__; X__;
  X__; X__; X__; X__; X__; X__; X__; X__; X__; X__; X__; X__; X__; X__; X__; X__;
  1; 1; 1; 1; 1; 1; 1; 1; 1; 1; 1; 1; 1; 1; 1; 1;
  1; 1; 1; 1; 1; 1; 1; 1; 1; 1; 1; 1; 1; 1; 1; 1;
  X__; X__; X__; X__; X__; X__; X__; X__; X__; X__; X__; X__; X__; X__; X__; X__;
  X__; X__; X__; X__; X__; X__; X__; X__; X__; X__; X__; X__; X__; X__; X__; X__;
  X__; X__; X__; X__; X__; X__; X__; X__; X__; X__; X__; X__; X__; X__; X__; X__;
  X__; X__; X__; X__; X__; X__; X__; X__; X__; X__; X__; X__; X__; X__; X__; X__].

(** 0x001000 Byte 2 of 3. *)
Definition state_3 : list Z := [
  X__; X__; X__; X__; X__; X__; X__; X__; X__; X__; X__; X__; X__; X__; X__; X__;
  X__; X__; X__; X__; X__; X__; X__; X__; X__; X__; X__; X__; X__; X__; X__; X__;
  X__; X__; X__; X__; X__; X__; X__; X__; X__; X__; X__; X__; X__; X__; X__; X__;
  X__; X__; X__; X__; X__; X__; X__; X__; X__; X__; X__; X__; X__; X__; X__; X__;
  X__; X__; X__; X__; X__; X__; X__; X__; X__; X__; X__; X__; X__; X__; X__; X__;
  X__; X__; X__; X__; X__; X__; X__; X__; X__; X__; X__; X__; X__; X__; X__; X__;
  X__; X__; X__; X__; X__; X__; X__; X__; X__; X__; X__; X__; X__; X__; X__; X__;
  X__; X__; X__; X__; X__; X__; X__; X__; X__; X__; X__; X__; X__; X__; X__; X__;
  1; 1; 1; 1; 1; 1; 1; 1; 1; 1; 1; 1; 1; 1; 1; 1;
  1; 1; 1; 1; 1; 1; 1; 1; 1; 1; 1; 1; 1; 1; 1; 1;
  1; 1; 1; 1; 1; 1; 1; 1; 1; 1; 1; 1; 1; 1; 1; 1;
  1; 1; 1; 1; 1; 1; 1; 1; 1; 1; 1; 1; 1; 1; 1; 1;
  X__; X__; X__; X__; X__; X__; X__; X__; X__; X__; X__; X__; X__; X__; X__; X__;
  X__; X__; X__; X__; X__; X__; X__; X__; X__; X__; X__; X__; X__; X__; X__; X__;
  X__; X__; X__; X__; X__; X__; X__; X__; X__; X__; X__; X__; X__; X__; X__; X__;
  X__; X__; X__; X__; X__; X__; X__; X__; X__; X__; X__; X__; X__; X__; X__; X__].

(** 0x000000 Byte 2 of 4. *)
Definition state_4 : list Z := [
  X__; X__; X__; X__; X__; X__; X__; X__; X__; X__; X__; X__; X__; X__; X__; X__;
  X__; X__; X__; X__; X__; X__; X__; X__; X__; X__; X__; X__; X__; X__; X__; X__;
  X__; X__; X__; X__; X__; X__; X__; X__; X__; X__; X__; X__; X__; X__; X__; X__;
  X__; X__; X__; X__; X__; X__; X__; X__; X__; X__; X__; X__; X__; X__; X__; X__;
  X__; X__; X__; X__; X__; X__; X__; X__; X__; X__; X__; X__; X__; X__; X__; X__;
  X__; X__; X__; X__; X__; X__; X__; X__; X__; X__; X__; X__; X__; X__; X__; X__;
  X__; X__; X__; X__; X__; X__; X__; X__; X__; X__; X__; X__; X__; X__; X__; X__;
  X__; X__; X__; X__; X__; X__; X__; X__; X__; X__; X__; X__; X__; X__; X__; X__;
  X__; X__; X__; X__; X__; X__; X__; X__; X__; X__; X__; X__; X__; X__; X__; X__;
  3; 3; 3; 3; 3; 3; 3; 3; 3; 3; 3; 3; 3; 3; 3; 3;
  3; 3; 3; 3; 3; 3; 3; 3; 3; 3; 3; 3; 3; 3; 3; 3;
  3; 3; 3; 3; 3; 3; 3; 3; 3; 3; 3; 3; 3; 3; 3; 3;
  X__; X__; X__; X__; X__; X__; X__; X__; X__; X__; X__; X__; X__; X__; X__; X__;
  X__; X__; X__; X__; X__; X__; X__; X__; X__; X__; X__; X__; X__; X__; X__; X__;
  X__; X__; X__; X__; X__; X__; X__; X__; X__; X__; X__; X__; X__; X__; X__; X__;
  X__; X__; X__; X__; X__; X__; X__; X__; X__; X__; X__; X__; X__; X__; X__; X__].

(** 0x040000 Byte 2 of 4. *)
Definition state_5 : list Z := [
  X__; X__; X__; X__; X__; X__; X__; X__; X__; X__; X__; X__; X__; X__; X__; X__;
  X__; X__; X__; X__; X__; X__; X__; X__; X__; X__; X__; X__; X__; X__; X__; X__;
  X__; X__; X__; X__; X__; X__; X__; X__; X__; X__; X__; X__; X__; X__; X__; X__;
  X__; X__; X__; X__; X__; X__; X__; X__; X__; X__; X__; X__; X__; X__; X__; X__;
  X__; X__; X__; X__; X__; X__; X__; X__; X__; X__; X__; X__; X__; X__; X__; X__;
  X__; X__; X__; X__; X__; X__; X__; X__; X__; X__; X__; X__; X__; X__; X__; X__;
  X__; X__; X__; X__; X__; X__; X__; X__; X__; X__; X__; X__; X__; X__; X__; X__;
  X__; X__; X__; X__; X__; X__; X__; X__; X__; X__; X__; X__; X__; X__; X__; X__;
  3; 3; 3; 3; 3; 3; 3; 3; 3; 3; 3; 3; 3; 3; 3; 3;
  3; 3; 3; 3; 3; 3; 3; 3; 3; 3; 3; 3; 3; 3; 3; 3;
  3; 3; 3; 3; 3; 3; 3; 3; 3; 3; 3; 3; 3; 3; 3; 3;
  3; 3; 3; 3; 3; 3; 3; 3; 3; 3; 3; 3; 3; 3; 3; 3;
  X__; X__; X__; X__; X__; X__; X__; X__; X__; X__; X__; X__; X__; X__; X__; X__;
  X__; X__; X__; X__; X__; X__; X__; X__; X__; X__; X__; X__; X__; X__; X__; X__;
  X__; X__; X__; X__; X__; X__; X__; X__; X__; X__; X__; X__; X__; X__; X__; X__;
  X__; X__; X__; X__; X__; X__; X__; X__; X__; X__; X__; X__; X__; X__; X__; X__].

(** 0x100000 Byte 2 of 4. *)
Definition state_6 : list Z := [
  X__; X__; X__; X__; X__; X__; X__; X__; X__; X__; X__; X__; X__; X__; X__; X__;
  X__; X__; X__; X__; X__; X__; X__; X__; X__; X__; X__; X__; X__; X__; X__; X__;
  X__; X__; X__; X__; X__; X__; X__; X__; X__; X__; X__; X__; X__; X__; X__; X__;
  X__; X__; X__; X__; X__; X__; X__; X__; X__; X__; X__; X__; X__; X__; X__; X__;
  X__; X__; X__; X__; X__; X__; X__; X__; X__; X__; X__; X__; X__; X__; X__; X__;
  X__; X__; X__; X__; X__; X__; X__; X__; X__; X__; X__; X__; X__; X__; X__; X__;
  X__; X__; X__; X__; X__; X__; X__; X__; X__; X__; X__; X__; X__; X__; X__; X__;
  X__; X__; X__; X__; X__; X__; X__; X__; X__; X__; X__; X__; X__; X__; X__; X__;
  3; 3; 3; 3; 3; 3; 3; 3; 3; 3; 3; 3; 3; 3; 3; 3;
  X__; X__; X__; X__; X__; X__; X__; X__; X__; X__; X__; X__; X__; X__; X__; X__;
  X__; X__; X__; X__; X__; X__; X__; X__; X__; X__; X__; X__; X__; X__; X__; X__;
  X__; X__; X__; X__; X__; X__; X__; X__; X__; X__; X__; X__; X__; X__; X__; X__;
  X__; X__; X__; X__; X__; X__; X__; X__; X__; X__; X__; X__; X__; X__; X__; X__;
  X__; X__; X__; X__; X__; X__; X__; X__; X__; X__; X__; X__; X__; X__; X__; X__;
  X__; X__; X__; X__; X__; X__; X__; X__; X__; X__; X__; X__; X__; X__; X__; X__;
  X__; X__; X__; X__; X__; X__; X__; X__; X__; X__; X__; X__; X__; X__; X__; X__].

(** 0x00d000 Byte 2 of 3. *)
Definition state_7 : list Z := [
  X__; X__; X__; X__; X__; X__; X__; X__; X__; X__; X__; X__; X__; X__; X__; X__;
  X__; X__; X__; X__; X__; X__; X__; X__; X__; X__; X__; X__; X__; X__; X__; X__;
  X__; X__; X__; X__; X__; X__; X__; X__; X__; X__; X__; X__; X__; X__; X__; X__;
  X__; X__; X__; X__; X__; X__; X__; X__; X__; X__; X__; X__; X__; X__; X__; X__;
  X__; X__; X__; X__; X__; X__; X__; X__; X__; X__; X__; X__; X__; X__; X__; X__;
  X__; X__; X__; X__; X__; X__; X__; X__; X__; X__; X__; X__; X__; X__; X__; X__;
  X__; X__; X__; X__; X__; X__; X__; X__; X__; X__; X__; X__; X__; X__; X__; X__;
  X__; X__; X__; X__; X__; X__; X__; X__; X__; X__; X__; X__; X__; X__; X__; X__;
  1; 1; 1; 1; 1; 1; 1; 1; 1; 1; 1; 1; 1; 1; 1; 1;
  1; 1; 1; 1; 1; 1; 1; 1; 1; 1; 1; 1; 1; 1; 1; 1;
  8; 8; 8; 8; 8; 8; 8; 8; 8; 8; 8; 8; 8; 8; 8; 8;
  8; 8; 8; 8; 8; 8; 8; 8; 8; 8; 8; 8; 8; 8; 8; 8;
  X__; X__; X__; X__; X__; X__; X__; X__; X__; X__; X__; X__; X__; X__; X__; X__;
  X__; X__; X__; X__; X__; X__; X__; X__; X__; X__; X__; X__; X__; X__; X__; X__;
  X__; X__; X__; X__; X__; X__; X__; X__; X__; X__; X__; X__; X__; X__; X__; X__;
  X__; X__; X__; X__; X__; X__; X__; X__; X__; X__; X__; X__; X__; X__; X__; X__].

(** 0x00d800 Byte 3 of 3. *)
Definition state_8 : list Z := [
  X__; X__; X__; X__; X__; X__; X__; X__; X__; X__; X__; X__; X__; X__; X__; X__;
  X__; X__; X__; X__; X__; X__; X__; X__; X__; X__; X__; X__; X__; X__; X__; X__;
  X__; X__; X__; X__; X__; X__; X__; X__; X__; X__; X__; X__; X__; X__; X__; X__;
  X__; X__; X__; X__; X__; X__; X__; X__; X__; X__; X__; X__; X__; X__; X__; X__;
  X__; X__; X__; X__; X__; X__; X__; X__; X__; X__; X__; X__; X__; X__; X__; X__;
  X__; X__; X__; X__; X__; X__; X__; X__; X__; X__; X__; X__; X__; X__; X__; X__;
  X__; X__; X__; X__; X__; X__; X__; X__; X__; X__; X__; X__; X__; X__; X__; X__;
  X__; X__; X__; X__; X__; X__; X__; X__; X__; X__; X__; X__; X__; X__; X__; X__;
  RJ_; RJ_; RJ_; RJ_; RJ_; RJ_; RJ_; RJ_; RJ_; RJ_; RJ_; RJ_; RJ_; RJ_; RJ_; RJ_;
  RJ_; RJ_; RJ_; RJ_; RJ_; RJ_; RJ_; RJ_; RJ_; RJ_; RJ_; RJ_; RJ_; RJ_; RJ_; RJ_;
  RJ_; RJ_; RJ_; RJ_; RJ_; RJ_; RJ_; RJ_; RJ_; RJ_; RJ_; RJ_; RJ_; RJ_; RJ_; RJ_;
  RJ_; RJ_; RJ_; RJ_; RJ_; RJ_; RJ_; RJ_; RJ_; RJ_; RJ_; RJ_; RJ_; RJ_; RJ_; RJ_;
  X__; X__; X__; X__; X__; X__; X__; X__; X__; X__; X__; X__; X__; X__; X__; X__;
  X__; X__; X__; X__; X__; X__; X__; X__; X__; X__; X__; X__; X__; X__; X__; X__;
  X__; X__; X__; X__; X__; X__; X__; X__; X__; X__; X__; X__; X__; X__; X__; X__;
  X__; X__; X__; X__; X__; X__; X__; X__; X__; X__; X__; X__; X__; X__; X__; X__].

Definition utf8acceptnonsurrogates : list Z :=
  concat [state_0; state_1; state_2; state_3; state_4; state_5; state_6; state_7; state_8].

Definition utf8acceptnonsurrogates_fast : list Z := [
  0; 0; 0; 0; 0; 0; 0; 0; 0; 0; 0; 0; 0; 0; 0; 0;
  0; 0; 0; 0; 0; 0; 0; 0; 0; 0; 0; 0; 0; 0; 0; 0;
  0; 0; 0; 0; 0; 0; 0; 0; 0; 0; 0; 0; 0; 0; 0; 0;
  0; 0; 0; 0; 0; 0; 0; 0; 0; 0; 0; 0; 0; 0; 0; 0;
  0; 0; 0; 0; 0; 0; 0; 0; 0; 0; 0; 0; 0; 0; 0; 0;
  0; 0; 0; 0; 0; 0; 0; 0; 0; 0; 0; 0; 0; 0; 0; 0;
  0; 0; 0; 0; 0; 0; 0; 0; 0; 0; 0; 0; 0; 0; 0; 0;
  0; 0; 0; 0; 0; 0; 0; 0; 0; 0; 0; 0; 0; 0; 0; 0;
  1; 1; 1; 1; 1; 1; 1; 1; 1; 1; 1; 1; 1; 1; 1; 1;
  1; 1; 1; 1; 1; 1; 1; 1; 1; 1; 1; 1; 1; 1; 1; 1;
  1; 1; 1; 1; 1; 1; 1; 1; 1; 1; 1; 1; 1; 1; 1; 1;
  1; 1; 1; 1; 1; 1; 1; 1; 1; 1; 1; 1; 1; 1; 1; 1;
  1; 1; 1; 1; 1; 1; 1; 1; 1; 1; 1; 1; 1; 1; 1; 1;
  1; 1; 1; 1; 1; 1; 1; 1; 1; 1; 1; 1; 1; 1; 1; 1;
  1; 1; 1; 1; 1; 1; 1; 1; 1; 1; 1; 1; 1; 1; 1; 1;
  1; 1; 1; 1; 1; 1; 1; 1; 1; 1; 1; 1; 1; 1; 1; 1].

Definition utf8acceptnonsurrogates_obj : UTF8ScanObj :=
  mkUTF8ScanObj 0 256 2304 0 8 1 0x20202020 0 utf8acceptnonsurrogates [mkRemapEntry 0 0 0] [0]
    utf8acceptnonsurrogates_fast.

(** ** The scanner *)

Definition table_at (table : list Z) (i : Z) : outcome Z :=
  if i <? 0 then Undefined else in_bounds (table !! Z.to_nat i).

(** [Tbl] is an index of the state table; the difference is compared unsigned. *)
Definition InStateZero (st : UTF8ScanObj) (Tbl : Z) : bool := u32 (Tbl - state0 st) <? state0_size st.

Definition aligned (addr : Z) (src : nat) : bool := Z.land (addr + Z.of_nat src) 0x07 =? 0.

(** A 32-bit load, on a little-endian machine. *)
Definition load32 (str : list Z) (src : nat) : outcome Z :=
  b0 ← in_bounds (str !! src);
  b1 ← in_bounds (str !! (src + 1)%nat);
  b2 ← in_bounds (str !! (src + 2)%nat);
  b3 ← in_bounds (str !! (src + 3)%nat);
  Ok (b0 + 2 ^ 8 * b1 + 2 ^ 16 * b2 + 2 ^ 24 * b3).

Section Scan.
Variables (st : UTF8ScanObj) (addr : Z) (str : list Z) (srclimit : nat).

(** [Tbl2[src[0]]]. *)
Definition fast_at (src : nat) : outcome Z :=
  c ← in_bounds (str !! src);
  table_at (fast_state st) c.

(** Bytes up to an address that is a multiple of 8; [todo] bytes are left. *)
Fixpoint align_loop (todo src : nat) : outcome nat :=
  match todo with
  | O => Ok src
  | S todo =>
      if aligned addr src then Ok src
      else
        f ← fast_at src;
        if f =? 0 then align_loop todo (S src) else Ok src
  end.

Definition fast_four (src : nat) : outcome Z :=
  a ← fast_at src;
  b ← fast_at (src + 1);
  c ← fast_at (src + 2);
  d ← fast_at (src + 3);
  Ok (Z.lor (Z.lor a b) (Z.lor c d)).

(** Groups of eight bytes. *)
Fixpoint groups_loop (todo src : nat) : outcome nat :=
  match todo with
  | O => Ok src
  | S todo =>
      if (src + 7 <? srclimit)%nat then
        s0123 ← load32 str src;
        s4567 ← load32 str (src + 4);
        let src := (src + 8)%nat in
        let temp := Z.lor (Z.lor (Z.lor (u32 (s0123 - losub st)) (u32 (s0123 + hiadd st)))
                      (u32 (s4567 - losub st))) (u32 (s4567 + hiadd st)) in
        if negb (Z.land temp 0x80808080 =? 0) then
          e0123 ← fast_four (src - 8);
          if negb (e0123 =? 0) then Ok (src - 8)%nat
          else
            e0123 ← fast_four (src - 4);
            if negb (e0123 =? 0) then Ok (src - 4)%nat
            else groups_loop todo src
        else groups_loop todo src
      else Ok src
  end.

(** The scan by the state table: the position, the row and the last entry. *)
Fixpoint byte_loop (todo src : nat) (Tbl e : Z) : outcome (nat * Z * Z) :=
  match todo with
  | O => Ok (src, Tbl, e)
  | S todo =>
      c ← in_bounds (str !! src);
      e ← table_at (state_table st) (Tbl + c);
      if kExitIllegalStructure <=? e then Ok (S src, Tbl, e)
      else byte_loop todo (S src) (state0 st + Z.shiftl e (entry_shift st)) e
  end.

(** Back to the first byte of a character. *)
Fixpoint back_up (src : nat) : outcome nat :=
  match src with
  | O => Undefined
  | S src =>
      if (src =? 0)%nat then Ok src
      else
        c ← in_bounds (str !! src);
        if Z.land c 0xc0 =? 0x80 then back_up src else Ok src
  end.

(** From the label [DoAgain] on, for at most [rounds] passes. *)
Fixpoint DoAgain (rounds src : nat) : outcome (Z * nat) :=
  match rounds with
  | O => Blocked
  | S rounds =>
      src ← align_loop (srclimit - src) src;
      src ← (if aligned addr src then groups_loop (srclimit - src) src else Ok src);
      '(src, Tbl, e) ← byte_loop (srclimit - src) src (state0 st) 0;
      '(src, e) ←
        (if kExitIllegalStructure <=? e then
           let src := (src - 1)%nat in
           src ← (if negb (InStateZero st Tbl) then back_up src else Ok src);
           Ok (src, e)
         else if negb (InStateZero st Tbl) then
           src ← back_up src;
           Ok (src, kExitIllegalStructure)
         else Ok (src, kExitOK));
      if e =? kExitDoAgain then DoAgain rounds src else Ok (e, src)
  end.

End Scan.

(** The reason for exiting, and the bytes consumed. *)
Definition UTF8GenericScan (st : UTF8ScanObj) (addr : Z) (str : list Z) (str_length : nat) : outcome (Z * nat) :=
  if (str_length =? 0)%nat then Ok (kExitOK, O)
  else DoAgain st addr str str_length (S str_length) 0.

Section FastAscii.
Variables (st : UTF8ScanObj) (addr : Z) (str : list Z) (str_length : nat).

Fixpoint align_ascii (todo src : nat) : outcome nat :=
  match todo with
  | O => Ok src
  | S todo =>
      if aligned addr src then Ok src
      else
        c ← in_bounds (str !! src);
        if c <? 0x80 then align_ascii todo (S src) else Ok src
  end.

Fixpoint groups_ascii (todo src : nat) : outcome nat :=
  match todo with
  | O => Ok src
  | S todo =>
      if (src + 7 <? str_length)%nat then
        s0123 ← load32 str src;
        s4567 ← load32 str (src + 4);
        if Z.land (Z.lor s0123 s4567) 0x80808080 =? 0 then groups_ascii todo (src + 8) else Ok src
      else Ok src
  end.

Fixpoint bytes_ascii (todo src : nat) : outcome nat :=
  match todo with
  | O => Ok src
  | S todo =>
      c ← in_bounds (str !! src);
      if c <? 0x80 then bytes_ascii todo (S src) else Ok src
  end.

Fixpoint ascii_rounds (rounds src : nat) : outcome (Z * nat) :=
  match rounds with
  | O => Blocked
  | S rounds =>
      src ← align_ascii (str_length - src) src;
      src ← (if aligned addr src then groups_ascii (str_length - src) src else Ok src);
      src ← bytes_ascii (str_length - src) src;
      '(exit_reason, rest_consumed) ←
        UTF8GenericScan st (addr + Z.of_nat src) (drop src str) (str_length - src);
      let src := (src + rest_consumed)%nat in
      if exit_reason =? kExitDoAgain then ascii_rounds rounds src else Ok (exit_reason, src)
  end.

End FastAscii.

Definition UTF8GenericScanFastAscii (st : UTF8ScanObj) (addr : Z) (str : list Z) (str_length : nat)
    : outcome (Z * nat) :=
  if (str_length =? 0)%nat then Ok (kExitOK, O)
  else ascii_rounds st addr str str_length (S str_length) 0.

(** ** The calls *)

(** [module_initialized_] becomes true with the static initialisers of the
    library. *)
Definition IsStructurallyValidUTF8 (module_initialized_ : bool) (addr : Z) (buf : list Z) (len : nat) : outcome bool :=
  if negb module_initialized_ then Ok true
  else
    '(_, bytes_consumed) ← UTF8GenericScanFastAscii utf8acceptnonsurrogates_obj addr buf len;
    Ok (bytes_consumed =? len)%nat.

Definition UTF8SpnStructurallyValid (module_initialized_ : bool) (addr : Z) (str : list Z) : outcome nat :=
  if negb module_initialized_ then Ok (length str)
  else
    '(_, bytes_consumed) ← UTF8GenericScanFastAscii utf8acceptnonsurrogates_obj addr str (length str);
    Ok bytes_consumed.

(** The loop over the bogus bytes: [dst] is what [idst] holds so far. *)
Fixpoint coerce_loop (module_initialized_ : bool) (addr : Z) (isrc : list Z) (replace_char : Z) (todo src : nat)
    (dst : list Z) : outcome (list Z) :=
  match todo with
  | O => Ok dst
  | S todo =>
      if (src <? length isrc)%nat then
        let dst := dst ++ [replace_char] in
        let src := S src in
        n ← UTF8SpnStructurallyValid module_initialized_ (addr + Z.of_nat src) (drop src isrc);
        coerce_loop module_initialized_ addr isrc replace_char todo (src + n)
          (dst ++ take n (drop src isrc))
      else Ok dst
  end.

(** [inl]: the pointer to the source.  [inr]: the pointer to [idst], and what
    it holds. *)
Definition UTF8CoerceToStructurallyValid (module_initialized_ : bool) (addr : Z) (src_str : list Z) (replace_char : Z)
    : outcome (list Z + list Z) :=
  let len := length src_str in
  n ← UTF8SpnStructurallyValid module_initialized_ addr src_str;
  if (n =? len)%nat then Ok (inl src_str)
  else
    dst ← coerce_loop module_initialized_ addr src_str replace_char (len - n) n (take n src_str);
    Ok (inr dst).
