(* ===== verification/Utf8Spec.v ===== *)
(** * What the UTF-8 scanner accepts

    The table is the transition function of a small automaton ([utf8_step]); the
    automaton accepts exactly the sequences of encoded Unicode scalar values
    ([valid]); and the scanner, its loops over eight bytes included, finds the
    longest prefix the automaton accepts, wherever the string is in memory and
    without reading outside it. *)
From S2P Require Import Prelude Utf8.
#[local] Open Scope Z_scope.

(** ** Unicode *)

(** The code points that UTF-8 encodes: those that are not surrogates. *)
Definition scalar (cp : Z) : Prop := 0 <= cp <= 0x10FFFF /\ ~ (0xD800 <= cp <= 0xDFFF).

Definition encode (cp : Z) : list Z :=
  if cp <? 0x80 then [cp]
  else if cp <? 0x800 then [0xC0 + cp / 64; 0x80 + cp mod 64]
  else if cp <? 0x10000 then [0xE0 + cp / 4096; 0x80 + cp / 64 mod 64; 0x80 + cp mod 64]
  else [0xF0 + cp / 262144; 0x80 + cp / 4096 mod 64; 0x80 + cp / 64 mod 64; 0x80 + cp mod 64].

Definition valid (bs : list Z) : Prop := exists cps, Forall scalar cps /\ bs = concat (encode <$> cps).

(** ** The automaton *)

Definition between (a b c : Z) : bool := (a <=? c) && (c <=? b).

Lemma between_true a b c : between a b c = true <-> a <= c <= b.
Proof. unfold between. lia. Qed.

Lemma between_false a b c : between a b c = false <-> c < a \/ b < c.
Proof. unfold between. lia. Qed.

(** State 0 expects a character; states 1 and 3 one and two more bytes; states 2
    and 4 to 7 a second byte from a smaller range; state 8 is that of a
    surrogate. *)
Definition utf8_step (q c : Z) : option Z :=
  if q =? 0 then
    if between 0 0x7F c then Some 0
    else if between 0xC2 0xDF c then Some 1
    else if between 0xE0 0xE0 c then Some 2
    else if between 0xE1 0xEC c then Some 3
    else if between 0xED 0xED c then Some 7
    else if between 0xEE 0xEF c then Some 3
    else if between 0xF0 0xF0 c then Some 4
    else if between 0xF1 0xF3 c then Some 5
    else if between 0xF4 0xF4 c then Some 6
    else None
  else if q =? 1 then if between 0x80 0xBF c then Some 0 else None
  else if q =? 2 then if between 0xA0 0xBF c then Some 1 else None
  else if q =? 3 then if between 0x80 0xBF c then Some 1 else None
  else if q =? 4 then if between 0x90 0xBF c then Some 3 else None
  else if q =? 5 then if between 0x80 0xBF c then Some 3 else None
  else if q =? 6 then if between 0x80 0x8F c then Some 3 else None
  else if q =? 7 then
    if between 0x80 0x9F c then Some 1 else if between 0xA0 0xBF c then Some 8 else None
  else None.

Fixpoint run (q : Z) (bs : list Z) : option Z :=
  match bs with
  | [] => Some q
  | c :: bs => q ← utf8_step q c; run q bs
  end.

Definition accepted (bs : list Z) : Prop := run 0 bs = Some 0.

Lemma run_app q bs bs' : run q (bs ++ bs') = run q bs ≫= fun q => run q bs'.
Proof. revert q. induction bs as [|c bs IH]; intros q; simpl; [done|]. destruct (utf8_step q c); simpl; auto. Qed.

Lemma accepted_app bs bs' : accepted bs -> run 0 (bs ++ bs') = run 0 bs'.
Proof. intros E. by rewrite run_app, E. Qed.

(** Case analysis on the ranges of the goal; the hypotheses exclude most cases. *)
Ltac ranges :=
  repeat match goal with
    | |- context [between ?a ?b ?c] =>
        let E := fresh "Eb" in destruct (between a b c) eqn:E;
        [apply between_true in E|apply between_false in E]; cbn; try lia
    end.

Ltac ranges_in H :=
  repeat match type of H with
    | context [between ?a ?b ?c] =>
        let E := fresh "Eb" in destruct (between a b c) eqn:E;
        [apply between_true in E|apply between_false in E]; cbn in H; try discriminate; try lia
    end.

(** The six-bit digits of a number. *)
Lemma digits2 cp : exists h l, cp / 64 = h /\ cp mod 64 = l /\ cp = 64 * h + l /\ 0 <= l < 64.
Proof.
  exists (cp / 64), (cp mod 64). pose proof (Z.div_mod cp 64 ltac:(lia)).
  pose proof (Z.mod_pos_bound cp 64 ltac:(lia)). lia.
Qed.

Lemma digits3 cp : exists h m l, cp / 4096 = h /\ cp / 64 mod 64 = m /\ cp mod 64 = l /\
  cp = 4096 * h + 64 * m + l /\ 0 <= m < 64 /\ 0 <= l < 64.
Proof.
  destruct (digits2 cp) as (q & l & Eq & El & Ecp & Hl). destruct (digits2 q) as (h & m & Eh & Em & Eq' & Hm).
  exists h, m, l. rewrite Eq. split_and!; try done; try lia.
  rewrite <- Eh, <- Eq, Z.div_div by lia. done.
Qed.

Lemma digits4 cp : exists h m n l, cp / 262144 = h /\ cp / 4096 mod 64 = m /\ cp / 64 mod 64 = n /\ cp mod 64 = l /\
  cp = 262144 * h + 4096 * m + 64 * n + l /\ 0 <= m < 64 /\ 0 <= n < 64 /\ 0 <= l < 64.
Proof.
  destruct (digits3 cp) as (q & n & l & Eq & En & El & Ecp & Hn & Hl).
  destruct (digits2 q) as (h & m & Eh & Em & Eq' & Hm).
  exists h, m, n, l. rewrite Eq. split_and!; try done; try lia.
  rewrite <- Eh, <- Eq, Z.div_div by lia. done.
Qed.

Lemma run_encode cp : scalar cp -> run 0 (encode cp) = Some 0.
Proof.
  intros [Hr Hs]. unfold encode.
  destruct (Z.ltb_spec cp 0x80); [|destruct (Z.ltb_spec cp 0x800); [|destruct (Z.ltb_spec cp 0x10000)]].
  - cbn. by ranges.
  - destruct (digits2 cp) as (h & l & -> & -> & -> & Hl). cbn. by ranges.
  - destruct (digits3 cp) as (h & m & l & -> & -> & -> & -> & Hm & Hl). cbn. by ranges.
  - destruct (digits4 cp) as (h & m & n & l & -> & -> & -> & -> & -> & Hm & Hn & Hl). cbn. by ranges.
Qed.

Lemma valid_accepted bs : valid bs -> accepted bs.
Proof.
  intros (cps & Hcps & ->). induction Hcps as [|cp cps Hcp _ IH]; [done|].
  cbn [fmap list_fmap concat]. unfold accepted. by rewrite accepted_app by (by apply run_encode).
Qed.

(** What [run q bs] says of the rest of a character. *)
Lemma run_cons q c bs q' : run q (c :: bs) = Some q' -> exists r, utf8_step q c = Some r /\ run r bs = Some q'.
Proof. cbn. destruct (utf8_step q c) as [r|]; [|done]. by exists r. Qed.

Lemma tail_1 bs : run 1 bs = Some 0 -> exists l rest, bs = 0x80 + l :: rest /\ 0 <= l < 64 /\ accepted rest.
Proof.
  destruct bs as [|c bs]; [done|]. intros (q & E & R)%run_cons. cbn in E. ranges_in E. injection E as <-.
  exists (c - 0x80), bs. split_and!; try lia; [f_equal; lia|done].
Qed.

(** States 2, 3 and 7 differ in the second bytes they take. *)
Lemma tail_2 q bs : q = 2 \/ q = 3 \/ q = 7 -> run q bs = Some 0 ->
  exists m l rest, bs = 0x80 + m :: 0x80 + l :: rest /\ 0 <= m < 64 /\ 0 <= l < 64 /\ accepted rest /\
    (q = 2 -> 32 <= m) /\ (q = 7 -> m < 32).
Proof.
  intros Hq. destruct bs as [|c bs]; [destruct Hq as [->|[->| ->]]; done|].
  intros (r & E & R)%run_cons.
  assert (r <> 8) as Hr by (intros ->; destruct bs as [|? ?]; [done|]; by apply run_cons in R as (? & ? & ?)).
  assert (0x80 <= c <= 0xBF /\ r = 1 /\ (q = 2 -> 0xA0 <= c) /\ (q = 7 -> c <= 0x9F)) as (Hc & -> & H2 & H7).
  { destruct Hq as [->|[->| ->]]; cbn in E; ranges_in E; injection E as <-; lia. }
  apply tail_1 in R as (l & rest & -> & Hl & Hrest).
  exists (c - 0x80), l, rest. split_and!; try lia; [f_equal; lia|done].
Qed.

Lemma tail_3 q bs : 4 <= q <= 6 -> run q bs = Some 0 ->
  exists m n l rest, bs = 0x80 + m :: 0x80 + n :: 0x80 + l :: rest /\ 0 <= m < 64 /\ 0 <= n < 64 /\ 0 <= l < 64 /\
    accepted rest /\ (q = 4 -> 16 <= m) /\ (q = 6 -> m < 16).
Proof.
  intros Hq. destruct bs as [|c bs]; [cbn; intros [= ?]; lia|]. intros (r & E & R)%run_cons.
  assert (0x80 <= c <= 0xBF /\ r = 3 /\ (q = 4 -> 0x90 <= c) /\ (q = 6 -> c <= 0x8F)) as (Hc & -> & H4 & H6).
  { assert (q = 4 \/ q = 5 \/ q = 6) as [->|[->| ->]] by lia; cbn in E; ranges_in E; injection E as <-; lia. }
  apply tail_2 in R as (n & l & rest & -> & Hn & Hl & Hrest & _); [|lia].
  exists (c - 0x80), n, l, rest. split_and!; try lia; [f_equal; lia|done].
Qed.

Lemma encode_2 h l : 2 <= h < 32 -> 0 <= l < 64 -> encode (64 * h + l) = [0xC0 + h; 0x80 + l].
Proof.
  intros Hh Hl. unfold encode. rewrite (proj2 (Z.ltb_ge _ 0x80)), (proj2 (Z.ltb_lt _ 0x800)) by lia.
  destruct (digits2 (64 * h + l)) as (h' & l' & -> & -> & E & Hl'). repeat f_equal; lia.
Qed.

Lemma encode_3 h m l : 0 <= h < 16 -> 0 <= m < 64 -> 0 <= l < 64 -> 0x800 <= 4096 * h + 64 * m + l ->
  encode (4096 * h + 64 * m + l) = [0xE0 + h; 0x80 + m; 0x80 + l].
Proof.
  intros Hh Hm Hl Hr. unfold encode.
  rewrite (proj2 (Z.ltb_ge _ 0x80)), (proj2 (Z.ltb_ge _ 0x800)), (proj2 (Z.ltb_lt _ 0x10000)) by lia.
  destruct (digits3 (4096 * h + 64 * m + l)) as (h' & m' & l' & -> & -> & -> & E & Hm' & Hl'). repeat f_equal; lia.
Qed.

Lemma encode_4 h m n l : 0 <= h -> 0 <= m < 64 -> 0 <= n < 64 -> 0 <= l < 64 -> 0x10000 <= 262144 * h + 4096 * m ->
  encode (262144 * h + 4096 * m + 64 * n + l) = [0xF0 + h; 0x80 + m; 0x80 + n; 0x80 + l].
Proof.
  intros Hh Hm Hn Hl Hr. unfold encode.
  rewrite (proj2 (Z.ltb_ge _ 0x80)), (proj2 (Z.ltb_ge _ 0x800)), (proj2 (Z.ltb_ge _ 0x10000)) by lia.
  destruct (digits4 (262144 * h + 4096 * m + 64 * n + l)) as (h' & m' & n' & l' & -> & -> & -> & -> & E & ?).
  repeat f_equal; lia.
Qed.

(** The states a first byte leads to. *)
Lemma first_byte c q : utf8_step 0 c = Some q ->
  (q = 0 /\ 0 <= c < 0x80) \/ (q = 1 /\ 0xC2 <= c <= 0xDF) \/
  ((q = 2 \/ q = 3 \/ q = 7) /\ 0xE0 <= c <= 0xEF /\ (c = 0xE0 -> q = 2) /\ (c = 0xED -> q = 7)) \/
  (4 <= q <= 6 /\ 0xF0 <= c <= 0xF4 /\ (c = 0xF0 -> q = 4) /\ (c = 0xF4 -> q = 6)).
Proof. intros E. cbn in E. ranges_in E; injection E as <-; lia. Qed.

Lemma first_char c bs : accepted (c :: bs) -> exists cp rest, scalar cp /\ c :: bs = encode cp ++ rest /\ accepted rest.
Proof.
  intros (q & E & R)%run_cons.
  apply first_byte in E as [[-> Hc]|[[-> Hc]|[(Hq & Hc & H2 & H7)|(Hq & Hc & H4 & H6)]]].
  - exists c, bs. unfold encode. rewrite (proj2 (Z.ltb_lt _ 0x80)) by lia. split_and!; try done; unfold scalar; lia.
  - apply tail_1 in R as (l & rest & -> & Hl & Hrest). exists (64 * (c - 0xC0) + l), rest.
    rewrite encode_2 by lia. split_and!; [unfold scalar; lia|simpl; repeat f_equal; lia|done].
  - apply tail_2 in R as (m & l & rest & -> & Hm & Hl & Hrest & H2' & H7'); [|done].
    exists (4096 * (c - 0xE0) + 64 * m + l), rest.
    rewrite encode_3 by lia. split_and!; [unfold scalar; lia|simpl; repeat f_equal; lia|done].
  - apply tail_3 in R as (m & n & l & rest & -> & Hm & Hn & Hl & Hrest & H4' & H6'); [|done].
    exists (262144 * (c - 0xF0) + 4096 * m + 64 * n + l), rest.
    rewrite encode_4 by lia. split_and!; [unfold scalar; lia|simpl; repeat f_equal; lia|done].
Qed.

Lemma encode_nonempty cp : (0 < length (encode cp))%nat.
Proof. unfold encode. repeat case_match; simpl; lia. Qed.

Lemma accepted_valid bs : accepted bs <-> valid bs.
Proof.
  split; [|apply valid_accepted]. remember (length bs) as n eqn:Hn. revert bs Hn.
  induction n as [n IH] using lt_wf_ind. intros [|c bs] Hn H; [by exists []|].
  apply first_char in H as (cp & rest & Hcp & E & Hrest). rewrite E in Hn |- *.
  rewrite length_app in Hn. pose proof (encode_nonempty cp).
  destruct (IH (length rest) ltac:(lia) rest eq_refl Hrest) as (cps & Hcps & ->).
  exists (cp :: cps). split; [by constructor|done].
Qed.

(** ** The table *)

(** The entry of a row for a byte: the next state, or an exit code. *)
Definition entry (q c : Z) : Z :=
  match utf8_step q c with
  | Some q' => q'
  | None => if (q =? 8) && between 0x80 0xBF c then kExitReject else kExitIllegalStructure
  end.

Lemma table_entries : utf8acceptnonsurrogates = concat ((fun q => entry q <$> seqZ 0 256) <$> seqZ 0 9).
Proof. reflexivity. Qed.

Lemma fast_entries : utf8acceptnonsurrogates_fast = (fun c => if c <? 0x80 then 0 else 1) <$> seqZ 0 256.
Proof. reflexivity. Qed.

Lemma lookup_concat {A} (k : nat) (rows : list (list A)) i j :
  Forall (fun r => length r = k) rows -> (j < k)%nat ->
  concat rows !! (i * k + j)%nat = r ← rows !! i; r !! j.
Proof.
  intros Hrows Hj. revert i. induction Hrows as [|r rows Hr _ IH]; intros i; [done|].
  destruct i as [|i]; simpl.
  - by rewrite lookup_app_l by lia.
  - rewrite lookup_app_r by lia. rewrite <- IH. f_equal. lia.
Qed.

Definition state (q : Z) : Prop := 0 <= q <= 8.

Lemma utf8_step_state q c q' : state q -> utf8_step q c = Some q' -> state q'.
Proof.
  unfold state, utf8_step. intros Hq E. repeat case_match; try discriminate; injection E as <-; lia.
Qed.

Lemma table_lookup q c : state q -> byte c ->
  table_at (state_table utf8acceptnonsurrogates_obj) (256 * q + c) = Ok (entry q c).
Proof.
  unfold state, byte, table_at. intros Hq Hc. rewrite (proj2 (Z.ltb_ge _ 0)) by lia. cbn [state_table utf8acceptnonsurrogates_obj].
  rewrite table_entries. replace (Z.to_nat (256 * q + c)) with (Z.to_nat q * 256 + Z.to_nat c)%nat by lia.
  rewrite lookup_concat; [|apply Forall_fmap, Forall_true; intros r; unfold compose; by rewrite length_fmap, length_seqZ|lia].
  rewrite list_lookup_fmap, lookup_seqZ_lt by lia. cbn [fmap option_fmap option_map mbind option_bind].
  rewrite list_lookup_fmap, lookup_seqZ_lt by lia. simpl. by rewrite !Z2Nat.id by lia.
Qed.

Lemma fast_lookup c : byte c ->
  table_at (fast_state utf8acceptnonsurrogates_obj) c = Ok (if c <? 0x80 then 0 else 1).
Proof.
  unfold byte, table_at. intros Hc. rewrite (proj2 (Z.ltb_ge _ 0)) by lia. cbn [fast_state utf8acceptnonsurrogates_obj].
  rewrite fast_entries, list_lookup_fmap, lookup_seqZ_lt by lia. simpl. by rewrite Z2Nat.id by lia.
Qed.

(** An entry is a state, or an exit code that is not [kExitDoAgain]. *)
Lemma entry_cases q c : state q ->
  match utf8_step q c with
  | Some q' => entry q c = q' /\ state q' /\ (kExitIllegalStructure <=? entry q c) = false
  | None => (kExitIllegalStructure <=? entry q c) = true /\ entry q c <> kExitDoAgain /\ entry q c <> kExitOK
  end.
Proof.
  intros Hq. unfold entry. destruct (utf8_step q c) as [q'|] eqn:E.
  - apply utf8_step_state in E as Hq'; [|done]. split_and!; try done. unfold state, kExitIllegalStructure in *. lia.
  - by case_match.
Qed.

(** ** Prefixes *)

Definition continuation (c : Z) : bool := between 0x80 0xBF c.

Lemma continuation_mask c : byte c -> (Z.land c 0xc0 =? 0x80) = continuation c.
Proof. intros Hc. apply Bool.eqb_prop. revert c Hc. by apply all_bytes. Qed.

Lemma step_kind q c q' : state q -> utf8_step q c = Some q' -> q' <> 0 -> continuation c = negb (q =? 0).
Proof.
  unfold state, utf8_step, continuation. intros Hq E Hq'. unfold between in *.
  repeat case_match; try discriminate; injection E as <-; lia.
Qed.

(** [n] bytes of [bs] are whole characters, and no more of them are. *)
Record longest (bs : list Z) (n : nat) : Prop := {
  longest_within : (n <= length bs)%nat;
  longest_accepted : accepted (take n bs);
  longest_most m : (n < m <= length bs)%nat -> ~ accepted (take m bs)
}.

(** The scan is at byte [src] in state [q]; the character it is in begins at
    byte [n]. *)
Record scanned (bs : list Z) (n src : nat) (q : Z) : Prop := {
  scanned_within : (n <= src <= length bs)%nat;
  scanned_accepted : accepted (take n bs);
  scanned_run : run 0 (take src bs) = Some q;
  scanned_state : state q;
  scanned_zero : q = 0 <-> n = src;
  scanned_bytes i : (n <= i < src)%nat -> exists c, bs !! i = Some c /\ continuation c = negb (i =? n)%nat;
  scanned_most m : (n < m <= src)%nat -> ~ accepted (take m bs)
}.

Lemma scanned_at_zero bs src : (src <= length bs)%nat -> accepted (take src bs) -> scanned bs src src 0.
Proof. intros Hl Ha. split; try done; unfold state; lia. Qed.

Lemma run_take_S bs src c q : bs !! src = Some c -> run 0 (take src bs) = Some q ->
  run 0 (take (S src) bs) = utf8_step q c.
Proof. intros Hc E. rewrite (take_S_r _ _ c Hc), run_app, E. simpl. by destruct (utf8_step q c). Qed.

Lemma scanned_step bs n src q c q' :
  scanned bs n src q -> bs !! src = Some c -> utf8_step q c = Some q' ->
  scanned bs (if q' =? 0 then S src else n) (S src) q'.
Proof.
  intros [[Hn Hl] Ha Hr Hs Hz Hb Hm] Hc E. pose proof (lookup_lt_Some _ _ _ Hc) as Hlt.
  pose proof (run_take_S _ _ _ _ Hc Hr) as Hr'. rewrite E in Hr'.
  destruct (Z.eqb_spec q' 0) as [->|Hq']; [by apply scanned_at_zero|].
  split; try done; try lia.
  - by eapply utf8_step_state.
  - intros i Hi. destruct (decide (i = src)) as [->|]; [|apply Hb; lia].
    exists c. split; [done|]. rewrite (step_kind _ _ _ Hs E Hq').
    destruct (Z.eqb_spec q 0), (Nat.eqb_spec src n); simpl; lia.
  - intros m Hi. destruct (decide (m = S src)) as [->|]; [|apply Hm; lia].
    unfold accepted. rewrite Hr'. congruence.
Qed.

Lemma scanned_stuck bs n src q c :
  scanned bs n src q -> bs !! src = Some c -> utf8_step q c = None -> longest bs n.
Proof.
  intros [[Hn Hl] Ha Hr Hs Hz Hb Hm] Hc E. split; [lia|done|]. intros m Hi.
  destruct (decide (m <= src)%nat); [apply Hm; lia|]. unfold accepted.
  rewrite <- (take_drop (S src) (take m bs)), take_take, Nat.min_l by lia.
  by rewrite run_app, (run_take_S _ _ _ _ Hc Hr), E.
Qed.

Lemma scanned_end bs n q : scanned bs n (length bs) q -> longest bs n.
Proof. intros [[Hn Hl] Ha Hr Hs Hz Hb Hm]. by split. Qed.

(** Characters of one byte. *)
Definition ascii_at (bs : list Z) (i : nat) : Prop := exists c, bs !! i = Some c /\ 0 <= c < 0x80.

Lemma accepted_ascii bs src n : accepted (take src bs) -> (forall i, (i < n)%nat -> ascii_at bs (src + i)) ->
  accepted (take (src + n) bs).
Proof.
  intros Ha. induction n as [|n IH]; intros Hn; [by rewrite Nat.add_0_r|].
  destruct (Hn n ltac:(lia)) as (c & Hc & Hr). rewrite Nat.add_succ_r. unfold accepted.
  rewrite (run_take_S _ _ c 0 Hc (IH ltac:(auto with lia))). cbn. by ranges.
Qed.

Lemma accepted_one bs src c : byte c -> accepted (take src bs) -> bs !! src = Some c -> c < 0x80 ->
  accepted (take (S src) bs).
Proof.
  intros Hb Ha Hc Hlt. rewrite <- Nat.add_1_r. apply accepted_ascii; [done|]. intros i Hi.
  exists c. replace (src + i)%nat with src by lia. unfold byte in Hb. split; [done|lia].
Qed.

Section Buffer.
Variables (addr : Z) (bs : list Z).
Hypothesis Hbs : Forall byte bs.
Local Abbreviation st := utf8acceptnonsurrogates_obj.

Lemma byte_at i : (i < length bs)%nat -> exists c, bs !! i = Some c /\ byte c.
Proof using Hbs.
  intros Hi. destruct (bs !! i) as [c|] eqn:E; [|apply lookup_ge_None in E; lia].
  exists c. split; [done|]. by eapply Forall_lookup_1.
Qed.

(** ** The loops over single-byte characters *)

Lemma fast_at_spec i : (i < length bs)%nat ->
  exists f, fast_at st bs i = Ok f /\ (f = 0 \/ f = 1) /\ (f = 0 -> ascii_at bs i).
Proof using Hbs.
  intros Hi. destruct (byte_at i Hi) as (c & Hc & Hb). unfold fast_at. rewrite Hc. cbn [in_bounds mbind outcome_bind].
  rewrite fast_lookup by done. eexists. split; [done|]. unfold ascii_at, byte in *.
  destruct (Z.ltb_spec c 0x80); split; try lia. intros _. eauto with lia.
Qed.

Lemma align_loop_spec todo src : (todo + src <= length bs)%nat -> accepted (take src bs) ->
  exists src', align_loop st addr bs todo src = Ok src' /\ (src' <= length bs)%nat /\ accepted (take src' bs).
Proof using Hbs.
  revert src. induction todo as [|todo IH]; intros src Hl Ha; simpl; [eauto with lia|].
  destruct (aligned addr src); [eauto with lia|].
  destruct (fast_at_spec src ltac:(lia)) as (f & -> & _ & Hf). cbn [mbind outcome_bind].
  destruct (Z.eqb_spec f 0); [|eauto with lia]. apply IH; [lia|].
  rewrite <- Nat.add_1_r. apply accepted_ascii; [done|]. intros i Hi. replace (src + i)%nat with src by lia. auto.
Qed.

Lemma fast_four_spec src : (src + 3 < length bs)%nat ->
  exists e, fast_four st bs src = Ok e /\ (e = 0 -> forall i, (i < 4)%nat -> ascii_at bs (src + i)).
Proof using Hbs.
  intros Hl. unfold fast_four.
  destruct (fast_at_spec src ltac:(lia)) as (a & -> & Va & Ha).
  destruct (fast_at_spec (src + 1) ltac:(lia)) as (b & -> & Vb & Hb).
  destruct (fast_at_spec (src + 2) ltac:(lia)) as (c & -> & Vc & Hc).
  destruct (fast_at_spec (src + 3) ltac:(lia)) as (d & -> & Vd & Hd).
  cbn [mbind outcome_bind]. eexists. split; [done|].
  intros [[-> ->]%Z.lor_eq_0_iff [-> ->]%Z.lor_eq_0_iff]%Z.lor_eq_0_iff i Hi.
  destruct i as [|[|[|[|i]]]]; [rewrite Nat.add_0_r|..|lia]; auto.
Qed.

(** No byte of the word has its high bit set. *)
Lemma high_bits b0 b1 b2 b3 : byte b0 -> byte b1 -> byte b2 -> byte b3 ->
  Z.land (b0 + 2 ^ 8 * b1 + 2 ^ 16 * b2 + 2 ^ 24 * b3) 0x80808080 = 0 -> b0 < 128 /\ b1 < 128 /\ b2 < 128 /\ b3 < 128.
Proof using Type.
  unfold byte. intros H0 H1 H2 H3 E.
  assert (forall k, Z.testbit 0x80808080 k = true ->
    Z.testbit (b0 + 2 ^ 8 * b1 + 2 ^ 16 * b2 + 2 ^ 24 * b3) k = false) as Hbit.
  { intros k Hk. pose proof (f_equal (fun z => Z.testbit z k) E) as Et. cbn beta in Et.
    by rewrite Z.land_spec, Hk, andb_true_r, Z.bits_0 in Et. }
  pose proof (Hbit 7 eq_refl) as T0. pose proof (Hbit 15 eq_refl) as T1.
  pose proof (Hbit 23 eq_refl) as T2. pose proof (Hbit 31 eq_refl) as T3. clear Hbit E.
  apply Z.testbit_false in T0, T1, T2, T3; try lia.
  change (2 ^ 7) with 128 in *. change (2 ^ 15) with 32768 in *. change (2 ^ 23) with 8388608 in *.
  change (2 ^ 31) with 2147483648 in *. change (2 ^ 8) with 256 in *. change (2 ^ 16) with 65536 in *.
  change (2 ^ 24) with 16777216 in *. Z.to_euclidean_division_equations; lia.
Qed.

Lemma load32_spec src : (src + 3 < length bs)%nat ->
  exists s, load32 bs src = Ok s /\ u32 (s + 0) = s /\
    (Z.land s 0x80808080 = 0 -> forall i, (i < 4)%nat -> ascii_at bs (src + i)).
Proof using Hbs.
  intros Hl. unfold load32.
  destruct (byte_at src ltac:(lia)) as (b0 & E0 & H0). destruct (byte_at (src + 1) ltac:(lia)) as (b1 & E1 & H1).
  destruct (byte_at (src + 2) ltac:(lia)) as (b2 & E2 & H2). destruct (byte_at (src + 3) ltac:(lia)) as (b3 & E3 & H3).
  rewrite E0, E1, E2, E3. cbn [in_bounds mbind outcome_bind]. eexists. split; [done|]. split.
  - rewrite Z.add_0_r. apply u32_small. unfold byte in *. lia.
  - intros (? & ? & ? & ?)%high_bits i Hi; try done. unfold ascii_at, byte in *.
    destruct i as [|[|[|[|i]]]]; [rewrite Nat.add_0_r|..|lia]; eauto with lia.
Qed.

(** Two words, or two groups of four bytes. *)
Lemma ascii_eight src :
  (forall i, (i < 4)%nat -> ascii_at bs (src + i)) -> (forall i, (i < 4)%nat -> ascii_at bs (src + 4 + i)) ->
  forall i, (i < 8)%nat -> ascii_at bs (src + i).
Proof using Type.
  intros Ha Hb i Hi. destruct (decide (i < 4)%nat); [auto|].
  replace (src + i)%nat with (src + 4 + (i - 4))%nat by lia. apply Hb. lia.
Qed.

Lemma groups_loop_spec todo src : (src <= length bs)%nat -> accepted (take src bs) ->
  exists src', groups_loop st bs (length bs) todo src = Ok src' /\ (src' <= length bs)%nat /\ accepted (take src' bs).
Proof using Hbs.
  revert src. induction todo as [|todo IH]; intros src Hl Ha; cbn [groups_loop]; [eauto|].
  destruct (Nat.ltb_spec (src + 7) (length bs)) as [Hlt|]; [|eauto].
  destruct (load32_spec src ltac:(lia)) as (s & -> & Es & Hs).
  destruct (load32_spec (src + 4) ltac:(lia)) as (s' & -> & Es' & Hs').
  cbn [mbind outcome_bind]. change (hiadd st) with 0. rewrite Es, Es'.
  replace (src + 8 - 8)%nat with src by lia. replace (src + 8 - 4)%nat with (src + 4)%nat by lia.
  assert ((forall i, (i < 8)%nat -> ascii_at bs (src + i)) -> exists src',
    groups_loop st bs (length bs) todo (src + 8) = Ok src' /\ (src' <= length bs)%nat /\ accepted (take src' bs)) as Hnext.
  { intros H8. apply IH; [lia|]. by apply accepted_ascii. }
  destruct (Z.eqb_spec (Z.land (Z.lor (Z.lor (Z.lor (u32 (s - losub st)) s) (u32 (s' - losub st))) s') 0x80808080) 0)
    as [E|_]; cbn [negb].
  - rewrite !Z.land_lor_distr_l in E. apply Z.lor_eq_0_iff in E as [[[_ E]%Z.lor_eq_0_iff _]%Z.lor_eq_0_iff E'].
    apply Hnext, ascii_eight; auto.
  - destruct (fast_four_spec src ltac:(lia)) as (e & -> & He). cbn [mbind outcome_bind].
    destruct (Z.eqb_spec e 0) as [E0|]; cbn [negb]; [|eauto].
    destruct (fast_four_spec (src + 4) ltac:(lia)) as (e' & -> & He'). cbn [mbind outcome_bind].
    destruct (Z.eqb_spec e' 0) as [E0'|]; cbn [negb].
    + apply Hnext, ascii_eight; auto.
    + exists (src + 4)%nat. split; [done|]. split; [lia|]. apply accepted_ascii; auto.
Qed.

(** ** The scan by the table *)

(** Where the scan by the table ends: at the end of the bytes, or behind one that
    no character continues with. *)
Lemma byte_loop_spec todo n src q e0 :
  todo = (length bs - src)%nat -> scanned bs n src q -> (kExitIllegalStructure <=? e0) = false ->
  exists n' p q' e,
    longest bs n' /\ scanned bs n' p q' /\ e <> kExitDoAgain /\ e <> kExitOK /\
    byte_loop st bs todo src (256 * q) e0 =
      Ok (if kExitIllegalStructure <=? e then (S p, 256 * q', e) else (p, 256 * q', e)) /\
    (n' = length bs <-> (kExitIllegalStructure <=? e) = false /\ q' = 0).
Proof using Hbs.
  revert n src q e0. induction todo as [|todo IH]; intros n src q e0 Ht Hsc He0.
  - assert (src = length bs) as -> by (destruct Hsc; lia). exists n, (length bs), q, e0. rewrite He0.
    pose proof (scanned_zero _ _ _ _ Hsc) as Hz.
    split; [by eapply scanned_end|]. split; [done|]. split; [by intros ->|]. split; [by intros ->|]. split; [done|tauto].
  - cbn [byte_loop]. destruct (byte_at src ltac:(lia)) as (c & Hc & Hbyte). rewrite Hc. cbn [in_bounds mbind outcome_bind].
    pose proof (scanned_state _ _ _ _ Hsc) as Hq. rewrite table_lookup by done. cbn [mbind outcome_bind].
    pose proof (entry_cases q c Hq) as He. destruct (utf8_step q c) as [q'|] eqn:E.
    + destruct He as (-> & Hq' & He). rewrite He.
      change (state0 st) with 0. change (entry_shift st) with 8. rewrite Z.add_0_l, Z.shiftl_mul_pow2 by lia.
      replace (q' * 2 ^ 8) with (256 * q') by lia. eapply IH; [lia|by eapply scanned_step|done].
    + destruct He as (He & Hd & Ho). rewrite He. exists n, src, q, (entry q c). rewrite He.
      split_and!; try done; [by eapply scanned_stuck|]. split; [|by intros [? _]].
      intros ->. destruct (scanned_within _ _ _ _ Hsc). lia.
Qed.

Lemma back_up_spec n src q : scanned bs n src q -> q <> 0 -> back_up bs src = Ok n.
Proof using Hbs.
  intros [[Hn Hl] _ _ _ Hz Hb _] Hq. assert (n < src)%nat as Hlt by lia. clear Hz Hq Hn.
  induction src as [|src IH]; [lia|]. cbn [back_up]. destruct (Nat.eqb_spec src 0); [by replace n with src by lia|].
  destruct (Hb src ltac:(lia)) as (c & Hc & Ek). rewrite Hc. cbn [in_bounds mbind outcome_bind].
  rewrite continuation_mask by (by eapply Forall_lookup_1). rewrite Ek.
  destruct (Nat.eqb_spec src n) as [->|]; simpl; [done|]. apply IH; [lia| |lia]. intros i Hi. apply Hb. lia.
Qed.

Lemma InStateZero_spec q : state q -> InStateZero st (256 * q) = (q =? 0).
Proof using Type.
  unfold state, InStateZero. intros Hq. change (state0 st) with 0. change (state0_size st) with 256.
  rewrite u32_small by lia. lia.
Qed.

(** What a scan returns: the longest prefix, and whether it is everything. *)
Definition scan_result (r : outcome (Z * nat)) : Prop :=
  exists e n, r = Ok (e, n) /\ longest bs n /\ e <> kExitDoAgain /\ (e = kExitOK <-> n = length bs).

Lemma DoAgain_spec rounds src : (src <= length bs)%nat -> accepted (take src bs) ->
  scan_result (DoAgain st addr bs (length bs) (S rounds) src).
Proof using Hbs.
  intros Hl Ha. cbn [DoAgain].
  destruct (align_loop_spec (length bs - src) src ltac:(lia) Ha) as (src1 & -> & Hl1 & Ha1). cbn [mbind outcome_bind].
  assert (exists src2, (if aligned addr src1 then groups_loop st bs (length bs) (length bs - src1) src1 else Ok src1)
    = Ok src2 /\ (src2 <= length bs)%nat /\ accepted (take src2 bs)) as (src2 & -> & Hl2 & Ha2).
  { destruct (aligned addr src1); [by apply groups_loop_spec|eauto]. }
  cbn [mbind outcome_bind]. change (state0 st) with (256 * 0).
  destruct (byte_loop_spec _ src2 src2 0 0 eq_refl (scanned_at_zero _ _ Hl2 Ha2) eq_refl)
    as (n & p & q & e & Hlong & Hsc & Hd & Ho & -> & Hend).
  pose proof (InStateZero_spec q (scanned_state _ _ _ _ Hsc)) as Hzero.
  pose proof (scanned_zero _ _ _ _ Hsc) as Hz. pose proof (back_up_spec n p q Hsc) as Hback.
  destruct (kExitIllegalStructure <=? e) eqn:Ee; cbn [mbind outcome_bind]; rewrite Ee, Hzero; clear Hzero.
  - replace (S p - 1)%nat with p by lia. exists e, n. destruct (Z.eqb_spec q 0) as [Hq|Hq]; cbn [negb].
    + cbn [mbind outcome_bind]. rewrite (proj2 (Z.eqb_neq _ _) Hd). rewrite (proj1 Hz Hq) in *.
      split_and!; try done. split; [done|]. intros E. by apply Hend in E as [? _].
    + rewrite Hback by done. cbn [mbind outcome_bind]. rewrite (proj2 (Z.eqb_neq _ _) Hd).
      split_and!; try done. split; [done|]. intros E. by apply Hend in E as [? _].
  - destruct (Z.eqb_spec q 0) as [Hq|Hq]; cbn [negb].
    + exists kExitOK, n. cbn. rewrite (proj1 Hz Hq) in *. split_and!; try done. split; [|done]. intros _. by apply Hend.
    + rewrite Hback by done. exists kExitIllegalStructure, n. cbn. split_and!; try done.
      split; [done|]. intros E. by apply Hend in E as [_ ?].
Qed.

(** ** The scan of single-byte characters in front of it *)

Lemma align_ascii_spec todo src : (todo + src <= length bs)%nat -> accepted (take src bs) ->
  exists src', align_ascii addr bs todo src = Ok src' /\ (src' <= length bs)%nat /\ accepted (take src' bs).
Proof using Hbs.
  revert src. induction todo as [|todo IH]; intros src Hl Ha; simpl; [eauto with lia|].
  destruct (aligned addr src); [eauto with lia|].
  destruct (byte_at src ltac:(lia)) as (c & Hc & Hb). rewrite Hc. cbn [in_bounds mbind outcome_bind].
  destruct (Z.ltb_spec c 0x80); [|eauto with lia]. apply IH; [lia|].
  by eapply accepted_one.
Qed.

Lemma groups_ascii_spec todo src : (src <= length bs)%nat -> accepted (take src bs) ->
  exists src', groups_ascii bs (length bs) todo src = Ok src' /\ (src' <= length bs)%nat /\ accepted (take src' bs).
Proof using Hbs.
  revert src. induction todo as [|todo IH]; intros src Hl Ha; cbn [groups_ascii]; [eauto|].
  destruct (Nat.ltb_spec (src + 7) (length bs)) as [Hlt|]; [|eauto].
  destruct (load32_spec src ltac:(lia)) as (s & -> & _ & Hs).
  destruct (load32_spec (src + 4) ltac:(lia)) as (s' & -> & _ & Hs').
  cbn [mbind outcome_bind]. destruct (Z.eqb_spec (Z.land (Z.lor s s') 0x80808080) 0) as [E|]; [|eauto].
  rewrite Z.land_lor_distr_l in E. apply Z.lor_eq_0_iff in E as [E E'].
  apply IH; [lia|]. apply accepted_ascii; [done|]. apply ascii_eight; auto.
Qed.

Lemma bytes_ascii_spec todo src : (todo + src <= length bs)%nat -> accepted (take src bs) ->
  exists src', bytes_ascii bs todo src = Ok src' /\ (src' <= length bs)%nat /\ accepted (take src' bs).
Proof using Hbs.
  revert src. induction todo as [|todo IH]; intros src Hl Ha; simpl; [eauto with lia|].
  destruct (byte_at src ltac:(lia)) as (c & Hc & Hb). rewrite Hc. cbn [in_bounds mbind outcome_bind].
  destruct (Z.ltb_spec c 0x80); [|eauto with lia]. apply IH; [lia|].
  by eapply accepted_one.
Qed.

End Buffer.

Lemma UTF8GenericScan_spec addr bs : Forall byte bs ->
  scan_result bs (UTF8GenericScan utf8acceptnonsurrogates_obj addr bs (length bs)).
Proof.
  intros Hbs. unfold UTF8GenericScan. destruct (Nat.eqb_spec (length bs) 0) as [E|]; [|apply DoAgain_spec; by try lia].
  exists kExitOK, O. split_and!; try done. split; [lia|done|lia].
Qed.

(** A scan of the rest continues a prefix of whole characters. *)
Lemma longest_drop bs src n : (src <= length bs)%nat -> accepted (take src bs) ->
  longest (drop src bs) n -> longest bs (src + n).
Proof.
  intros Hl Ha [Hn Hacc Hmost]. rewrite length_drop in Hn, Hmost.
  assert (forall m, run 0 (take (src + m) bs) = run 0 (take m (drop src bs))) as Hrun.
  { intros m. rewrite <- (take_drop src (take (src + m) bs)), take_take, Nat.min_l, skipn_firstn_comm by lia.
    rewrite accepted_app by done. by replace (src + m - src)%nat with m by lia. }
  split; [lia|unfold accepted; by rewrite Hrun|].
  intros m Hm. replace m with (src + (m - src))%nat by lia. unfold accepted. rewrite Hrun. apply Hmost. lia.
Qed.

Lemma UTF8GenericScanFastAscii_spec addr bs : Forall byte bs ->
  scan_result bs (UTF8GenericScanFastAscii utf8acceptnonsurrogates_obj addr bs (length bs)).
Proof.
  intros Hbs. unfold UTF8GenericScanFastAscii. destruct (Nat.eqb_spec (length bs) 0) as [E|].
  { exists kExitOK, O. split_and!; try done. split; [lia|done|lia]. }
  cbn [ascii_rounds].
  destruct (align_ascii_spec addr bs Hbs (length bs - 0) 0 ltac:(lia) eq_refl) as (src1 & -> & Hl1 & Ha1).
  cbn [mbind outcome_bind].
  assert (exists src2, (if aligned addr src1 then groups_ascii bs (length bs) (length bs - src1) src1 else Ok src1)
    = Ok src2 /\ (src2 <= length bs)%nat /\ accepted (take src2 bs)) as (src2 & -> & Hl2 & Ha2).
  { destruct (aligned addr src1); [by apply groups_ascii_spec|eauto]. }
  cbn [mbind outcome_bind].
  destruct (bytes_ascii_spec bs Hbs (length bs - src2) src2 ltac:(lia) Ha2) as (src & -> & Hl & Ha).
  cbn [mbind outcome_bind]. rewrite <- length_drop.
  destruct (UTF8GenericScan_spec (addr + Z.of_nat src) (drop src bs) (Forall_drop _ _ _ Hbs))
    as (e & k & -> & Hlong & Hd & Hok).
  cbn [mbind outcome_bind]. rewrite (proj2 (Z.eqb_neq _ _) Hd). exists e, (src + k)%nat.
  split; [done|]. split; [by apply longest_drop|]. split; [done|]. rewrite Hok, length_drop.
  destruct Hlong as [Hn _ _]. rewrite length_drop in Hn. lia.
Qed.

(** ** The calls *)

Lemma longest_whole bs n : longest bs n -> (n = length bs <-> accepted bs).
Proof.
  intros [Hl Ha Hm]. split.
  - intros ->. by rewrite firstn_all in Ha.
  - intros H. destruct (decide (n = length bs)); [done|]. exfalso. apply (Hm (length bs)); [lia|].
    by rewrite firstn_all.
Qed.

Lemma IsStructurallyValidUTF8_spec addr bs : Forall byte bs ->
  exists b, IsStructurallyValidUTF8 true addr bs (length bs) = Ok b /\ (b = true <-> accepted bs).
Proof.
  intros Hbs. unfold IsStructurallyValidUTF8. simpl.
  destruct (UTF8GenericScanFastAscii_spec addr bs Hbs) as (e & n & -> & Hlong & _). simpl.
  eexists. split; [done|]. rewrite Nat.eqb_eq. by apply longest_whole.
Qed.

(** C23. The check answers whether the bytes are the UTF-8 encoding of a sequence
    of Unicode scalar values.  The answer does not depend on where the bytes are,
    no byte outside of them is read, and the check always returns. *)
Theorem IsStructurallyValidUTF8_iff addr bs : Forall byte bs ->
  exists b, IsStructurallyValidUTF8 true addr bs (length bs) = Ok b /\ (b = true <-> valid bs).
Proof.
  intros Hbs. destruct (IsStructurallyValidUTF8_spec addr bs Hbs) as (b & E & Hb).
  exists b. by rewrite <- accepted_valid.
Qed.

Lemma UTF8Spn_spec addr bs : Forall byte bs ->
  exists n, UTF8SpnStructurallyValid true addr bs = Ok n /\ longest bs n.
Proof.
  intros Hbs. unfold UTF8SpnStructurallyValid. simpl.
  destruct (UTF8GenericScanFastAscii_spec addr bs Hbs) as (e & n & -> & Hlong & _). by exists n.
Qed.

(** The span is the longest prefix that is UTF-8. *)
Theorem UTF8Spn_longest addr bs : Forall byte bs ->
  exists n, UTF8SpnStructurallyValid true addr bs = Ok n /\ (n <= length bs)%nat /\ valid (take n bs) /\
    forall m, (n < m <= length bs)%nat -> ~ valid (take m bs).
Proof.
  intros Hbs. destruct (UTF8Spn_spec addr bs Hbs) as (n & -> & [Hl Ha Hm]). exists n.
  setoid_rewrite <- accepted_valid. done.
Qed.

Lemma coerce_loop_spec addr bs replace_char todo src dst :
  Forall byte bs -> 0x20 <= replace_char <= 0x7e -> (length bs <= todo + src)%nat -> (src <= length bs)%nat ->
  accepted dst ->
  exists out, coerce_loop true addr bs replace_char todo src dst = Ok (dst ++ out) /\ accepted (dst ++ out) /\
    Forall2 (fun b b' => b' = b \/ b' = replace_char) (drop src bs) out.
Proof.
  intros Hbs Hr. revert src dst. induction todo as [|todo IH]; intros src dst Ht Hl Ha; cbn [coerce_loop].
  { exists []. rewrite app_nil_r, drop_ge by lia. by repeat split. }
  destruct (Nat.ltb_spec src (length bs)) as [Hlt|].
  2:{ exists []. rewrite app_nil_r, drop_ge by lia. by repeat split. }
  destruct (UTF8Spn_spec (addr + Z.of_nat (S src)) (drop (S src) bs) (Forall_drop _ _ _ Hbs)) as (n & -> & [Hn Hacc _]).
  cbn [mbind outcome_bind]. rewrite length_drop in Hn.
  set (good := take n (drop (S src) bs)) in *.
  destruct (IH (S src + n)%nat ((dst ++ [replace_char]) ++ good)) as (out & -> & Haout & Hall); [lia..| |].
  { unfold accepted. rewrite run_app, run_app, Ha. cbn. by ranges. }
  exists (replace_char :: good ++ out). rewrite <- !app_assoc in *. split; [done|]. split; [done|].
  destruct (lookup_lt_is_Some_2 bs src Hlt) as [c Hc]. rewrite (drop_S _ _ _ Hc). constructor; [by right|].
  rewrite <- (take_drop n (drop (S src) bs)), drop_drop. apply Forall2_app; [|done].
  apply Forall_Forall2_diag, Forall_true. by left.
Qed.

(** Coercion returns a string of the same length that is UTF-8, and which
    differs from the source only where a byte was replaced; it returns the source
    itself exactly when that is UTF-8. *)
Theorem UTF8Coerce_valid addr bs replace_char : Forall byte bs -> 0x20 <= replace_char <= 0x7e ->
  exists r, UTF8CoerceToStructurallyValid true addr bs replace_char = Ok r /\
    match r with
    | inl same => same = bs /\ valid bs
    | inr dst => ~ valid bs /\ valid dst /\ Forall2 (fun b b' => b' = b \/ b' = replace_char) bs dst
    end.
Proof.
  intros Hbs Hr. unfold UTF8CoerceToStructurallyValid.
  destruct (UTF8Spn_spec addr bs Hbs) as (n & -> & Hlong). cbn [mbind outcome_bind].
  pose proof (longest_whole _ _ Hlong) as Hw. destruct Hlong as [Hn Ha _].
  destruct (Nat.eqb_spec n (length bs)) as [E|E]; [exists (inl bs); rewrite <- accepted_valid; tauto|].
  destruct (coerce_loop_spec addr bs replace_char (length bs - n) n (take n bs) Hbs Hr ltac:(lia) Hn Ha)
    as (out & -> & Haout & Hall).
  exists (inr (take n bs ++ out)). split; [done|]. rewrite <- !accepted_valid. split; [tauto|]. split; [done|].
  rewrite <- (take_drop n bs) at 1. apply Forall2_app; [|done]. apply Forall_Forall2_diag, Forall_true. by left.
Qed.

(** ** Concrete strings *)

Definition ascii_and_euro : list Z := [0x48; 0x65; 0x6C; 0x6C; 0x6F; 0x20; 0x77; 0x6F; 0x72; 0x6C; 0x64; 0xE2; 0x82; 0xAC].
Definition with_surrogate : list Z := [0x41; 0xED; 0xA0; 0x80; 0x42].

Lemma concrete_bytes : Forall byte ascii_and_euro /\ Forall byte with_surrogate.
Proof. split; repeat (constructor; [unfold byte; lia|]); constructor. Qed.

(** The check agrees with the definition of UTF-8 on a text and on a surrogate. *)
Lemma IsStructurallyValidUTF8_iff_witness :
  (exists b, IsStructurallyValidUTF8 true 5 ascii_and_euro 14 = Ok b /\ (b = true <-> valid ascii_and_euro)) /\
  IsStructurallyValidUTF8 true 5 ascii_and_euro 14 = Ok true /\
  IsStructurallyValidUTF8 true 0 with_surrogate 5 = Ok false.
Proof. split; [exact (IsStructurallyValidUTF8_iff 5 _ (proj1 concrete_bytes))|split; reflexivity]. Defined.

Lemma UTF8Coerce_valid_witness :
  (exists r, UTF8CoerceToStructurallyValid true 0 with_surrogate 0x20 = Ok r /\
    match r with
    | inl same => same = with_surrogate /\ valid with_surrogate
    | inr dst => ~ valid with_surrogate /\ valid dst /\ Forall2 (fun b b' => b' = b \/ b' = 0x20) with_surrogate dst
    end) /\
  UTF8CoerceToStructurallyValid true 0 with_surrogate 0x20 = Ok (inr [0x41; 0x20; 0x20; 0x20; 0x42]).
Proof. split; [exact (UTF8Coerce_valid 0 _ 0x20 (proj2 concrete_bytes) ltac:(lia))|reflexivity]. Defined.
