(* ===== verification/LogWriter.v ===== *)
(** * The log writer ([lib/log_writer.cpp])

    The listener of the queues: it turns every item into an envelope, symbolising
    stack traces on the way, and sends the envelope to the collector.  An
    envelope object of the class is rebuilt completely before each use, so the
    model builds a value where the code fills the object.  Lines of the debug and
    error logs are left out. *)
From S2P Require Import Prelude CString Options MetricTypes InternalQueue CircularQueue Messages.
From S2P Require Import SignalHandler ProcScanner CollectorController SymbolTable Utf8.
From stdpp Require Import pretty.
#[local] Open Scope Z_scope.

Definition THREAD_NAME_BUFFER_SIZE : Z := 16.
Definition ENOENT : Z := 2.

(** What the thread library answers at a given time: an error number, or a name
    of less than [THREAD_NAME_BUFFER_SIZE] bytes; and where the characters of the
    name are. *)
Class ThreadNames := {
  pthread_getname_np : Z -> Z -> Z + string;
  thread_name_address : Z
}.

Record ThreadInformation := mkThreadInformation { t_threadId : Z; t_name : string }.

Record AllocationTotals := mkAllocationTotals { numberofAllocations : Z; totalBytesAllocated : Z }.
Definition AllocationKey : Type := option Z * bool.

(** [recorded]: every envelope [recordWithSize] was given, in order, which is the
    content of the log file where one is configured. *)
Record logWriter (N M : Type) := mkLogWriter {
  buffer_ : CircularQueue;
  controller_ : agent N M;
  symbols_ : symbols;
  threadIdToInformation : gmap Z ThreadInformation;
  allocationsTable : gmap AllocationKey AllocationTotals;
  recorded : list AgentEnvelope
}.
Arguments mkLogWriter {N M}.
Arguments buffer_ {N M}.
Arguments controller_ {N M}.
Arguments symbols_ {N M}.
Arguments threadIdToInformation {N M}.
Arguments allocationsTable {N M}.
Arguments recorded {N M}.

Section Writer.
Context {N M : Type} `{NetworkApi N} `{MetricsApi M} `{Backtrace} `{ThreadNames}.
Local Abbreviation logWriter := (logWriter N M).
Implicit Types w : logWriter.

Definition set_buffer b w : logWriter :=
  mkLogWriter b (controller_ w) (symbols_ w) (threadIdToInformation w) (allocationsTable w) (recorded w).
Definition set_controller a w : logWriter :=
  mkLogWriter (buffer_ w) a (symbols_ w) (threadIdToInformation w) (allocationsTable w) (recorded w).
Definition set_symbols s w : logWriter :=
  mkLogWriter (buffer_ w) (controller_ w) s (threadIdToInformation w) (allocationsTable w) (recorded w).
Definition set_threads t w : logWriter :=
  mkLogWriter (buffer_ w) (controller_ w) (symbols_ w) t (allocationsTable w) (recorded w).
Definition set_allocations t w : logWriter :=
  mkLogWriter (buffer_ w) (controller_ w) (symbols_ w) (threadIdToInformation w) t (recorded w).

Definition recordWithSize (envelope : AgentEnvelope) w : logWriter :=
  mkLogWriter (buffer_ w) (CollectorController.recordWithSize envelope (controller_ w)) (symbols_ w)
    (threadIdToInformation w) (allocationsTable w) (recorded w ++ [envelope]).

(** ** Symbols *)

Definition onNewFile (fileId : Z) (fileName : string) w : logWriter :=
  recordWithSize (ModuleInformation (i64 fileId) fileName EmptyString) w.

Definition onNewFunction (functionId : Z) (functionName : string) (fileId : Z) w : logWriter :=
  recordWithSize (MethodInformation (i64 functionId) functionName (i64 fileId)) w.

(** The second [snprintf] passes the message alone to a format that reads an
    [int] and then a string. *)
Definition handleBtError (errorMessage : string) (errorNumber : Z) w : outcome logWriter := Undefined.

#[export] Instance logWriter_symbols : SymbolListener logWriter := {
  SymbolTable.onNewFile := onNewFile;
  SymbolTable.onNewFunction := onNewFunction;
  SymbolTable.handleBtError := handleBtError
}.

Definition onSocketConnected w : logWriter := set_symbols (clear_symbols (symbols_ w)) w.

(** ** Stack traces *)

Definition setSampleType (signum : Z) w : SampleTimeType * Z :=
  if signum =? SIGPROF then (PROCESS_TIME, processTimeStackSampleIntervalMillis_ (controller (controller_ w)))
  else if signum =? SIGALRM then (ELAPSED_TIME, elapsedTimeStackSampleIntervalMillis_ (controller (controller_ w)))
  else (ALLOCATION, 0).

Definition setSampleTime (ts : timespec) : Z := u64 (tv_sec ts * 1000 + Z.quot (tv_nsec ts) 1000000).

Definition threadName (threadId : Z) w : outcome (string * logWriter) :=
  match threadIdToInformation w !! i32 threadId with
  | Some info => Ok (t_name info, w)
  | None =>
      let '(thread_name, w) :=
        match pthread_getname_np (now (controller_ w)) threadId with
        | inl ret =>
            ("Unknown"%string,
             if negb (ret =? ENOENT) then
               set_buffer (pushNotification_value NotificationCategory.USER_ERROR
                             "Error from pthread_getname_np: " ret (buffer_ w)).2 w
             else w)
        | inr buf => (buf, w)
        end in
      valid ← IsStructurallyValidUTF8 true thread_name_address (string_bytes thread_name) (String.length thread_name);
      let thread_name := if valid : bool then thread_name else "Invalid"%string in
      Ok (thread_name,
          set_threads (<[i32 threadId := mkThreadInformation threadId thread_name]> (threadIdToInformation w)) w)
  end.

Definition addFrames (locations : list Location) (isError : bool) (stackSample : list CompressedFrameEntry)
    : list CompressedFrameEntry :=
  if isError then stackSample
  else stackSample ++ ((fun l => mkCompressedFrameEntry (i64 (l_methodId l)) (u32 (lineNumber l))) <$> locations).

(** The frame loop: [todo] frames from [frameIndex]. *)
Fixpoint lookup_frames (todo frameIndex : nat) (frames : list CallFrame) (isError : bool)
    (stackSample : list CompressedFrameEntry) w : outcome (list CompressedFrameEntry * logWriter) :=
  match todo with
  | O => Ok (stackSample, w)
  | S todo =>
      f ← in_bounds (frames !! frameIndex);
      '(locations, (s, w)) ← lookup_locations (frame f) (isForeign f) (symbols_ w, w);
      lookup_frames todo (S frameIndex) frames isError (addFrames locations isError stackSample) (set_symbols s w)
  end.

Definition recordStackTrace (ts : timespec) (trace : CallTrace (list CallFrame)) (signum threadState time_tsc : Z) w
    : outcome logWriter :=
  let '(type, rate) := setSampleType signum w in
  let time := setSampleTime ts in
  '(thread_name, w) ← threadName (threadId trace) w;
  let isError := num_frames trace <? 0 in
  let error_code := if isError then num_frames trace else 0 in
  let numFrames := if isError then -1 * num_frames trace else num_frames trace in
  '(compressedFrames, w) ←
    lookup_frames (Z.to_nat (numFrames - NUMBER_OF_SIGNAL_HANDLER_FRAMES))
      (Z.to_nat NUMBER_OF_SIGNAL_HANDLER_FRAMES) (frames trace) isError [] w;
  Ok (recordWithSize
        (Sample (mkStackSample type rate time (i32 (threadId trace)) thread_name (MAX_FRAMES <=? numFrames)
           error_code compressedFrames threadState)) w).

Definition recordThread (threadId : Z) (name : string) w : outcome logWriter := Ok w.

(** ** Allocations *)

Definition no_allocations : AllocationTotals := mkAllocationTotals 0 0.

Definition recordAllocation (allocationSize : Z) (outsideTlab : bool) (symbol : option Z) w : outcome logWriter :=
  let key := (symbol, outsideTlab) in
  let info := default no_allocations (allocationsTable w !! key) in
  Ok (set_allocations
        (<[key := mkAllocationTotals (u32 (numberofAllocations info + 1))
                    (u64 (totalBytesAllocated info + allocationSize))]> (allocationsTable w)) w).

(** The order of the rows is that of the hash table; a null symbol is sent as 0. *)
Definition allocation_rows (t : gmap AllocationKey AllocationTotals) : list AllocationRow :=
  (fun '(key, info) =>
     mkAllocationRow (default 0 key.1) (numberofAllocations info) (totalBytesAllocated info) key.2)
  <$> map_to_list t.

Definition recordAllocationTable w : logWriter :=
  set_allocations ∅ (recordWithSize (AllocationTable 0 (allocation_rows (allocationsTable w))) w).

(** ** Notifications *)

Definition recordNotification (category : NotificationCategory.t) (initialPayload : string) (value : Z) w
    : outcome logWriter :=
  let payload := if negb (value =? 0) then initialPayload +:+ pretty value else initialPayload in
  Ok (if isConnected (controller_ w) then recordWithSize (Notification payload category) w
      else set_controller (stashNotification category payload (controller_ w)) w).

(** ** Metrics *)

Definition mapDataType (x : MetricDataType.t) : Wire.MetricDataType :=
  match x with
  | MetricDataType.LONG => Wire.LONG
  | MetricDataType.STRING => Wire.STRING
  | _ => Wire.UNKNOWN_TYPE
  end.

Definition mapVariability (x : MetricVariability.t) : Wire.MetricVariability :=
  match x with
  | MetricVariability.CONSTANT => Wire.CONSTANT
  | MetricVariability.MONOTONIC => Wire.COUNTER
  | MetricVariability.VARIABLE => Wire.VARIABLE
  | _ => Wire.UNKNOWN_VARIABILITY
  end.

Definition mapUnit (x : MetricUnit.t) : Wire.MetricUnit :=
  match x with
  | MetricUnit.NONE => Wire.NONE
  | MetricUnit.BYTES => Wire.BYTES
  | MetricUnit.TICKS => Wire.TICKS
  | MetricUnit.EVENTS => Wire.EVENTS
  | MetricUnit.STRING => Wire.UNIT_STRING
  | MetricUnit.HERTZ => Wire.HERTZ
  | MetricUnit.MILLISECONDS => Wire.MILLISECONDS
  | MetricUnit.NANOSECONDS => Wire.NANOSECONDS
  | _ => Wire.UNKNOWN_UNIT
  end.

Definition recordMetricInformation (info : MetricInformation) w : outcome logWriter :=
  Ok (recordWithSize
        (MetricInfo (Wire.mkMetricInformation (u32 (info_id info)) (info_name info)
           (mapVariability (info_variability info)) (mapDataType (info_dataType info)) (mapUnit (info_unit info)))) w).

Definition wire_sample (sample : MetricSample) : Wire.MetricSample :=
  Wire.mkMetricSample (u32 (sample_id sample))
    (match type (sample_data sample) with
     | MetricDataType.STRING => Wire.StringValue (valueString (sample_data sample))
     | MetricDataType.LONG => Wire.LongValue (valueLong (sample_data sample))
     | _ => Wire.NoValue
     end).

Definition recordMetricSamples (time_epoch_millis : Z) (metricSamples : list MetricSample) w : outcome logWriter :=
  Ok (recordWithSize (MetricSamples (u64 time_epoch_millis) (wire_sample <$> metricSamples)) w).

Definition recordConstantMetricsComplete w : outcome logWriter := Ok (recordWithSize ConstantMetricsComplete w).

#[export] Instance logWriter_listener : QueueListener logWriter := {
  MetricTypes.recordStackTrace := recordStackTrace;
  MetricTypes.recordThread := recordThread;
  MetricTypes.recordAllocation := recordAllocation;
  MetricTypes.recordNotification := recordNotification;
  MetricTypes.recordMetricInformation := recordMetricInformation;
  MetricTypes.recordMetricSamples := recordMetricSamples;
  MetricTypes.recordConstantMetricsComplete := recordConstantMetricsComplete
}.
End Writer.

#[export] Program Instance logWriter_queue N M : HasQueue (logWriter N M) := {
  the_queue := buffer_;
  put_queue := set_buffer
}.
Next Obligation. done. Qed.
Next Obligation. by intros N M []. Qed.
Next Obligation. done. Qed.
