(* ===== verification/LogWriterSpec.v ===== *)
(** * What the log writer tells the collector

    Stack traces become samples whose method numbers were announced before;
    allocations are summed; notifications are sent or stashed.  The log writer
    is a lawful listener of the queues. *)
From S2P Require Import Prelude Utf8 Utf8Spec CString Options MetricTypes InternalQueue CircularQueue CircularQueueSpec ListenerSim Messages.
From S2P Require Import SignalHandler ProcScanner CollectorController CollectorControllerSpec SymbolTable SymbolTableSpec LogWriter.
From stdpp Require Import pretty.
#[local] Open Scope Z_scope.

Definition is_name (e : AgentEnvelope) : Prop :=
  match e with MethodInformation _ _ _ | ModuleInformation _ _ _ => True | _ => False end.

(** The numbers as the collector reads them back. *)
Definition announced (e : AgentEnvelope) : option announcement :=
  match e with
  | MethodInformation id name file => Some (FunctionIs (u64 id) name (u64 file))
  | ModuleInformation id name _ => Some (FileIs (u64 id) name)
  | _ => None
  end.

Lemma u64_i64 z : 0 <= z < 2 ^ 64 -> u64 (i64 z) = z.
Proof.
  intros Hz. unfold u64, i64, signed. rewrite (Z.mod_small z) by lia.
  destruct (Z.ltb_spec z (2 ^ (64 - 1))); [by apply Z.mod_small|].
  rewrite <- (Z.mod_unique (z - 2 ^ 64) (2 ^ 64) (-1) z); lia.
Qed.

Section Spec.
Context {N M : Type} `{NetworkApi N} `{MetricsApi M} `{Backtrace} `{ThreadNames}.
Local Abbreviation logWriter := (logWriter N M).
Implicit Types w : logWriter.

#[export] Program Instance logWriter_announced : AnnouncedListener logWriter := {
  announcements w := omap announced (recorded w)
}.
Next Obligation.
  intros i n w Hi. simpl. rewrite omap_app. simpl. by rewrite u64_i64.
Qed.
Next Obligation.
  intros i n f w Hi Hf. simpl. rewrite omap_app. simpl. by rewrite !u64_i64.
Qed.

(** [l] was written to the log file and handed to the network, envelope by
    envelope. *)
Record posted (l : list AgentEnvelope) w w' : Prop := {
  posted_recorded : recorded w' = recorded w ++ l;
  posted_network : network (controller_ w') = offers l (network (controller_ w))
}.

Lemma posted_nothing w w' : recorded w' = recorded w -> network (controller_ w') = network (controller_ w) -> posted [] w w'.
Proof using Type. intros Er En. split; [by rewrite app_nil_r|done]. Qed.

Lemma posted_app l l' w1 w2 w3 : posted l w1 w2 -> posted l' w2 w3 -> posted (l ++ l') w1 w3.
Proof using Type. intros [E1 E2] [F1 F2]. split; [by rewrite F1, E1, app_assoc|by rewrite F2, E2, offers_app]. Qed.

Lemma posted_one e w : posted [e] w (recordWithSize e w).
Proof using Type. split; [done|]. apply recordWithSize_network. Qed.

(** [w'] differs from [w] by envelopes with names, and what sending them did to
    the controller and the network. *)
Record names_sent w w' : Prop := {
  ns_posted : exists names, Forall is_name names /\ posted names w w';
  ns_buffer : buffer_ w' = buffer_ w;
  ns_threads : threadIdToInformation w' = threadIdToInformation w;
  ns_allocations : allocationsTable w' = allocationsTable w
}.

#[local] Instance names_sent_preorder : PreOrder names_sent.
Proof using Type.
  split.
  - intros w. split; try done. exists []. split; [done|]. by apply posted_nothing.
  - intros w w1 w2 [(l & Hl & E) B T A] [(l' & Hl' & E') B' T' A']. split; [|congruence..].
    exists (l ++ l'). split; [by apply Forall_app|by eapply posted_app].
Qed.

Lemma name_sent e w : is_name e -> names_sent w (recordWithSize e w).
Proof using Type. intros He. split; try done. exists [e]. split; [by constructor|apply posted_one]. Qed.

Lemma file_sent i n w : names_sent w (SymbolTable.onNewFile i n w).
Proof using Type. exact (name_sent (ModuleInformation (i64 i) n EmptyString) w I). Qed.

Lemma function_sent i n f w : names_sent w (SymbolTable.onNewFunction i n f w).
Proof using Type. exact (name_sent (MethodInformation (i64 i) n (i64 f)) w I). Qed.

Lemma names_sent_symbols s w w' : names_sent w w' -> names_sent w (set_symbols s w').
Proof using Type. intros [(l & Hl & []) ? ? ?]. split; try done. exists l. by split. Qed.

(** The frames a trace is reported with: those below the signal handler. *)
Definition frame_count (t : CallTrace (list CallFrame)) : Z := Z.abs (num_frames t).
Definition looked_up (t : CallTrace (list CallFrame)) : list CallFrame :=
  take (Z.to_nat (frame_count t - 3)) (drop 3 (frames t)).
Definition in_array (t : CallTrace (list CallFrame)) : Prop := frame_count t <= Z.of_nat (length (frames t)).
Definition quiet_frames (l : list CallFrame) : Prop := Forall (fun f => quiet (frame f)) l.

Definition frame_entry (l : Location) : CompressedFrameEntry :=
  mkCompressedFrameEntry (i64 (l_methodId l)) (u32 (lineNumber l)).

Definition located w (f : CallFrame) (l : list Location) : Prop :=
  knownAddrToLocations_ (symbols_ w) !! frame f = Some l.

Lemma addFrames_entries l isError out :
  addFrames l isError out = out ++ (if isError then [] else frame_entry <$> l).
Proof using Type. unfold addFrames. destruct isError; [by rewrite app_nil_r|done]. Qed.

Lemma lookup_frames_spec todo i fs isError out w :
  (i + todo <= length fs)%nat -> quiet_frames (take todo (drop i fs)) ->
  exists ls w',
    lookup_frames todo i fs isError out w =
      Ok (out ++ (if isError then [] else frame_entry <$> concat ls), w') /\
    names_sent w w' /\ Forall2 (located w') (take todo (drop i fs)) ls /\
    knownAddrToLocations_ (symbols_ w) ⊆ knownAddrToLocations_ (symbols_ w').
Proof using Type.
  revert i out w. induction todo as [|todo IH]; intros i out w Hi Hq.
  { exists [], w. rewrite take_0. split; [|split; [reflexivity|by split; [constructor|]]].
    simpl. destruct isError; by rewrite app_nil_r. }
  destruct (lookup_lt_is_Some_2 fs i ltac:(lia)) as [f Hf].
  rewrite (drop_S fs f i Hf) in *. cbn [take] in *.
  cbn [lookup_frames]. rewrite Hf. cbn [in_bounds mbind outcome_bind].
  apply Forall_cons_1 in Hq as [Hf0 Hq].
  destruct (lookup_locations_frame names_sent file_sent function_sent
    (frame f) (isForeign f) (symbols_ w) w Hf0) as (l & s & w1 & -> & Hs & El & Hsub).
  cbn [mbind outcome_bind].
  destruct (IH (S i) (addFrames l isError out) (set_symbols s w1) ltac:(lia) Hq)
    as (ls & w' & -> & Hs' & Hls & Hsub').
  exists (l :: ls), w'. split; [|split; [|split]].
  - rewrite addFrames_entries, <- app_assoc. cbn [concat]. rewrite fmap_app. by destruct isError.
  - etrans; [by apply names_sent_symbols|done].
  - constructor; [|done]. unfold located. eapply lookup_weaken; [exact El|exact Hsub'].
  - etrans; [exact Hsub|exact Hsub'].
Qed.

(** At most three numbers are used up per event libbacktrace reports. *)
Fixpoint numbers_needed (l : list CallFrame) : Z :=
  match l with
  | [] => 0
  | f :: l => 3 * Z.of_nat (length (backtrace_pcinfo (frame f))) + numbers_needed l
  end.

Lemma numbers_needed_nonneg l : 0 <= numbers_needed l.
Proof using Type. induction l; simpl; lia. Qed.

Lemma lookup_frames_connected before todo i fs isError out w log :
  (i + todo <= length fs)%nat -> quiet_frames (take todo (drop i fs)) ->
  connected before (symbols_ w) w log ->
  nextId_ (symbols_ w) + numbers_needed (take todo (drop i fs)) < 2 ^ 63 ->
  forall out' w', lookup_frames todo i fs isError out w = Ok (out', w') ->
    exists log', connected before (symbols_ w') w' log' /\ log `prefix_of` log' /\
      nextId_ (symbols_ w') < 2 ^ 63.
Proof using Type.
  revert i out w log. induction todo as [|todo IH]; intros i out w log Hi Hq C Hn out' w'.
  { intros [= <- <-]. exists log. rewrite take_0 in Hn. simpl in Hn. split_and!; [done|done|lia]. }
  destruct (lookup_lt_is_Some_2 fs i ltac:(lia)) as [f Hf].
  rewrite (drop_S fs f i Hf) in *. cbn [take numbers_needed] in *.
  pose proof (numbers_needed_nonneg (take todo (drop (S i) fs))).
  cbn [lookup_frames]. rewrite Hf. cbn [in_bounds mbind outcome_bind].
  apply Forall_cons_1 in Hq as [Hf0 Hq].
  destruct (lookup_locations_spec before (frame f) (isForeign f) (symbols_ w) w log C Hf0 ltac:(lia))
    as (l & s & w1 & log1 & -> & C1 & P1 & _ & _ & Hn1).
  cbn [mbind outcome_bind]. intros E.
  assert (connected before (symbols_ (set_symbols s w1)) (set_symbols s w1) log1) as C2
    by (eapply connected_world; [exact C1|done]).
  destruct (IH (S i) _ _ log1 ltac:(lia) Hq C2 ltac:(cbn [symbols_ set_symbols]; lia) out' w' E)
    as (log' & C' & P' & Hn').
  exists log'. split_and!; [done|by etrans|done].
Qed.

(** The name is that of the cache, or a valid one that the cache keeps. *)
Lemma threadName_spec id w :
  exists name w1, threadName id w = Ok (name, w1) /\ notified (buffer_ w) (buffer_ w1) /\
    recorded w1 = recorded w /\ symbols_ w1 = symbols_ w /\ controller_ w1 = controller_ w /\
    allocationsTable w1 = allocationsTable w /\
    (exists info, threadIdToInformation w1 !! i32 id = Some info /\ t_name info = name).
Proof using Type.
  unfold threadName. destruct (threadIdToInformation w !! i32 id) as [info|] eqn:E.
  { exists (t_name info), w. split_and!; try done; [constructor|by exists info]. }
  destruct (pthread_getname_np _ id) as [ret|buf]; rewrite <- string_bytes_length;
    match goal with |- context [string_bytes ?s] =>
      destruct (IsStructurallyValidUTF8_spec thread_name_address _ (string_bytes_range s)) as (b & -> & _) end;
    cbn [mbind outcome_bind].
  - eexists _, _. split; [done|]. split; [|split_and!; try by destruct (ret =? ENOENT)].
    + destruct (ret =? ENOENT); simpl; [constructor|]. eapply notified_more. constructor.
    + eexists. split; [simpl; apply lookup_insert_eq|done].
  - eexists _, _. split; [done|]. split_and!; try done; [constructor|].
    eexists. split; [simpl; apply lookup_insert_eq|done].
Qed.

(** ** Stack traces *)

(** The sample of a trace, up to the name of its thread and its frames. *)
Definition sample_of (ts : timespec) (t : CallTrace (list CallFrame)) (sg st : Z) (type : SampleTimeType) (rate : Z)
    (thread_name : string) (compressed : list CompressedFrameEntry) : StackSample :=
  mkStackSample type rate (u64 (toMillis ts)) (i32 (threadId t)) thread_name (256 <=? frame_count t)
    (Z.min 0 (num_frames t)) compressed st.

Definition trace_entries (t : CallTrace (list CallFrame)) (ls : list (list Location)) : list CompressedFrameEntry :=
  if num_frames t <? 0 then [] else frame_entry <$> concat ls.

Definition named_as w (id : Z) (name : string) : Prop :=
  exists info, threadIdToInformation w !! i32 id = Some info /\ t_name info = name.

Lemma numFrames_abs (t : CallTrace (list CallFrame)) :
  (if num_frames t <? 0 then -1 * num_frames t else num_frames t) = frame_count t /\
  (if num_frames t <? 0 then num_frames t else 0) = Z.min 0 (num_frames t).
Proof using Type. unfold frame_count. destruct (Z.ltb_spec (num_frames t) 0); lia. Qed.

Definition traceable (t : CallTrace (list CallFrame)) : Prop := in_array t /\ quiet_frames (looked_up t).

Lemma traceable_indices (t : CallTrace (list CallFrame)) :
  in_array t -> 3 <= frame_count t ->
  (3 + Z.to_nat (frame_count t - 3) <= length (frames t))%nat.
Proof using Type. unfold in_array. lia. Qed.

Lemma lookup_trace (t : CallTrace (list CallFrame)) isError w :
  traceable t ->
  exists ls w',
    lookup_frames (Z.to_nat (frame_count t - 3)) 3 (frames t) isError [] w =
      Ok (if isError then [] else frame_entry <$> concat ls, w') /\
    names_sent w w' /\ Forall2 (located w') (looked_up t) ls.
Proof using Type.
  intros [Ha Hq]. unfold looked_up. destruct (Z.le_gt_cases 3 (frame_count t)).
  - destruct (lookup_frames_spec _ 3 (frames t) isError [] w (traceable_indices t Ha ltac:(lia)) Hq)
      as (ls & w' & E & Hs & Hl & _). by exists ls, w'.
  - replace (Z.to_nat (frame_count t - 3)) with O by lia. exists [], w. rewrite take_0.
    split; [by destruct isError|]. by split; [|constructor].
Qed.

(** What one trace adds to the record. *)
Record traced (ts : timespec) (t : CallTrace (list CallFrame)) (sg st : Z) (names : list AgentEnvelope)
    (ls : list (list Location)) w w' : Prop := {
  traced_sample : exists thread_name, named_as w' (threadId t) thread_name /\
    posted (names ++
      [Sample (sample_of ts t sg st (setSampleType sg w).1 (setSampleType sg w).2 thread_name (trace_entries t ls))]) w w';
  traced_names : Forall is_name names;
  traced_located : Forall2 (located w') (looked_up t) ls;
  traced_notified : notified (buffer_ w) (buffer_ w')
}.

Lemma recordStackTrace_traced ts t sg st tsc w :
  traceable t ->
  exists name w2 w' names ls,
    threadName (threadId t) w = Ok (name, w2) /\
    lookup_frames (Z.to_nat (frame_count t - 3)) 3 (frames t) (num_frames t <? 0) [] w2 = Ok (trace_entries t ls, w') /\
    (exists s, recordStackTrace ts t sg st tsc w = Ok (recordWithSize (Sample s) w') /\
      traced ts t sg st names ls w (recordWithSize (Sample s) w')).
Proof using Type.
  intros Ht. destruct (threadName_spec (threadId t) w) as (name & w2 & E & Hn & Er & Es & Ec & Ea & Hinfo).
  destruct (lookup_trace t (num_frames t <? 0) w2 Ht) as (ls & w' & El & [(names & Hnames & Hpost) B T A] & Hl).
  exists name, w2, w', names, ls. split; [done|]. split; [exact El|].
  unfold recordStackTrace. rewrite E. cbn [mbind outcome_bind]. destruct (setSampleType sg w) as [type rate] eqn:Et.
  destruct (numFrames_abs t) as [-> ->]. change (Z.to_nat NUMBER_OF_SIGNAL_HANDLER_FRAMES) with 3%nat.
  change NUMBER_OF_SIGNAL_HANDLER_FRAMES with 3. rewrite El. cbn [mbind outcome_bind].
  eexists. split; [done|]. split; [|done|done|by cbn [recordWithSize buffer_]; rewrite B].
  exists name. rewrite Et. split; [by destruct Hinfo as (info & Hi & <-); exists info; cbn; rewrite T|].
  assert (posted [] w w2) as H0w by (by apply posted_nothing; [|rewrite Ec]).
  refine (posted_app [] _ _ _ _ H0w _). eapply posted_app; [exact Hpost|apply posted_one].
Qed.

Lemma function_number before s w log id name :
  connected before s w log -> nextId_ s < 2 ^ 63 -> known_function log id name -> i64 id = id.
Proof using Type.
  intros C Hn [f Hf]. apply i64_small.
  pose proof (connected_fresh _ _ _ _ C) as [_ Hfresh]%Forall_app.
  rewrite list.Forall_forall in Hfresh. apply Hfresh in Hf. simpl in Hf. lia.
Qed.

Lemma entries_known before w w' log t ls :
  connected before (symbols_ w') w' log -> nextId_ (symbols_ w') < 2 ^ 63 ->
  Forall2 (located w) (looked_up t) ls -> symbols_ w = symbols_ w' ->
  Forall (fun e => exists name, known_function log (methodId e) name) (trace_entries t ls).
Proof using Type.
  intros C Hn Hl Es. unfold trace_entries. destruct (num_frames t <? 0); [constructor|].
  induction Hl as [|f l fs ls Hf Hl IH]; [constructor|]. simpl. rewrite fmap_app. apply Forall_app. split; [|exact IH].
  unfold located in Hf. rewrite Es in Hf. pose proof (connected_addresses _ _ _ _ C _ _ Hf) as Hk.
  apply Forall_fmap. eapply list.Forall_impl; [exact Hk|]. intros x Hx. exists (functionName x).
  simpl. by rewrite (function_number _ _ _ _ _ _ C Hn Hx).
Qed.

(** C15. Recording a stack trace succeeds if libbacktrace reports no error for
    its program counters, and sends one sample after the names it needs.  The
    sample leaves out the three frames of the signal handler and lists the
    locations found for each of the others, in the order of the trace; a failed
    trace has its error code and no frame.  Every function number in it has been
    announced on this connection. *)
Theorem recordStackTrace_reports before ts t sg st tsc w log :
  connected before (symbols_ w) w log -> traceable t ->
  nextId_ (symbols_ w) + numbers_needed (looked_up t) < 2 ^ 63 ->
  exists w' names ls log',
    recordStackTrace ts t sg st tsc w = Ok w' /\ traced ts t sg st names ls w w' /\
    connected before (symbols_ w') w' log' /\ log `prefix_of` log' /\
    Forall (fun e => exists name, known_function log' (methodId e) name) (trace_entries t ls).
Proof using Type.
  intros C Ht Hn.
  destruct (recordStackTrace_traced ts t sg st tsc w Ht) as (name & w2 & w' & names & ls & E & El & s & Er & Htr).
  destruct (threadName_spec (threadId t) w) as (name' & w2' & E' & _ & Erec & Es & _).
  rewrite E' in E. injection E as -> ->.
  assert (connected before (symbols_ w2) w2 log) as C2.
  { rewrite Es. eapply connected_world; [exact C|]. cbn. by rewrite Erec. }
  assert (exists log', connected before (symbols_ w') w' log' /\ log `prefix_of` log' /\ nextId_ (symbols_ w') < 2 ^ 63)
    as (log' & C' & P' & Hn').
  { destruct Ht as [Ha Hq]. unfold looked_up in *. destruct (Z.le_gt_cases 3 (frame_count t)).
    - eapply (lookup_frames_connected before _ 3 (frames t));
        [by apply traceable_indices|exact Hq|exact C2| |exact El]. by rewrite Es.
    - replace (Z.to_nat (frame_count t - 3)) with O in * by lia. injection El as _ <-.
      exists log. rewrite take_0 in Hn. simpl in Hn. rewrite Es. split_and!; [by rewrite <- Es|done|lia]. }
  exists (recordWithSize (Sample s) w'), names, ls, log'. split; [exact Er|]. split; [exact Htr|].
  split; [|split; [exact P'|]].
  - eapply connected_world; [exact C'|]. cbn [announcements logWriter_announced recordWithSize recorded].
    rewrite omap_app. apply app_nil_r.
  - eapply entries_known; [exact C'|exact Hn'|apply Htr|done].
Qed.

Lemma lookup_frames_bt_error todo i fs isError out w f m n rest :
  fs !! i = Some f -> knownAddrToLocations_ (symbols_ w) !! frame f = None ->
  Forall sym_quiet (backtrace_syminfo (frame f)) -> backtrace_pcinfo (frame f) = PcError m n :: rest ->
  lookup_frames (S todo) i fs isError out w = Undefined.
Proof using Type.
  intros Hf E Hs Hpc. cbn [lookup_frames]. rewrite Hf. cbn [in_bounds mbind outcome_bind].
  by rewrite (lookup_locations_bt_error _ _ _ _ _ _ _ ltac:(done) E Hs Hpc).
Qed.

(** An error libbacktrace reports for the first frame below the signal
    handler, for example that the program has no debug information, makes
    recording the trace undefined: the message is formatted with its arguments
    missing. *)
Theorem backtrace_error_is_undefined ts t sg st tsc w f m n rest :
  3 < frame_count t -> frames t !! 3%nat = Some f ->
  knownAddrToLocations_ (symbols_ w) !! frame f = None ->
  Forall sym_quiet (backtrace_syminfo (frame f)) -> backtrace_pcinfo (frame f) = PcError m n :: rest ->
  recordStackTrace ts t sg st tsc w = Undefined.
Proof using Type.
  intros Hc Hf E Hs Hpc. unfold recordStackTrace. destruct (setSampleType sg w) as [type rate].
  destruct (threadName_spec (threadId t) w) as (name & w2 & -> & _ & _ & Es & _). cbn [mbind outcome_bind].
  destruct (numFrames_abs t) as [-> _]. change (Z.to_nat NUMBER_OF_SIGNAL_HANDLER_FRAMES) with 3%nat.
  change NUMBER_OF_SIGNAL_HANDLER_FRAMES with 3.
  replace (Z.to_nat (frame_count t - 3)) with (S (Z.to_nat (frame_count t - 4))) by lia.
  rewrite <- Es in E. by rewrite (lookup_frames_bt_error _ _ _ _ _ _ _ _ _ _ Hf E Hs Hpc).
Qed.

(** ** Notifications *)

Definition payload_text (initialPayload : string) (value : Z) : string :=
  if value =? 0 then initialPayload else initialPayload +:+ pretty value.

(** A notification is never lost between the queue and the controller: it
    is sent while the handshake is complete and stashed otherwise, once, with a
    value other than zero written behind the text. *)
Theorem notifications_sent_or_stashed category initialPayload value w :
  exists w', recordNotification category initialPayload value w = Ok w' /\
    buffer_ w' = buffer_ w /\
    if isConnected (controller_ w) then
      recorded w' = recorded w ++ [Notification (payload_text initialPayload value) category]
    else recorded w' = recorded w /\
      notifications (controller (controller_ w')) =
        notifications (controller (controller_ w)) ++ [(category, payload_text initialPayload value)].
Proof using Type.
  unfold recordNotification, payload_text. eexists. split; [done|].
  destruct (value =? 0), (isConnected (controller_ w)); by split_and!.
Qed.

(** ** Allocations *)

Definition alloc_record : Type := Z * bool * option Z.
Definition key_of (r : alloc_record) : AllocationKey := (r.2, r.1.2).

Fixpoint record_allocations (rs : list alloc_record) w : outcome logWriter :=
  match rs with
  | [] => Ok w
  | (n, o, s) :: rs => w ← recordAllocation n o s w; record_allocations rs w
  end.

Definition of_key (k : AllocationKey) (rs : list alloc_record) : list alloc_record := filter (fun r => key_of r = k) rs.
Definition total_size (rs : list alloc_record) : Z := fold_right (fun r sum => r.1.1 + sum) 0 rs.

(** The row a key has after [rs]. *)
Definition totals (start : option AllocationTotals) (rs : list alloc_record) : option AllocationTotals :=
  match rs with
  | [] => start
  | _ => let info := default no_allocations start in
         Some (mkAllocationTotals (u32 (numberofAllocations info + Z.of_nat (length rs)))
                 (u64 (totalBytesAllocated info + total_size rs)))
  end.

Lemma totals_step start n o s rs :
  totals (Some (mkAllocationTotals (u32 (numberofAllocations (default no_allocations start) + 1))
                  (u64 (totalBytesAllocated (default no_allocations start) + n)))) rs =
  totals start ((n, o, s) :: rs).
Proof using Type.
  unfold totals. destruct rs as [|r rs]; [unfold total_size; cbn; by rewrite Z.add_0_r|].
  cbn [from_option id numberofAllocations totalBytesAllocated]. do 2 f_equal.
  - unfold u32. rewrite Zplus_mod_idemp_l. f_equal. cbn [length]. lia.
  - unfold u64. rewrite Zplus_mod_idemp_l. f_equal. simpl. lia.
Qed.

Lemma record_allocations_spec rs w :
  exists w', record_allocations rs w = Ok w' /\ recorded w' = recorded w /\ buffer_ w' = buffer_ w /\
    forall k, allocationsTable w' !! k = totals (allocationsTable w !! k) (of_key k rs).
Proof using Type.
  revert w. induction rs as [|[[n o] s] rs IH]; intros w; [by exists w|].
  cbn [record_allocations recordAllocation mbind outcome_bind].
  destruct (IH (set_allocations
    (<[(s, o) := mkAllocationTotals
         (u32 (numberofAllocations (default no_allocations (allocationsTable w !! (s, o))) + 1))
         (u64 (totalBytesAllocated (default no_allocations (allocationsTable w !! (s, o))) + n))]>
       (allocationsTable w)) w)) as (w' & -> & Er & Eb & Ht).
  exists w'. split_and!; [done|done|done|]. intros k. rewrite Ht. cbn [set_allocations allocationsTable].
  unfold of_key. destruct (decide (key_of (n, o, s) = k)) as [<-|Hne].
  - rewrite filter_cons_True by done. cbn [key_of fst snd]. rewrite lookup_insert_eq. apply totals_step.
  - rewrite filter_cons_False by done. by rewrite lookup_insert_ne by done.
Qed.

Definition row_of (k : AllocationKey) (t : AllocationTotals) : AllocationRow :=
  mkAllocationRow (default 0 k.1) (numberofAllocations t) (totalBytesAllocated t) k.2.

Lemma allocation_rows_spec t row :
  row ∈ allocation_rows t <-> exists k info, t !! k = Some info /\ row = row_of k info.
Proof using Type.
  unfold allocation_rows. rewrite list_elem_of_fmap. split.
  - intros ([k info] & -> & Hk). exists k, info. split; [by apply elem_of_map_to_list|done].
  - intros (k & info & Hk & ->). exists (k, info). split; [done|by apply elem_of_map_to_list].
Qed.

(** The table sent after any allocations since the last one has exactly one
    row for each type and kind of allocation that occurred, with the number of
    allocations modulo 2^32 and the sum of their sizes modulo 2^64; sending it
    starts the next one empty. *)
Theorem allocation_table_totals rs w :
  allocationsTable w = ∅ ->
  exists w' rows, record_allocations rs w = Ok w' /\
    recorded (recordAllocationTable w') = recorded w ++ [AllocationTable 0 rows] /\
    allocationsTable (recordAllocationTable w') = ∅ /\
    length rows = size (list_to_set (key_of <$> rs) : gset AllocationKey) /\
    forall row, row ∈ rows <->
      exists k, of_key k rs <> [] /\
        row = row_of k (mkAllocationTotals (u32 (Z.of_nat (length (of_key k rs)))) (u64 (total_size (of_key k rs)))).
Proof using Type.
  intros Hempty. destruct (record_allocations_spec rs w) as (w' & E & Er & Eb & Ht).
  exists w', (allocation_rows (allocationsTable w')). split; [done|].
  split; [cbn [recordAllocationTable set_allocations recordWithSize recorded]; by rewrite Er|]. split; [done|].
  assert (forall k, allocationsTable w' !! k = totals None (of_key k rs)) as Hk.
  { intros k. by rewrite Ht, Hempty, lookup_empty. }
  split.
  - unfold allocation_rows. rewrite length_fmap, length_map_to_list, <- size_dom.
    f_equal. apply set_eq. intros k. rewrite elem_of_dom, Hk, elem_of_list_to_set, list_elem_of_fmap.
    unfold of_key. split.
    + destruct (filter _ rs) as [|r l] eqn:Ef; [by intros []%is_Some_None|]. intros _.
      assert (r ∈ filter (fun r => key_of r = k) rs) as [Hr Hin]%list_elem_of_filter by (rewrite Ef; left). by exists r.
    + intros (r & -> & Hin). assert (r ∈ filter (fun r' => key_of r' = key_of r) rs) as Hf
        by (by apply list_elem_of_filter).
      by destruct (filter _ rs); [apply not_elem_of_nil in Hf|].
  - intros row. rewrite allocation_rows_spec. split.
    + intros (k & info & Hi & ->). exists k. rewrite Hk in Hi. destruct (of_key k rs) as [|r l]; [done|].
      split; [done|]. by injection Hi as <-.
    + intros (k & Hne & ->). eexists k, _. split; [|done]. rewrite Hk. by destruct (of_key k rs).
Qed.
End Spec.

(** ** What is sent for an item of the queues *)

(** The enumerations of the metrics and those of the protocol. *)
Definition variability_codes : list (MetricVariability.t * Wire.MetricVariability) :=
  [(MetricVariability.INVALID, Wire.UNKNOWN_VARIABILITY); (MetricVariability.CONSTANT, Wire.CONSTANT);
   (MetricVariability.MONOTONIC, Wire.COUNTER); (MetricVariability.VARIABLE, Wire.VARIABLE)].
Definition type_codes : list (MetricDataType.t * Wire.MetricDataType) :=
  [(MetricDataType.INVALID, Wire.UNKNOWN_TYPE); (MetricDataType.LONG, Wire.LONG); (MetricDataType.STRING, Wire.STRING)].
Definition unit_codes : list (MetricUnit.t * Wire.MetricUnit) :=
  [(MetricUnit.INVALID, Wire.UNKNOWN_UNIT); (MetricUnit.NONE, Wire.NONE); (MetricUnit.BYTES, Wire.BYTES);
   (MetricUnit.TICKS, Wire.TICKS); (MetricUnit.EVENTS, Wire.EVENTS); (MetricUnit.STRING, Wire.UNIT_STRING);
   (MetricUnit.HERTZ, Wire.HERTZ); (MetricUnit.MILLISECONDS, Wire.MILLISECONDS);
   (MetricUnit.NANOSECONDS, Wire.NANOSECONDS)].

(** The message that announces a metric. *)
Definition announces_metric (i : MetricInformation) (e : AgentEnvelope) : Prop :=
  exists v d u, e = MetricInfo (Wire.mkMetricInformation (u32 (info_id i)) (info_name i) v d u) /\
    (info_variability i, v) ∈ variability_codes /\ (info_dataType i, d) ∈ type_codes /\ (info_unit i, u) ∈ unit_codes.

(** A value is sent in the field of its type. *)
Definition carries (s : MetricSample) (x : Wire.MetricSample) : Prop :=
  Wire.sample_metricId x = u32 (sample_id s) /\
  match type (sample_data s), Wire.sample_value x with
  | MetricDataType.LONG, Wire.LongValue v => v = valueLong (sample_data s)
  | MetricDataType.STRING, Wire.StringValue v => v = valueString (sample_data s)
  | MetricDataType.INVALID, Wire.NoValue => True
  | _, _ => False
  end.

Definition carries_samples (t : Z) (ss : list MetricSample) (e : AgentEnvelope) : Prop :=
  exists xs, e = MetricSamples (u64 t) xs /\ Forall2 carries ss xs.

(** ** The log writer behind the queues *)

Section Behind.
Context {N M : Type} `{NetworkApi N} `{MetricsApi M} `{Backtrace} `{ThreadNames}.
Local Abbreviation logWriter := (logWriter N M).

Definition sample_in (e : AgentEnvelope) : option StackSample := match e with Sample s => Some s | _ => None end.
Definition trace_in (e : event) : option (timespec * CallTrace (list CallFrame) * Z * Z) :=
  match e with StackEvent (TraceTaken ts t sg st _) => Some (ts, t, sg, st) | _ => None end.

Definition manageable (e : event) : Prop :=
  match e with StackEvent (TraceTaken _ t _ _ _) => traceable t | _ => True end.

Lemma no_samples_in_names names : Forall is_name names -> omap sample_in names = [].
Proof. induction 1 as [|e names He Hn IH]; [done|]. by destruct e. Qed.

(** What an item other than a trace may change. *)
Record only_sends (w w' : logWriter) (l : list AgentEnvelope) : Prop := {
  sends_posted : posted l w w';
  sends_samples : omap sample_in l = [];
  sends_buffer : buffer_ w' = buffer_ w;
  sends_symbols : symbols_ w' = symbols_ w;
  sends_rates : forall sg, setSampleType sg w' = setSampleType sg w
}.

Lemma recordWithSize_rates sg e (w : logWriter) : setSampleType sg (recordWithSize e w) = setSampleType sg w.
Proof using Type.
  unfold setSampleType. cbn [recordWithSize controller_].
  destruct (recordWithSize_cases e (controller_ w)) as [n [-> | ->]]; [done|].
  unfold onDisconnect. simpl. destruct (metricsOn_ _); [|done]. by destruct (metrics_thread_running _).
Qed.

Lemma send_only e (w : logWriter) : sample_in e = None -> only_sends w (recordWithSize e w) [e].
Proof using Type. intros He. split; try done; [apply posted_one|by simpl; rewrite He|]. intros sg. apply recordWithSize_rates. Qed.

Lemma silent_only (w w' : logWriter) :
  recorded w' = recorded w -> network (controller_ w') = network (controller_ w) -> buffer_ w' = buffer_ w ->
  symbols_ w' = symbols_ w -> (forall sg, setSampleType sg w' = setSampleType sg w) -> only_sends w w' [].
Proof using Type. intros Er En Eb Es Et. split; try done. by apply posted_nothing. Qed.

Lemma deliver_other e (w : logWriter) :
  trace_in e = None -> exists w' l, deliver_event e w = Ok w' /\ only_sends w w' l.
Proof using Type.
  intros He. destruct e as [[k p v|i|t l|]|[n o s]|[|i n]]; try done; simpl.
  - unfold recordNotification. destruct (isConnected _).
    + eexists _, [_]. split; [done|]. by apply send_only.
    + eexists _, []. split; [done|]. by apply silent_only.
  - eexists _, [_]. split; [done|]. by apply send_only.
  - eexists _, [_]. split; [done|]. by apply send_only.
  - eexists _, [_]. split; [done|]. by apply send_only.
  - eexists _, []. split; [done|]. by apply silent_only.
  - eexists _, []. split; [done|]. by apply silent_only.
Qed.

Lemma recordMetricInformation_announces i (w : logWriter) :
  exists e, recordMetricInformation i w = Ok (recordWithSize e w) /\ announces_metric i e.
Proof using Type.
  eexists. split; [done|]. eexists _, _, _. split; [done|]. destruct i as [n id [] [] []]; cbn; split_and!; set_solver.
Qed.

Lemma recordMetricSamples_carries t ss (w : logWriter) :
  exists e, recordMetricSamples t ss w = Ok (recordWithSize e w) /\ carries_samples t ss e.
Proof using Type.
  eexists. split; [done|]. eexists. split; [done|]. induction ss as [|[id [[] s v]] ss IH]; by constructor.
Qed.

(** What becomes of an item of the queues. *)
Definition handled (e : event) (l : list AgentEnvelope) (w w' : logWriter) : Prop :=
  posted l w w' /\
  match e with
  | MainEvent (Notified k p v) =>
      if isConnected (controller_ w) then l = [Notification (payload_text p v) k]
      else l = [] /\ notifications (controller (controller_ w')) =
             notifications (controller (controller_ w)) ++ [(k, payload_text p v)]
  | MainEvent (InformationSent i) => exists e, l = [e] /\ announces_metric i e
  | MainEvent (SamplesSent t ss) => exists e, l = [e] /\ carries_samples t ss e
  | MainEvent ConstantsComplete => l = [ConstantMetricsComplete]
  | AllocEvent (Allocated n o s) =>
      l = [] /\ forall k, allocationsTable w' !! k = totals (allocationsTable w !! k) (of_key k [(n, o, s)])
  | StackEvent (TraceTaken ts t sg st tsc) =>
      exists names ls thread_name,
        l = names ++ [Sample (sample_of ts t sg st (setSampleType sg w).1 (setSampleType sg w).2 thread_name (trace_entries t ls))] /\
        Forall is_name names /\ named_as w' (threadId t) thread_name /\ Forall2 (located w') (looked_up t) ls
  | StackEvent (ThreadNamed _ _) => l = []
  end.

Lemma deliver_handled e w :
  manageable e -> exists w' l, deliver_event e w = Ok w' /\ handled e l w w'.
Proof using Type.
  intros He. destruct e as [[k p v|i|t ss|]|[n o s]|[ts t sg st tsc|i n]]; cbn [deliver_event].
  - destruct (notifications_sent_or_stashed k p v w) as (w' & E & _ & Hw). exists w'. cbn. rewrite E. unfold handled.
    unfold recordNotification in E. destruct (isConnected (controller_ w)); injection E as <-.
    + eexists. split; [done|]. split; [apply posted_one|]. cbn in Hw. apply app_inv_head in Hw. done.
    + exists []. split; [done|]. split; [by apply posted_nothing|]. split; [done|apply Hw].
  - destruct (recordMetricInformation_announces i w) as (e & E & He'). eexists _, [e]. split; [exact E|].
    split; [apply posted_one|by exists e].
  - destruct (recordMetricSamples_carries t ss w) as (e & E & He'). eexists _, [e]. split; [exact E|].
    split; [apply posted_one|by exists e].
  - eexists _, [_]. split; [done|]. split; [apply posted_one|done].
  - destruct (record_allocations_spec [(n, o, s)] w) as (w' & E & _ & _ & Ht). eexists w', []. split; [exact E|].
    injection E as <-. split; [by apply posted_nothing|done].
  - destruct (recordStackTrace_traced ts t sg st tsc w He) as (name & w2 & w' & names & ls & _ & _ & s & E & [(tn & Hn & Hp) Hnames Hl _]).
    eexists _, _. split; [exact E|]. split; [exact Hp|]. by exists names, ls, tn.
  - eexists w, []. split; [done|]. split; [by apply posted_nothing|done].
Qed.

Lemma logWriter_responsive : responsive (W := logWriter) manageable.
Proof using Type.
  intros e w He. destruct (decide (trace_in e = None)) as [Hno|Hsome].
  - destruct (deliver_other e w Hno) as (w' & l & E & [_ _ Hb _ _]). exists w'. split; [done|].
    simpl. rewrite Hb. constructor.
  - destruct e as [[]|[]|[ts t sg st tsc|]]; try done.
    destruct (recordStackTrace_traced ts t sg st tsc w He) as (name & w2 & w' & names & ls & _ & _ & s & E & [_ _ _ Hn]).
    by exists (recordWithSize (Sample s) w').
Qed.

(** *** Names of threads *)

Definition valid_name (s : string) : Prop := valid (string_bytes s).

(** Every name that is kept, and every name that was sent, is UTF-8. *)
Record utf8_names (w : logWriter) : Prop := {
  names_kept : map_Forall (fun _ info => valid_name (t_name info)) (threadIdToInformation w);
  names_sent_in : Forall (fun s => valid_name (sample_thread_name s)) (omap sample_in (recorded w))
}.

Definition keeps_names (w w' : logWriter) : Prop := utf8_names w -> utf8_names w'.

#[local] Instance keeps_names_preorder : PreOrder keeps_names.
Proof using Type. split; unfold keeps_names; [by intros w|]. intros w1 w2 w3 H12 H23 Hw. auto. Qed.

Lemma silent_names w w' :
  recorded w' = recorded w -> threadIdToInformation w' = threadIdToInformation w -> keeps_names w w'.
Proof using Type. intros Er Et [Hk Hs]. split; by rewrite ?Er, ?Et. Qed.

Lemma send_names e w : (forall s, e = Sample s -> valid_name (sample_thread_name s)) -> keeps_names w (recordWithSize e w).
Proof using Type.
  intros He [Hk Hs]. split; [done|]. simpl. rewrite omap_app. apply Forall_app. split; [done|].
  destruct e; simpl; repeat constructor. by apply He.
Qed.

Lemma threadName_names id w name w' : threadName id w = Ok (name, w') -> utf8_names w -> valid_name name /\ utf8_names w'.
Proof using Type.
  unfold threadName. intros E [Hk Hs]. destruct (threadIdToInformation w !! i32 id) as [info|] eqn:Ei.
  { injection E as <- <-. split; [exact (Hk _ _ Ei)|done]. }
  assert (forall (w1 : logWriter) s,
    recorded w1 = recorded w -> threadIdToInformation w1 = threadIdToInformation w ->
    (valid ← IsStructurallyValidUTF8 true thread_name_address (string_bytes s) (String.length s);
     let thread_name := if valid : bool then s else "Invalid"%string in
     Ok (thread_name,
         set_threads (<[i32 id := mkThreadInformation id thread_name]> (threadIdToInformation w1)) w1)) = Ok (name, w') ->
    valid_name name /\ utf8_names w') as Hkeep.
  { intros w1 s Er Et. rewrite <- string_bytes_length.
    destruct (IsStructurallyValidUTF8_spec thread_name_address _ (string_bytes_range s)) as (b & -> & Hb).
    intros [= <- <-]. assert (valid_name (if b then s else "Invalid"%string)) as Hv.
    { apply accepted_valid. destruct b; [by apply Hb|reflexivity]. }
    split; [exact Hv|]. split; cbn [threadIdToInformation set_threads recorded]; [|by rewrite Er].
    rewrite Et. by apply map_Forall_insert_2. }
  destruct (pthread_getname_np _ id) as [ret|buf]; [|by refine (Hkeep _ _ _ _ E)].
  destruct (negb (ret =? ENOENT)); by refine (Hkeep _ _ _ _ E).
Qed.

Lemma lookup_frames_names todo i fs isError out w out' w' :
  lookup_frames todo i fs isError out w = Ok (out', w') -> keeps_names w w'.
Proof using Type.
  revert i out w. induction todo as [|todo IH]; intros i out w; cbn [lookup_frames]; [by intros [= _ <-]|].
  intros E. apply bind_ok in E as (f & _ & E). apply bind_ok in E as ([l [s w1]] & E1 & E).
  apply IH in E. assert (keeps_names w w1) as Hw;
    [|etrans; [exact Hw|]; etrans; [by apply (silent_names w1 (set_symbols s w1))|exact E]].
  by eapply (lookup_locations_ok keeps_names); [intros; by apply send_names..| |exact E1].
Qed.

(** C22. Whatever names the thread library answers, every name of a thread that the
    writer keeps or sends is UTF-8: handling an item of the queues preserves it. *)
Theorem thread_names_are_utf8 e w w' : utf8_names w -> deliver_event e w = Ok w' -> utf8_names w'.
Proof using Type.
  intros Hw E. destruct e as [[k p v|i|t l|]|[n o s]|[ts t sg st tsc|i n]]; cbn in E.
  - unfold recordNotification in E. injection E as <-.
    destruct (isConnected _); [by apply send_names|by apply (silent_names w)].
  - injection E as <-. by apply send_names.
  - injection E as <-. by apply send_names.
  - injection E as <-. by apply send_names.
  - injection E as <-. by apply (silent_names w).
  - unfold recordStackTrace in E. destruct (setSampleType sg w) as [type rate].
    apply bind_ok in E as ([name w1] & [Hname Hw1]%threadName_names & E); [|done].
    apply bind_ok in E as ([entries w2] & E1 & [= <-]).
    apply send_names; [by intros s [= <-]|]. by apply (lookup_frames_names _ _ _ _ _ _ _ _ E1).
  - injection E as <-. by apply (silent_names w).
Qed.

End Behind.

(** ** Concrete writers *)

#[local] Existing Instance down_network.
#[local] Existing Instance no_metrics.

(** libbacktrace knows every program counter but 7. *)
#[local] Instance one_program : Backtrace := {
  backtrace_pcinfo pc := if pc =? 7 then [PcError "no debug info in ELF executable" (-1)]
                         else [PcInfo (Some "a.ml"%string) (pc / 100) (Some "f"%string)];
  backtrace_syminfo pc := [SymInfo None];
  dladdr pc := None
}.
#[local] Instance one_thread : ThreadNames := {
  pthread_getname_np t id := inr "main"%string;
  thread_name_address := 0
}.

Definition writer_with (c : CircularQueue) : logWriter down unit :=
  mkLogWriter c (first_agent Down false) no_symbols ∅ ∅ [].
Definition handler_frames : list CallFrame := replicate 3 (mkCallFrame true 1).
Definition trace_of (pcs : list Z) : CallTrace (list CallFrame) :=
  mkCallTrace (Z.of_nat (3 + length pcs)) 9 (handler_frames ++ (mkCallFrame false <$> pcs)).
Definition empty_queue : CircularQueue := new_CircularQueue None 0 8.
Definition a_writer : logWriter down unit := writer_with empty_queue.

Lemma trace_of_traceable : traceable (trace_of [100; 200]).
Proof.
  split; [unfold in_array, frame_count; simpl; lia|].
  repeat constructor.
Qed.

Lemma recordStackTrace_reports_witness :
  exists w' names ls log',
    recordStackTrace midnight (trace_of [100; 200]) SIGPROF 0 5 a_writer = Ok w' /\
    traced midnight (trace_of [100; 200]) SIGPROF 0 names ls a_writer w' /\
    connected [] (symbols_ w') w' log' /\ [] `prefix_of` log' /\
    Forall (fun e => exists name, known_function log' (methodId e) name) (trace_entries (trace_of [100; 200]) ls).
Proof.
  apply (recordStackTrace_reports [] midnight (trace_of [100; 200]) SIGPROF 0 5 a_writer []).
  - apply connected_new. reflexivity.
  - exact trace_of_traceable.
  - vm_compute. reflexivity.
Defined.

Lemma backtrace_error_is_undefined_witness :
  recordStackTrace midnight (trace_of [7]) SIGPROF 0 5 a_writer = Undefined.
Proof.
  apply (backtrace_error_is_undefined midnight (trace_of [7]) SIGPROF 0 5 a_writer (mkCallFrame false 7)
    "no debug info in ELF executable" (-1) []); try reflexivity. repeat constructor.
Defined.

Lemma allocation_table_totals_witness :
  exists w' rows, record_allocations [(8, false, Some 1); (16, false, Some 1); (8, true, None)] a_writer = Ok w' /\
    recorded (recordAllocationTable w') = [AllocationTable 0 rows] /\ length rows = 2%nat.
Proof.
  destruct (allocation_table_totals [(8, false, Some 1); (16, false, Some 1); (8, true, None)] a_writer eq_refl)
    as (w' & rows & E & Er & _ & Hlen & _).
  exists w', rows. split; [exact E|]. split; [exact Er|]. rewrite Hlen. reflexivity.
Defined.

(** A thread library that answers bytes which are not UTF-8. *)
#[local] Instance broken_name : ThreadNames := {
  pthread_getname_np t id := inr (String (Ascii.ascii_of_nat 255) "x"%string);
  thread_name_address := 3
}.

Lemma no_names : utf8_names a_writer.
Proof. split; [apply map_Forall_empty|constructor]. Qed.

Lemma thread_names_are_utf8_witness :
  exists w', deliver_event (W := logWriter down unit) (StackEvent (TraceTaken midnight (trace_of []) SIGPROF 0 5)) a_writer = Ok w' /\
    utf8_names w' /\ (t_name <$> threadIdToInformation w' !! 9) = Some "Invalid"%string.
Proof.
  eexists. split; [reflexivity|]. split; [|reflexivity].
  apply (thread_names_are_utf8 (StackEvent (TraceTaken midnight (trace_of []) SIGPROF 0 5)) a_writer); [apply no_names|reflexivity].
Defined.
