(* ===== verification/Varint.v ===== *)
(** * Variable-length integers ([lib/deps/protobuf/.../io/coded_stream])

    What a varint stands for, the unrolled decoder for 32 bits, which the readers
    of [CodedStream] use where a buffer holds the whole varint, and the encoder.
    Bytes are integers from 0 to 255. *)
From S2P Require Import Prelude.

Definition kMaxVarintBytes : nat := 10.
Definition kMaxVarint32Bytes : nat := 5.

(** [!(b & 0x80)]. *)
Definition last_byte (b : Z) : bool := Z.land b 0x80 =? 0.

(** ** Reading *)

(** The loop that discards the high-order bytes. *)
Fixpoint skip_high (todo : nat) (buffer : list Z) (pos : nat) : outcome (bool * nat) :=
  match todo with
  | O => Ok (false, pos)
  | S todo => b ← in_bounds (buffer !! pos); if last_byte b then Ok (true, S pos) else skip_high todo buffer (S pos)
  end.

(** The unrolled part; [shifts] are those of the bytes still to come.  After the
    last one the code leaves the subtraction out, which is a multiple of 2^32. *)
Fixpoint add_bytes (shifts : list Z) (result : Z) (buffer : list Z) (pos : nat) : outcome (option Z * Z * nat) :=
  match shifts with
  | [] => Ok (None, result, pos)
  | s :: shifts =>
      b ← in_bounds (buffer !! pos);
      let result := u32 (result + Z.shiftl b s) in
      if last_byte b then Ok (Some result, result, S pos)
      else add_bytes shifts (u32 (result - Z.shiftl 0x80 s)) buffer (S pos)
  end.

Definition ReadVarint32FromArray (first_byte : Z) (buffer : list Z) : outcome (option (Z * nat)) :=
  '(done, result, pos) ← add_bytes [7; 14; 21; 28] (u32 (first_byte - 0x80)) buffer 1;
  match done with
  | Some result => Ok (Some (result, pos))
  | None =>
      '(found, pos) ← skip_high (kMaxVarintBytes - kMaxVarint32Bytes) buffer pos;
      Ok (if found : bool then Some (result, pos) else None)
  end.

(** The test of both fallbacks: the buffer holds a whole varint, or ends with a
    byte that ends one. *)
Definition can_read_directly (buffer : list Z) : bool :=
  (kMaxVarintBytes <=? length buffer)%nat ||
  match list.last buffer with Some b => last_byte b | None => false end.

(** ** Writing *)

(** A 32-bit value takes at most five turns. *)
Fixpoint write_varint (fuel : nat) (value : Z) : list Z :=
  match fuel with
  | O => []
  | S fuel =>
      if 0x80 <=? value then (Z.lor value 0x80) mod 256 :: write_varint fuel (Z.shiftr value 7)
      else [value]
  end.

Definition WriteVarint32ToArray (value : Z) : list Z := write_varint kMaxVarint32Bytes value.

(** ** What a varint stands for *)

(** Seven bits of each byte, the lowest first; [todo] bytes may follow. *)
Fixpoint varint (todo : nat) (l : list Z) : option (Z * nat) :=
  match todo, l with
  | S todo, b :: l =>
      if b <? 128 then Some (b, 1%nat)
      else match varint todo l with
           | Some (v, n) => Some (b - 128 + 128 * v, S n)
           | None => None
           end
  | _, _ => None
  end.

Lemma land_low b : Z.land b 0x7F = b mod 128.
Proof. change 0x7F with (Z.ones 7). by rewrite Z.land_ones. Qed.

Lemma last_byte_spec b : byte b -> last_byte b = (b <? 128).
Proof.
  intros Hb. apply Bool.eqb_prop. revert b Hb. by apply all_bytes.
Qed.

Lemma u32_u64 z : u32 (u64 z) = u32 z.
Proof. unfold u32, u64. apply Z.mod_mod_divide. by exists (2 ^ 32). Qed.

Lemma low_small b : byte b -> b < 128 -> b mod 128 = b.
Proof. intros [Hb _] H. by apply Z.mod_small. Qed.

Lemma low_continued b : byte b -> 128 <= b -> b mod 128 = b - 128.
Proof. intros [_ Hb] H. symmetry. apply Z.mod_unique with 1; lia. Qed.

Lemma lookup_drop_0 {A} (l : list A) i : l !! i = drop i l !! 0%nat.
Proof. by rewrite lookup_drop, Nat.add_0_r. Qed.

(** ** Sums of parts *)

Lemma lor_add a b k : 0 <= k -> 0 <= a < 2 ^ k -> Z.lor a (b * 2 ^ k) = a + b * 2 ^ k.
Proof.
  intros Hk Ha. symmetry. apply Z.add_nocarry_lor, Z.bits_inj'. intros i Hi.
  rewrite Z.land_spec, Z.bits_0. destruct (Z.lt_ge_cases i k).
  - rewrite Z.mul_pow2_bits_low by done. apply andb_false_r.
  - by rewrite (testbit_above k a).
Qed.

Lemma u64_multiple x k : 0 <= k <= 64 -> u64 (x * 2 ^ k) = (x mod 2 ^ (64 - k)) * 2 ^ k.
Proof.
  intros Hk. unfold u64. replace (2 ^ 64) with (2 ^ (64 - k) * 2 ^ k) by (rewrite <- Z.pow_add_r by lia; f_equal; lia).
  by rewrite Z.mul_mod_distr_r by lia.
Qed.

Lemma lor_u64 r x k : 0 <= k <= 64 -> 0 <= r < 2 ^ k -> Z.lor r (u64 (x * 2 ^ k)) = u64 (r + x * 2 ^ k).
Proof.
  intros Hk Hr. rewrite u64_multiple, lor_add by lia. rewrite <- u64_multiple by lia.
  pose proof (u64_multiple x k Hk) as E. pose proof (Z.mod_pos_bound x (2 ^ (64 - k)) ltac:(lia)).
  assert (2 ^ (64 - k) * 2 ^ k = 2 ^ 64) as Hp by (rewrite <- Z.pow_add_r by lia; f_equal; lia).
  transitivity (u64 (r + u64 (x * 2 ^ k))).
  - symmetry. apply u64_small. nia.
  - unfold u64. by rewrite Zplus_mod_idemp_r.
Qed.

(** ** The fast decoder *)

(** The decoder does not run off the end of [l]. *)
Definition ends_inside (todo : nat) (l : list Z) : Prop := (todo <= length l)%nat \/ varint todo l <> None.

Lemma ends_inside_cons todo l : ends_inside (S todo) l ->
  exists b l', l = b :: l' /\ (128 <= b -> ends_inside todo l').
Proof.
  destruct l as [|b l']; intros [Hl|Hv]; simpl in *; [lia|done| |]; exists b, l'; (split; [done|]); intros Hb.
  - left. lia.
  - right. destruct (Z.ltb_spec b 128); [lia|]. by destruct (varint todo l') as [[]|].
Qed.

Lemma varint_small b todo l : b < 128 -> varint (S todo) (b :: l) = Some (b, 1%nat).
Proof. intros Hb. simpl. by destruct (Z.ltb_spec b 128); [|lia]. Qed.

Lemma varint_more b todo l : 128 <= b ->
  varint (S todo) (b :: l) = match varint todo l with Some (v, n) => Some (b - 128 + 128 * v, S n) | None => None end.
Proof. intros Hb. simpl. by destruct (Z.ltb_spec b 128); [lia|]. Qed.

Lemma skip_high_spec todo buffer pos :
  Forall byte buffer -> ends_inside todo (drop pos buffer) ->
  exists found pos', skip_high todo buffer pos = Ok (found, pos') /\
    match varint todo (drop pos buffer) with
    | Some (_, n) => found = true /\ pos' = (pos + n)%nat
    | None => found = false
    end.
Proof.
  intros Hb. revert pos. induction todo as [|todo IH]; intros pos He; [by exists false, pos|].
  apply ends_inside_cons in He as (b & l & El & He). cbn [skip_high].
  rewrite lookup_drop_0, El. cbn [lookup list_lookup in_bounds mbind outcome_bind].
  assert (byte b) as Hbb by (apply (Forall_drop _ pos) in Hb; rewrite El in Hb; by apply Forall_inv in Hb).
  rewrite last_byte_spec by done. destruct (Z.ltb_spec b 128).
  - rewrite varint_small by done. exists true, (S pos). split; [done|]. split; [done|lia].
  - assert (drop (S pos) buffer = l) as El' by (by rewrite <- Nat.add_1_r, <- drop_drop, El).
    rewrite varint_more by done. destruct (IH (S pos)) as (found & pos' & -> & Hf); [rewrite El'; auto|].
    rewrite El' in Hf. exists found, pos'. split; [done|]. destruct (varint todo l) as [[v n]|]; [|done].
    destruct Hf as [-> ->]. split; [done|lia].
Qed.

Definition shifts_from (i n : nat) : list Z := (fun j => 7 * Z.of_nat j) <$> seq i n.

(** What the fast decoder does from byte [i] on, [r] being the sum so far. *)
Definition read_fast (n m : nat) (r : Z) (buffer : list Z) (i : nat) : outcome (option (Z * nat)) :=
  '(done, result, pos) ← add_bytes (shifts_from i n) (u32 r) buffer i;
  match done with
  | Some result => Ok (Some (result, pos))
  | None => '(found, pos) ← skip_high m buffer pos; Ok (if found : bool then Some (result, pos) else None)
  end.

Lemma read_fast_spec n m i r buffer :
  Forall byte buffer -> (5 <= i + n)%nat -> ends_inside (n + m) (drop i buffer) ->
  read_fast n m r buffer i =
    Ok (match varint (n + m) (drop i buffer) with
        | Some (v, k) => Some (u32 (r + v * 2 ^ (7 * Z.of_nat i)), (i + k)%nat)
        | None => None
        end).
Proof.
  intros Hb. revert i r. induction n as [|n IH]; intros i r Hi He.
  - unfold read_fast. simpl. destruct (skip_high_spec m buffer i Hb He) as (found & pos' & -> & Hf).
    simpl. change (0 + m)%nat with m. destruct (varint m (drop i buffer)) as [[v k]|]; [|by subst].
    destruct Hf as [-> ->]. do 2 f_equal. f_equal. unfold u32.
    replace (7 * Z.of_nat i) with (7 * Z.of_nat i - 32 + 32) by lia. rewrite Z.pow_add_r by lia.
    by rewrite Z.mul_assoc, Z.mod_add.
  - change (S n + m)%nat with (S (n + m)) in *. apply ends_inside_cons in He as (b & l & El & He).
    unfold read_fast. cbn [shifts_from seq fmap list_fmap add_bytes].
    rewrite lookup_drop_0, El. cbn [lookup list_lookup in_bounds mbind outcome_bind].
    assert (byte b) as Hbb by (apply (Forall_drop _ i) in Hb; rewrite El in Hb; by apply Forall_inv in Hb).
    rewrite last_byte_spec, !Z.shiftl_mul_pow2 by (done || lia).
    assert (u32 (u32 r + b * 2 ^ (7 * Z.of_nat i)) = u32 (r + b * 2 ^ (7 * Z.of_nat i))) as ->
      by (unfold u32; by rewrite Zplus_mod_idemp_l).
    destruct (Z.ltb_spec b 128).
    + rewrite varint_small by done. simpl. do 3 f_equal. lia.
    + assert (drop (S i) buffer = l) as El' by (by rewrite <- Nat.add_1_r, <- drop_drop, El).
      assert (u32 (u32 (r + b * 2 ^ (7 * Z.of_nat i)) - 0x80 * 2 ^ (7 * Z.of_nat i)) =
              u32 (r + (b - 128) * 2 ^ (7 * Z.of_nat i))) as ->.
      { unfold u32. rewrite Zminus_mod_idemp_l. f_equal. ring. }
      change (read_fast n m (r + (b - 128) * 2 ^ (7 * Z.of_nat i)) buffer (S i) = Ok
        (match varint (S (n + m)) (b :: l) with
         | Some (v, k) => Some (u32 (r + v * 2 ^ (7 * Z.of_nat i)), (i + k)%nat) | None => None end)).
      rewrite IH; [|lia|rewrite El'; auto]. rewrite El', varint_more by done.
      destruct (varint (n + m) l) as [[v k]|]; [|done]. do 3 f_equal; [|lia]. f_equal.
      replace (7 * Z.of_nat (S i)) with (7 + 7 * Z.of_nat i) by lia.
      rewrite Z.pow_add_r by lia. change (2 ^ 7) with 128. ring.
Qed.

Lemma last_byte_ends todo l b :
  list.last l = Some b -> b < 128 -> (length l <= todo)%nat -> varint todo l <> None.
Proof.
  revert todo. induction l as [|c l IH]; intros todo Hl Hb Hlen; [done|].
  destruct todo as [|todo]; simpl in Hlen; [lia|]. destruct (Z.lt_ge_cases c 128).
  - by rewrite varint_small.
  - rewrite varint_more by done. destruct l as [|c' l].
    { injection Hl as ->. lia. }
    specialize (IH todo Hl Hb ltac:(lia)). by destruct (varint todo (c' :: l)) as [[]|].
Qed.

Lemma direct_ends_inside buffer :
  Forall byte buffer -> can_read_directly buffer = true -> ends_inside kMaxVarintBytes buffer.
Proof.
  intros Hb [Hl|Hl]%orb_true_iff; [left; by apply Nat.leb_le|].
  destruct (list.last buffer) as [b|] eqn:E; [|done].
  destruct (Nat.le_ge_cases kMaxVarintBytes (length buffer)); [by left|right].
  apply last_byte_ends with b; [done| |done].
  rewrite last_byte_spec in Hl; [lia|]. rewrite list.Forall_forall in Hb. apply Hb.
  apply last_Some in E as [l ->]. apply elem_of_app. right. by left.
Qed.

Lemma array32_spec b l :
  Forall byte (b :: l) -> 128 <= b -> ends_inside 10 (b :: l) ->
  ReadVarint32FromArray b (b :: l) =
    Ok (match varint 10 (b :: l) with Some (v, n) => Some (u32 v, n) | None => None end).
Proof.
  intros Hb Hc He. apply ends_inside_cons in He as (b' & l' & [= <- <-] & He).
  change (ReadVarint32FromArray b (b :: l)) with (read_fast 4 5 (b - 0x80) (b :: l) 1).
  rewrite read_fast_spec; [|done|lia|by apply He]. change (drop 1 (b :: l)) with l. rewrite varint_more by done.
  change (4 + 5)%nat with 9%nat. destruct (varint 9 l) as [[v k]|]; [|done]. do 3 f_equal. f_equal.
  change (2 ^ (7 * Z.of_nat 1)) with 128. lia.
Qed.

(** ** The encoder *)

Lemma continued_byte v : Z.lor v 0x80 mod 256 = v mod 128 + 128.
Proof.
  assert (Z.lor v 0x80 mod 256 = Z.lor (v mod 256) 0x80) as ->.
  { change 256 with (2 ^ 8). rewrite <- !Z.land_ones by lia. by rewrite Z.land_lor_distr_l. }
  replace (v mod 128) with ((v mod 256) mod 128).
  2: { apply Z.mod_mod_divide. by exists 2. }
  apply Z.eqb_eq. apply (all_bytes (fun b => Z.lor b 0x80 =? b mod 128 + 128)); [done|].
  apply Z.mod_pos_bound. lia.
Qed.

Lemma write_varint_bytes fuel v : 0 <= v -> Forall byte (write_varint fuel v).
Proof.
  revert v. induction fuel as [|fuel IH]; intros v Hv; simpl; [constructor|].
  destruct (Z.leb_spec 0x80 v).
  - constructor; [apply Z.mod_pos_bound; lia|]. apply IH. apply Z.shiftr_nonneg. lia.
  - by repeat constructor; unfold byte; lia.
Qed.

Lemma write_varint_length fuel v : (length (write_varint fuel v) <= fuel)%nat.
Proof.
  revert v. induction fuel as [|fuel IH]; intros v; simpl; [lia|].
  destruct (_ <=? _); simpl; [|lia]. specialize (IH (Z.shiftr v 7)). lia.
Qed.

Lemma write_varint_nonempty fuel v : (0 < fuel)%nat -> (0 < length (write_varint fuel v))%nat.
Proof. destruct fuel; [lia|]. simpl. destruct (_ <=? _); simpl; lia. Qed.

Lemma write_varint_spec fuel todo v rest :
  0 <= v < 2 ^ (7 * Z.of_nat fuel) -> (0 < fuel <= todo)%nat ->
  varint todo (write_varint fuel v ++ rest) = Some (v, length (write_varint fuel v)).
Proof.
  revert todo v. induction fuel as [|fuel IH]; intros todo v Hv Ht.
  { lia. }
  destruct todo as [|todo]; [lia|]. cbn [write_varint]. destruct (Z.leb_spec 0x80 v).
  - cbn [app length]. rewrite continued_byte. pose proof (Z.mod_pos_bound v 128 ltac:(lia)).
    rewrite varint_more by lia. rewrite Z.shiftr_div_pow2 by lia. change (2 ^ 7) with 128.
    rewrite IH; [|split; [apply Z.div_pos; lia|]|destruct fuel; [simpl in Hv; lia|lia]].
    + do 2 f_equal. pose proof (Z.div_mod v 128 ltac:(lia)). lia.
    + apply Z.div_lt_upper_bound; [lia|]. change 128 with (2 ^ 7). rewrite <- Z.pow_add_r by lia.
      replace (7 + 7 * Z.of_nat fuel) with (7 * Z.of_nat (S fuel)) by lia. lia.
  - cbn [app length]. by rewrite varint_small.
Qed.
