(* ===== verification/ZeroCopyStream.v ===== *)
(** * Byte streams of Protocol Buffers ([deps/protobuf/.../io/zero_copy_stream.h])

    The interface of an input stream that hands out its bytes in chunks, its
    contract, and the stream over an array ([zero_copy_stream_impl_lite.cc]), which
    meets the contract.  A failed [GOOGLE_CHECK] throws. *)
From S2P Require Import Prelude.
#[local] Open Scope Z_scope.

(** [nexts_left] bounds how often [Next] can still succeed: the contract of the
    interface excludes a stream that gives empty chunks for ever. *)
Class ZeroCopyInputStream (I : Type) := {
  Next : I -> outcome (option (list Z) * I);
  BackUp : Z -> I -> outcome I;
  Skip : Z -> I -> outcome (bool * I);
  ByteCount : I -> Z;
  nexts_left : I -> nat
}.

(** What the comments of the interface promise of reading.  [unread] are the bytes
    still to come, [returned] the chunk that may be backed up into. *)
Class ReliableStream (I : Type) `{ZeroCopyInputStream I} := {
  valid_input : I -> Prop;
  unread : I -> list Z;
  returned : I -> list Z;
  next_lawful i : valid_input i ->
    exists o i', Next i = Ok (o, i') /\ valid_input i' /\
      match o with
      | Some chunk => unread i = chunk ++ unread i' /\ returned i' = chunk /\ (nexts_left i' < nexts_left i)%nat
      | None => unread i = [] /\ unread i' = []
      end;
  back_up_lawful n i : valid_input i -> 0 < n <= Z.of_nat (length (returned i)) ->
    exists i', BackUp n i = Ok i' /\ valid_input i' /\
      unread i' = drop (length (returned i) - Z.to_nat n) (returned i) ++ unread i
}.

(** Skipping bytes that are there. *)
Class SkipsWithin (I : Type) `{ReliableStream I} : Prop :=
  skips_within n i : valid_input i -> 0 < n <= Z.of_nat (length (unread i)) ->
    exists i', Skip n i = Ok (true, i') /\ valid_input i' /\ unread i' = drop (Z.to_nat n) (unread i).

(** All that the comments promise of skipping; at its end a stream may or may not say that it could skip
    nothing.  The stream over a regular file does not keep the promise for
    bytes that are not there. *)
Class LawfulInput (I : Type) `{ReliableStream I} : Prop := {
  skip_lawful n i : valid_input i -> 0 <= n ->
    exists b i', Skip n i = Ok (b, i') /\ valid_input i' /\ unread i' = drop (Z.to_nat n) (unread i) /\
      (b = (n <=? Z.of_nat (length (unread i))) \/ n = 0 /\ b = false /\ unread i = [])
}.

Lemma skip_exactly {I : Type} `{LawfulInput I} n (i : I) : valid_input i -> 0 < n ->
  exists i', Skip n i = Ok (n <=? Z.of_nat (length (unread i)), i') /\ valid_input i' /\
    unread i' = drop (Z.to_nat n) (unread i).
Proof.
  intros Hv Hn. destruct (skip_lawful n i Hv ltac:(lia)) as (b & i' & E & Hv' & Eu & [->|(? & _)]); [by exists i'|lia].
Qed.

#[export] Instance lawful_skips_within {I : Type} `{LawfulInput I} : SkipsWithin I.
Proof.
  intros n i Hv Hn. destruct (skip_exactly n i Hv ltac:(lia)) as (i' & E & Hv' & Eu). exists i'.
  by rewrite (proj2 (Z.leb_le _ _)) in E by lia.
Qed.

Definition GOOGLE_CHECK (b : bool) : outcome unit := if b then Ok tt else Throws "FatalException".

(** ** The stream over an array *)

Module ArrayInputStream.

Record ArrayInputStream := mkArrayInputStream {
  data_ : list Z;
  size_ : Z;
  block_size_ : Z;
  position_ : Z;
  last_returned_size_ : Z
}.

Definition new_ArrayInputStream (data : list Z) (block_size : Z) : ArrayInputStream :=
  let size := Z.of_nat (length data) in
  mkArrayInputStream data size (if 0 <? block_size then block_size else size) 0 0.

Definition at_position position last i : ArrayInputStream :=
  mkArrayInputStream (data_ i) (size_ i) (block_size_ i) position last.

Definition Next (i : ArrayInputStream) : outcome (option (list Z) * ArrayInputStream) :=
  if position_ i <? size_ i then
    let size := Z.min (block_size_ i) (size_ i - position_ i) in
    let data := take (Z.to_nat size) (drop (Z.to_nat (position_ i)) (data_ i)) in
    Ok (Some data, at_position (position_ i + size) size i)
  else Ok (None, at_position (position_ i) 0 i).

Definition BackUp (count : Z) (i : ArrayInputStream) : outcome ArrayInputStream :=
  GOOGLE_CHECK (0 <? last_returned_size_ i);;
  GOOGLE_CHECK (count <=? last_returned_size_ i);;
  GOOGLE_CHECK (0 <=? count);;
  Ok (at_position (position_ i - count) 0 i).

Definition Skip (count : Z) (i : ArrayInputStream) : outcome (bool * ArrayInputStream) :=
  GOOGLE_CHECK (0 <=? count);;
  if size_ i - position_ i <? count then Ok (false, at_position (size_ i) 0 i)
  else Ok (true, at_position (position_ i + count) 0 i).

Definition ByteCount (i : ArrayInputStream) : Z := position_ i.

#[export] Instance array_stream : ZeroCopyInputStream ArrayInputStream := {
  ZeroCopyStream.Next := Next;
  ZeroCopyStream.BackUp := BackUp;
  ZeroCopyStream.Skip := Skip;
  ZeroCopyStream.ByteCount := ByteCount;
  nexts_left i := Z.to_nat (size_ i - position_ i)
}.

(** *** It meets the contract *)

Record valid (i : ArrayInputStream) : Prop := {
  valid_size : size_ i = Z.of_nat (length (data_ i));
  valid_block : 0 < block_size_ i \/ size_ i = 0;
  valid_position : 0 <= last_returned_size_ i <= position_ i;
  valid_end : position_ i <= size_ i
}.

Definition array_unread (i : ArrayInputStream) : list Z := drop (Z.to_nat (position_ i)) (data_ i).

Definition array_returned (i : ArrayInputStream) : list Z :=
  take (Z.to_nat (last_returned_size_ i)) (drop (Z.to_nat (position_ i - last_returned_size_ i)) (data_ i)).

Lemma new_valid data block_size : valid (new_ArrayInputStream data block_size).
Proof. split; simpl; try lia. destruct (Z.ltb_spec 0 block_size); lia. Qed.

Lemma array_returned_length i : valid i -> length (array_returned i) = Z.to_nat (last_returned_size_ i).
Proof. intros [Hs _ Hp He]. unfold array_returned. rewrite length_take, length_drop. lia. Qed.

#[export] Program Instance array_reliable : ReliableStream ArrayInputStream := {|
  valid_input := valid;
  unread := array_unread;
  returned := array_returned
|}.
Next Obligation.
  intros i [Hs Hb Hp He]. simpl. unfold Next. destruct (Z.ltb_spec (position_ i) (size_ i)) as [Hlt|Hge].
  - eexists _, _. split; [done|]. set (size := Z.min _ _). assert (0 < size <= size_ i - position_ i) as Hsize by lia.
    split; [split; simpl; try done; lia|]. unfold array_unread, array_returned. simpl. split_and!; [| |lia].
    + replace (Z.to_nat (position_ i + size)) with (Z.to_nat (position_ i) + Z.to_nat size)%nat by lia.
      by rewrite <- drop_drop, take_drop.
    + by replace (position_ i + size - size) with (position_ i) by lia.
  - eexists _, _. split; [done|]. split; [split; simpl; try done; lia|]. unfold array_unread. simpl.
    by rewrite drop_ge by lia.
Qed.
Next Obligation.
  intros n i Hv Hn. rewrite array_returned_length in * by done. destruct Hv as [Hs Hb Hp He]. simpl. unfold BackUp.
  rewrite (proj2 (Z.ltb_lt 0 _)), (proj2 (Z.leb_le n _)), (proj2 (Z.leb_le 0 n)) by lia. simpl.
  eexists. split; [done|]. split; [split; simpl; try done; lia|]. unfold array_unread, array_returned. simpl.
  replace (Z.to_nat (position_ i - n)) with
    (Z.to_nat (position_ i - last_returned_size_ i) + (Z.to_nat (last_returned_size_ i) - Z.to_nat n))%nat by lia.
  rewrite <- drop_drop. set (l := drop (Z.to_nat (position_ i - last_returned_size_ i)) (data_ i)).
  assert (drop (Z.to_nat (position_ i)) (data_ i) = drop (Z.to_nat (last_returned_size_ i)) l) as ->.
  { unfold l. rewrite drop_drop. f_equal. lia. }
  rewrite <- (take_drop (Z.to_nat (last_returned_size_ i)) l) at 1.
  apply drop_app_le. rewrite length_take. unfold l. rewrite length_drop. lia.
Qed.

#[export] Instance array_lawful : LawfulInput ArrayInputStream.
Proof.
  split. intros n i [Hs Hb Hp He] Hn. simpl. unfold Skip, array_unread. rewrite (proj2 (Z.leb_le 0 n)) by lia. simpl.
  rewrite length_drop. destruct (Z.ltb_spec (size_ i - position_ i) n).
  - rewrite (proj2 (Z.leb_gt _ _)) by lia. eexists _, _. split; [done|]. split; [split; simpl; try done; lia|]. simpl.
    split; [rewrite !drop_ge; [done|rewrite length_drop; lia|lia]|by left].
  - rewrite (proj2 (Z.leb_le _ _)) by lia. eexists _, _. split; [done|]. split; [split; simpl; try done; lia|]. simpl.
    split; [rewrite drop_drop; f_equal; lia|by left].
Qed.

End ArrayInputStream.
