(* ===== verification/CodedStream.v ===== *)
(** * Reading the wire format ([deps/protobuf/.../io/coded_stream])

    [CodedInputStream]: the current chunk of the underlying stream, two pointers
    into it, the limits of the message that is read, and the counters.  A pointer
    is an index of the chunk; a null pointer is index 0 of an empty chunk.  Bytes
    beyond [buffer_end_] are not read, even where the chunk goes on behind it.
    Log output and the warnings of debug builds are left out; the machine is
    little-endian, and holds an [int] in 32 bits. *)
From S2P Require Import Prelude Varint ZeroCopyStream.
#[local] Open Scope Z_scope.

Definition kDefaultTotalBytesLimit : Z := INT_MAX.
Definition default_recursion_limit_ : Z := 100.

Record CodedInputStream (I : Type) := mkStream {
  input_ : option I;
  chunk : list Z;
  buffer_ : Z;
  buffer_end_ : Z;
  total_bytes_read_ : Z;
  overflow_bytes_ : Z;
  last_tag_ : Z;
  legitimate_message_end_ : bool;
  current_limit_ : Z;
  buffer_size_after_limit_ : Z;
  total_bytes_limit_ : Z;
  recursion_budget_ : Z;
  recursion_limit_ : Z
}.
Arguments mkStream {I}.
Arguments input_ {I}.
Arguments chunk {I}.
Arguments buffer_ {I}.
Arguments buffer_end_ {I}.
Arguments total_bytes_read_ {I}.
Arguments overflow_bytes_ {I}.
Arguments last_tag_ {I}.
Arguments legitimate_message_end_ {I}.
Arguments current_limit_ {I}.
Arguments buffer_size_after_limit_ {I}.
Arguments total_bytes_limit_ {I}.
Arguments recursion_budget_ {I}.
Arguments recursion_limit_ {I}.

(** The bytes of [l] from index [first] up to index [last]. *)
Definition slice (first last : Z) (l : list Z) : list Z := take (Z.to_nat (last - first)) (drop (Z.to_nat first) l).

(** Four or eight bytes, the lowest first. *)
Definition little_endian (bytes : list Z) : Z := foldr (fun b v => b + 256 * v) 0 bytes.

Section Stream.
Context {I : Type} `{ZeroCopyInputStream I}.
Local Abbreviation stream := (CodedInputStream I).
Implicit Types s : stream.

Definition set_input i s : stream :=
  mkStream i (chunk s) (buffer_ s) (buffer_end_ s) (total_bytes_read_ s) (overflow_bytes_ s) (last_tag_ s)
    (legitimate_message_end_ s) (current_limit_ s) (buffer_size_after_limit_ s) (total_bytes_limit_ s)
    (recursion_budget_ s) (recursion_limit_ s).
Definition set_chunk c b e s : stream :=
  mkStream (input_ s) c b e (total_bytes_read_ s) (overflow_bytes_ s) (last_tag_ s)
    (legitimate_message_end_ s) (current_limit_ s) (buffer_size_after_limit_ s) (total_bytes_limit_ s)
    (recursion_budget_ s) (recursion_limit_ s).
Definition set_buffer b s : stream := set_chunk (chunk s) b (buffer_end_ s) s.
Definition set_end e s : stream := set_chunk (chunk s) (buffer_ s) e s.
Definition set_total t s : stream :=
  mkStream (input_ s) (chunk s) (buffer_ s) (buffer_end_ s) t (overflow_bytes_ s) (last_tag_ s)
    (legitimate_message_end_ s) (current_limit_ s) (buffer_size_after_limit_ s) (total_bytes_limit_ s)
    (recursion_budget_ s) (recursion_limit_ s).
Definition set_overflow o s : stream :=
  mkStream (input_ s) (chunk s) (buffer_ s) (buffer_end_ s) (total_bytes_read_ s) o (last_tag_ s)
    (legitimate_message_end_ s) (current_limit_ s) (buffer_size_after_limit_ s) (total_bytes_limit_ s)
    (recursion_budget_ s) (recursion_limit_ s).
Definition SetLastTag t s : stream :=
  mkStream (input_ s) (chunk s) (buffer_ s) (buffer_end_ s) (total_bytes_read_ s) (overflow_bytes_ s) t
    (legitimate_message_end_ s) (current_limit_ s) (buffer_size_after_limit_ s) (total_bytes_limit_ s)
    (recursion_budget_ s) (recursion_limit_ s).
Definition set_legitimate b s : stream :=
  mkStream (input_ s) (chunk s) (buffer_ s) (buffer_end_ s) (total_bytes_read_ s) (overflow_bytes_ s) (last_tag_ s)
    b (current_limit_ s) (buffer_size_after_limit_ s) (total_bytes_limit_ s)
    (recursion_budget_ s) (recursion_limit_ s).
Definition set_limits current after total s : stream :=
  mkStream (input_ s) (chunk s) (buffer_ s) (buffer_end_ s) (total_bytes_read_ s) (overflow_bytes_ s) (last_tag_ s)
    (legitimate_message_end_ s) current after total (recursion_budget_ s) (recursion_limit_ s).
Definition set_after a s : stream := set_limits (current_limit_ s) a (total_bytes_limit_ s) s.
Definition set_recursion budget limit s : stream :=
  mkStream (input_ s) (chunk s) (buffer_ s) (buffer_end_ s) (total_bytes_read_ s) (overflow_bytes_ s) (last_tag_ s)
    (legitimate_message_end_ s) (current_limit_ s) (buffer_size_after_limit_ s) (total_bytes_limit_ s) budget limit.

(** The bytes from [buffer_] up to [buffer_end_]: [buffer_ < buffer_end_] is that
    there are any. *)
Definition window s : list Z := slice (buffer_ s) (buffer_end_ s) (chunk s).

Definition Advance (amount : Z) s : stream := set_buffer (buffer_ s + amount) s.
Definition BufferSize s : Z := buffer_end_ s - buffer_ s.
Definition CurrentPosition s : Z := total_bytes_read_ s - (BufferSize s + buffer_size_after_limit_ s).
Definition closest_limit s : Z := Z.min (current_limit_ s) (total_bytes_limit_ s).
Definition IsFlat s : bool := match input_ s with None => true | Some _ => false end.
Definition LastTagWas (expected : Z) s : bool := last_tag_ s =? expected.
Definition ConsumedEntireMessage s : bool := legitimate_message_end_ s.

(** The underlying stream, which a stream over an array does not have. *)
Definition the_input s : outcome I := in_bounds (input_ s).

(** ** Limits *)

Definition RecomputeBufferLimits s : stream :=
  let s := set_end (buffer_end_ s + buffer_size_after_limit_ s) s in
  let closest_limit := closest_limit s in
  if closest_limit <? total_bytes_read_ s then
    let s := set_after (total_bytes_read_ s - closest_limit) s in
    set_end (buffer_end_ s - buffer_size_after_limit_ s) s
  else set_after 0 s.

(** The old limit. *)
Definition PushLimit (byte_limit : Z) s : Z * stream :=
  let current_position := CurrentPosition s in
  let old_limit := current_limit_ s in
  if (0 <=? byte_limit) && (byte_limit <=? INT_MAX - current_position)
     && (byte_limit <? current_limit_ s - current_position) then
    (old_limit, RecomputeBufferLimits
       (set_limits (current_position + byte_limit) (buffer_size_after_limit_ s) (total_bytes_limit_ s) s))
  else (old_limit, s).

Definition PopLimit (limit : Z) s : stream :=
  set_legitimate false
    (RecomputeBufferLimits (set_limits limit (buffer_size_after_limit_ s) (total_bytes_limit_ s) s)).

Definition BytesUntilLimit s : Z :=
  if current_limit_ s =? INT_MAX then -1 else current_limit_ s - CurrentPosition s.

Definition SetTotalBytesLimit (total_bytes_limit : Z) s : stream :=
  RecomputeBufferLimits
    (set_limits (current_limit_ s) (buffer_size_after_limit_ s) (Z.max (CurrentPosition s) total_bytes_limit) s).

Definition BytesUntilTotalBytesLimit s : Z :=
  if total_bytes_limit_ s =? INT_MAX then -1 else total_bytes_limit_ s - CurrentPosition s.

Definition CheckEntireMessageConsumedAndPopLimit (limit : Z) s : bool * stream :=
  (ConsumedEntireMessage s, PopLimit limit s).

(** ** Recursion *)

Definition SetRecursionLimit (limit : Z) s : stream :=
  set_recursion (recursion_budget_ s + (limit - recursion_limit_ s)) limit s.

Definition IncrementRecursionDepth s : bool * stream :=
  let s := set_recursion (recursion_budget_ s - 1) (recursion_limit_ s) s in
  (0 <=? recursion_budget_ s, s).

Definition DecrementRecursionDepth s : stream :=
  if recursion_budget_ s <? recursion_limit_ s then set_recursion (recursion_budget_ s + 1) (recursion_limit_ s) s
  else s.

Definition IncrementRecursionDepthAndPushLimit (byte_limit : Z) s : (Z * Z) * stream :=
  let '(old_limit, s) := PushLimit byte_limit s in
  let s := set_recursion (recursion_budget_ s - 1) (recursion_limit_ s) s in
  ((old_limit, recursion_budget_ s), s).

Definition DecrementRecursionDepthAndPopLimit (limit : Z) s : bool * stream :=
  let '(result, s) := CheckEntireMessageConsumedAndPopLimit limit s in
  (result, set_recursion (recursion_budget_ s + 1) (recursion_limit_ s) s).

(** ** The next chunk *)

(** [fuel] calls of [Next]. *)
Fixpoint NextNonEmpty (fuel : nat) (i : I) : outcome (option (list Z) * I) :=
  match fuel with
  | O => Blocked
  | S fuel =>
      '(o, i) ← Next i;
      match o with
      | Some [] => NextNonEmpty fuel i
      | _ => Ok (o, i)
      end
  end.

Definition Refresh s : outcome (bool * stream) :=
  if (0 <? buffer_size_after_limit_ s) || (0 <? overflow_bytes_ s)
     || (total_bytes_read_ s =? current_limit_ s) then Ok (false, s)
  else
    i ← the_input s;
    '(o, i) ← NextNonEmpty (S (nexts_left i)) i;
    let s := set_input (Some i) s in
    match o with
    | Some bytes =>
        let buffer_size := Z.of_nat (length bytes) in
        let s := set_chunk bytes 0 buffer_size s in
        let s :=
          if total_bytes_read_ s <=? INT_MAX - buffer_size then set_total (total_bytes_read_ s + buffer_size) s
          else
            let s := set_overflow (total_bytes_read_ s - (INT_MAX - buffer_size)) s in
            let s := set_end (buffer_end_ s - overflow_bytes_ s) s in
            set_total INT_MAX s in
        Ok (true, RecomputeBufferLimits s)
    | None => Ok (false, set_chunk [] 0 0 s)
    end.

(** The constructors: over a stream, with the first chunk fetched at once, and
    over an array. *)
Definition new_CodedInputStream (i : I) : outcome stream :=
  '(_, s) ← Refresh (mkStream (Some i) [] 0 0 0 0 0 false INT_MAX 0 kDefaultTotalBytesLimit
                      default_recursion_limit_ default_recursion_limit_);
  Ok s.

Definition flat_CodedInputStream (buffer : list Z) : stream :=
  let size := Z.of_nat (length buffer) in
  mkStream None buffer 0 size size 0 0 false size 0 kDefaultTotalBytesLimit
    default_recursion_limit_ default_recursion_limit_.

(** What the destructor does for a stream that is not over an array. *)
Definition BackUpInputToCurrentPosition s : outcome stream :=
  let backup_bytes := BufferSize s + buffer_size_after_limit_ s + overflow_bytes_ s in
  if 0 <? backup_bytes then
    i ← the_input s;
    i ← BackUp backup_bytes i;
    let s := set_input (Some i) s in
    let s := set_total (total_bytes_read_ s - (BufferSize s + buffer_size_after_limit_ s)) s in
    Ok (set_overflow 0 (set_after 0 (set_end (buffer_ s) s)))
  else Ok s.

Definition destroy s : outcome stream := if IsFlat s then Ok s else BackUpInputToCurrentPosition s.

(** ** Bytes *)

Definition SkipFallback (count original_buffer_size : Z) s : outcome (bool * stream) :=
  if 0 <? buffer_size_after_limit_ s then Ok (false, Advance original_buffer_size s)
  else
    let count := count - original_buffer_size in
    let s := set_chunk [] 0 0 s in
    let closest_limit := closest_limit s in
    let bytes_until_limit := closest_limit - total_bytes_read_ s in
    if bytes_until_limit <? count then
      if 0 <? bytes_until_limit then
        let s := set_total closest_limit s in
        i ← the_input s;
        '(_, i) ← ZeroCopyStream.Skip bytes_until_limit i;
        Ok (false, set_input (Some i) s)
      else Ok (false, s)
    else
      let s := set_total (total_bytes_read_ s + count) s in
      i ← the_input s;
      '(b, i) ← ZeroCopyStream.Skip count i;
      Ok (b, set_input (Some i) s).

Definition Skip (count : Z) s : outcome (bool * stream) :=
  if count <? 0 then Ok (false, s)
  else
    let original_buffer_size := BufferSize s in
    if count <=? original_buffer_size then Ok (true, Advance count s)
    else SkipFallback count original_buffer_size s.

Definition GetDirectBufferPointer s : outcome (option (list Z) * stream) :=
  if BufferSize s =? 0 then
    '(b, s) ← Refresh s;
    Ok (if b : bool then Some (window s) else None, s)
  else Ok (Some (window s), s).

(** The copying loop of [InternalReadRawInline] and [ReadStringFallback]: [bytes]
    are what was copied before.  Every turn but two copies something. *)
Fixpoint copy_loop (fuel : nat) (size : Z) (bytes : list Z) s : outcome (bool * list Z * stream) :=
  match fuel with
  | O => Blocked
  | S fuel =>
      let current_buffer_size := BufferSize s in
      if current_buffer_size <? size then
        let bytes := bytes ++ window s in
        let s := Advance current_buffer_size s in
        '(b, s) ← Refresh s;
        if b : bool then copy_loop fuel (size - current_buffer_size) bytes s else Ok (false, bytes, s)
      else Ok (true, bytes ++ take (Z.to_nat size) (window s), Advance size s)
  end.

Definition ReadRaw (size : Z) s : outcome (bool * list Z * stream) :=
  if size <? 0 then Undefined else copy_loop (Z.to_nat size + 2) size [] s.

(** On failure the string keeps what was read. *)
Definition ReadStringFallback (size : Z) s : outcome (bool * list Z * stream) := copy_loop (Z.to_nat size + 2) size [] s.

Definition ReadString (size : Z) s : outcome (bool * list Z * stream) :=
  if size <? 0 then Ok (false, [], s)
  else if size <=? BufferSize s then Ok (true, take (Z.to_nat size) (window s), Advance size s)
  else ReadStringFallback size s.

(** [size] is the size of the integer, 4 or 8; it is unsigned, and so is the
    comparison of the fallback. *)
Definition ReadLittleEndianFallback (size : Z) s : outcome (option Z * stream) :=
  if size <=? u64 (BufferSize s) then
    Ok (Some (little_endian (take (Z.to_nat size) (window s))), Advance size s)
  else
    '(b, bytes, s) ← ReadRaw size s;
    Ok (if b : bool then Some (little_endian bytes) else None, s).

Definition ReadLittleEndian (size : Z) s : outcome (option Z * stream) :=
  if size <=? BufferSize s then Ok (Some (little_endian (take (Z.to_nat size) (window s))), Advance size s)
  else ReadLittleEndianFallback size s.

Definition ReadLittleEndian32 : stream -> outcome (option Z * stream) := ReadLittleEndian 4.
Definition ReadLittleEndian64 : stream -> outcome (option Z * stream) := ReadLittleEndian 8.

(** ** Varints *)

(** Three parts of 28 bits; only the low byte of the third counts. *)
Definition varint_of_parts (part0 part1 part2 : Z) : Z :=
  Z.lor (Z.lor part0 (u64 (Z.shiftl part1 28))) (u64 (Z.shiftl part2 56)).

Definition ReadVarint64FromArray (buffer : list Z) : outcome (option (Z * nat)) :=
  '(done, part0, pos) ← add_bytes [0; 7; 14; 21] 0 buffer 0;
  match done with
  | Some _ => Ok (Some (varint_of_parts part0 0 0, pos))
  | None =>
      '(done, part1, pos) ← add_bytes [0; 7; 14; 21] 0 buffer pos;
      match done with
      | Some _ => Ok (Some (varint_of_parts part0 part1 0, pos))
      | None =>
          '(done, part2, pos) ← add_bytes [0; 7] 0 buffer pos;
          Ok (match done with
              | Some _ => Some (varint_of_parts part0 part1 part2, pos)
              | None => None
              end)
      end
  end.

(** [while (buffer_ == buffer_end_) if (!Refresh()) ...]: a chunk may begin at the
    limit for all bytes, so the second turn can be needed, but no third. *)
Fixpoint refill (fuel : nat) s : outcome (bool * stream) :=
  match fuel with
  | O => Blocked
  | S fuel =>
      if buffer_ s =? buffer_end_ s then
        '(b, s) ← Refresh s;
        if b : bool then refill fuel s else Ok (false, s)
      else Ok (true, s)
  end.

(** [todo] bytes may follow the [count] bytes read. *)
Fixpoint varint_loop (todo : nat) (count result : Z) s : outcome (option Z * stream) :=
  match todo with
  | O => Ok (None, s)
  | S todo =>
      '(b, s) ← refill 3 s;
      if b : bool then
        b ← in_bounds (head (window s));
        let result := Z.lor result (u64 (Z.shiftl (Z.land b 0x7F) (7 * count))) in
        let s := Advance 1 s in
        if last_byte b then Ok (Some result, s) else varint_loop todo (count + 1) result s
      else Ok (None, s)
  end.

Definition ReadVarint64Slow s : outcome (option Z * stream) := varint_loop kMaxVarintBytes 0 0 s.

Definition ReadVarint64Fallback s : outcome (option Z * stream) :=
  if can_read_directly (window s) then
    p ← ReadVarint64FromArray (window s);
    Ok (match p with
        | Some (temp, n) => (Some temp, Advance (Z.of_nat n) s)
        | None => (None, s)
        end)
  else ReadVarint64Slow s.

Definition ReadVarint64 s : outcome (option Z * stream) :=
  match window s with
  | v :: _ => if v <? 0x80 then Ok (Some v, Advance 1 s) else ReadVarint64Fallback s
  | [] => ReadVarint64Fallback s
  end.

Definition ReadVarint32Slow s : outcome (option Z * stream) :=
  '(p, s) ← ReadVarint64Fallback s;
  Ok (match p with Some v => Some (u32 v) | None => None end, s).

Definition ReadVarint32Fallback (first_byte_or_zero : Z) s : outcome (option Z * stream) :=
  if can_read_directly (window s) then
    p ← ReadVarint32FromArray first_byte_or_zero (window s);
    Ok (match p with
        | Some (temp, n) => (Some temp, Advance (Z.of_nat n) s)
        | None => (None, s)
        end)
  else ReadVarint32Slow s.

Definition ReadVarint32 s : outcome (option Z * stream) :=
  match window s with
  | v :: _ => if v <? 0x80 then Ok (Some v, Advance 1 s) else ReadVarint32Fallback v s
  | [] => ReadVarint32Fallback 0 s
  end.

(** A size, or a failure; the caller gets [false] for a negative one. *)
Definition ReadVarintSizeAsIntSlow s : outcome (option Z * stream) :=
  '(p, s) ← ReadVarint64Fallback s;
  Ok (match p with Some v => if INT_MAX <? v then None else Some v | None => None end, s).

Definition ReadVarintSizeAsIntFallback s : outcome (option Z * stream) :=
  if can_read_directly (window s) then
    p ← ReadVarint64FromArray (window s);
    Ok (match p with
        | Some (temp, n) => if INT_MAX <? temp then (None, s) else (Some temp, Advance (Z.of_nat n) s)
        | None => (None, s)
        end)
  else ReadVarintSizeAsIntSlow s.

Definition ReadVarintSizeAsInt s : outcome (option Z * stream) :=
  match window s with
  | v :: _ => if v <? 0x80 then Ok (Some v, Advance 1 s) else ReadVarintSizeAsIntFallback s
  | [] => ReadVarintSizeAsIntFallback s
  end.

Definition ReadLengthAndPushLimit s : outcome (Z * stream) :=
  '(length, s) ← ReadVarint32 s;
  Ok (PushLimit (i32 (default 0 length)) s).

(** ** Tags *)

(** After a failed [Refresh]: whether a message may end here. *)
Definition note_end s : stream :=
  let current_position := total_bytes_read_ s - buffer_size_after_limit_ s in
  if total_bytes_limit_ s <=? current_position then set_legitimate (current_limit_ s =? total_bytes_limit_ s) s
  else set_legitimate true s.

Definition read_tag_varint s : outcome (Z * stream) :=
  '(result, s) ← ReadVarint64 s;
  Ok (u32 (default 0 result), s).

Definition ReadTagSlow s : outcome (Z * stream) :=
  if buffer_ s =? buffer_end_ s then
    '(b, s) ← Refresh s;
    if b : bool then read_tag_varint s else Ok (0, note_end s)
  else read_tag_varint s.

Definition ReadTagFallback (first_byte_or_zero : Z) s : outcome (Z * stream) :=
  if can_read_directly (window s) then
    if first_byte_or_zero =? 0 then Ok (0, Advance 1 s)
    else
      p ← ReadVarint32FromArray first_byte_or_zero (window s);
      Ok (match p with
          | Some (tag, n) => (tag, Advance (Z.of_nat n) s)
          | None => (0, s)
          end)
  else if (BufferSize s =? 0)
          && ((0 <? buffer_size_after_limit_ s) || (total_bytes_read_ s =? current_limit_ s))
          && (total_bytes_read_ s - buffer_size_after_limit_ s <? total_bytes_limit_ s) then
    Ok (0, set_legitimate true s)
  else ReadTagSlow s.

Definition ReadTagNoLastTag s : outcome (Z * stream) :=
  match window s with
  | v :: _ => if v <? 0x80 then Ok (v, Advance 1 s) else ReadTagFallback v s
  | [] => ReadTagFallback 0 s
  end.

Definition ReadTag s : outcome (Z * stream) :=
  '(tag, s) ← ReadTagNoLastTag s;
  Ok (tag, SetLastTag tag s).

Definition ReadTagWithCutoffNoLastTag (cutoff : Z) s : outcome (Z * bool * stream) :=
  let slow first_byte_or_zero :=
    '(tag, s) ← ReadTagFallback first_byte_or_zero s;
    Ok (tag, u32 (tag - 1) <? cutoff, s) in
  match window s with
  | [] => slow 0
  | b0 :: rest =>
      if (0 <? b0) && (b0 <? 0x80) then Ok (b0, (0x7F <=? cutoff) || (b0 <=? cutoff), Advance 1 s)
      else
        match rest with
        | b1 :: _ =>
            if (0x80 <=? cutoff) && (0x80 <=? Z.land b0 (Z.lnot b1)) then
              let tag := u32 (2 ^ 7 * b1 + (b0 - 0x80)) in
              Ok (tag, (0x3FFF <=? cutoff) || (tag <=? cutoff), Advance 2 s)
            else slow b0
        | [] => slow b0
        end
  end.

Definition ReadTagWithCutoff (cutoff : Z) s : outcome (Z * bool * stream) :=
  '(tag, below, s) ← ReadTagWithCutoffNoLastTag cutoff s;
  Ok (tag, below, SetLastTag tag s).

Definition ExpectTag (expected : Z) s : bool * stream :=
  if expected <? 2 ^ 7 then
    match window s with
    | b0 :: _ => if b0 =? expected then (true, Advance 1 s) else (false, s)
    | [] => (false, s)
    end
  else if expected <? 2 ^ 14 then
    match window s with
    | b0 :: b1 :: _ =>
        if (b0 =? Z.lor expected 0x80 mod 2 ^ 8) && (b1 =? Z.shiftr expected 7 mod 2 ^ 8) then (true, Advance 2 s)
        else (false, s)
    | _ => (false, s)
    end
  else (false, s).

Definition ExpectAtEnd s : bool * stream :=
  if (buffer_ s =? buffer_end_ s)
     && (negb (buffer_size_after_limit_ s =? 0) || (total_bytes_read_ s =? current_limit_ s)) then
    (true, set_legitimate true (SetLastTag 0 s))
  else (false, s).

End Stream.
