(* ===== verification/CodedStreamSpec.v ===== *)
(** * Reading a stream of bytes, whatever its chunks

    What a reader can see of a [CodedInputStream] is a position, the bytes that
    follow, and the limits: [rest] and [avail].  Every operation is described by
    what it does to these, so the chunks of the underlying stream do not matter,
    and nothing behind a limit is read. *)
From S2P Require Import Prelude Varint ZeroCopyStream CodedStream.
#[local] Open Scope Z_scope.

(** ** Slices *)

Lemma slice_length {A} first last (l : list A) :
  0 <= first <= last -> last <= Z.of_nat (length l) ->
  length (take (Z.to_nat (last - first)) (drop (Z.to_nat first) l)) = Z.to_nat (last - first).
Proof. intros Hf Hl. rewrite length_take, length_drop. lia. Qed.

Lemma take_drop_comm {A} k n (l : list A) : drop n (take k l) = take (k - n) (drop n l).
Proof. apply skipn_firstn_comm. Qed.

(** ** Varints *)

Lemma varint_app todo l l' : ends_inside todo l -> varint todo (l ++ l') = varint todo l.
Proof.
  revert l. induction todo as [|todo IH]; intros l He; [done|].
  apply ends_inside_cons in He as (b & l1 & -> & He). simpl. destruct (Z.ltb_spec b 128); [done|]. by rewrite IH by auto.
Qed.

Lemma varint_some_more n m l r : varint n l = Some r -> varint (n + m) l = Some r.
Proof.
  revert l r. induction n as [|n IH]; intros l r E; [done|]. destruct l as [|b l]; [done|]. simpl in *.
  destruct (b <? 128); [done|]. destruct (varint n l) as [[v k]|] eqn:E'; [|done]. by rewrite (IH _ _ E').
Qed.

Lemma varint_range n l v k : Forall byte l -> varint n l = Some (v, k) ->
  0 <= v < 2 ^ (7 * Z.of_nat n) /\ (0 < k <= length l)%nat /\ (k <= n)%nat.
Proof.
  revert l v k. induction n as [|n IH]; intros l v k Hl E; [done|]. destruct l as [|b l]; [done|].
  apply Forall_cons_1 in Hl as [Hb Hl]. unfold byte in Hb. simpl in E.
  replace (7 * Z.of_nat (S n)) with (7 + 7 * Z.of_nat n) by lia. rewrite Z.pow_add_r by lia. change (2 ^ 7) with 128.
  pose proof (Z.pow_pos_nonneg 2 (7 * Z.of_nat n) ltac:(lia) ltac:(lia)).
  destruct (Z.ltb_spec b 128).
  - injection E as <- <-. simpl. nia.
  - destruct (varint n l) as [[v' k']|] eqn:E'; [|done]. injection E as <- <-.
    apply IH in E' as (? & ? & ?); [|done]. simpl. nia.
Qed.

(** The value of [n] bytes that all say that more follow. *)
Fixpoint low_bits (n : nat) (l : list Z) : Z :=
  match n, l with
  | S n, b :: l => b - 128 + 128 * low_bits n l
  | _, _ => 0
  end.

Lemma low_bits_range n l : Forall byte l -> varint n l = None -> 0 <= low_bits n l < 2 ^ (7 * Z.of_nat n).
Proof.
  revert l. induction n as [|n IH]; intros l Hl E; [simpl; lia|].
  replace (7 * Z.of_nat (S n)) with (7 + 7 * Z.of_nat n) by lia. rewrite Z.pow_add_r by lia. change (2 ^ 7) with 128.
  pose proof (Z.pow_pos_nonneg 2 (7 * Z.of_nat n) ltac:(lia) ltac:(lia)).
  destruct l as [|b l]; [simpl; lia|]. apply Forall_cons_1 in Hl as [Hb Hl]. unfold byte in Hb. simpl in *.
  destruct (Z.ltb_spec b 128); [done|]. destruct (varint n l) as [[]|] eqn:E'; [done|]. specialize (IH l Hl E'). nia.
Qed.

(** A varint whose first [n] bytes do not end it. *)
Lemma varint_split n m l : ends_inside (n + m) l -> varint n l = None ->
  ends_inside m (drop n l) /\
  varint (n + m) l =
    match varint m (drop n l) with
    | Some (v, k) => Some (low_bits n l + v * 2 ^ (7 * Z.of_nat n), (n + k)%nat)
    | None => None
    end.
Proof.
  revert l. induction n as [|n IH]; intros l He E.
  { rewrite drop_0. split; [done|]. change (0 + m)%nat with m. destruct (varint m l) as [[v k]|]; [|done]. do 2 f_equal. simpl. lia. }
  apply ends_inside_cons in He as (b & l1 & -> & He). simpl in E |- *. destruct (Z.ltb_spec b 128); [done|].
  destruct (varint n l1) as [[]|] eqn:E'; [done|]. destruct (IH l1 (He ltac:(lia)) E') as [He' ->]. split; [done|].
  destruct (varint m (drop n l1)) as [[v k]|]; [|done]. do 2 f_equal.
  replace (7 * Z.of_nat (S n)) with (7 + 7 * Z.of_nat n) by lia. rewrite Z.pow_add_r by lia. change (2 ^ 7) with 128. lia.
Qed.

(** The unrolled reading of up to four bytes computes without wrapping round. *)
Lemma add_bytes_spec n i r buffer pos :
  Forall byte buffer -> (i + n <= 4)%nat -> 0 <= r < 2 ^ (7 * Z.of_nat i) -> ends_inside n (drop pos buffer) ->
  add_bytes (shifts_from i n) r buffer pos =
    Ok (match varint n (drop pos buffer) with
        | Some (v, k) => (Some (r + v * 2 ^ (7 * Z.of_nat i)), r + v * 2 ^ (7 * Z.of_nat i), (pos + k)%nat)
        | None => (None, r + low_bits n (drop pos buffer) * 2 ^ (7 * Z.of_nat i), (pos + n)%nat)
        end).
Proof.
  intros Hb. revert i r pos. induction n as [|n IH]; intros i r pos Hi Hr He.
  { cbn [shifts_from seq fmap list_fmap add_bytes varint low_bits]. by rewrite Nat.add_0_r, Z.mul_0_l, Z.add_0_r. }
  apply ends_inside_cons in He as (b & l & El & He).
  cbn [shifts_from seq fmap list_fmap add_bytes]. rewrite lookup_drop_0, El. cbn [lookup list_lookup in_bounds mbind outcome_bind].
  assert (byte b) as Hbb by (apply (Forall_drop _ pos) in Hb; rewrite El in Hb; by apply Forall_inv in Hb).
  assert (drop (S pos) buffer = l) as El' by (by rewrite <- Nat.add_1_r, <- drop_drop, El).
  rewrite last_byte_spec, !Z.shiftl_mul_pow2 by (done || lia). unfold byte in Hbb.
  assert (2 ^ (7 * Z.of_nat (S i)) = 128 * 2 ^ (7 * Z.of_nat i)) as Ep.
  { replace (7 * Z.of_nat (S i)) with (7 + 7 * Z.of_nat i) by lia. by rewrite Z.pow_add_r by lia. }
  assert (2 ^ (7 * Z.of_nat i) <= 2 ^ 21) by (apply Z.pow_le_mono_r; lia).
  rewrite u32_small by nia. cbn [varint low_bits]. destruct (Z.ltb_spec b 128).
  { do 2 f_equal. f_equal. lia. }
  rewrite u32_small by nia. change ((fun j => 7 * Z.of_nat j) <$> seq (S i) n) with (shifts_from (S i) n).
  rewrite IH; [|lia|nia|rewrite El'; auto]. rewrite El', Ep.
  set (P := 2 ^ (7 * Z.of_nat i)).
  assert (forall v, r + b * P - 0x80 * P + v * (128 * P) = r + (b - 128 + 128 * v) * P) as E by (intros; ring).
  destruct (varint n l) as [[v k]|]; rewrite E; do 2 f_equal; lia.
Qed.

Lemma varint_of_parts_spec p0 p1 p2 : 0 <= p0 < 2 ^ 28 -> 0 <= p1 < 2 ^ 28 ->
  varint_of_parts p0 p1 p2 = u64 (p0 + p1 * 2 ^ 28 + p2 * 2 ^ 56).
Proof.
  intros H0 H1. unfold varint_of_parts. rewrite !Z.shiftl_mul_pow2 by lia. rewrite (lor_u64 p0) by lia.
  rewrite u64_small by lia. apply lor_u64; lia.
Qed.

Lemma ends_none n l : ends_inside n l -> varint n l = None -> (n <= length l)%nat.
Proof. by intros [?|?]. Qed.

Lemma ends_prefix n m l : ends_inside (n + m) l -> ends_inside n l.
Proof.
  intros He. destruct (varint n l) as [r|] eqn:E; [right; by rewrite E|]. left.
  destruct He as [Hl|Hv]; [lia|]. revert l E Hv. induction n as [|n IH]; intros l E Hv; [lia|].
  destruct l as [|b l]; [done|]. simpl in *. destruct (b <? 128); [done|].
  destruct (varint n l) as [[]|] eqn:E'; [done|]. destruct (varint (n + m) l) as [[]|] eqn:E2; [|done].
  specialize (IH l E' ltac:(by rewrite E2)). lia.
Qed.

Lemma array64_spec l : Forall byte l -> ends_inside 10 l ->
  ReadVarint64FromArray l = Ok (match varint 10 l with Some (v, n) => Some (u64 v, n) | None => None end).
Proof.
  intros Hl He. unfold ReadVarint64FromArray. change [0; 7; 14; 21] with (shifts_from 0 4). change [0; 7] with (shifts_from 0 2).
  assert (forall v, u64 v = u64 (v + 0 * 2 ^ 28 + 0 * 2 ^ 56)) as Hz by (intros; f_equal; lia).
  rewrite add_bytes_spec; [|done|lia|simpl; lia|rewrite drop_0; by apply (ends_prefix 4 6)]. rewrite drop_0. cbn [mbind outcome_bind].
  change 10%nat with (4 + 6)%nat in *. destruct (varint 4 l) as [[v k]|] eqn:E0.
  { rewrite (varint_some_more 4 6 l _ E0). apply varint_range in E0 as (Hr & _); [|done].
    rewrite varint_of_parts_spec by (simpl in *; lia). do 3 f_equal; try lia; f_equal; simpl; lia. }
  pose proof (low_bits_range 4 l Hl E0) as H0. destruct (varint_split 4 6 l He E0) as [He1 ->].
  change (0 + 4)%nat with 4%nat. rewrite add_bytes_spec; [|done|lia|simpl; lia|by apply (ends_prefix 4 2)]. cbn [mbind outcome_bind].
  pose proof (Forall_drop _ 4 _ Hl) as Hl1. change 6%nat with (4 + 2)%nat in *. set (l1 := drop 4 l) in *.
  destruct (varint 4 l1) as [[v k]|] eqn:E1.
  { rewrite (varint_some_more 4 2 l1 _ E1). apply varint_range in E1 as (Hr & _); [|done].
    rewrite varint_of_parts_spec by (simpl in *; lia). do 3 f_equal; try lia; f_equal; simpl; lia. }
  pose proof (low_bits_range 4 l1 Hl1 E1) as H1. destruct (varint_split 4 2 l1 He1 E1) as [He2 ->].
  rewrite add_bytes_spec; [|done|lia|simpl; lia|rewrite <- drop_drop; done]. cbn [mbind outcome_bind].
  rewrite <- drop_drop. fold l1. destruct (varint 2 (drop 4 l1)) as [[v k]|]; [|done].
  rewrite varint_of_parts_spec by (simpl in *; lia). do 3 f_equal; try lia; f_equal; simpl; lia.
Qed.

Section Spec.
Context {I : Type} `{ReliableStream I} `{!LawfulInput I}.
Local Abbreviation stream := (CodedInputStream I).
Implicit Types s : stream.

(** ** What a reader sees *)

Definition to_come s : list Z := match input_ s with Some i => unread i | None => [] end.
Definition rest s : list Z := drop (Z.to_nat (buffer_ s)) (chunk s) ++ to_come s.
Definition avail s : list Z := take (Z.to_nat (closest_limit s - CurrentPosition s)) (rest s).

(** The invariant up to the distance of the limits. *)
Record shape s : Prop := {
  shape_pointers : 0 <= buffer_ s <= buffer_end_ s;
  shape_chunk : buffer_end_ s + buffer_size_after_limit_ s = Z.of_nat (length (chunk s));
  shape_after : 0 <= buffer_size_after_limit_ s;
  shape_overflow : overflow_bytes_ s = 0;
  shape_position : 0 <= CurrentPosition s;
  shape_fits : CurrentPosition s + Z.of_nat (length (rest s)) <= INT_MAX;
  shape_limits : current_limit_ s <= INT_MAX /\ total_bytes_limit_ s <= INT_MAX;
  shape_bytes : Forall byte (rest s);
  shape_input : match input_ s with
                | Some i => valid_input i /\ (buffer_ s < Z.of_nat (length (chunk s)) -> returned i = chunk s)
                | None => current_limit_ s <= total_bytes_read_ s
                end
}.

(** [buffer_end_] is where the closest limit is, if it is in the chunk. *)
Record good s : Prop := {
  good_shape : shape s;
  good_after : buffer_size_after_limit_ s = Z.max 0 (total_bytes_read_ s - closest_limit s)
}.

(** [s'] is [n] bytes further than [s], and alike otherwise. *)
Record moved (n : nat) s s' : Prop := {
  moved_good : good s';
  moved_rest : rest s' = drop n (rest s);
  moved_position : CurrentPosition s' = CurrentPosition s + Z.of_nat n;
  moved_current : current_limit_ s' = current_limit_ s;
  moved_total : total_bytes_limit_ s' = total_bytes_limit_ s;
  moved_budget : recursion_budget_ s' = recursion_budget_ s;
  moved_recursion : recursion_limit_ s' = recursion_limit_ s;
  moved_flat : IsFlat s' = IsFlat s
}.

Lemma moved_refl s : good s -> moved 0 s s.
Proof using Type. intros Hs. split; try done. lia. Qed.

Lemma moved_trans n m s1 s2 s3 : moved n s1 s2 -> moved m s2 s3 -> moved (n + m) s1 s3.
Proof using Type.
  intros [G1 R1 P1 C1 T1 B1 L1 F1] [G2 R2 P2 C2 T2 B2 L2 F2]. split; try done; try congruence; try lia.
  by rewrite R2, R1, drop_drop.
Qed.

Lemma moved_limit n s s' : moved n s s' -> closest_limit s' = closest_limit s.
Proof using Type. intros [_ _ _ C T _ _ _]. unfold closest_limit. by rewrite C, T. Qed.

Lemma avail_moved n s s' : moved n s s' -> avail s' = drop n (avail s).
Proof using Type.
  intros Hm. unfold avail. rewrite (moved_limit _ _ _ Hm), (moved_position _ _ _ Hm), (moved_rest _ _ _ Hm).
  rewrite take_drop_comm. f_equal. lia.
Qed.

Lemma avail_length s : Z.of_nat (length (avail s)) <= Z.max 0 (closest_limit s - CurrentPosition s).
Proof using Type. unfold avail. rewrite length_take. lia. Qed.

Lemma avail_bytes s : good s -> Forall byte (avail s).
Proof using Type. intros Hs. apply Forall_take, Hs. Qed.

(** ** The window *)

Lemma chunk_split s : shape s ->
  drop (Z.to_nat (buffer_ s)) (chunk s) = window s ++ drop (Z.to_nat (buffer_end_ s)) (chunk s).
Proof using Type.
  intros Hs. pose proof (shape_pointers s Hs). unfold window, slice.
  rewrite <- (take_drop (Z.to_nat (buffer_end_ s - buffer_ s)) (drop (Z.to_nat (buffer_ s)) (chunk s))) at 1.
  f_equal. rewrite drop_drop. f_equal. lia.
Qed.

Lemma window_length s : shape s -> Z.of_nat (length (window s)) = BufferSize s.
Proof using Type.
  intros Hs. pose proof (shape_pointers s Hs). pose proof (shape_chunk s Hs). pose proof (shape_after s Hs).
  unfold window, slice, BufferSize. rewrite slice_length by lia. lia.
Qed.

Lemma window_rest s : shape s -> exists more, rest s = window s ++ more /\ length more = (length (rest s) - length (window s))%nat.
Proof using Type.
  intros Hs. unfold rest. rewrite chunk_split by done. eexists. rewrite <- app_assoc. split; [done|].
  rewrite !length_app. lia.
Qed.

Lemma window_short s : shape s -> BufferSize s <= Z.of_nat (length (rest s)).
Proof using Type.
  intros Hs. destruct (window_rest s Hs) as (more & E & _). pose proof (window_length s Hs). rewrite E, length_app. lia.
Qed.

Lemma position_window s : shape s -> CurrentPosition s + BufferSize s + buffer_size_after_limit_ s = total_bytes_read_ s.
Proof using Type. unfold CurrentPosition. lia. Qed.

(** What is in the window is available. *)
Lemma window_avail s : good s -> exists more, avail s = window s ++ more.
Proof using Type.
  intros [Hs Ha]. destruct (window_rest s Hs) as (more & E & _). pose proof (window_length s Hs).
  pose proof (position_window s Hs). unfold avail. rewrite E, take_app.
  rewrite (take_ge (window s)) by lia. by eexists.
Qed.

Lemma window_all s : good s -> 0 < buffer_size_after_limit_ s -> avail s = window s.
Proof using Type.
  intros [Hs Ha] Hlt. destruct (window_rest s Hs) as (more & E & _). pose proof (window_length s Hs).
  pose proof (position_window s Hs). unfold avail. rewrite E, take_app_le by lia. apply take_ge. lia.
Qed.

Lemma window_bytes s : good s -> Forall byte (window s).
Proof using Type.
  intros Hs. destruct (window_avail s Hs) as [more E]. pose proof (avail_bytes s Hs) as Hb.
  rewrite E in Hb. by apply Forall_app in Hb as [? _].
Qed.

Lemma window_empty s : shape s -> window s = [] <-> buffer_ s = buffer_end_ s.
Proof using Type.
  intros Hs. pose proof (window_length s Hs) as Hl. pose proof (shape_pointers s Hs). unfold BufferSize in Hl.
  split; intros E; [rewrite E in Hl; simpl in Hl; lia|]. apply length_zero_iff_nil. lia.
Qed.

(** ** Moving inside the window *)

Lemma Advance_moved n s : good s -> 0 <= n <= BufferSize s -> moved (Z.to_nat n) s (Advance n s).
Proof using Type.
  intros Hg Hn. pose proof (window_short s (good_shape s Hg)) as Hshort. revert Hg.
  intros [[Hp Hc Ha Ho Hpos Hf Hl Hb Hi] Hafter]. unfold BufferSize in *.
  assert (rest (Advance n s) = drop (Z.to_nat n) (rest s)) as Er.
  { unfold rest, Advance, set_buffer, set_chunk, to_come. cbn [buffer_ chunk input_].
    rewrite drop_app_le by (rewrite length_drop; lia). rewrite drop_drop. do 2 f_equal. lia. }
  assert (CurrentPosition (Advance n s) = CurrentPosition s + n) as Ep.
  { unfold CurrentPosition, BufferSize. cbn. lia. }
  split; try done; [|lia]. split; [|done]. split; try done; rewrite ?Er, ?Ep; cbn.
  - lia.
  - lia.
  - rewrite length_drop. lia.
  - by apply Forall_drop.
  - destruct (input_ s) as [i|]; [|done]. destruct Hi as [Hv Hr]. split; [done|]. intros ?. apply Hr. lia.
Qed.

(** ** Limits *)

Lemma RecomputeBufferLimits_good s : shape s -> CurrentPosition s <= closest_limit s ->
  good (RecomputeBufferLimits s) /\ rest (RecomputeBufferLimits s) = rest s /\
  CurrentPosition (RecomputeBufferLimits s) = CurrentPosition s.
Proof using Type.
  intros [Hp Hc Ha Ho Hpos Hf Hl Hb Hi] Hlim. pose proof Hlim as Hlim'. unfold CurrentPosition, BufferSize in Hlim.
  assert (CurrentPosition (RecomputeBufferLimits s) = CurrentPosition s) as Ep.
  { unfold RecomputeBufferLimits, CurrentPosition, BufferSize.
    destruct (closest_limit (set_end _ s) <? total_bytes_read_ (set_end _ s)); cbn; lia. }
  assert (rest (RecomputeBufferLimits s) = rest s) as Er.
  { unfold RecomputeBufferLimits. by destruct (closest_limit (set_end _ s) <? total_bytes_read_ (set_end _ s)). }
  split; [|by split]. unfold RecomputeBufferLimits in *. change (closest_limit (set_end _ s)) with (closest_limit s) in *.
  cbn [total_bytes_read_ set_end set_chunk] in *.
  destruct (Z.ltb_spec (closest_limit s) (total_bytes_read_ s)); (split; [split; try done; rewrite ?Er, ?Ep; try done|]);
    cbn; unfold closest_limit in *; cbn in *; lia.
Qed.

(** ** The next chunk *)

Lemma NextNonEmpty_spec fuel i : valid_input i -> (nexts_left i < fuel)%nat ->
  exists o i', NextNonEmpty fuel i = Ok (o, i') /\ valid_input i' /\
    match o with
    | Some bytes => bytes <> [] /\ unread i = bytes ++ unread i' /\ returned i' = bytes
    | None => unread i = [] /\ unread i' = []
    end.
Proof using Type.
  revert i. induction fuel as [|fuel IH]; intros i Hv Hf; [lia|]. cbn [NextNonEmpty].
  destruct (next_lawful i Hv) as (o & i' & -> & Hv' & Ho). cbn [mbind outcome_bind].
  destruct o as [[|b bytes]|]; [|by exists (Some (b :: bytes)), i'; destruct Ho as (? & ? & ?)|by exists None, i'].
  destruct Ho as (E & _ & Hn). destruct (IH i' Hv' ltac:(lia)) as (o & i2 & -> & Hv2 & Ho).
  exists o, i2. split; [done|]. split; [done|]. by rewrite E.
Qed.

(** The stream when the window is used up and a new chunk is in its place. *)
Lemma fetched_good s i bytes : good s -> BufferSize s = 0 -> buffer_size_after_limit_ s = 0 ->
  valid_input i -> rest s = bytes ++ unread i -> returned i = bytes -> input_ s <> None ->
  let s' := set_total (total_bytes_read_ s + Z.of_nat (length bytes))
              (set_chunk bytes 0 (Z.of_nat (length bytes)) (set_input (Some i) s)) in
  moved 0 s (RecomputeBufferLimits s').
Proof using Type.
  intros [[Hp Hc Ha Ho Hpos Hf Hl Hb Hi] Hafter] Hz Ha0 Hv Er Hret Hin s'.
  assert (rest s' = rest s) as Er' by (rewrite Er; unfold rest, s'; cbn; by rewrite drop_0).
  assert (CurrentPosition s' = CurrentPosition s) as Ep.
  { unfold CurrentPosition, BufferSize in *. unfold s'. cbn. lia. }
  assert (shape s') as Hs'.
  { split; rewrite ?Er', ?Ep; try done; unfold s'; cbn; try lia. }
  assert (CurrentPosition s' <= closest_limit s') as Hlim.
  { rewrite Ep. unfold closest_limit, CurrentPosition in *. cbn. lia. }
  destruct (RecomputeBufferLimits_good s' Hs' Hlim) as (Hg & Er2 & Ep2).
  split; try done; rewrite ?Er2, ?Er', ?Ep2, ?Ep; try done; try lia.
  all: unfold RecomputeBufferLimits; destruct (_ <? _); cbn; try done.
  all: destruct (input_ s) eqn:Ein; [|done]; unfold IsFlat; by rewrite Ein.
Qed.

(** A refill succeeds if there is something to read.  Where a limit for all bytes
    begins a chunk, it succeeds with an empty window. *)
Lemma Refresh_spec s : good s -> BufferSize s = 0 ->
  exists b s', Refresh s = Ok (b, s') /\ moved 0 s s' /\
    if b : bool then window s' <> [] \/
      (avail s = [] /\ 0 < buffer_size_after_limit_ s' /\ total_bytes_limit_ s <= CurrentPosition s)
    else avail s = [].
Proof using Type.
  intros Hg Hz. pose proof Hg as [[Hp Hc Ha Ho Hpos Hf Hl Hb Hi] Hafter]. unfold Refresh. rewrite Ho. cbn [Z.ltb Z.compare].
  pose proof (proj2 (window_empty s (good_shape s Hg)) ltac:(unfold BufferSize in Hz; lia)) as Hw.
  destruct (Z.ltb_spec 0 (buffer_size_after_limit_ s)) as [Hlt|Hge]; cbn [orb].
  { exists false, s. split; [done|]. split; [by apply moved_refl|]. by rewrite window_all. }
  assert (buffer_size_after_limit_ s = 0) as Ha0 by lia.
  assert (CurrentPosition s = total_bytes_read_ s) as Ep by (unfold CurrentPosition; lia).
  destruct (Z.eqb_spec (total_bytes_read_ s) (current_limit_ s)) as [Ecur|Ecur].
  { exists false, s. split; [done|]. split; [by apply moved_refl|]. unfold avail, closest_limit.
    rewrite Ep, Ecur. by replace (Z.to_nat _) with O by lia. }
  destruct (input_ s) as [i|] eqn:Ein; [|unfold closest_limit in Hafter; lia].
  destruct Hi as [Hv _]. unfold the_input. rewrite Ein. cbn [in_bounds mbind outcome_bind].
  assert (rest s = unread i) as Er.
  { unfold rest, to_come. rewrite Ein, drop_ge; [done|]. unfold BufferSize in Hz. lia. }
  destruct (NextNonEmpty_spec _ i Hv (Nat.lt_succ_diag_r _)) as (o & i' & -> & Hv' & Hspec). cbn [mbind outcome_bind].
  destruct o as [bytes|].
  - destruct Hspec as (Hne & Eu & Hret). cbn [total_bytes_read_ set_chunk set_input].
    rewrite Er, Eu, length_app in Hf. rewrite (proj2 (Z.leb_le _ _)) by lia.
    pose proof (fetched_good s i' bytes Hg Hz Ha0 Hv' ltac:(by rewrite Er, Eu) Hret ltac:(by rewrite Ein)) as Hm.
    cbn zeta in Hm. eexists true, _. split; [done|]. split; [exact Hm|].
    match type of Hm with moved 0 s ?t => set (s' := t) in * end.
    destruct (decide (window s' = [])) as [Hw'|]; [right|by left].
    pose proof (moved_good _ _ _ Hm) as Hg'. pose proof (good_shape _ Hg') as Hs'.
    assert (0 < buffer_size_after_limit_ s') as Hlt'.
    { apply window_empty in Hw'; [|done]. pose proof (shape_chunk s' Hs') as Hc'.
      assert (chunk s' = bytes /\ buffer_ s' = 0) as [Ec Eb]
        by (unfold s', RecomputeBufferLimits; by destruct (_ <? _)).
      rewrite Ec in Hc'. destruct bytes; [done|]. cbn [length] in Hc'. lia. }
    split; [rewrite <- (drop_0 (avail s)), <- (avail_moved 0 s s' Hm); by rewrite window_all|]. split; [done|].
    pose proof (good_after _ Hg') as Ha'. rewrite (moved_limit _ _ _ Hm) in Ha'.
    pose proof (position_window s' Hs') as Ep'. pose proof (moved_position _ _ _ Hm).
    apply window_empty in Hw'; [|done]. unfold BufferSize in Ep'. unfold closest_limit in Ha'. lia.
  - destruct Hspec as [Eu Eu']. eexists false, _. split; [done|].
    assert (avail s = []) as Hav by (unfold avail; by rewrite Er, Eu, take_nil). split; [|done].
    assert (rest (set_chunk [] 0 0 (set_input (Some i') s)) = rest s) as Er'.
    { rewrite Er, Eu. unfold rest, to_come. cbn. by rewrite drop_nil, Eu'. }
    assert (CurrentPosition (set_chunk [] 0 0 (set_input (Some i') s)) = CurrentPosition s) as Ep'.
    { unfold CurrentPosition, BufferSize in *. cbn. lia. }
    split; try done; [|by rewrite Ep'; lia|by unfold IsFlat; rewrite Ein].
    split; [|done]. split; try done; rewrite ?Er', ?Ep'; try done; cbn; lia.
Qed.

Lemma empty_window_size s : good s -> (BufferSize s = 0 <-> window s = []).
Proof using Type.
  intros Hg. rewrite window_empty by apply Hg. unfold BufferSize. lia.
Qed.

Lemma refill_spec s : good s ->
  exists b s', refill 3 s = Ok (b, s') /\ moved 0 s s' /\ if b : bool then window s' <> [] else avail s = [].
Proof using Type.
  intros Hg. cbn [refill]. destruct (Z.eqb_spec (buffer_ s) (buffer_end_ s)) as [E|E].
  2:{ exists true, s. split; [done|]. split; [by apply moved_refl|]. by rewrite window_empty by apply Hg. }
  destruct (Refresh_spec s Hg ltac:(unfold BufferSize; lia)) as (b & s1 & -> & Hm & Hb). cbn [mbind outcome_bind].
  destruct b; [|by exists false, s1]. pose proof (moved_good _ _ _ Hm) as Hg1.
  destruct (Z.eqb_spec (buffer_ s1) (buffer_end_ s1)) as [E1|E1].
  2:{ exists true, s1. split; [done|]. split; [done|]. by rewrite window_empty by apply Hg1. }
  pose proof (proj2 (window_empty s1 (good_shape _ Hg1)) E1) as Hw1. destruct Hb as [Hb|(Hb & Ha & _)]; [done|].
  unfold Refresh. rewrite (proj2 (Z.ltb_lt 0 _)) by done. cbn. by exists false, s1.
Qed.

(** ** Skipping *)

(** The stream without a chunk, at position [t]. *)
Lemma emptied_good s o t : good s -> buffer_size_after_limit_ s = 0 -> 0 <= t <= closest_limit s ->
  match o with
  | Some i => valid_input i /\ t + Z.of_nat (length (unread i)) <= INT_MAX /\ Forall byte (unread i)
  | None => current_limit_ s <= t
  end ->
  good (set_input o (set_total t (set_chunk [] 0 0 s))).
Proof using Type.
  intros [[Hp Hc Ha Ho Hpos Hf Hl Hb Hi] Hafter] Ha0 Ht Hin. set (s' := set_input _ _).
  assert (rest s' = match o with Some i => unread i | None => [] end) as Er by done.
  assert (CurrentPosition s' = t) as Ep by (unfold CurrentPosition, BufferSize, s'; cbn; lia).
  assert (t <= INT_MAX) by (unfold closest_limit in Ht; lia).
  split; [split|]; rewrite ?Er, ?Ep; unfold s'; cbn; try done; try lia.
  - destruct o; cbn; lia.
  - destruct o; [apply Hin|constructor].
  - destruct o; [|done]. destruct Hin as [Hv _]. split; [done|lia].
  - unfold closest_limit in *. cbn. lia.
Qed.

Lemma to_come_rest s : shape s -> buffer_size_after_limit_ s = 0 -> rest s = window s ++ to_come s.
Proof using Type.
  intros Hs Ha. pose proof (shape_chunk s Hs). pose proof (shape_pointers s Hs).
  unfold rest. rewrite chunk_split by done. rewrite (drop_ge (chunk s)) by lia. by rewrite app_nil_r.
Qed.

Lemma SkipFallback_spec count s : good s -> BufferSize s < count ->
  exists s', SkipFallback count (BufferSize s) s = Ok (count <=? Z.of_nat (length (avail s)), s') /\
    if count <=? Z.of_nat (length (avail s)) then moved (Z.to_nat count) s s' else good s'.
Proof using LawfulInput0.
  intros Hg Hn. unfold SkipFallback. pose proof (good_shape s Hg) as Hs. pose proof (window_length s Hs) as Hwl.
  pose proof (shape_pointers s Hs) as Hp. pose proof (avail_length s) as Hal.
  destruct (Z.ltb_spec 0 (buffer_size_after_limit_ s)) as [Hlt|Hge].
  { rewrite (window_all s) by done. rewrite (proj2 (Z.leb_gt _ _)) by lia.
    eexists. split; [done|]. eapply moved_good, Advance_moved; [done|]. unfold BufferSize. lia. }
  assert (buffer_size_after_limit_ s = 0) as Ha0 by (pose proof (shape_after s Hs); lia).
  pose proof (to_come_rest s Hs Ha0) as Er. pose proof (position_window s Hs) as Ep.
  assert (0 <= BufferSize s) as Hbs by (unfold BufferSize; lia).
  pose proof (shape_position s Hs) as Hpos. pose proof (shape_fits s Hs) as Hf. pose proof (shape_bytes s Hs) as Hbytes.
  rewrite Er in Hf, Hbytes. rewrite length_app in Hf. apply Forall_app in Hbytes as [_ Hbytes].
  assert (closest_limit s <= INT_MAX) as Hmax by (unfold closest_limit; pose proof (shape_limits s Hs); lia).
  assert (length (avail s) = Nat.min (Z.to_nat (closest_limit s - CurrentPosition s)) (length (window s) + length (to_come s)))
    as Hav by (unfold avail; rewrite length_take, Er, length_app; done).
  pose proof (good_after s Hg) as Hafter. change (closest_limit (set_chunk [] 0 0 s)) with (closest_limit s).
  cbn [total_bytes_read_ set_chunk]. unfold the_input. cbn [input_ set_total set_chunk].
  pose proof (shape_input s Hs) as Hin. unfold to_come in *.
  destruct (Z.ltb_spec (closest_limit s - total_bytes_read_ s) (count - BufferSize s)).
  - rewrite (proj2 (Z.leb_gt _ _)) by lia.
    destruct (Z.ltb_spec 0 (closest_limit s - total_bytes_read_ s)).
    + destruct (input_ s) as [i|]; [|unfold closest_limit in *; lia]. destruct Hin as [Hv _]. cbn [in_bounds mbind outcome_bind].
      destruct (skip_exactly (closest_limit s - total_bytes_read_ s) i Hv ltac:(lia)) as (i' & -> & Hv' & Eu).
      cbn [mbind outcome_bind]. eexists. split; [done|]. apply emptied_good; try done; [lia|].
      split; [done|]. rewrite Eu, length_drop. split; [lia|by apply Forall_drop].
    + eexists. split; [done|]. replace (set_chunk [] 0 0 s) with
        (set_input (input_ s) (set_total (total_bytes_read_ s) (set_chunk [] 0 0 s))) by (by destruct s).
      apply emptied_good; try done; [lia|]. destruct (input_ s) as [i|]; [|done]. destruct Hin as [Hv _].
      split; [done|]. split; [lia|done].
  - destruct (input_ s) as [i|] eqn:Ein; [|unfold closest_limit in *; lia]. destruct Hin as [Hv _].
    cbn [in_bounds mbind outcome_bind].
    destruct (skip_exactly (count - BufferSize s) i Hv ltac:(lia)) as (i' & -> & Hv' & Eu). cbn [mbind outcome_bind].
    assert ((count - BufferSize s <=? Z.of_nat (length (unread i))) = (count <=? Z.of_nat (length (avail s)))) as -> by lia.
    eexists. split; [done|]. set (s' := set_input _ _).
    assert (good s') as Hg'.
    { apply emptied_good; try done; [lia|]. split; [done|]. rewrite Eu, length_drop. split; [lia|by apply Forall_drop]. }
    destruct (Z.leb_spec count (Z.of_nat (length (avail s)))); [|done].
    split; try done; [| |by unfold IsFlat; rewrite Ein].
    + rewrite Er. change (rest s') with (unread i'). rewrite Eu, drop_app_ge by lia. f_equal. lia.
    + unfold CurrentPosition at 1, BufferSize at 1. unfold s'. cbn. lia.
Qed.

(** Skipping what is there asks the stream for no more than it has. *)
Lemma Skip_within `{!SkipsWithin I} count s : good s -> 0 <= count <= Z.of_nat (length (avail s)) ->
  exists s', Skip count s = Ok (true, s') /\ moved (Z.to_nat count) s s'.
Proof using Type.
  intros Hg Hn. unfold Skip. rewrite (proj2 (Z.ltb_ge _ _)) by lia. pose proof (good_shape s Hg) as Hs.
  destruct (Z.leb_spec count (BufferSize s)); [eexists; split; [done|]; apply Advance_moved; [done|lia]|].
  unfold SkipFallback. pose proof (window_length s Hs) as Hwl. pose proof (shape_pointers s Hs) as Hp. pose proof (avail_length s) as Hal.
  destruct (Z.ltb_spec 0 (buffer_size_after_limit_ s)) as [Hlt|Hge]; [rewrite (window_all s) in Hn by done; lia|].
  assert (buffer_size_after_limit_ s = 0) as Ha0 by (pose proof (shape_after s Hs); lia).
  pose proof (to_come_rest s Hs Ha0) as Er. pose proof (position_window s Hs) as Ep.
  pose proof (shape_position s Hs) as Hpos. pose proof (shape_fits s Hs) as Hf. pose proof (shape_bytes s Hs) as Hbytes.
  rewrite Er in Hf, Hbytes. rewrite length_app in Hf. apply Forall_app in Hbytes as [_ Hbytes].
  assert (length (avail s) = Nat.min (Z.to_nat (closest_limit s - CurrentPosition s)) (length (window s) + length (to_come s)))
    as Hav by (unfold avail; rewrite length_take, Er, length_app; done).
  pose proof (good_after s Hg) as Hafter. change (closest_limit (set_chunk [] 0 0 s)) with (closest_limit s).
  cbn [total_bytes_read_ set_chunk]. unfold the_input. cbn [input_ set_total set_chunk].
  pose proof (shape_input s Hs) as Hin. unfold to_come in *. assert (0 <= BufferSize s) as Hbs by (unfold BufferSize; lia).
  rewrite (proj2 (Z.ltb_ge _ _)) by lia. destruct (input_ s) as [i|] eqn:Ein; [|simpl in *; lia]. destruct Hin as [Hv _].
  cbn [in_bounds mbind outcome_bind].
  destruct (skips_within (count - BufferSize s) i Hv ltac:(lia)) as (i' & -> & Hv' & Eu). cbn [mbind outcome_bind].
  eexists. split; [done|]. set (s' := set_input _ _).
  assert (good s') as Hg'.
  { apply emptied_good; try done; [lia|]. split; [done|]. rewrite Eu, length_drop. split; [lia|by apply Forall_drop]. }
  split; try done; [| |by unfold IsFlat; rewrite Ein].
  - rewrite Er. change (rest s') with (unread i'). rewrite Eu, drop_app_ge by lia. f_equal. lia.
  - unfold CurrentPosition at 1, BufferSize at 1. unfold s'. cbn. lia.
Qed.

Lemma Skip_spec count s : good s -> 0 <= count ->
  exists s', Skip count s = Ok (count <=? Z.of_nat (length (avail s)), s') /\
    if count <=? Z.of_nat (length (avail s)) then moved (Z.to_nat count) s s' else good s'.
Proof using LawfulInput0.
  intros Hg Hn. unfold Skip. rewrite (proj2 (Z.ltb_ge _ _)) by lia.
  destruct (Z.leb_spec count (BufferSize s)); [|by apply SkipFallback_spec].
  destruct (window_avail s Hg) as [more E]. pose proof (window_length s (good_shape s Hg)).
  rewrite (proj2 (Z.leb_le _ (Z.of_nat (length (avail s))))) by (rewrite E, length_app; lia).
  eexists. split; [done|]. apply Advance_moved; [done|lia].
Qed.

(** ** Copying bytes *)

Lemma avail_window_drop n s s' : moved n s s' -> n = length (window s) -> good s -> avail s = window s ++ avail s'.
Proof using Type.
  intros Hm -> Hg. destruct (window_avail s Hg) as [more E]. rewrite (avail_moved _ _ _ Hm), E. by rewrite drop_app_length.
Qed.

Lemma BufferSize_range s : shape s -> 0 <= BufferSize s.
Proof using Type. intros Hs. pose proof (shape_pointers s Hs). unfold BufferSize. lia. Qed.

(** One turn that uses up the window. *)
Lemma use_window s : good s ->
  exists b s', Refresh (Advance (BufferSize s) s) = Ok (b, s') /\ moved (length (window s)) s s' /\
    avail s = window s ++ avail s' /\
    if b : bool then window s' <> [] \/ (avail s' = [] /\ 0 < buffer_size_after_limit_ s') else avail s' = [].
Proof using Type.
  intros Hg. pose proof (window_length s (good_shape s Hg)) as Hl. pose proof (BufferSize_range s (good_shape s Hg)).
  pose proof (Advance_moved (BufferSize s) s Hg ltac:(lia)) as Hm. replace (Z.to_nat (BufferSize s)) with (length (window s)) in Hm by lia.
  destruct (Refresh_spec (Advance (BufferSize s) s) (moved_good _ _ _ Hm)) as (b & s' & -> & Hm' & Hb).
  { unfold BufferSize. cbn. lia. }
  assert (moved (length (window s)) s s') as Hm2 by (rewrite <- (Nat.add_0_r (length _)); by eapply moved_trans).
  exists b, s'. split; [done|]. split; [done|]. split; [by eapply avail_window_drop|].
  rewrite (avail_moved _ _ _ Hm'), drop_0. destruct b; [|done]. destruct Hb as [?|(? & ? & _)]; [by left|by right].
Qed.

(** The bytes are copied, or all that are available if there are too few. *)
Lemma copy_loop_spec fuel size bytes s : good s -> 0 <= size ->
  (Z.to_nat size + (if decide (window s = []) then 2 else 1) <= fuel)%nat ->
  exists b s', copy_loop fuel size bytes s = Ok (b, bytes ++ take (Z.to_nat size) (avail s), s') /\
    b = (size <=? Z.of_nat (length (avail s))) /\ moved (length (take (Z.to_nat size) (avail s))) s s'.
Proof using Type.
  revert size bytes s. induction fuel as [|fuel IH]; intros size bytes s Hg Hsize Hf; [case_decide; lia|].
  cbn [copy_loop].
  pose proof (window_length s (good_shape s Hg)) as Hl. destruct (window_avail s Hg) as [more E].
  destruct (Z.ltb_spec (BufferSize s) size) as [Hlt|Hge].
  2:{ exists true, (Advance size s). rewrite E, take_app_le, length_app by lia.
      rewrite (proj2 (Z.leb_le _ _)) by lia. split; [done|]. split; [done|].
      rewrite length_take_le by lia. apply Advance_moved; [done|lia]. }
  destruct (use_window s Hg) as (b & s1 & -> & Hm & Ea & Hb). cbn [mbind outcome_bind].
  assert (Hlen : length (avail s) = (length (window s) + length (avail s1))%nat) by (by rewrite Ea, length_app).
  assert (avail s1 = [] -> exists b s', Ok (false, bytes ++ window s, s1) = Ok (b, bytes ++ take (Z.to_nat size) (avail s), s') /\
    b = (size <=? Z.of_nat (length (avail s))) /\ moved (length (take (Z.to_nat size) (avail s))) s s') as Hend.
  { intros E1. rewrite E1, app_nil_r in Ea. rewrite Ea, take_ge by lia. exists false, s1. split; [done|].
    split; [|done]. symmetry. apply Z.leb_gt. lia. }
  destruct b; [|by apply Hend]. destruct (decide (window s1 = [])) as [Ew|Hw].
  - destruct Hb as [Hb|[E1 Ha1]]; [done|]. destruct fuel as [|fuel]; [case_decide; lia|]. cbn [copy_loop].
    pose proof (moved_good _ _ _ Hm) as Hg1. pose proof (window_length s1 (good_shape s1 Hg1)) as Hl1.
    rewrite Ew in Hl1 |- *. cbn [length] in Hl1. rewrite (proj2 (Z.ltb_lt _ _)) by lia. rewrite <- Hl1. rewrite app_nil_r.
    assert (Advance (Z.of_nat 0) s1 = s1) as ->.
    { destruct s1. unfold Advance, set_buffer, set_chunk. cbn. by rewrite Z.add_0_r. }
    unfold Refresh. rewrite (proj2 (Z.ltb_lt 0 _)) by done. cbn [orb mbind outcome_bind]. by apply Hend.
  - pose proof (moved_good _ _ _ Hm) as Hg1.
    destruct (IH (size - BufferSize s) (bytes ++ window s) s1 Hg1 ltac:(lia)) as (b & s' & -> & Eb & Hm').
    { rewrite decide_False by done. destruct (decide (window s = [])) as [Ew|Hw']; [rewrite Ew in Hl; simpl in Hl; lia|].
      destruct (window s); [done|]. simpl in Hl. lia. }
    exists b, s'. rewrite Ea, take_app, (take_ge (window s)) by lia.
    replace (Z.to_nat size - length (window s))%nat with (Z.to_nat (size - BufferSize s)) by lia.
    rewrite <- app_assoc. split; [done|]. split; [rewrite Eb, length_app, Nat2Z.inj_add, Hl; repeat destruct (Z.leb_spec _ _); lia|].
    rewrite length_app. by eapply moved_trans.
Qed.

Lemma ReadString_spec size s : good s -> 0 <= size ->
  exists b s', ReadString size s = Ok (b, take (Z.to_nat size) (avail s), s') /\
    b = (size <=? Z.of_nat (length (avail s))) /\ moved (length (take (Z.to_nat size) (avail s))) s s'.
Proof using Type.
  intros Hg Hn. unfold ReadString, ReadStringFallback. rewrite (proj2 (Z.ltb_ge _ _)) by lia.
  destruct (Z.leb_spec size (BufferSize s)).
  - pose proof (window_length s (good_shape s Hg)). destruct (window_avail s Hg) as [more E].
    exists true, (Advance size s). rewrite E, take_app_le, length_app by lia.
    rewrite (proj2 (Z.leb_le _ _)) by lia. split; [done|]. split; [done|].
    rewrite length_take_le by lia. apply Advance_moved; [done|lia].
  - apply copy_loop_spec; [done|done|]. case_decide; lia.
Qed.

Lemma ReadRaw_spec size s : good s -> 0 <= size ->
  exists b s', ReadRaw size s = Ok (b, take (Z.to_nat size) (avail s), s') /\
    b = (size <=? Z.of_nat (length (avail s))) /\ moved (length (take (Z.to_nat size) (avail s))) s s'.
Proof using Type.
  intros Hg Hn. unfold ReadRaw. rewrite (proj2 (Z.ltb_ge _ _)) by lia. apply copy_loop_spec; [done|done|]. case_decide; lia.
Qed.

(** Integers of a fixed size; [n] bytes are read. *)
Lemma ReadLittleEndian_spec size s : good s -> 0 <= size < 2 ^ 31 ->
  exists s', ReadLittleEndian size s =
      Ok (if size <=? Z.of_nat (length (avail s)) then Some (little_endian (take (Z.to_nat size) (avail s))) else None, s') /\
    moved (length (take (Z.to_nat size) (avail s))) s s'.
Proof using Type.
  intros Hg Hn. unfold ReadLittleEndian, ReadLittleEndianFallback. pose proof (BufferSize_range s (good_shape s Hg)) as Hb.
  pose proof (window_length s (good_shape s Hg)) as Hl. destruct (window_avail s Hg) as [more E].
  pose proof (window_short s (good_shape s Hg)) as Hw. pose proof (shape_fits s (good_shape s Hg)) as Hf.
  pose proof (shape_position s (good_shape s Hg)) as Hpos.
  assert (u64 (BufferSize s) = BufferSize s) as -> by (apply u64_small; unfold INT_MAX in *; lia).
  destruct (Z.leb_spec size (BufferSize s)).
  - rewrite E, length_app, take_app_le, (proj2 (Z.leb_le _ _)) by lia. eexists. split; [done|].
    rewrite length_take_le by lia. apply Advance_moved; [done|lia].
  - destruct (ReadRaw_spec size s Hg ltac:(lia)) as (b & s' & -> & -> & Hm). cbn [mbind outcome_bind].
    exists s'. split; [|done]. by destruct (size <=? _).
Qed.

(** ** Values of varying size *)

(** The call yields the value and moves behind it, or fails. *)
Definition reads {A} (o : outcome (option A * stream)) (r : option (A * nat)) s : Prop :=
  exists s', match r with
             | Some (v, n) => o = Ok (Some v, s') /\ (n <= length (avail s))%nat /\ moved n s s'
             | None => o = Ok (None, s') /\ good s'
             end.

(** A varint, reduced to the width of the integer. *)
Definition a_varint (width : Z -> Z) (l : list Z) : option (Z * nat) :=
  match varint 10 l with Some (v, n) => Some (width v, n) | None => None end.

Lemma reads_from_window {A} (o : option (A * nat)) (r : option (A * nat)) s : good s -> o = r ->
  (forall v n, r = Some (v, n) -> (n <= length (window s))%nat) ->
  reads (Ok (match o with Some (v, n) => (Some v, Advance (Z.of_nat n) s) | None => (None, s) end)) r s.
Proof using Type.
  intros Hg -> Hr. destruct r as [[v n]|]; [|by exists s].
  pose proof (window_length s (good_shape s Hg)). destruct (window_avail s Hg) as [more E]. specialize (Hr v n eq_refl).
  exists (Advance (Z.of_nat n) s). split; [done|]. split; [rewrite E, length_app; lia|].
  rewrite <- (Nat2Z.id n) at 1. apply Advance_moved; [done|lia].
Qed.

Lemma varint_loop_spec todo count r s : good s -> (count + todo = 10)%nat -> 0 <= r < 2 ^ (7 * Z.of_nat count) ->
  reads (varint_loop todo (Z.of_nat count) r s)
    (match varint todo (avail s) with
     | Some (v, n) => Some (u64 (r + v * 2 ^ (7 * Z.of_nat count)), n)
     | None => None
     end) s.
Proof using Type.
  revert count r s. induction todo as [|todo IH]; intros count r s Hg Hc Hr; [by exists s|]. cbn [varint_loop].
  destruct (refill_spec s Hg) as (b & s1 & -> & Hm & Hb). cbn [mbind outcome_bind].
  pose proof (moved_good _ _ _ Hm) as Hg1. pose proof (avail_moved _ _ _ Hm) as Ea. rewrite drop_0 in Ea. destruct b.
  2:{ rewrite Hb. by exists s1. }
  destruct (window_avail s1 Hg1) as [more E]. pose proof (window_length s1 (good_shape s1 Hg1)) as Hl.
  pose proof (window_bytes s1 Hg1) as Hbytes. destruct (window s1) as [|c w]; [done|]. rewrite <- Ea, E.
  cbn [head in_bounds mbind outcome_bind app varint]. apply Forall_cons_1 in Hbytes as [Hbyte _].
  rewrite last_byte_spec, land_low, Z.shiftl_mul_pow2, lor_u64 by (done || lia).
  assert (moved 1 s (Advance 1 s1)) as Hm1.
  { apply (moved_trans 0 1 _ s1); [done|]. apply (Advance_moved 1); [done|]. simpl in Hl. lia. }
  destruct (Z.ltb_spec c 128).
  - exists (Advance 1 s1). rewrite low_small by done. split; [do 3 f_equal; lia|]. split; [|done].
    rewrite <- Ea, E. simpl. lia.
  - rewrite low_continued by done. pose proof (avail_moved _ _ _ Hm1) as Ea1. rewrite <- Ea, E in Ea1. cbn [app drop] in Ea1.
    assert (2 ^ (7 * Z.of_nat (S count)) = 128 * 2 ^ (7 * Z.of_nat count)) as Ep.
    { replace (7 * Z.of_nat (S count)) with (7 + 7 * Z.of_nat count) by lia. by rewrite Z.pow_add_r by lia. }
    replace (Z.of_nat count + 1) with (Z.of_nat (S count)) by lia.
    destruct (IH (S count) (u64 (r + (c - 128) * 2 ^ (7 * Z.of_nat count))) (Advance 1 s1) (moved_good _ _ _ Hm1) ltac:(lia))
      as (s2 & Hs2).
    { rewrite Ep. split; [apply u64_range|]. unfold byte in Hbyte.
      eapply Z.le_lt_trans; [apply Z.mod_le; nia|]. nia. }
    rewrite Ea1, drop_0 in Hs2. exists s2. rewrite <- Ea, E. destruct (varint todo (w ++ more)) as [[v n]|]; [|done].
    destruct Hs2 as (-> & Hn & Hm2). split; [|split; [simpl; lia|by apply (moved_trans 1 n _ (Advance 1 s1))]].
    do 3 f_equal. unfold u64. rewrite Zplus_mod_idemp_l. f_equal. rewrite Ep. ring.
Qed.

Lemma ReadVarint64Slow_spec s : good s -> reads (ReadVarint64Slow s) (a_varint u64 (avail s)) s.
Proof using Type.
  intros Hg. pose proof (varint_loop_spec 10 0 0 s Hg eq_refl ltac:(simpl; lia)) as Hr. unfold a_varint.
  destruct (varint 10 (avail s)) as [[v n]|]; [|done]. by rewrite Z.add_0_l, Z.mul_1_r in Hr.
Qed.

(** A varint the window holds is the one that is available. *)
Lemma window_varint s : good s -> can_read_directly (window s) = true ->
  varint 10 (avail s) = varint 10 (window s) /\ ends_inside 10 (window s).
Proof using Type.
  intros Hg Hd. destruct (window_avail s Hg) as [more ->].
  pose proof (direct_ends_inside _ (window_bytes s Hg) Hd) as He. split; [by apply varint_app|done].
Qed.

Lemma window_a_varint width s v n : good s -> a_varint width (window s) = Some (v, n) -> (n <= length (window s))%nat.
Proof using Type.
  intros Hg E. unfold a_varint in E. destruct (varint 10 (window s)) as [[v' n']|] eqn:E'; [|done].
  apply varint_range in E'; [|by apply window_bytes]. injection E as _ <-. lia.
Qed.

Lemma ReadVarint64Fallback_spec s : good s -> reads (ReadVarint64Fallback s) (a_varint u64 (avail s)) s.
Proof using Type.
  intros Hg. unfold ReadVarint64Fallback. destruct (can_read_directly (window s)) eqn:Ed; [|by apply ReadVarint64Slow_spec].
  destruct (window_varint s Hg Ed) as [E He]. unfold a_varint. rewrite E.
  rewrite array64_spec by (done || by apply window_bytes). cbn [mbind outcome_bind].
  apply reads_from_window; [done|done|]. intros v n. by apply window_a_varint.
Qed.

(** The case of one byte, which every reader treats first. *)
Lemma one_byte_spec width s b w : good s -> window s = b :: w -> b < 0x80 -> (forall v, byte v -> width v = v) ->
  reads (Ok (Some b, Advance 1 s)) (a_varint width (avail s)) s.
Proof using Type.
  intros Hg Ew Hb Hwidth. destruct (window_avail s Hg) as [more E]. rewrite Ew in E.
  pose proof (window_bytes s Hg) as Hbytes. rewrite Ew in Hbytes. apply Forall_cons_1 in Hbytes as [Hbyte _].
  unfold a_varint. rewrite E. cbn [app]. rewrite varint_small by done. rewrite Hwidth by done.
  exists (Advance 1 s). split; [done|]. split; [rewrite E; simpl; lia|]. apply (Advance_moved 1); [done|].
  rewrite <- window_length by apply Hg. rewrite Ew. simpl. lia.
Qed.

Lemma u64_byte v : byte v -> u64 v = v.
Proof using Type. unfold byte. intros Hv. apply u64_small. lia. Qed.

Lemma u32_byte v : byte v -> u32 v = v.
Proof using Type. unfold byte. intros Hv. apply u32_small. lia. Qed.

Lemma ReadVarint64_spec s : good s -> reads (ReadVarint64 s) (a_varint u64 (avail s)) s.
Proof using Type.
  intros Hg. unfold ReadVarint64. destruct (window s) as [|b w] eqn:Ew; [by apply ReadVarint64Fallback_spec|].
  destruct (Z.ltb_spec b 0x80); [|by apply ReadVarint64Fallback_spec]. eapply one_byte_spec; [done|done|done|apply u64_byte].
Qed.

Lemma ReadVarint32_spec s : good s -> reads (CodedStream.ReadVarint32 s) (a_varint u32 (avail s)) s.
Proof using Type.
  intros Hg.
  assert (forall b, (can_read_directly (window s) = true -> exists w, window s = b :: w /\ 128 <= b) ->
    reads (CodedStream.ReadVarint32Fallback b s) (a_varint u32 (avail s)) s) as Hfall.
  { intros b Hb. unfold CodedStream.ReadVarint32Fallback. destruct (can_read_directly (window s)) eqn:Ed.
    - destruct (window_varint s Hg Ed) as [E He]. destruct (Hb eq_refl) as (w & Ew & Hc). unfold a_varint. rewrite E.
      pose proof (window_bytes s Hg) as Hbytes. rewrite Ew in Hbytes, He |- *. rewrite array32_spec by done.
      cbn [mbind outcome_bind]. rewrite <- Ew. apply reads_from_window; [done|done|]. intros v n. by apply window_a_varint.
    - unfold ReadVarint32Slow. pose proof (ReadVarint64Fallback_spec s Hg) as [s' Hs']. exists s'. unfold a_varint in *.
      destruct (varint 10 (avail s)) as [[v n]|]; destruct Hs' as [-> Hs']; [|done]. cbn [mbind outcome_bind].
      by rewrite u32_u64. }
  unfold CodedStream.ReadVarint32. destruct (window s) as [|b w] eqn:Ew; [by apply Hfall|].
  destruct (Z.ltb_spec b 0x80); [eapply one_byte_spec; [done|done|done|apply u32_byte]|].
  apply Hfall. intros _. exists w. by split.
Qed.

(** ** Tags *)

(** The marks are not part of what [moved] describes. *)
Lemma good_mark s t b : good s -> good (SetLastTag t (set_legitimate b s)).
Proof using Type. intros [[] ?]. constructor; [constructor; assumption|assumption]. Qed.

Lemma moved_mark n s s' t b : moved n s s' -> moved n s (SetLastTag t (set_legitimate b s')).
Proof using Type. intros [Hg ? ? ? ? ? ? ?]. constructor; try assumption. by apply good_mark. Qed.

Lemma good_tag s t : good s -> good (SetLastTag t s).
Proof using Type. intros Hg. pose proof (good_mark s t (legitimate_message_end_ s) Hg) as Hm. by destruct s. Qed.

Lemma moved_tag n s s' t : moved n s s' -> moved n s (SetLastTag t s').
Proof using Type. intros Hm. pose proof (moved_mark n s s' t (legitimate_message_end_ s') Hm) as Hm'. by destruct s'. Qed.

Lemma moved_legitimate n s s' b : moved n s s' -> moved n s (set_legitimate b s').
Proof using Type. intros Hm. pose proof (moved_mark n s s' (last_tag_ s') b Hm) as Hm'. by destruct s'. Qed.

(** A tag is a varint, 0 if there is none. *)
Definition reads_tag (o : outcome (Z * stream)) s : Prop :=
  exists t s', o = Ok (t, s') /\
    match a_varint u32 (avail s) with
    | Some (v, n) => t = v /\ (n <= length (avail s))%nat /\ moved n s s'
    | None => t = 0 /\ good s'
    end /\
    (avail s = [] -> CurrentPosition s < total_bytes_limit_ s -> legitimate_message_end_ s' = true /\ moved 0 s s').

Lemma no_varint : a_varint u32 [] = None.
Proof using Type. done. Qed.

Lemma read_tag_varint_spec s : good s ->
  (avail s = [] -> total_bytes_limit_ s <= CurrentPosition s) -> reads_tag (read_tag_varint s) s.
Proof using Type.
  intros Hg Hlim. unfold read_tag_varint. destruct (ReadVarint64_spec s Hg) as [s' Hs']. unfold reads_tag, a_varint in *.
  destruct (varint 10 (avail s)) as [[v n]|] eqn:E.
  - destruct Hs' as (-> & Hn & Hm). cbn [mbind outcome_bind]. exists (u32 v), s'. simpl. rewrite u32_u64.
    split; [done|]. split; [done|]. intros Ea. by rewrite Ea in E.
  - destruct Hs' as [-> Hg']. exists 0, s'. split; [done|]. split; [done|]. intros Ea Hp. specialize (Hlim Ea). lia.
Qed.

Lemma ReadTagSlow_spec s : good s -> reads_tag (ReadTagSlow s) s.
Proof using Type.
  intros Hg. unfold ReadTagSlow. destruct (Z.eqb_spec (buffer_ s) (buffer_end_ s)) as [Eb|Eb].
  - pose proof (proj2 (window_empty s (good_shape s Hg)) Eb) as Hw.
    destruct (Refresh_spec s Hg ltac:(unfold BufferSize; lia)) as (b & s1 & -> & Hm & Hb). cbn [mbind outcome_bind].
    pose proof (avail_moved _ _ _ Hm) as Ea. rewrite drop_0 in Ea. pose proof (moved_good _ _ _ Hm) as Hg1.
    pose proof (moved_position _ _ _ Hm) as Ep. pose proof (moved_total _ _ _ Hm) as Et. destruct b.
    + destruct (read_tag_varint_spec s1 Hg1) as (t & s' & -> & Ht & Hend).
      { intros E1. destruct Hb as [Hb|(_ & _ & Hb)]; [|lia]. destruct (window_avail s1 Hg1) as [more E].
        rewrite E in E1. by apply app_eq_nil in E1 as [? _]. }
      exists t, s'. rewrite Ea in *. split; [done|]. split.
      * destruct (a_varint u32 (avail s)) as [[v n]|]; [|done]. destruct Ht as (-> & Hn & Hm'). split; [done|].
        split; [done|]. by apply (moved_trans 0 n _ s1).
      * intros E1 Hp. destruct (Hend E1 ltac:(lia)) as [? Hm']. split; [done|]. by apply (moved_trans 0 0 _ s1).
    + exists 0, (note_end s1). split; [done|]. rewrite Hb, no_varint.
      assert (moved 0 s (note_end s1)) as Hm'.
      { unfold note_end. destruct (_ <=? _); by apply moved_legitimate. }
      split; [split; [done|apply Hm']|]. intros _ Hp. split; [|done]. unfold note_end.
      pose proof (position_window s1 (good_shape s1 Hg1)).
      pose proof (BufferSize_range s1 (good_shape s1 Hg1)).
      assert (window s1 = []) as Hw1.
      { destruct (window_avail s1 Hg1) as [more E]. rewrite Ea, Hb in E. by destruct (window s1). }
      apply empty_window_size in Hw1; [|done]. rewrite (proj2 (Z.leb_gt _ _)) by lia. done.
  - apply read_tag_varint_spec; [done|]. intros Ea. destruct (window_avail s Hg) as [more E]. rewrite Ea in E.
    assert (window s = []) as Hw by (by destruct (window s)). by apply window_empty in Hw; [|apply Hg].
Qed.

Lemma ReadTagNoLastTag_spec s : good s -> reads_tag (ReadTagNoLastTag s) s.
Proof using Type.
  intros Hg. unfold ReadTagNoLastTag. pose proof (window_bytes s Hg) as Hbytes.
  destruct (window_avail s Hg) as [more E].
  assert (forall b, (can_read_directly (window s) = true -> exists w, window s = b :: w /\ 128 <= b) ->
    reads_tag (ReadTagFallback b s) s) as Hfall.
  { intros b Hb. unfold ReadTagFallback. destruct (can_read_directly (window s)) eqn:Ed.
    - destruct (window_varint s Hg Ed) as [Ev He]. destruct (Hb eq_refl) as (w & Ew & Hc).
      rewrite (proj2 (Z.eqb_neq b 0)) by lia. rewrite Ew in Hbytes, He. rewrite Ew, array32_spec by done.
      rewrite <- Ew, <- Ev. cbn [mbind outcome_bind].
      assert (avail s <> []) as Hne by (rewrite E, Ew; done).
      pose proof (reads_from_window _ _ s Hg eq_refl (fun v n => window_a_varint u32 s v n Hg)) as [s' Hs'].
      unfold reads_tag, a_varint in *. rewrite Ev in *. destruct (varint 10 (window s)) as [[v n]|].
      + destruct Hs' as (Es & Hn & Hm). injection Es as <-. eexists _, _. split; [done|]. split; [done|]. by intros ?.
      + eexists _, _. split; [done|]. split; [by split|]. by intros ?.
    - destruct (_ && _) eqn:Eq; [|by apply ReadTagSlow_spec].
      apply andb_true_iff in Eq as [[Ez%Z.eqb_eq Eq]%andb_true_iff Elt%Z.ltb_lt].
      assert (avail s = []) as Ea.
      { apply orb_true_iff in Eq as [Ha%Z.ltb_lt|Ec%Z.eqb_eq].
        - rewrite window_all by done. by apply empty_window_size.
        - unfold avail, closest_limit. pose proof (position_window s (good_shape s Hg)).
          pose proof (shape_after s (good_shape s Hg)). pose proof (good_after s Hg) as Haft. unfold closest_limit in Haft.
          by replace (Z.to_nat _) with O by lia. }
      exists 0, (set_legitimate true s). split; [done|]. rewrite Ea, no_varint.
      assert (moved 0 s (set_legitimate true s)) as Hm by (by apply moved_legitimate, moved_refl).
      split; [split; [done|apply Hm]|]. by intros _ _. }
  destruct (window s) as [|b w] eqn:Ew; [by apply Hfall|].
  destruct (Z.ltb_spec b 0x80).
  - destruct (one_byte_spec u32 s b w Hg Ew ltac:(done) u32_byte) as [s' Hs']. exists b, (Advance 1 s). split; [done|].
    assert (avail s <> []) as Hne by (by rewrite E). split; [|by intros ?]. unfold a_varint in *.
    destruct (varint 10 (avail s)) as [[v n]|]; destruct Hs' as [Es Hs']; [|done]. injection Es as -> <-. by split.
  - apply Hfall. intros _. exists w. by split.
Qed.

Lemma ReadTag_spec s : good s -> reads_tag (ReadTag s) s /\ (forall t s', ReadTag s = Ok (t, s') -> last_tag_ s' = t).
Proof using Type.
  intros Hg. unfold ReadTag. destruct (ReadTagNoLastTag_spec s Hg) as (t & s' & -> & Ht & Hend). cbn [mbind outcome_bind].
  split; [|by intros ? ? [= <- <-]]. exists t, (SetLastTag t s'). split; [done|]. split.
  - destruct (a_varint u32 (avail s)) as [[v n]|].
    + destruct Ht as (-> & Hn & Hm). split; [done|]. split; [done|]. by apply moved_tag.
    + destruct Ht as [-> Hg']. split; [done|]. by apply good_tag.
  - intros Ea Hp. destruct (Hend Ea Hp) as [El Hm]. split; [done|]. by apply moved_tag.
Qed.

(** ** Limits *)

Lemma total_to_come s : good s ->
  CurrentPosition s + Z.of_nat (length (rest s)) = total_bytes_read_ s + Z.of_nat (length (to_come s)).
Proof using Type.
  intros Hg. pose proof (good_shape s Hg) as Hs. pose proof (shape_pointers s Hs). pose proof (shape_chunk s Hs).
  pose proof (shape_after s Hs). pose proof (position_window s Hs). unfold rest, BufferSize in *. rewrite length_app, length_drop. lia.
Qed.

(** With another current limit that is not yet passed. *)
Lemma relimited_good s limit : good s -> CurrentPosition s <= limit <= INT_MAX ->
  (input_ s = None -> limit <= total_bytes_read_ s) ->
  let s' := RecomputeBufferLimits (set_limits limit (buffer_size_after_limit_ s) (total_bytes_limit_ s) s) in
  good s' /\ rest s' = rest s /\ CurrentPosition s' = CurrentPosition s /\ current_limit_ s' = limit /\
  total_bytes_limit_ s' = total_bytes_limit_ s /\ recursion_budget_ s' = recursion_budget_ s /\
  recursion_limit_ s' = recursion_limit_ s /\ IsFlat s' = IsFlat s.
Proof using Type.
  intros [[Hp Hc Ha Ho Hpos Hf Hl Hb Hi] Hafter] Hlim Hflat s'. set (s1 := set_limits _ _ _ s) in s'.
  assert (shape s1) as Hs1.
  { split; try assumption; [unfold s1; cbn; lia|]. unfold s1. cbn. destruct (input_ s); [done|]. by apply Hflat. }
  assert (CurrentPosition s1 <= closest_limit s1) as Hc1.
  { unfold s1, closest_limit in *. cbn. change (CurrentPosition (set_limits _ _ _ s)) with (CurrentPosition s).
    unfold CurrentPosition, BufferSize in *. lia. }
  destruct (RecomputeBufferLimits_good s1 Hs1 Hc1) as (Hg & Er & Ep). fold s' in Hg, Er, Ep.
  split; [exact Hg|]. split; [exact Er|]. split; [exact Ep|].
  unfold s', RecomputeBufferLimits. destruct (_ <? _); by unfold s1.
Qed.

(** A limit cuts off what is available. *)
Lemma PushLimit_spec n s : good s -> 0 <= n ->
  exists s', PushLimit n s = (current_limit_ s, s') /\ good s' /\ rest s' = rest s /\
    CurrentPosition s' = CurrentPosition s /\ current_limit_ s' = Z.min (current_limit_ s) (CurrentPosition s + n) /\
    total_bytes_limit_ s' = total_bytes_limit_ s /\ recursion_budget_ s' = recursion_budget_ s /\
    recursion_limit_ s' = recursion_limit_ s /\ IsFlat s' = IsFlat s /\ avail s' = take (Z.to_nat n) (avail s).
Proof using Type.
  intros Hg Hn. pose proof (shape_limits s (good_shape s Hg)) as [Hl _].
  assert (forall s', rest s' = rest s -> CurrentPosition s' = CurrentPosition s ->
    current_limit_ s' = Z.min (current_limit_ s) (CurrentPosition s + n) -> total_bytes_limit_ s' = total_bytes_limit_ s ->
    avail s' = take (Z.to_nat n) (avail s)) as Hav.
  { intros s' Er Ep Ec Et. unfold avail. rewrite Er, Ep, take_take. f_equal. unfold closest_limit. rewrite Ec, Et. lia. }
  unfold PushLimit. rewrite (proj2 (Z.leb_le 0 n)) by lia. cbn [andb].
  destruct (Z.leb_spec n (INT_MAX - CurrentPosition s)); cbn [andb].
  2:{ exists s. split_and!; try done; [lia|]. apply Hav; try done. lia. }
  destruct (Z.ltb_spec n (current_limit_ s - CurrentPosition s)).
  2:{ exists s. split_and!; try done; [lia|]. apply Hav; try done. lia. }
  pose proof (relimited_good s (CurrentPosition s + n) Hg ltac:(lia)) as Hr. cbn zeta in Hr.
  destruct Hr as (Hg' & Er & Ep & Ec & Et & Eb & El & Ef).
  { intros Hin. pose proof (shape_input s (good_shape s Hg)) as Hi. rewrite Hin in Hi. lia. }
  eexists. split; [done|]. split_and!; try done; [lia|]. apply Hav; try done. lia.
Qed.

(** What was read inside a limit is all that was read once it is lifted. *)
Lemma PushPop_spec n k s s1 s2 : good s -> 0 <= n -> PushLimit n s = (current_limit_ s, s1) -> moved k s1 s2 ->
  (k <= length (avail s1))%nat -> moved k s (PopLimit (current_limit_ s) s2).
Proof using Type.
  intros Hg Hn E Hm Hk. destruct (PushLimit_spec n s Hg Hn) as (s1' & E' & Hg1 & Er1 & Ep1 & Ec1 & Et1 & Eb1 & El1 & Ef1 & Ea1).
  rewrite E' in E. injection E as ->. destruct Hm as [Hg2 Er2 Ep2 Ec2 Et2 Eb2 El2 Ef2].
  pose proof (shape_limits s (good_shape s Hg)) as [Hl _]. pose proof (shape_position s (good_shape s Hg)).
  assert (Z.of_nat k <= current_limit_ s - CurrentPosition s \/ k = O) as Hkl.
  { pose proof (avail_length s1) as Hal. unfold closest_limit in Hal. rewrite Ep1, Ec1, Et1 in Hal. lia. }
  assert (CurrentPosition s <= current_limit_ s) as Hps.
  { pose proof (good_after s Hg) as Ha. pose proof (position_window s (good_shape s Hg)).
    pose proof (BufferSize_range s (good_shape s Hg)). unfold closest_limit in Ha. lia. }
  pose proof (relimited_good s2 (current_limit_ s) Hg2 ltac:(lia)) as Hr. cbn zeta in Hr.
  destruct Hr as (Hg' & Er & Ep & Ec & Et & Eb & El & Ef).
  { intros Hin2. assert (input_ s = None) as Hin.
    { rewrite Ef1 in Ef2. unfold IsFlat in Ef2. rewrite Hin2 in Ef2. by destruct (input_ s). }
    pose proof (shape_input s (good_shape s Hg)) as Hi. rewrite Hin in Hi.
    pose proof (total_to_come s Hg) as T. pose proof (total_to_come s2 Hg2) as T2.
    unfold to_come in T, T2. rewrite Hin in T. rewrite Hin2 in T2. simpl in T, T2.
    rewrite Er2, Er1, length_drop in T2. unfold avail in Hk. rewrite length_take, Er1 in Hk. lia. }
  unfold PopLimit. apply moved_legitimate.
  constructor; [exact Hg'|..]; rewrite ?Er, ?Ep, ?Ec, ?Et, ?Eb, ?El, ?Ef; try congruence; lia.
Qed.

(** ** The whole life of a stream *)

Lemma flat_good bytes : Forall byte bytes -> Z.of_nat (length bytes) <= INT_MAX ->
  good (flat_CodedInputStream bytes) /\ avail (flat_CodedInputStream bytes) = bytes.
Proof using Type.
  intros Hb Hl. assert (rest (flat_CodedInputStream bytes) = bytes) as Er.
  { unfold rest, to_come. cbn. by rewrite drop_0, app_nil_r. }
  split.
  - split; [split|]; rewrite ?Er; unfold CurrentPosition, BufferSize, closest_limit, kDefaultTotalBytesLimit, INT_MAX in *;
      cbn; unfold kDefaultTotalBytesLimit, INT_MAX; try done; lia.
  - unfold avail. rewrite Er. apply take_ge.
    unfold closest_limit, CurrentPosition, BufferSize. cbn. unfold kDefaultTotalBytesLimit, INT_MAX in *. lia.
Qed.

Lemma new_good i : valid_input i -> Forall byte (unread i) -> Z.of_nat (length (unread i)) <= INT_MAX ->
  exists s, new_CodedInputStream i = Ok s /\ good s /\ avail s = unread i /\ rest s = unread i /\ CurrentPosition s = 0 /\ IsFlat s = false /\
    recursion_budget_ s = default_recursion_limit_ /\ total_bytes_limit_ s = INT_MAX.
Proof using Type.
  intros Hv Hb Hl. unfold new_CodedInputStream. set (s0 := mkStream _ _ _ _ _ _ _ _ _ _ _ _ _).
  assert (rest s0 = unread i) as Er by done.
  assert (CurrentPosition s0 = 0) as Ep by done.
  assert (good s0) as Hg0.
  { split; [split|]; rewrite ?Er; unfold CurrentPosition, BufferSize, closest_limit; cbn; unfold kDefaultTotalBytesLimit, INT_MAX in *; try done; lia. }
  destruct (Refresh_spec s0 Hg0 eq_refl) as (b & s & -> & Hm & _). cbn [mbind outcome_bind].
  exists s. split; [done|]. split; [apply Hm|]. rewrite (avail_moved _ _ _ Hm), drop_0. split_and!.
  - unfold avail. rewrite Er. apply take_ge. unfold closest_limit, CurrentPosition, BufferSize. cbn.
    unfold kDefaultTotalBytesLimit, INT_MAX in *. lia.
  - by rewrite (moved_rest _ _ _ Hm).
  - rewrite (moved_position _ _ _ Hm). done.
  - apply (moved_flat _ _ _ Hm).
  - apply (moved_budget _ _ _ Hm).
  - apply (moved_total _ _ _ Hm).
Qed.

(** When the reader is gone, the next one finds the bytes it left. *)
Lemma destroy_spec s : good s -> IsFlat s = false ->
  exists s' i, destroy s = Ok s' /\ input_ s' = Some i /\ valid_input i /\ unread i = rest s.
Proof using Type.
  intros Hg Hflat. pose proof (good_shape s Hg) as [Hp Hc Ha Ho Hpos Hf Hl Hb Hi]. unfold destroy. rewrite Hflat.
  unfold IsFlat in Hflat. destruct (input_ s) as [i|] eqn:Ein; [|done]. destruct Hi as [Hv Hret].
  unfold BackUpInputToCurrentPosition, the_input. rewrite Ein, Ho. unfold BufferSize.
  replace (buffer_end_ s - buffer_ s + buffer_size_after_limit_ s + 0) with (Z.of_nat (length (chunk s)) - buffer_ s) by lia.
  unfold rest, to_come. rewrite Ein. destruct (Z.ltb_spec 0 (Z.of_nat (length (chunk s)) - buffer_ s)).
  - cbn [in_bounds mbind outcome_bind]. specialize (Hret ltac:(lia)).
    destruct (back_up_lawful (Z.of_nat (length (chunk s)) - buffer_ s) i Hv) as (i' & -> & Hv' & Eu); [rewrite Hret; lia|].
    cbn [mbind outcome_bind]. eexists _, i'. split; [done|]. cbn. split; [done|]. split; [done|].
    rewrite Eu, Hret. do 2 f_equal. lia.
  - exists s, i. rewrite Ein. split_and!; try done. by rewrite drop_ge by lia.
Qed.

(** ** Sequences of reads *)

Inductive request :=
| Varint32
| Varint64
| Fixed32
| Fixed64
| Text (size : Z)
| Skipped (count : Z).

Inductive answer := Number (value : Z) | Bytes (bytes : list Z) | Done.

Definition numbering (o : outcome (option Z * stream)) : outcome (option answer * stream) :=
  '(v, s) ← o;
  Ok (match v with Some v => Some (Number v) | None => None end, s).

Definition perform (r : request) s : outcome (option answer * stream) :=
  match r with
  | Varint32 => numbering (CodedStream.ReadVarint32 s)
  | Varint64 => numbering (ReadVarint64 s)
  | Fixed32 => numbering (ReadLittleEndian32 s)
  | Fixed64 => numbering (ReadLittleEndian64 s)
  | Text size => '(b, bytes, s) ← ReadString size s; Ok (if b : bool then Some (Bytes bytes) else None, s)
  | Skipped count => '(b, s) ← CodedStream.Skip count s; Ok (if b : bool then Some Done else None, s)
  end.

(** What the answer should be, and how many bytes it takes. *)
Definition sized (size : Z) (a : list Z -> answer) (l : list Z) : option (answer * nat) :=
  if (0 <=? size) && (size <=? Z.of_nat (length l)) then Some (a (take (Z.to_nat size) l), Z.to_nat size) else None.

Definition numbered (o : option (Z * nat)) : option (answer * nat) :=
  match o with Some (v, n) => Some (Number v, n) | None => None end.

Definition answered (r : request) (l : list Z) : option (answer * nat) :=
  match r with
  | Varint32 => numbered (a_varint u32 l)
  | Varint64 => numbered (a_varint u64 l)
  | Fixed32 => sized 4 (fun bytes => Number (little_endian bytes)) l
  | Fixed64 => sized 8 (fun bytes => Number (little_endian bytes)) l
  | Text size => sized size Bytes l
  | Skipped count => sized count (fun _ => Done) l
  end.

Lemma reads_numbered (o : outcome (option Z * stream)) (r : option (Z * nat)) s :
  reads o r s -> reads (numbering o) (numbered r) s.
Proof using Type. unfold numbering. intros [s' Hs']. exists s'. destruct r as [[v n]|]; by destruct Hs' as [-> ?]. Qed.

Lemma reads_fixed size s : good s -> 0 <= size < 2 ^ 31 ->
  reads (numbering (ReadLittleEndian size s))
    (sized size (fun bytes => Number (little_endian bytes)) (avail s)) s.
Proof using Type.
  intros Hg Hn. destruct (ReadLittleEndian_spec size s Hg Hn) as (s' & E & Hm). exists s'. unfold numbering, sized. rewrite E.
  rewrite (proj2 (Z.leb_le 0 size)) by lia. cbn [andb mbind outcome_bind].
  destruct (Z.leb_spec size (Z.of_nat (length (avail s)))); [|split; [done|apply Hm]].
  split; [done|]. split; [lia|]. by rewrite length_take_le in Hm by lia.
Qed.

Lemma perform_spec r s : good s -> reads (perform r s) (answered r (avail s)) s.
Proof using LawfulInput0.
  intros Hg. destruct r as [| | | |size|count]; cbn [perform answered].
  - by apply reads_numbered, ReadVarint32_spec.
  - by apply reads_numbered, ReadVarint64_spec.
  - by apply reads_fixed.
  - by apply reads_fixed.
  - unfold sized. destruct (Z.leb_spec 0 size); cbn [andb].
    2:{ unfold ReadString. rewrite (proj2 (Z.ltb_lt _ _)) by lia. by exists s. }
    destruct (ReadString_spec size s Hg ltac:(lia)) as (b & s' & -> & -> & Hm). exists s'. cbn [mbind outcome_bind].
    destruct (Z.leb_spec size (Z.of_nat (length (avail s)))); [|split; [done|apply Hm]].
    split; [done|]. split; [lia|]. by rewrite length_take_le in Hm by lia.
  - unfold sized. destruct (Z.leb_spec 0 count); cbn [andb].
    2:{ unfold CodedStream.Skip. rewrite (proj2 (Z.ltb_lt _ _)) by lia. by exists s. }
    destruct (Skip_spec count s Hg ltac:(lia)) as (s' & -> & Hm). exists s'. cbn [mbind outcome_bind].
    destruct (Z.leb_spec count (Z.of_nat (length (avail s)))); [|by split].
    split; [done|]. split; [lia|done].
Qed.

(** Requests one after another, up to the first that fails. *)
Fixpoint perform_all (rs : list request) s : outcome (list answer * stream) :=
  match rs with
  | [] => Ok ([], s)
  | r :: rs =>
      '(a, s) ← perform r s;
      match a with
      | Some a => '(answers, s) ← perform_all rs s; Ok (a :: answers, s)
      | None => Ok ([], s)
      end
  end.

Fixpoint answers (rs : list request) (l : list Z) : list answer * option nat :=
  match rs with
  | [] => ([], Some O)
  | r :: rs =>
      match answered r l with
      | Some (a, n) =>
          let '(more, m) := answers rs (drop n l) in (a :: more, match m with Some m => Some (n + m)%nat | None => None end)
      | None => ([], None)
      end
  end.

Lemma answered_length r l a n : Forall byte l -> answered r l = Some (a, n) -> (n <= length l)%nat.
Proof using Type.
  intros Hl E.
  assert (forall width, numbered (a_varint width l) = Some (a, n) -> (n <= length l)%nat) as Hv.
  { intros width Ev. unfold numbered, a_varint in Ev. destruct (varint 10 l) as [[v k]|] eqn:E10; [|done].
    injection Ev as _ <-. apply varint_range in E10; [lia|done]. }
  assert (forall size f, sized size f l = Some (a, n) -> (n <= length l)%nat) as Hs.
  { intros size f Es. unfold sized in Es. destruct (_ && _) eqn:Eb; [|done]. injection Es as _ <-. lia. }
  destruct r; cbn [answered] in E; by eauto.
Qed.

Lemma perform_all_spec rs s : good s ->
  exists s', perform_all rs s = Ok ((answers rs (avail s)).1, s') /\ good s' /\
    match (answers rs (avail s)).2 with Some n => moved n s s' /\ (n <= length (avail s))%nat | None => True end.
Proof using LawfulInput0.
  revert s. induction rs as [|r rs IH]; intros s Hg; cbn [perform_all answers].
  { exists s. split; [done|]. split; [done|]. split; [by apply moved_refl|simpl; lia]. }
  destruct (perform_spec r s Hg) as [s1 Hs1]. destruct (answered r (avail s)) as [[a n]|] eqn:Ea.
  - destruct Hs1 as (-> & Hn & Hm). cbn [mbind outcome_bind].
    destruct (IH s1 (moved_good _ _ _ Hm)) as (s2 & -> & Hg2 & Hend). cbn [mbind outcome_bind].
    rewrite (avail_moved _ _ _ Hm) in *. destruct (answers rs (drop n (avail s))) as [more m]. cbn [fst snd] in *.
    exists s2. split; [done|]. split; [done|]. destruct m as [m|]; [|done]. destruct Hend as [Hm2 Hl].
    split; [by eapply moved_trans|]. rewrite length_drop in Hl. lia.
  - destruct Hs1 as [-> Hg1]. by exists s1.
Qed.

(** C24. However a stream cuts its bytes into chunks, every sequence of reads gives
    the answers of the bytes themselves, the same as over an array; no call
    reads outside of a chunk, asks a missing stream for bytes, or hangs. *)
Theorem chunks_do_not_matter i rs :
  valid_input i -> Forall byte (unread i) -> Z.of_nat (length (unread i)) <= INT_MAX ->
  exists s s1 s2, new_CodedInputStream i = Ok s /\
    perform_all rs s = Ok ((answers rs (unread i)).1, s1) /\
    perform_all rs (flat_CodedInputStream (unread i)) = Ok ((answers rs (unread i)).1, s2).
Proof using LawfulInput0.
  intros Hv Hb Hl. destruct (new_good i Hv Hb Hl) as (s & E & Hg & Ea & _).
  destruct (flat_good (unread i) Hb Hl) as [Hgf Ef].
  destruct (perform_all_spec rs s Hg) as (s1 & E1 & _). destruct (perform_all_spec rs _ Hgf) as (s2 & E2 & _).
  rewrite Ea in E1. rewrite Ef in E2. by exists s, s1, s2.
Qed.

(** C25. Inside a limit the reads see the bytes before the limit and no others;
    when all of them were answered, lifting the limit leaves the stream behind
    the bytes that were read, with everything else as it was. *)
Theorem limits_confine n rs s : good s -> 0 <= n ->
  exists s1 s2, PushLimit n s = (current_limit_ s, s1) /\
    perform_all rs s1 = Ok ((answers rs (take (Z.to_nat n) (avail s))).1, s2) /\
    match (answers rs (take (Z.to_nat n) (avail s))).2 with
    | Some k => moved k s (PopLimit (current_limit_ s) s2) /\ (k <= Z.to_nat n)%nat
    | None => True
    end.
Proof using LawfulInput0.
  intros Hg Hn. destruct (PushLimit_spec n s Hg Hn) as (s1 & E & Hg1 & _ & _ & _ & _ & _ & _ & _ & Ea).
  destruct (perform_all_spec rs s1 Hg1) as (s2 & E2 & _ & Hend). rewrite Ea in E2, Hend. exists s1, s2.
  split; [done|]. split; [done|]. destruct (answers rs _).2 as [k|]; [|done]. destruct Hend as [Hm Hk]. split.
  - eapply PushPop_spec; [done|exact Hn|done|done|]. by rewrite Ea.
  - rewrite length_take in Hk. lia.
Qed.

(** A reader that is destroyed after a sequence of reads gives the bytes it did
    not read back to the stream. *)
Theorem unread_bytes_return i rs :
  valid_input i -> Forall byte (unread i) -> Z.of_nat (length (unread i)) <= INT_MAX ->
  exists s s1 s2, new_CodedInputStream i = Ok s /\ perform_all rs s = Ok ((answers rs (unread i)).1, s1) /\
    match (answers rs (unread i)).2 with
    | Some k => destroy s1 = Ok s2 /\ exists i', input_ s2 = Some i' /\ unread i' = drop k (unread i)
    | None => True
    end.
Proof using LawfulInput0.
  intros Hv Hb Hl. destruct (new_good i Hv Hb Hl) as (s & E & Hg & Ea & Er & Ep & Ef & _).
  destruct (perform_all_spec rs s Hg) as (s1 & E1 & Hg1 & Hend). rewrite Ea in E1, Hend.
  destruct (answers rs (unread i)).2 as [k|]; [|by exists s, s1, s1]. destruct Hend as [Hm _].
  pose proof (moved_flat _ _ _ Hm) as Ef1. rewrite Ef in Ef1.
  destruct (destroy_spec s1 Hg1 Ef1) as (s2 & i' & E2 & Hin & Hv' & Eu). exists s, s1, s2.
  split; [done|]. split; [done|]. split; [done|]. exists i'. split; [done|].
  by rewrite Eu, (moved_rest _ _ _ Hm), Er.
Qed.

End Spec.

(** ** A stream in blocks of three bytes *)

#[local] Existing Instance ArrayInputStream.array_stream.
#[local] Existing Instance ArrayInputStream.array_reliable.
#[local] Existing Instance ArrayInputStream.array_lawful.

(** The varint 300, a string of four bytes, and a fixed integer. *)
Definition eleven_bytes : list Z := [0xAC; 0x02; 0x4F; 0x43; 0x61; 0x6D; 0x2A; 0; 0; 0; 0x7F].
Definition three_reads : list request := [Varint32; Text 4; Fixed32].
Definition in_blocks : ArrayInputStream.ArrayInputStream := ArrayInputStream.new_ArrayInputStream eleven_bytes 3.

Lemma eleven_good : valid_input in_blocks /\ Forall byte (unread in_blocks) /\ Z.of_nat (length (unread in_blocks)) <= INT_MAX.
Proof.
  split; [apply ArrayInputStream.new_valid|]. split; [|by vm_compute].
  repeat (constructor; [unfold byte; lia|]); constructor.
Qed.

Lemma chunks_do_not_matter_witness :
  exists s s1 s2, new_CodedInputStream in_blocks = Ok s /\
    perform_all three_reads s = Ok ([Number 300; Bytes [0x4F; 0x43; 0x61; 0x6D]; Number 42], s1) /\
    perform_all three_reads (flat_CodedInputStream eleven_bytes) = Ok ([Number 300; Bytes [0x4F; 0x43; 0x61; 0x6D]; Number 42], s2).
Proof.
  destruct eleven_good as (Hv & Hb & Hl). exact (chunks_do_not_matter in_blocks three_reads Hv Hb Hl).
Defined.

Lemma limits_confine_witness :
  let s := flat_CodedInputStream (I := ArrayInputStream.ArrayInputStream) eleven_bytes in
  exists s1 s2, PushLimit 6 s = (11, s1) /\ perform_all three_reads s1 = Ok ([Number 300; Bytes [0x4F; 0x43; 0x61; 0x6D]], s2) /\ True.
Proof.
  exact (limits_confine 6 three_reads _ (proj1 (flat_good eleven_bytes (proj1 (proj2 eleven_good)) (proj2 (proj2 eleven_good)))) ltac:(lia)).
Defined.

Lemma unread_bytes_return_witness :
  exists s s1 s2, new_CodedInputStream in_blocks = Ok s /\
    perform_all three_reads s = Ok ([Number 300; Bytes [0x4F; 0x43; 0x61; 0x6D]; Number 42], s1) /\
    destroy s1 = Ok s2 /\ exists i', input_ s2 = Some i' /\ unread i' = [0x7F].
Proof.
  destruct eleven_good as (Hv & Hb & Hl). exact (unread_bytes_return in_blocks three_reads Hv Hb Hl).
Defined.
