(* ===== verification/WireFormat.v ===== *)
(** * The wire format of Protocol Buffers ([deps/protobuf/.../wire_format_lite])

    Tags, the encodings of the scalar types, and skipping of fields a parser does
    not know.  The writers are those that write to an array, [...ToArray]: what
    they write is the list of bytes they return.  A value of every scalar type is
    an integer: a [bool] is 0 or 1, a [float] or a [double] is its bits, which is
    all that the encoding looks at. *)
From S2P Require Import Prelude Varint ZeroCopyStream CodedStream.
#[local] Open Scope Z_scope.

(** ** Tags *)

Definition WIRETYPE_VARINT : Z := 0.
Definition WIRETYPE_FIXED64 : Z := 1.
Definition WIRETYPE_LENGTH_DELIMITED : Z := 2.
Definition WIRETYPE_START_GROUP : Z := 3.
Definition WIRETYPE_END_GROUP : Z := 4.
Definition WIRETYPE_FIXED32 : Z := 5.

Definition kTagTypeBits : Z := 3.
Definition kTagTypeMask : Z := Z.shiftl 1 kTagTypeBits - 1.

Definition MakeTag (field_number type : Z) : Z := u32 (Z.lor (u32 (Z.shiftl (u32 field_number) kTagTypeBits)) type).
Definition GetTagWireType (tag : Z) : Z := Z.land tag kTagTypeMask.
Definition GetTagFieldNumber (tag : Z) : Z := i32 (Z.shiftr tag kTagTypeBits).

(** ** Signed integers of small absolute value *)

Definition ZigZagEncode32 (n : Z) : Z := Z.lxor (u32 (Z.shiftl (u32 n) 1)) (u32 (Z.shiftr n 31)).
Definition ZigZagDecode32 (n : Z) : Z := i32 (Z.lxor (Z.shiftr n 1) (u32 (- Z.land n 1))).
Definition ZigZagEncode64 (n : Z) : Z := Z.lxor (u64 (Z.shiftl (u64 n) 1)) (u64 (Z.shiftr n 63)).
Definition ZigZagDecode64 (n : Z) : Z := i64 (Z.lxor (Z.shiftr n 1) (u64 (- Z.land n 1))).

(** ** Sizes *)

(** The number of leading zeros of a [w]-bit integer that is not 0. *)
Definition builtin_clz (w n : Z) : Z := w - 1 - Z.log2 n.

Definition Log2FloorNonZero (n : Z) : Z := Z.lxor 31 (builtin_clz 32 n).
Definition Log2FloorNonZero64 (n : Z) : Z := Z.lxor 63 (builtin_clz 64 n).
Definition VarintSize32 (value : Z) : Z := Z.quot (Log2FloorNonZero (Z.lor value 0x1) * 9 + 73) 64.
Definition VarintSize64 (value : Z) : Z := Z.quot (Log2FloorNonZero64 (Z.lor value 0x1) * 9 + 73) 64.
Definition VarintSize32SignExtended (value : Z) : Z := if value <? 0 then 10 else VarintSize32 (u32 value).
Definition LengthDelimitedSize (length : Z) : Z := length + VarintSize32 (u32 length).

(** ** Writing *)

Definition WriteVarint64ToArray (value : Z) : list Z := write_varint kMaxVarintBytes value.
Definition WriteVarint32SignExtendedToArray (value : Z) : list Z := WriteVarint64ToArray (u64 value).

(** The low [n] bytes, the lowest first. *)
Fixpoint bytes_of (n : nat) (value : Z) : list Z :=
  match n with
  | O => []
  | S n => value mod 2 ^ 8 :: bytes_of n (Z.shiftr value 8)
  end.

Definition WriteLittleEndian32ToArray (value : Z) : list Z := bytes_of 4 value.
Definition WriteLittleEndian64ToArray (value : Z) : list Z := bytes_of 8 value.

Definition WriteTagToArray (field_number type : Z) : list Z := WriteVarint32ToArray (MakeTag field_number type).

Definition WriteStringWithSizeToArray (str : list Z) : list Z :=
  WriteVarint32ToArray (u32 (Z.of_nat (length str))) ++ str.

(** The scalar types; strings, messages and groups have writers of their own. *)
Inductive FieldType :=
| TYPE_DOUBLE
| TYPE_FLOAT
| TYPE_INT64
| TYPE_UINT64
| TYPE_INT32
| TYPE_FIXED64
| TYPE_FIXED32
| TYPE_BOOL
| TYPE_UINT32
| TYPE_ENUM
| TYPE_SFIXED32
| TYPE_SFIXED64
| TYPE_SINT32
| TYPE_SINT64.

Definition WireTypeForFieldType (t : FieldType) : Z :=
  match t with
  | TYPE_INT64 | TYPE_UINT64 | TYPE_INT32 | TYPE_BOOL | TYPE_UINT32 | TYPE_ENUM | TYPE_SINT32 | TYPE_SINT64 => WIRETYPE_VARINT
  | TYPE_FIXED64 | TYPE_SFIXED64 | TYPE_DOUBLE => WIRETYPE_FIXED64
  | TYPE_FIXED32 | TYPE_SFIXED32 | TYPE_FLOAT => WIRETYPE_FIXED32
  end.

Definition WriteNoTagToArray (t : FieldType) (value : Z) : list Z :=
  match t with
  | TYPE_INT32 | TYPE_ENUM => WriteVarint32SignExtendedToArray value
  | TYPE_INT64 => WriteVarint64ToArray (u64 value)
  | TYPE_UINT32 => WriteVarint32ToArray value
  | TYPE_UINT64 => WriteVarint64ToArray value
  | TYPE_SINT32 => WriteVarint32ToArray (ZigZagEncode32 value)
  | TYPE_SINT64 => WriteVarint64ToArray (ZigZagEncode64 value)
  | TYPE_FIXED32 | TYPE_FLOAT => WriteLittleEndian32ToArray value
  | TYPE_FIXED64 | TYPE_DOUBLE => WriteLittleEndian64ToArray value
  | TYPE_SFIXED32 => WriteLittleEndian32ToArray (u32 value)
  | TYPE_SFIXED64 => WriteLittleEndian64ToArray (u64 value)
  | TYPE_BOOL => WriteVarint32ToArray (if value =? 0 then 0 else 1)
  end.

Definition SizeNoTag (t : FieldType) (value : Z) : Z :=
  match t with
  | TYPE_INT32 | TYPE_ENUM => VarintSize32SignExtended value
  | TYPE_INT64 => VarintSize64 (u64 value)
  | TYPE_UINT32 => VarintSize32 value
  | TYPE_UINT64 => VarintSize64 value
  | TYPE_SINT32 => VarintSize32 (ZigZagEncode32 value)
  | TYPE_SINT64 => VarintSize64 (ZigZagEncode64 value)
  | TYPE_FIXED32 | TYPE_SFIXED32 | TYPE_FLOAT => 4
  | TYPE_FIXED64 | TYPE_SFIXED64 | TYPE_DOUBLE => 8
  | TYPE_BOOL => 1
  end.

Definition WriteScalarToArray (t : FieldType) (field_number value : Z) : list Z :=
  WriteTagToArray field_number (WireTypeForFieldType t) ++ WriteNoTagToArray t value.

Definition WriteStringToArray (field_number : Z) (value : list Z) : list Z :=
  WriteTagToArray field_number WIRETYPE_LENGTH_DELIMITED ++ WriteStringWithSizeToArray value.

(** A group, and a message whose bytes are [value]. *)
Definition WriteGroupToArray (field_number : Z) (value : list Z) : list Z :=
  WriteTagToArray field_number WIRETYPE_START_GROUP ++ value ++ WriteTagToArray field_number WIRETYPE_END_GROUP.

Definition WriteMessageToArray (field_number : Z) (value : list Z) : list Z :=
  WriteTagToArray field_number WIRETYPE_LENGTH_DELIMITED ++
  WriteVarint32ToArray (u32 (Z.of_nat (length value))) ++ value.

Section Reading.
Context {I : Type} `{ZeroCopyInputStream I}.
Local Abbreviation stream := (CodedInputStream I).
Implicit Types s : stream.

(** ** Reading *)

Definition converted (f : Z -> Z) (o : outcome (option Z * stream)) : outcome (option Z * stream) :=
  '(temp, s) ← o;
  Ok (match temp with Some temp => Some (f temp) | None => None end, s).

Definition ReadPrimitive (t : FieldType) s : outcome (option Z * stream) :=
  match t with
  | TYPE_INT32 | TYPE_ENUM => converted i32 (CodedStream.ReadVarint32 s)
  | TYPE_INT64 => converted i64 (ReadVarint64 s)
  | TYPE_UINT32 => CodedStream.ReadVarint32 s
  | TYPE_UINT64 => ReadVarint64 s
  | TYPE_SINT32 => converted ZigZagDecode32 (CodedStream.ReadVarint32 s)
  | TYPE_SINT64 => converted ZigZagDecode64 (ReadVarint64 s)
  | TYPE_FIXED32 | TYPE_FLOAT => ReadLittleEndian32 s
  | TYPE_FIXED64 | TYPE_DOUBLE => ReadLittleEndian64 s
  | TYPE_SFIXED32 => converted i32 (ReadLittleEndian32 s)
  | TYPE_SFIXED64 => converted i64 (ReadLittleEndian64 s)
  | TYPE_BOOL => converted (fun temp => if temp =? 0 then 0 else 1) (ReadVarint64 s)
  end.

Definition ReadBytes s : outcome (option (list Z) * stream) :=
  '(length, s) ← CodedStream.ReadVarint32 s;
  match length with
  | Some length =>
      '(b, value, s) ← ReadString (i32 length) s;
      Ok (if b : bool then Some value else None, s)
  | None => Ok (None, s)
  end.

(** ** Skipping *)

(** Whether a value was read, which is thrown away. *)
Definition discard (o : outcome (option Z * stream)) : outcome (bool * stream) :=
  '(value, s) ← o;
  Ok (match value with Some _ => true | None => false end, s).

(** [SkipField], over the [SkipMessage] it calls for a group. *)
Definition skip_field (skip_message : stream -> outcome (bool * stream)) (tag : Z) s : outcome (bool * stream) :=
  if GetTagFieldNumber tag =? 0 then Ok (false, s)
  else
    let type := GetTagWireType tag in
    if type =? WIRETYPE_VARINT then discard (ReadVarint64 s)
    else if type =? WIRETYPE_FIXED64 then discard (ReadLittleEndian64 s)
    else if type =? WIRETYPE_LENGTH_DELIMITED then
      '(length, s) ← CodedStream.ReadVarint32 s;
      match length with
      | Some length => CodedStream.Skip (i32 length) s
      | None => Ok (false, s)
      end
    else if type =? WIRETYPE_START_GROUP then
      let '(b, s) := IncrementRecursionDepth s in
      if b : bool then
        '(b, s) ← skip_message s;
        if b : bool then
          let s := DecrementRecursionDepth s in
          Ok (LastTagWas (MakeTag (GetTagFieldNumber tag) WIRETYPE_END_GROUP) s, s)
        else Ok (false, s)
      else Ok (false, s)
    else if type =? WIRETYPE_END_GROUP then Ok (false, s)
    else if type =? WIRETYPE_FIXED32 then discard (ReadLittleEndian32 s)
    else Ok (false, s).

(** [fuel] tags, nested ones included. *)
Fixpoint SkipMessage (fuel : nat) s : outcome (bool * stream) :=
  match fuel with
  | O => Blocked
  | S fuel =>
      '(tag, s) ← ReadTag s;
      if tag =? 0 then Ok (true, s)
      else if GetTagWireType tag =? WIRETYPE_END_GROUP then Ok (true, s)
      else
        '(b, s) ← skip_field (SkipMessage fuel) tag s;
        if b : bool then SkipMessage fuel s else Ok (false, s)
  end.

Definition SkipField (fuel : nat) (tag : Z) s : outcome (bool * stream) := skip_field (SkipMessage fuel) tag s.

End Reading.
