(* ===== verification/WireFormatSpec.v ===== *)
(** * What the wire format guarantees

    Every scalar is read back as it was written, with the size announced for it.
    [SkipField] passes exactly the well-formed fields ([skippable]): it neither
    accepts anything else, nor reads further, nor fails to return. *)
From S2P Require Import Prelude Varint ZeroCopyStream CodedStream CodedStreamSpec WireFormat.
#[local] Open Scope Z_scope.

(** ** Signed integers *)

(** Both widths at once: the encoding of [n] as an integer of [w] bits. *)
Definition zigzag (n : Z) : Z := if n <? 0 then - 2 * n - 1 else 2 * n.

Lemma lxor_ones w x : 0 <= w -> 0 <= x < 2 ^ w -> Z.lxor x (2 ^ w - 1) = 2 ^ w - 1 - x.
Proof.
  intros Hw Hx. replace (2 ^ w - 1) with (Z.ones w) by (rewrite Z.ones_equiv; lia).
  rewrite (Z.sub_nocarry_ldiff (Z.ones w) x).
  - apply Z.bits_inj'. intros i Hi. rewrite Z.lxor_spec, Z.ldiff_spec.
    destruct (Z.lt_ge_cases i w); [rewrite Z.ones_spec_low by lia; by destruct (Z.testbit x i)|].
    rewrite Z.ones_spec_high, (testbit_above w x) by lia. done.
  - apply Z.bits_inj'. intros i Hi. rewrite Z.ldiff_spec, Z.bits_0.
    destruct (Z.lt_ge_cases i w); [rewrite Z.ones_spec_low by lia; by destruct (Z.testbit x i)|].
    by rewrite (testbit_above w x) by lia.
Qed.

Lemma encode_zigzag w n : 1 < w -> - 2 ^ (w - 1) <= n < 2 ^ (w - 1) ->
  Z.lxor (Z.shiftl (n mod 2 ^ w) 1 mod 2 ^ w) (Z.shiftr n (w - 1) mod 2 ^ w) = zigzag n.
Proof.
  intros Hw Hn. assert (2 ^ w = 2 * 2 ^ (w - 1)) as Ew by (rewrite <- Z.pow_succ_r by lia; f_equal; lia).
  rewrite Z.shiftl_mul_pow2, Z.shiftr_div_pow2 by lia. change (2 ^ 1) with 2. unfold zigzag.
  rewrite Z.mul_mod_idemp_l by lia. destruct (Z.ltb_spec n 0).
  - replace (n / 2 ^ (w - 1)) with (-1) by (apply Z.div_unique with (n + 2 ^ (w - 1)); lia).
    replace (-1 mod 2 ^ w) with (2 ^ w - 1) by (apply Z.mod_unique with (-1); lia).
    replace (n * 2 mod 2 ^ w) with (2 * n + 2 ^ w) by (apply Z.mod_unique with (-1); lia).
    rewrite lxor_ones by lia. lia.
  - rewrite Z.div_small by lia. rewrite Z.mod_0_l by lia. rewrite Z.lxor_0_r, Z.mod_small by lia. lia.
Qed.

Lemma decode_zigzag w n : 1 < w -> - 2 ^ (w - 1) <= n < 2 ^ (w - 1) ->
  signed w (Z.lxor (Z.shiftr (zigzag n) 1) ((- Z.land (zigzag n) 1) mod 2 ^ w)) = n.
Proof.
  intros Hw Hn. assert (2 ^ w = 2 * 2 ^ (w - 1)) as Ew by (rewrite <- Z.pow_succ_r by lia; f_equal; lia).
  change 1 with (Z.ones 1) at 2. rewrite Z.land_ones, Z.shiftr_div_pow2 by lia. change (2 ^ 1) with 2. unfold zigzag.
  destruct (Z.ltb_spec n 0).
  - replace ((-2 * n - 1) / 2) with (- n - 1) by (apply Z.div_unique with 1; lia).
    replace ((-2 * n - 1) mod 2) with 1 by (apply Z.mod_unique with (- n - 1); lia).
    change (Z.opp 1) with (-1). replace (-1 mod 2 ^ w) with (2 ^ w - 1) by (apply Z.mod_unique with (-1); lia).
    rewrite lxor_ones by lia. replace (2 ^ w - 1 - (- n - 1)) with (n + 1 * 2 ^ w) by lia.
    transitivity (signed w n); [unfold signed; by rewrite Z.mod_add by lia|apply signed_small; lia].
  - replace (2 * n / 2) with n by (apply Z.div_unique with 0; lia).
    replace (2 * n mod 2) with 0 by (apply Z.mod_unique with n; lia).
    rewrite Z.mod_0_l, Z.lxor_0_r by lia. apply signed_small; lia.
Qed.

Lemma zigzag_range w n : 1 < w -> - 2 ^ (w - 1) <= n < 2 ^ (w - 1) -> 0 <= zigzag n < 2 ^ w.
Proof.
  intros Hw Hn. assert (2 ^ w = 2 * 2 ^ (w - 1)) as Ew by (rewrite <- Z.pow_succ_r by lia; f_equal; lia).
  unfold zigzag. destruct (Z.ltb_spec n 0); lia.
Qed.

Lemma zigzag32 n : - 2 ^ 31 <= n < 2 ^ 31 -> ZigZagEncode32 n = zigzag n /\ ZigZagDecode32 (zigzag n) = n.
Proof. intros Hn. split; [exact (encode_zigzag 32 n ltac:(lia) Hn)|exact (decode_zigzag 32 n ltac:(lia) Hn)]. Qed.

Lemma zigzag64 n : - 2 ^ 63 <= n < 2 ^ 63 -> ZigZagEncode64 n = zigzag n /\ ZigZagDecode64 (zigzag n) = n.
Proof. intros Hn. split; [exact (encode_zigzag 64 n ltac:(lia) Hn)|exact (decode_zigzag 64 n ltac:(lia) Hn)]. Qed.

(** ** Tags *)

Lemma MakeTag_type field_number type : 0 <= type < 8 -> GetTagWireType (MakeTag field_number type) = type.
Proof.
  intros Ht. unfold GetTagWireType, MakeTag, kTagTypeMask, kTagTypeBits, u32. change (Z.shiftl 1 3 - 1) with (Z.ones 3).
  apply Z.bits_inj'. intros i Hi. rewrite Z.land_spec. destruct (Z.lt_ge_cases i 3).
  - rewrite Z.ones_spec_low, andb_true_r by lia. rewrite Z.mod_pow2_bits_low, Z.lor_spec by lia.
    rewrite Z.mod_pow2_bits_low, Z.shiftl_spec_low by lia. done.
  - rewrite Z.ones_spec_high, andb_false_r by lia. symmetry. by apply (testbit_above 3).
Qed.

Lemma end_group_tag field_number : GetTagWireType (MakeTag field_number WIRETYPE_END_GROUP) = WIRETYPE_END_GROUP.
Proof. by apply (MakeTag_type _ 4). Qed.

Lemma MakeTag_field field_number type : 0 <= field_number < 2 ^ 29 -> 0 <= type < 8 ->
  GetTagFieldNumber (MakeTag field_number type) = field_number.
Proof.
  intros Hf Ht. unfold GetTagFieldNumber, MakeTag, kTagTypeBits. rewrite (u32_small field_number) by lia.
  rewrite Z.shiftl_mul_pow2 by lia. rewrite (u32_small (_ * _)) by lia.
  rewrite Z.lor_comm, lor_add, u32_small by lia. replace (type + field_number * 2 ^ 3) with (field_number * 8 + type) by lia.
  rewrite Z.shiftr_div_pow2 by lia. change (2 ^ 3) with 8. rewrite Z.div_add_l, Z.div_small by lia.
  rewrite Z.add_0_r. apply signed_small; lia.
Qed.

(** ** Sizes *)

Lemma write_varint_size fuel v : (0 < fuel)%nat -> 0 <= v < 2 ^ (7 * Z.of_nat fuel) ->
  Z.of_nat (length (write_varint fuel v)) = Z.log2 (Z.lor v 1) / 7 + 1.
Proof.
  intros Hf. assert (forall v, 0 < v -> Z.log2 (Z.lor v 1) = Z.log2 v) as Hlog.
  { intros u Hu. rewrite Z.log2_lor by lia. change (Z.log2 1) with 0. pose proof (Z.log2_nonneg u). lia. }
  revert v Hf. induction fuel as [|fuel IH]; intros v Hf Hv; [lia|]. cbn [write_varint].
  destruct (Z.leb_spec 0x80 v).
  - cbn [length]. assert (0 < Z.shiftr v 7) as Hpos.
    { rewrite Z.shiftr_div_pow2 by lia. change (2 ^ 7) with 128. apply Z.div_str_pos. lia. }
    assert (Z.log2 (Z.shiftr v 7) = Z.log2 v - 7) as El.
    { rewrite Z.log2_shiftr by lia. change 7 with (Z.log2 128) at 1. pose proof (Z.log2_le_mono 128 v ltac:(lia)).
      change (Z.log2 128) with 7 in *. lia. }
    assert (0 < fuel)%nat as Hf' by (destruct fuel; [simpl in Hv; lia|lia]).
    rewrite Nat2Z.inj_succ, IH; [|done|split; [lia|]].
    + rewrite (Hlog v), (Hlog (Z.shiftr v 7)), El by lia. replace (Z.log2 v) with (Z.log2 v - 7 + 1 * 7) at 2 by lia.
      rewrite Z.div_add by lia. lia.
    + rewrite Z.shiftr_div_pow2 by lia. apply Z.div_lt_upper_bound; [lia|]. rewrite <- Z.pow_add_r by lia.
      replace (7 + 7 * Z.of_nat fuel) with (7 * Z.of_nat (S fuel)) by lia. lia.
  - cbn [length]. assert (0 <= Z.log2 (Z.lor v 1) < 7) as Hl.
    { split; [apply Z.log2_nonneg|]. rewrite Z.log2_lor by lia. change (Z.log2 1) with 0.
      assert (Z.log2 v < 7); [|lia]. destruct (Z.eq_dec v 0) as [->|]; [done|]. apply Z.log2_lt_pow2; lia. }
    rewrite Z.div_small by done. done.
Qed.

(** The multiplication stands for a division by 7. *)
Lemma size_formula l : 0 <= l < 64 -> Z.quot (l * 9 + 73) 64 = l / 7 + 1.
Proof.
  intros Hl. apply Z.eqb_eq.
  assert (forallb (fun l => Z.quot (l * 9 + 73) 64 =? l / 7 + 1) (seqZ 0 64) = true) as Hall by reflexivity.
  rewrite forallb_forall in Hall. apply Hall, list_elem_of_In, elem_of_seqZ. lia.
Qed.

Lemma log_range w v : 0 < w -> 0 <= v < 2 ^ w -> 0 <= Z.log2 (Z.lor v 1) < w.
Proof.
  intros Hw Hv. split; [apply Z.log2_nonneg|]. rewrite Z.log2_lor by lia. change (Z.log2 1) with 0.
  assert (Z.log2 v < w); [|lia]. destruct (Z.eq_dec v 0) as [->|]; [done|]. apply Z.log2_lt_pow2; lia.
Qed.

Lemma Log2FloorNonZero_spec n : 0 < n < 2 ^ 32 -> Log2FloorNonZero n = Z.log2 n.
Proof.
  intros Hn. unfold Log2FloorNonZero, builtin_clz. assert (0 <= Z.log2 n < 32) by (split; [apply Z.log2_nonneg|apply Z.log2_lt_pow2; lia]).
  rewrite Z.lxor_comm, (lxor_ones 5) by lia. lia.
Qed.

Lemma Log2FloorNonZero64_spec n : 0 < n < 2 ^ 64 -> Log2FloorNonZero64 n = Z.log2 n.
Proof.
  intros Hn. unfold Log2FloorNonZero64, builtin_clz. assert (0 <= Z.log2 n < 64) by (split; [apply Z.log2_nonneg|apply Z.log2_lt_pow2; lia]).
  rewrite Z.lxor_comm, (lxor_ones 6) by lia. lia.
Qed.

(** Where [value | 0x1] lies. *)
Lemma lor_one_range w v : 0 < w -> 0 <= v < 2 ^ w -> 0 < Z.lor v 1 < 2 ^ w.
Proof.
  intros Hw Hv. assert (0 < Z.lor v 1) as Hpos.
  { assert (0 <= Z.lor v 1) by (apply Z.lor_nonneg; lia). assert (Z.lor v 1 <> 0); [|lia]. intros E%Z.lor_eq_0_iff. lia. }
  split; [done|]. apply Z.log2_lt_cancel. rewrite Z.log2_pow2 by lia. apply log_range; lia.
Qed.

Lemma VarintSize32_spec v : 0 <= v < 2 ^ 32 -> VarintSize32 v = Z.of_nat (length (WriteVarint32ToArray v)).
Proof.
  intros Hv. unfold WriteVarint32ToArray, VarintSize32. rewrite Log2FloorNonZero_spec by (by apply lor_one_range). pose proof (log_range 32 v ltac:(lia) Hv).
  rewrite write_varint_size, size_formula; unfold kMaxVarint32Bytes; lia.
Qed.

Lemma VarintSize64_spec v : 0 <= v < 2 ^ 64 -> VarintSize64 v = Z.of_nat (length (WriteVarint64ToArray v)).
Proof.
  intros Hv. unfold WriteVarint64ToArray, VarintSize64. rewrite Log2FloorNonZero64_spec by (by apply lor_one_range). pose proof (log_range 64 v ltac:(lia) Hv).
  rewrite write_varint_size, size_formula; unfold kMaxVarintBytes; lia.
Qed.

Lemma VarintSize32SignExtended_spec v : - 2 ^ 31 <= v < 2 ^ 31 ->
  VarintSize32SignExtended v = Z.of_nat (length (WriteVarint32SignExtendedToArray v)).
Proof.
  intros Hv. unfold WriteVarint32SignExtendedToArray, VarintSize32SignExtended.
  rewrite <- VarintSize64_spec by apply u64_range. destruct (Z.ltb_spec v 0).
  - unfold VarintSize64. rewrite Log2FloorNonZero64_spec by (apply lor_one_range; [lia|apply u64_range]). replace (u64 v) with (v + 2 ^ 64) by (apply Z.mod_unique with (-1); lia).
    rewrite Z.log2_lor by lia. rewrite (Z.log2_unique (v + 2 ^ 64) 63) by lia. done.
  - rewrite u64_small, u32_small by lia. unfold VarintSize32, VarintSize64.
    by rewrite Log2FloorNonZero_spec, Log2FloorNonZero64_spec by (apply lor_one_range; lia).
Qed.

(** ** Bytes of an integer *)

Lemma bytes_of_length n v : length (bytes_of n v) = n.
Proof. revert v. induction n as [|n IH]; intros v; simpl; auto. Qed.

Lemma little_endian_bytes n v : 0 <= v < 2 ^ (8 * Z.of_nat n) -> little_endian (bytes_of n v) = v.
Proof.
  revert v. induction n as [|n IH]; intros v Hv; [simpl in Hv |- *; lia|].
  cbn [bytes_of little_endian foldr]. rewrite Z.shiftr_div_pow2 by lia. change (2 ^ 8) with 256.
  change (foldr (fun b v => b + 256 * v) 0 (bytes_of n (v / 256))) with (little_endian (bytes_of n (v / 256))).
  rewrite IH; [pose proof (Z.div_mod v 256 ltac:(lia)); lia|]. split; [apply Z.div_pos; lia|].
  apply Z.div_lt_upper_bound; [lia|]. change 256 with (2 ^ 8). rewrite <- Z.pow_add_r by lia.
  replace (8 + 8 * Z.of_nat n) with (8 * Z.of_nat (S n)) by lia. lia.
Qed.

Lemma signed_of_unsigned w v : 0 < w -> - 2 ^ (w - 1) <= v < 2 ^ (w - 1) -> signed w (v mod 2 ^ w) = v.
Proof.
  intros Hw Hv. transitivity (signed w v); [unfold signed; by rewrite Z.mod_mod by lia|by apply signed_small].
Qed.

(** ** Reading back *)

Lemma read_varint32 v more : 0 <= v < 2 ^ 32 ->
  a_varint u32 (WriteVarint32ToArray v ++ more) = Some (v, length (WriteVarint32ToArray v)).
Proof.
  intros Hv. unfold a_varint, WriteVarint32ToArray, kMaxVarint32Bytes. rewrite write_varint_spec by lia. by rewrite u32_small.
Qed.

Lemma read_varint64 width v more : 0 <= v < 2 ^ 64 ->
  a_varint width (WriteVarint64ToArray v ++ more) = Some (width v, length (WriteVarint64ToArray v)).
Proof. intros Hv. unfold a_varint, WriteVarint64ToArray, kMaxVarintBytes. by rewrite write_varint_spec by lia. Qed.

Definition in_range (t : FieldType) (v : Z) : Prop :=
  match t with
  | TYPE_INT32 | TYPE_ENUM | TYPE_SFIXED32 | TYPE_SINT32 => - 2 ^ 31 <= v < 2 ^ 31
  | TYPE_INT64 | TYPE_SFIXED64 | TYPE_SINT64 => - 2 ^ 63 <= v < 2 ^ 63
  | TYPE_UINT32 | TYPE_FIXED32 | TYPE_FLOAT => 0 <= v < 2 ^ 32
  | TYPE_UINT64 | TYPE_FIXED64 | TYPE_DOUBLE => 0 <= v < 2 ^ 64
  | TYPE_BOOL => v = 0 \/ v = 1
  end.

Lemma scalar_size t v : in_range t v -> Z.of_nat (length (WriteNoTagToArray t v)) = SizeNoTag t v.
Proof.
  intros Hv. destruct t; cbn [in_range WriteNoTagToArray SizeNoTag] in *.
  - unfold WriteLittleEndian64ToArray. by rewrite bytes_of_length.
  - unfold WriteLittleEndian32ToArray. by rewrite bytes_of_length.
  - symmetry. apply VarintSize64_spec, u64_range.
  - by symmetry; apply VarintSize64_spec.
  - by symmetry; apply VarintSize32SignExtended_spec.
  - unfold WriteLittleEndian64ToArray. by rewrite bytes_of_length.
  - unfold WriteLittleEndian32ToArray. by rewrite bytes_of_length.
  - by destruct Hv as [-> | ->].
  - by symmetry; apply VarintSize32_spec.
  - by symmetry; apply VarintSize32SignExtended_spec.
  - unfold WriteLittleEndian32ToArray. by rewrite bytes_of_length.
  - unfold WriteLittleEndian64ToArray. by rewrite bytes_of_length.
  - destruct (zigzag32 v Hv) as [-> _]. symmetry. apply VarintSize32_spec, (zigzag_range 32); done.
  - destruct (zigzag64 v Hv) as [-> _]. symmetry. apply VarintSize64_spec, (zigzag_range 64); done.
Qed.

(** ** Unknown fields

    [whole width bytes v]: the bytes are one varint, of value [v]. *)
Definition whole (width : Z -> Z) (bytes : list Z) (v : Z) : Prop := a_varint width bytes = Some (v, length bytes).

(** The fields, behind their tags, and the messages within [budget] levels. *)
Inductive skippable (budget : Z) : Z -> list Z -> Prop :=
| skips_varint tag bytes v :
    GetTagFieldNumber tag <> 0 -> GetTagWireType tag = WIRETYPE_VARINT -> whole u64 bytes v -> skippable budget tag bytes
| skips_fixed64 tag bytes :
    GetTagFieldNumber tag <> 0 -> GetTagWireType tag = WIRETYPE_FIXED64 -> length bytes = 8%nat -> skippable budget tag bytes
| skips_delimited tag size bytes :
    GetTagFieldNumber tag <> 0 -> GetTagWireType tag = WIRETYPE_LENGTH_DELIMITED ->
    whole u32 size (Z.of_nat (length bytes)) -> Z.of_nat (length bytes) <= INT_MAX -> skippable budget tag (size ++ bytes)
| skips_group tag its close :
    GetTagFieldNumber tag <> 0 -> GetTagWireType tag = WIRETYPE_START_GROUP -> 1 <= budget ->
    items (budget - 1) its -> whole u32 close (MakeTag (GetTagFieldNumber tag) WIRETYPE_END_GROUP) ->
    skippable budget tag (its ++ close)
| skips_fixed32 tag bytes :
    GetTagFieldNumber tag <> 0 -> GetTagWireType tag = WIRETYPE_FIXED32 -> length bytes = 4%nat -> skippable budget tag bytes
with items (budget : Z) : list Z -> Prop :=
| no_items : items budget []
| one_more_item open tag bytes its :
    whole u32 open tag -> skippable budget tag bytes -> items budget its -> items budget (open ++ bytes ++ its).

(** The bytes begin with a message and a tag that ends a group. *)
Definition closes (budget : Z) (l : list Z) (tag : Z) (n : nat) : Prop :=
  exists its close more, l = (its ++ close) ++ more /\ n = length (its ++ close) /\ items budget its /\
    whole u32 close tag /\ GetTagWireType tag = WIRETYPE_END_GROUP.

Lemma varint_take n l v k : varint n l = Some (v, k) -> varint n (take k l) = Some (v, k).
Proof.
  revert l v k. induction n as [|n IH]; intros l v k E; [done|]. destruct l as [|b l]; [done|]. simpl in E.
  destruct (b <? 128) eqn:Eb.
  - injection E as <- <-. simpl. by rewrite Eb.
  - destruct (varint n l) as [[v' k']|] eqn:E'; [|done]. injection E as <- <-. simpl. by rewrite Eb, (IH _ _ _ E').
Qed.

Lemma whole_take width l v n : Forall byte l -> a_varint width l = Some (v, n) -> whole width (take n l) v.
Proof.
  unfold whole, a_varint. intros Hl E. destruct (varint 10 l) as [[u k]|] eqn:E10; [|done]. injection E as <- <-.
  pose proof (varint_range _ _ _ _ Hl E10). rewrite (varint_take _ _ _ _ E10), length_take. do 2 f_equal. lia.
Qed.

Lemma a_varint_pos width l v n : Forall byte l -> a_varint width l = Some (v, n) -> (0 < n)%nat.
Proof.
  unfold a_varint. intros Hl E. destruct (varint 10 l) as [[u k]|] eqn:E10; [|done]. injection E as _ <-.
  apply (varint_range _ _ _ _ Hl E10).
Qed.

Lemma whole_app width bytes v more : whole width bytes v -> a_varint width (bytes ++ more) = Some (v, length bytes).
Proof.
  unfold whole, a_varint. intros E. rewrite varint_app; [done|]. right. by destruct (varint 10 bytes) as [[]|].
Qed.

Lemma skippable_cases budget tag bytes : skippable budget tag bytes <->
  GetTagFieldNumber tag <> 0 /\
  match GetTagWireType tag with
  | 0 => exists v, whole u64 bytes v
  | 1 => length bytes = 8%nat
  | 2 => exists size body, bytes = size ++ body /\ whole u32 size (Z.of_nat (length body)) /\ Z.of_nat (length body) <= INT_MAX
  | 3 => exists its close, bytes = its ++ close /\ 1 <= budget /\ items (budget - 1) its /\
           whole u32 close (MakeTag (GetTagFieldNumber tag) WIRETYPE_END_GROUP)
  | 5 => length bytes = 4%nat
  | _ => False
  end.
Proof.
  split.
  - destruct 1 as [? ? ? ? Et|? ? ? Et|? ? ? ? Et|? ? ? ? Et|? ? ? Et]; rewrite Et; (split; [done|]); 
      cbn; eauto 10.
  - intros [Hf Hs]. destruct (GetTagWireType tag) as [|[[|[]|]|[]|]|] eqn:Et; try done.
    + destruct Hs as [v ?]. by eapply skips_varint.
    + by apply skips_fixed32.
    + destruct Hs as (its & close & -> & ? & ? & ?). by apply skips_group.
    + destruct Hs as (size & body & -> & ? & ?). by apply skips_delimited.
    + by apply skips_fixed64.
Qed.

(** A tag without a field number is no field; 0 is such a tag. *)
Lemma skippable_tag budget tag bytes : skippable budget tag bytes ->
  GetTagFieldNumber tag <> 0 /\ GetTagWireType tag <> WIRETYPE_END_GROUP.
Proof. intros [Hf Hs]%skippable_cases. split; [done|]. intros Et. by rewrite Et in Hs. Qed.

(** What begins with a tag. *)
Lemma closes_end budget l tag v n k : a_varint u32 l = Some (v, k) ->
  v = 0 \/ GetTagWireType v = WIRETYPE_END_GROUP -> closes budget l tag n -> v = tag /\ n = k.
Proof.
  intros E Hv (its & close & more & -> & -> & Hits & Hclose & Ht). destruct Hits as [|open tag' bytes its Ho Hs Hits].
  - cbn [app] in *. rewrite (whole_app _ _ _ more Hclose) in E. by injection E as -> <-.
  - rewrite <- !app_assoc in E. rewrite (whole_app _ _ _ _ Ho) in E. injection E as -> _.
    apply skippable_tag in Hs as [Hf He]. destruct Hv as [-> | ?]; done.
Qed.

Lemma closes_field budget l tag v n k : a_varint u32 l = Some (v, k) -> GetTagWireType v <> WIRETYPE_END_GROUP ->
  closes budget l tag n -> exists bytes more m, drop k l = bytes ++ more /\ skippable budget v bytes /\
    closes budget more tag m /\ (n = k + (length bytes + m))%nat.
Proof.
  intros E Hv (its & close & more & -> & -> & Hits & Hclose & Ht). destruct Hits as [|open tag' bytes its Ho Hs Hits].
  - cbn [app] in *. rewrite (whole_app _ _ _ more Hclose) in E. injection E as -> _. done.
  - rewrite <- !app_assoc in E |- *. rewrite (whole_app _ _ _ _ Ho) in E. injection E as <- <-.
    exists bytes, ((its ++ close) ++ more), (length (its ++ close)). rewrite drop_app_length, <- app_assoc.
    split; [done|]. split; [done|]. rewrite !length_app. split; [|lia]. exists its, close, more.
    by rewrite length_app, <- app_assoc.
Qed.

Lemma closes_more budget open tag' bytes l tag m : whole u32 open tag' -> skippable budget tag' bytes ->
  closes budget l tag m -> closes budget (open ++ bytes ++ l) tag (length open + (length bytes + m)).
Proof.
  intros Ho Hs (its & close & more & -> & -> & Hits & Hclose & Ht). exists (open ++ bytes ++ its), close, more.
  rewrite <- !app_assoc, !length_app. split; [done|]. split; [lia|]. split; [by apply (one_more_item budget open tag')|done].
Qed.

Lemma items_field budget l v k : a_varint u32 l = Some (v, k) -> items budget l ->
  exists bytes more, drop k l = bytes ++ more /\ skippable budget v bytes /\ items budget more /\ (k < length l + 1)%nat.
Proof.
  intros E Hits. destruct Hits as [|open tag' bytes its Ho Hs Hits]; [done|]. rewrite (whole_app _ _ _ _ Ho) in E.
  injection E as <- <-. exists bytes, its. rewrite drop_app_length. split_and!; try done. rewrite length_app. lia.
Qed.

Lemma closes_varint budget l tag n : closes budget l tag n -> exists v k, a_varint u32 l = Some (v, k).
Proof.
  intros (its & close & more & -> & -> & Hits & Hclose & Ht). destruct Hits as [|open tag' bytes its Ho Hs Hits].
  - eexists _, _. by apply whole_app.
  - rewrite <- !app_assoc. eexists _, _. by apply whole_app.
Qed.

Lemma items_varint budget l : items budget l -> l = [] \/ exists v k, a_varint u32 l = Some (v, k).
Proof. destruct 1 as [|open tag bytes its Ho]; [by left|right]. eexists _, _. by apply whole_app. Qed.

(** What the writers write for the fields of a message. *)
Inductive written (budget : Z) : list Z -> Prop :=
| nothing_written : written budget []
| scalar_written number t v more :
    0 < number < 2 ^ 29 -> in_range t v -> written budget more ->
    written budget (WriteScalarToArray t number v ++ more)
| string_written number bytes more :
    0 < number < 2 ^ 29 -> Z.of_nat (length bytes) <= INT_MAX -> written budget more ->
    written budget (WriteStringToArray number bytes ++ more)
| message_written number bytes more :
    0 < number < 2 ^ 29 -> Z.of_nat (length bytes) <= INT_MAX -> written budget more ->
    written budget (WriteMessageToArray number bytes ++ more)
| group_written number bytes more :
    0 < number < 2 ^ 29 -> 1 <= budget -> written (budget - 1) bytes -> written budget more ->
    written budget (WriteGroupToArray number bytes ++ more).

Lemma whole_varint32 v : 0 <= v < 2 ^ 32 -> whole u32 (WriteVarint32ToArray v) v.
Proof. intros Hv. unfold whole. rewrite <- (app_nil_r (WriteVarint32ToArray v)) at 1. by apply read_varint32. Qed.

Lemma whole_u64 fuel v : (fuel <= 10)%nat -> 0 <= v < 2 ^ (7 * Z.of_nat fuel) -> (0 < fuel)%nat -> whole u64 (write_varint fuel v) (u64 v).
Proof.
  intros Hf Hv Hpos. unfold whole, a_varint. rewrite <- (app_nil_r (write_varint fuel v)) at 1.
  replace 10%nat with (fuel + (10 - fuel))%nat by lia.
  rewrite (varint_some_more fuel (10 - fuel) _ (v, length (write_varint fuel v))); [done|].
  by apply write_varint_spec.
Qed.

Lemma MakeTag_range number type : 0 <= MakeTag number type < 2 ^ 32.
Proof. apply u32_range. Qed.

(** The value of a scalar passes for a field of its wire type. *)
Lemma scalar_skippable budget number t v : 0 < number < 2 ^ 29 -> in_range t v ->
  skippable budget (MakeTag number (WireTypeForFieldType t)) (WriteNoTagToArray t v).
Proof.
  intros Hn Hv. apply skippable_cases. rewrite MakeTag_field, MakeTag_type by first [lia|by destruct t]. split; [lia|].
  assert (forall u, 0 <= u < 2 ^ 32 -> exists w, whole u64 (WriteVarint32ToArray u) w) as H32.
  { intros u Hu. exists (u64 u). apply whole_u64; unfold kMaxVarint32Bytes; lia. }
  assert (forall u, 0 <= u < 2 ^ 64 -> exists w, whole u64 (WriteVarint64ToArray u) w) as H64.
  { intros u Hu. exists (u64 u). apply whole_u64; unfold kMaxVarintBytes; lia. }
  destruct t; cbn [WireTypeForFieldType WriteNoTagToArray in_range] in *;
    cbv beta iota delta [WIRETYPE_VARINT WIRETYPE_FIXED32 WIRETYPE_FIXED64].
  - apply bytes_of_length.
  - apply bytes_of_length.
  - apply H64, u64_range.
  - by apply H64.
  - apply H64, u64_range.
  - apply bytes_of_length.
  - apply bytes_of_length.
  - apply H32. destruct (v =? 0); lia.
  - by apply H32.
  - apply H64, u64_range.
  - apply bytes_of_length.
  - apply bytes_of_length.
  - destruct (zigzag32 v Hv) as [-> _]. by apply H32, (zigzag_range 32).
  - destruct (zigzag64 v Hv) as [-> _]. by apply H64, (zigzag_range 64).
Qed.

Lemma delimited_skippable budget number bytes : 0 < number < 2 ^ 29 -> Z.of_nat (length bytes) <= INT_MAX ->
  skippable budget (MakeTag number WIRETYPE_LENGTH_DELIMITED) (WriteStringWithSizeToArray bytes).
Proof.
  intros Hn Hl. unfold INT_MAX in Hl. apply skips_delimited; rewrite ?MakeTag_field, ?MakeTag_type; try done; try lia.
  rewrite u32_small by lia. apply whole_varint32. lia.
Qed.

Lemma tagged_item budget number type bytes its : skippable budget (MakeTag number type) bytes -> items budget its ->
  items budget ((WriteTagToArray number type ++ bytes) ++ its).
Proof.
  intros Hs Hits. rewrite <- app_assoc. apply one_more_item with (MakeTag number type); [|done|done].
  apply whole_varint32, MakeTag_range.
Qed.

Lemma written_items budget bytes : written budget bytes -> items budget bytes.
Proof.
  induction 1 as [budget|budget number t v more Hn Hv _ IH|budget number bytes more Hn Hl _ IH|budget number bytes more Hn Hl _ IH|
    budget number bytes more Hn Hb _ IHb _ IH]; [constructor|..].
  - apply tagged_item; [by apply scalar_skippable|done].
  - apply tagged_item; [by apply delimited_skippable|done].
  - apply tagged_item; [by apply delimited_skippable|done].
  - apply tagged_item; [|done]. apply skippable_cases. rewrite MakeTag_field, MakeTag_type by first [lia|by split]. split; [lia|].
    eexists _, _. split; [done|]. split; [done|]. split; [done|]. apply whole_varint32, MakeTag_range.
Qed.

Section Spec.
Context {I : Type} `{ReliableStream I} `{!LawfulInput I}.
Local Abbreviation stream := (CodedInputStream I).
Implicit Types s : stream.

Lemma reads_converted f (o : outcome (option Z * stream)) v v' n s :
  f v = v' -> reads o (Some (v, n)) s -> reads (converted f o) (Some (v', n)) s.
Proof using Type. unfold converted. intros <- [s' (-> & Hn & Hm)]. by exists s'. Qed.

Lemma reads_varint64 v more s : good s -> avail s = WriteVarint64ToArray v ++ more -> 0 <= v < 2 ^ 64 ->
  reads (ReadVarint64 s) (Some (v, length (WriteVarint64ToArray v))) s /\
  reads (CodedStream.ReadVarint32 s) (Some (u32 v, length (WriteVarint64ToArray v))) s.
Proof using Type.
  intros Hg Ea Hv. pose proof (ReadVarint64_spec s Hg) as Hr. pose proof (ReadVarint32_spec s Hg) as Hr'.
  rewrite Ea, read_varint64 in Hr, Hr' by done. by rewrite u64_small in Hr.
Qed.

Lemma reads_varint32 v more s : good s -> avail s = WriteVarint32ToArray v ++ more -> 0 <= v < 2 ^ 32 ->
  reads (CodedStream.ReadVarint32 s) (Some (v, length (WriteVarint32ToArray v))) s.
Proof using Type.
  intros Hg Ea Hv. pose proof (ReadVarint32_spec s Hg) as Hr. by rewrite Ea, read_varint32 in Hr.
Qed.

Lemma reads_bytes n v more s : good s -> avail s = bytes_of n v ++ more -> 0 <= v < 2 ^ (8 * Z.of_nat n) -> (n <= 8)%nat ->
  reads (ReadLittleEndian (Z.of_nat n) s) (Some (v, n)) s.
Proof using Type.
  intros Hg Ea Hv Hn. destruct (ReadLittleEndian_spec (Z.of_nat n) s Hg ltac:(lia)) as (s' & E & Hm).
  pose proof (bytes_of_length n v) as Hl. rewrite Ea, length_app, (proj2 (Z.leb_le _ _)) in E by lia.
  rewrite Nat2Z.id, take_app_le, take_ge, little_endian_bytes in E by (done || lia).
  exists s'. rewrite Ea, length_app. split; [done|]. split; [lia|].
  by rewrite Ea, Nat2Z.id, take_app_le, take_ge, Hl in Hm by lia.
Qed.

(** C30. Every scalar that is written is read back, whatever follows it and however
    the stream is cut into chunks; it takes as many bytes as its size says. *)
Theorem scalar_roundtrip t v more s :
  good s -> in_range t v -> avail s = WriteNoTagToArray t v ++ more ->
  exists s', ReadPrimitive t s = Ok (Some v, s') /\ moved (Z.to_nat (SizeNoTag t v)) s s' /\ avail s' = more.
Proof using Type.
  intros Hg Hv Ea. rewrite <- (scalar_size t v Hv), Nat2Z.id.
  assert (reads (ReadPrimitive t s) (Some (v, length (WriteNoTagToArray t v))) s) as [s' (E & _ & Hm)].
  2:{ exists s'. split; [done|]. split; [done|]. by rewrite (avail_moved _ _ _ Hm), Ea, drop_app_length. }
  pose proof (signed_of_unsigned 32 v ltac:(lia)) as H32. pose proof (signed_of_unsigned 64 v ltac:(lia)) as H64.
  destruct t; cbn [in_range WriteNoTagToArray ReadPrimitive] in *.
  - by apply (reads_bytes 8 v more); [..|lia].
  - by apply (reads_bytes 4 v more); [..|lia].
  - apply (reads_converted i64 _ (u64 v)); [by apply H64|]. by apply (reads_varint64 _ more); [..|apply u64_range].
  - by apply (reads_varint64 _ more).
  - apply (reads_converted i32 _ (u32 v)); [by apply H32|]. rewrite <- u32_u64. by apply (reads_varint64 _ more); [..|apply u64_range].
  - by apply (reads_bytes 8 v more); [..|lia].
  - by apply (reads_bytes 4 v more); [..|lia].
  - apply (reads_converted _ _ v); [by destruct Hv as [-> | ->]|]. destruct (reads_varint64 v more s) as [Hr _]; [done| |lia|].
    + rewrite Ea. by destruct Hv as [-> | ->].
    + by destruct Hv as [-> | ->].
  - by apply (reads_varint32 v more).
  - apply (reads_converted i32 _ (u32 v)); [by apply H32|]. rewrite <- u32_u64. by apply (reads_varint64 _ more); [..|apply u64_range].
  - apply (reads_converted i32 _ (u32 v)); [by apply H32|]. by apply (reads_bytes 4 (u32 v) more); [..|apply u32_range|lia].
  - apply (reads_converted i64 _ (u64 v)); [by apply H64|]. by apply (reads_bytes 8 (u64 v) more); [..|apply u64_range|lia].
  - destruct (zigzag32 v Hv) as [Ee Ed]. rewrite Ee in *. apply (reads_converted ZigZagDecode32 _ (zigzag v)); [done|].
    by apply (reads_varint32 _ more); [..|apply (zigzag_range 32)].
  - destruct (zigzag64 v Hv) as [Ee Ed]. rewrite Ee in *. apply (reads_converted ZigZagDecode64 _ (zigzag v)); [done|].
    by apply (reads_varint64 _ more); [..|apply (zigzag_range 64)].
Qed.

(** ** Skipping *)

(** What a reader of messages accepts and ends a group is a message and such a
    tag, and it accepts every one; the third part is for a message that ends with
    the bytes. *)
Definition read_message (o : outcome (bool * stream)) s : Prop := exists b s', o = Ok (b, s') /\
  (b = true -> GetTagWireType (last_tag_ s') = WIRETYPE_END_GROUP ->
    exists n, closes (recursion_budget_ s) (avail s) (last_tag_ s') n /\ moved n s s') /\
  (forall tag n, closes (recursion_budget_ s) (avail s) tag n -> b = true /\ last_tag_ s' = tag /\ moved n s s') /\
  (items (recursion_budget_ s) (avail s) -> CurrentPosition s + Z.of_nat (length (avail s)) < total_bytes_limit_ s ->
    b = true /\ moved (length (avail s)) s s' /\ legitimate_message_end_ s' = true).

(** On streams of less than [bound] bytes. *)
Definition message_reader (bound : nat) (skip : stream -> outcome (bool * stream)) : Prop := forall s,
  good s -> recursion_budget_ s <= recursion_limit_ s -> (length (avail s) < bound)%nat -> read_message (skip s) s.

(** The same for a reader of one field. *)
Definition field_reader (o : outcome (bool * stream)) tag s : Prop := exists b s', o = Ok (b, s') /\
  (b = true -> exists bytes more, avail s = bytes ++ more /\ skippable (recursion_budget_ s) tag bytes /\ moved (length bytes) s s') /\
  (forall bytes more, avail s = bytes ++ more -> skippable (recursion_budget_ s) tag bytes -> b = true /\ moved (length bytes) s s').

Lemma skip_nothing tag s : (forall bytes, ~ skippable (recursion_budget_ s) tag bytes) -> field_reader (Ok (false, s)) tag s.
Proof using Type. intros Hno. exists false, s. split; [done|]. split; [done|]. intros bytes more _ Hs. by destruct (Hno bytes). Qed.

Lemma discard_varint64 tag s : good s ->
  (forall bytes, skippable (recursion_budget_ s) tag bytes <-> exists v, whole u64 bytes v) ->
  field_reader (discard (ReadVarint64 s)) tag s.
Proof using Type.
  intros Hg Hs. destruct (ReadVarint64_spec s Hg) as [s' Hs']. unfold discard.
  destruct (a_varint u64 (avail s)) as [[v n]|] eqn:E.
  - destruct Hs' as (-> & Hn & Hm). exists true, s'. split; [done|]. split.
    + intros _. exists (take n (avail s)), (drop n (avail s)). split; [by rewrite take_drop|].
      rewrite Hs, length_take_le by done. split; [|done]. exists v. eapply whole_take; [by apply avail_bytes|done].
    + intros bytes more Ea [u Hw]%Hs. split; [done|]. rewrite Ea, (whole_app _ _ _ more Hw) in E. by injection E as _ <-.
  - destruct Hs' as [-> _]. exists false, s'. split; [done|]. split; [done|]. intros bytes more Ea [u Hw]%Hs.
    by rewrite Ea, (whole_app _ _ _ more Hw) in E.
Qed.

Lemma discard_fixed n tag s : good s -> 0 <= n < 2 ^ 31 ->
  (forall bytes, skippable (recursion_budget_ s) tag bytes <-> length bytes = Z.to_nat n) ->
  field_reader (discard (ReadLittleEndian n s)) tag s.
Proof using Type.
  intros Hg Hn Hs. destruct (ReadLittleEndian_spec n s Hg Hn) as (s' & E & Hm). unfold discard. rewrite E. cbn [mbind outcome_bind].
  destruct (Z.leb_spec n (Z.of_nat (length (avail s)))) as [Hle|Hgt].
  - rewrite length_take_le in Hm by lia. exists true, s'. split; [done|]. split.
    + intros _. exists (take (Z.to_nat n) (avail s)), (drop (Z.to_nat n) (avail s)). split; [by rewrite take_drop|].
      rewrite Hs, length_take_le by lia. done.
    + intros bytes more Ea ->%Hs. done.
  - exists false, s'. split; [done|]. split; [done|]. intros bytes more Ea Hl%Hs. rewrite Ea, length_app in Hgt. lia.
Qed.

Lemma skip_delimited tag s : good s ->
  (forall bytes, skippable (recursion_budget_ s) tag bytes <-> exists size body, bytes = size ++ body /\
    whole u32 size (Z.of_nat (length body)) /\ Z.of_nat (length body) <= INT_MAX) ->
  field_reader ('(length, s) ← CodedStream.ReadVarint32 s;
    match length with
    | Some length => CodedStream.Skip (i32 length) s
    | None => Ok (false, s)
    end) tag s.
Proof using LawfulInput0.
  intros Hg Hinv. destruct (ReadVarint32_spec s Hg) as [s1 Hs1].
  destruct (a_varint u32 (avail s)) as [[v n]|] eqn:E.
  2:{ destruct Hs1 as [-> _]. exists false, s1. split; [done|]. split; [done|]. intros bytes more Ea Hs.
      destruct (proj1 (Hinv bytes) Hs) as (size & body & -> & Hw & _). rewrite <- app_assoc in Ea.
      by rewrite Ea, (whole_app _ _ _ _ Hw) in E. }
  destruct Hs1 as (-> & Hn & Hm). cbn [mbind outcome_bind].
  assert (0 <= v < 2 ^ 32) as Hv.
  { unfold a_varint in E. destruct (varint 10 (avail s)) as [[]|]; [|done]. injection E as <- _. apply u32_range. }
  assert (forall bytes more, avail s = bytes ++ more -> skippable (recursion_budget_ s) tag bytes ->
    exists size body, bytes = size ++ body /\ length size = n /\ Z.of_nat (length body) = v /\ v <= INT_MAX /\ avail s1 = body ++ more) as Hinv'.
  { intros bytes more Ea Hs. destruct (proj1 (Hinv bytes) Hs) as (size & body & -> & Hw & Hl). exists size, body. split; [done|].
    rewrite <- app_assoc in Ea. rewrite Ea, (whole_app _ _ _ _ Hw) in E. injection E as <- <-.
    rewrite (avail_moved _ _ _ Hm), Ea, drop_app_length. done. }
  unfold INT_MAX in *. destruct (Z.leb_spec v (2 ^ 31 - 1)) as [Hle|Hgt].
  - unfold i32. rewrite signed_small by lia. destruct (Skip_spec v s1 (moved_good _ _ _ Hm) ltac:(lia)) as (s2 & -> & Hm2).
    destruct (Z.leb_spec v (Z.of_nat (length (avail s1)))) as [Hl|Hl]; (eexists _, s2; split; [done|]; split).
    + intros _. exists (take n (avail s) ++ take (Z.to_nat v) (avail s1)), (drop (Z.to_nat v) (avail s1)).
      rewrite <- app_assoc, take_drop, (avail_moved _ _ _ Hm), take_drop. split; [done|]. rewrite <- (avail_moved _ _ _ Hm).
      rewrite length_app, !length_take_le by lia. split; [|by eapply moved_trans].
      apply Hinv. eexists _, _. split; [done|]. rewrite length_take_le, Z2Nat.id by lia. split; [|done].
      eapply whole_take; [by apply avail_bytes|done].
    + intros bytes more Ea Hs. destruct (Hinv' bytes more Ea Hs) as (size & body & -> & <- & <- & _). split; [done|].
      rewrite length_app. rewrite Nat2Z.id in Hm2. by eapply moved_trans.
    + done.
    + intros bytes more Ea Hs. destruct (Hinv' bytes more Ea Hs) as (size & body & -> & <- & <- & _ & Eb).
      rewrite Eb, length_app in Hl. lia.
  - assert (i32 v < 0) as Hneg.
    { unfold i32, signed. rewrite Z.mod_small by lia. rewrite (proj2 (Z.ltb_ge _ _)) by lia. lia. }
    unfold CodedStream.Skip. rewrite (proj2 (Z.ltb_lt _ _)) by done. exists false, s1. split; [done|]. split; [done|].
    intros bytes more Ea Hs. destruct (Hinv' bytes more Ea Hs) as (size & body & _ & _ & _ & Hl & _). lia.
Qed.

Lemma set_recursion_good b l s : good s -> good (set_recursion b l s).
Proof using Type. intros [[] ?]. by split; [split|]. Qed.

(** One level further down, and back. *)
Lemma recursion_moved n s s' : good s ->
  moved n (set_recursion (recursion_budget_ s - 1) (recursion_limit_ s) s) s' -> recursion_budget_ s <= recursion_limit_ s ->
  moved n s (DecrementRecursionDepth s').
Proof using Type.
  intros Hg [Hg' Hr Hp Hc Ht Hb Hl Hf] Hle. cbn in Hc, Ht, Hb, Hl. unfold DecrementRecursionDepth.
  rewrite Hb, Hl, (proj2 (Z.ltb_lt _ _)) by lia. split; try done; [by apply set_recursion_good|cbn; lia].
Qed.

Lemma skip_group bound skip tag s : good s -> recursion_budget_ s <= recursion_limit_ s -> (length (avail s) < bound)%nat ->
  message_reader bound skip ->
  (forall bytes, skippable (recursion_budget_ s) tag bytes <-> exists its close, bytes = its ++ close /\
    1 <= recursion_budget_ s /\ items (recursion_budget_ s - 1) its /\
    whole u32 close (MakeTag (GetTagFieldNumber tag) WIRETYPE_END_GROUP)) ->
  field_reader (let '(b, s) := IncrementRecursionDepth s in
    if b : bool then
      '(b, s) ← skip s;
      if b : bool then
        let s := DecrementRecursionDepth s in
        Ok (LastTagWas (MakeTag (GetTagFieldNumber tag) WIRETYPE_END_GROUP) s, s)
      else Ok (false, s)
    else Ok (false, s)) tag s.
Proof using Type.
  intros Hg Hle Hb Hskip Hinv. unfold IncrementRecursionDepth. set (s1 := set_recursion _ _ s).
  change (recursion_budget_ s1) with (recursion_budget_ s - 1). destruct (Z.leb_spec 0 (recursion_budget_ s - 1)) as [H1|H1].
  2:{ exists false, s1. split; [done|]. split; [done|]. intros bytes more _ (its & close & _ & Hbudget & _)%Hinv. lia. }
  destruct (Hskip s1) as (b & s2 & -> & Hsound & Hcomplete & _);
    [by apply set_recursion_good|cbn; lia|done|]. cbn [mbind outcome_bind].
  change (avail s1) with (avail s) in *. change (recursion_budget_ s1) with (recursion_budget_ s - 1) in *.
  assert (forall bytes more, avail s = bytes ++ more -> skippable (recursion_budget_ s) tag bytes ->
    b = true /\ last_tag_ s2 = MakeTag (GetTagFieldNumber tag) WIRETYPE_END_GROUP /\ moved (length bytes) s1 s2) as Hthere.
  { intros bytes more Ea (its & close & -> & _ & Hits & Hclose)%Hinv. apply Hcomplete.
    exists its, close, more. split_and!; try done. apply end_group_tag. }
  assert (last_tag_ (DecrementRecursionDepth s2) = last_tag_ s2) as El by (unfold DecrementRecursionDepth; by case_match).
  destruct b; [|exists false, s2; split; [done|]; split; [done|]; intros bytes more Ea Hs;
    by destruct (Hthere bytes more Ea Hs)].
  eexists _, _. split; [done|]. unfold LastTagWas. rewrite El. split.
  - intros Et%Z.eqb_eq. destruct Hsound as (n & (its & close & more & Ea & -> & Hits & Hclose & _) & Hm);
      [done|by rewrite Et; apply end_group_tag|]. exists (its ++ close), more. split; [done|]. split; [|by apply recursion_moved].
    apply Hinv. exists its, close. rewrite <- Et. split; [done|]. by split; [lia|].
  - intros bytes more Ea Hs. destruct (Hthere bytes more Ea Hs) as (_ & -> & Hm). split; [by apply Z.eqb_refl|].
    by apply recursion_moved.
Qed.

Lemma skip_field_reader bound skip tag s : good s -> recursion_budget_ s <= recursion_limit_ s ->
  (length (avail s) < bound)%nat -> message_reader bound skip -> field_reader (skip_field skip tag s) tag s.
Proof using LawfulInput0.
  intros Hg Hle Hb Hskip. unfold skip_field.
  assert (forall bytes, _) as Hs by exact (skippable_cases (recursion_budget_ s) tag).
  unfold WIRETYPE_VARINT, WIRETYPE_FIXED64, WIRETYPE_LENGTH_DELIMITED, WIRETYPE_START_GROUP, WIRETYPE_FIXED32.
  destruct (Z.eqb_spec (GetTagFieldNumber tag) 0) as [Ef|Ef].
  { apply skip_nothing. intros bytes [Hf _]%Hs. done. }
  assert (forall (P Q : list Z -> Prop), (forall bytes, P bytes <-> GetTagFieldNumber tag <> 0 /\ Q bytes) ->
    forall bytes, P bytes <-> Q bytes) as Hdrop by (intros P Q HPQ bytes; rewrite HPQ; by split; [intros [_ ?]|split]).
  specialize (Hdrop _ _ Hs). clear Hs. cbv beta in Hdrop.
  destruct (Z.eqb_spec (GetTagWireType tag) 0) as [Et|Et0]; [rewrite Et in Hdrop; by apply discard_varint64|].
  destruct (Z.eqb_spec (GetTagWireType tag) 1) as [Et|Et1]; [rewrite Et in Hdrop; by apply discard_fixed|].
  destruct (Z.eqb_spec (GetTagWireType tag) 2) as [Et|Et2]; [rewrite Et in Hdrop; by apply skip_delimited|].
  destruct (Z.eqb_spec (GetTagWireType tag) 3) as [Et|Et3]; [rewrite Et in Hdrop; by eapply skip_group|].
  destruct (Z.eqb_spec (GetTagWireType tag) WIRETYPE_END_GROUP) as [Et|Et4].
  { rewrite Et in Hdrop. apply skip_nothing. intros bytes Hs%Hdrop. done. }
  destruct (Z.eqb_spec (GetTagWireType tag) 5) as [Et|Et5]; [rewrite Et in Hdrop; by apply discard_fixed|].
  apply skip_nothing. intros bytes Hs%Hdrop.
  by destruct (GetTagWireType tag) as [|[[|[]|]|[]|]|].
Qed.

(** The tags behind which [SkipMessage] returns. *)
Lemma stops_reading s tag s1 : good s -> ReadTag s = Ok (tag, s1) -> tag = 0 \/ GetTagWireType tag = WIRETYPE_END_GROUP ->
  read_message (Ok (true, s1)) s.
Proof using Type.
  intros Hg E Htag. destruct (ReadTag_spec s Hg) as [(tag' & s' & E' & Ht & Hend) Hlast]. specialize (Hlast _ _ E).
  rewrite E in E'. injection E' as <- <-. exists true, s1. split; [done|]. rewrite Hlast. split_and!.
  - intros _ He. assert (tag <> 0) as Hne by (by intros ->).
    destruct (a_varint u32 (avail s)) as [[v n]|] eqn:Ev; [|by destruct Ht].
    destruct Ht as (<- & Hn & Hm). exists n. split; [|done]. exists [], (take n (avail s)), (drop n (avail s)).
    cbn [app]. rewrite take_drop, length_take_le by done. split_and!; try done; [constructor|].
    eapply whole_take; [by apply avail_bytes|done].
  - intros t n Hc. destruct (closes_varint _ _ _ _ Hc) as (v & k & Ev). rewrite Ev in Ht.
    destruct Ht as (-> & Hn & Hm). by destruct (closes_end _ _ _ _ _ _ Ev Htag Hc) as [-> ->].
  - intros Hits Hp. destruct (items_varint _ _ Hits) as [Ea|(v & k & Ev)].
    + rewrite Ea in Hp |- *. simpl in Hp. by destruct (Hend Ea ltac:(lia)).
    + rewrite Ev in Ht. destruct Ht as (-> & _). destruct (items_field _ _ _ _ Ev Hits) as (bytes & more & _ & Hs & _).
      apply skippable_tag in Hs as [Hf He]. by destruct Htag as [-> |?].
Qed.

(** A field and a message behind it are a message. *)
Lemma field_then_message s tag n bytes more s2 o : good s -> a_varint u32 (avail s) = Some (tag, n) -> (n <= length (avail s))%nat ->
  GetTagWireType tag <> WIRETYPE_END_GROUP -> drop n (avail s) = bytes ++ more -> skippable (recursion_budget_ s) tag bytes ->
  (forall bytes' more', drop n (avail s) = bytes' ++ more' -> skippable (recursion_budget_ s) tag bytes' ->
    bytes = bytes' /\ more = more') ->
  moved (n + length bytes) s s2 -> read_message o s2 -> read_message o s.
Proof using Type.
  intros Hg Ev Hn Htype Ea Hs Hunique Hm (b & s3 & -> & Hsound & Hcomplete & Hall). exists b, s3. split; [done|].
  assert (whole u32 (take n (avail s)) tag) as Hopen by (eapply whole_take; [by apply avail_bytes|done]).
  assert (avail s = take n (avail s) ++ bytes ++ more) as Esplit by (by rewrite <- Ea, take_drop).
  assert (length (take n (avail s)) = n) as Elen by (by apply length_take_le).
  assert (avail s2 = more) as E2 by (by rewrite (avail_moved _ _ _ Hm), <- drop_drop, Ea, drop_app_length).
  assert (length (avail s) = n + length bytes + length more)%nat as El by (rewrite Esplit, !length_app, Elen; lia).
  rewrite (moved_budget _ _ _ Hm), E2, (moved_position _ _ _ Hm), (moved_total _ _ _ Hm) in *. split_and!.
  - intros Eb He. destruct (Hsound Eb He) as (m & Hc & Hm3). exists (n + (length bytes + m))%nat.
    pose proof (closes_more _ _ _ _ _ _ _ Hopen Hs Hc) as Hc'. rewrite <- Esplit, Elen in Hc'. split; [done|].
    rewrite Nat.add_assoc. by eapply moved_trans.
  - intros t m Hc. destruct (closes_field _ _ _ _ _ _ Ev Htype Hc) as (bytes' & more' & k & Ea' & Hs' & Hc' & ->).
    destruct (Hunique bytes' more' Ea' Hs') as [<- <-]. destruct (Hcomplete t k Hc') as (-> & -> & Hm3).
    split; [done|]. split; [done|]. rewrite Nat.add_assoc. by eapply moved_trans.
  - intros Hits Hp. destruct (items_field _ _ _ _ Ev Hits) as (bytes' & more' & Ea' & Hs' & Hits' & _).
    destruct (Hunique bytes' more' Ea' Hs') as [<- <-]. destruct (Hall Hits') as (-> & Hm3 & Hl); [lia|].
    split; [done|]. split; [|done]. rewrite El. by eapply moved_trans.
Qed.

(** What a reader of messages makes of a field and the rest. *)
Lemma goes_on_reading bound skip s tag n s1 o : good s -> recursion_budget_ s <= recursion_limit_ s ->
  (length (avail s) < S bound)%nat -> message_reader bound skip ->
  a_varint u32 (avail s) = Some (tag, n) -> (n <= length (avail s))%nat -> moved n s s1 ->
  GetTagWireType tag <> WIRETYPE_END_GROUP -> field_reader o tag s1 ->
  read_message ('(b, s) ← o; if b : bool then skip s else Ok (false, s)) s.
Proof using Type.
  intros Hg Hle Hb Hskip Ev Hn Hm Htype (b & s2 & -> & Hsound & Hcomplete). cbn [mbind outcome_bind].
  pose proof (a_varint_pos _ _ _ _ (avail_bytes s Hg) Ev) as Hpos.
  rewrite (moved_budget _ _ _ Hm), (avail_moved _ _ _ Hm) in *. destruct b.
  - destruct (Hsound eq_refl) as (bytes & more & Ea & Hs & Hm2).
    pose proof (moved_trans _ _ _ _ _ Hm Hm2) as Hm'.
    assert (avail s2 = more) as E2 by (by rewrite (avail_moved _ _ _ Hm'), <- drop_drop, Ea, drop_app_length).
    apply (field_then_message s tag n bytes more s2); try done.
    + intros bytes' more' Ea' Hs'. destruct (Hcomplete bytes' more' Ea' Hs') as [_ Hm2'].
      pose proof (avail_moved _ _ _ (moved_trans _ _ _ _ _ Hm Hm2')) as E2'. rewrite <- drop_drop, Ea', drop_app_length, E2 in E2'.
      subst more'. rewrite Ea in Ea'. by apply app_inv_tail in Ea' as ->.
    + apply Hskip; [apply Hm'|by rewrite (moved_budget _ _ _ Hm'), (moved_recursion _ _ _ Hm')|].
      rewrite (avail_moved _ _ _ Hm'), length_drop. lia.
  - exists false, s2. split; [done|]. split_and!; [done|..].
    + intros t m Hc. destruct (closes_field _ _ _ _ _ _ Ev Htype Hc) as (bytes & more & k & Ea & Hs & _).
      by destruct (Hcomplete bytes more Ea Hs).
    + intros Hits _. destruct (items_field _ _ _ _ Ev Hits) as (bytes & more & Ea & Hs & _). by destruct (Hcomplete bytes more Ea Hs).
Qed.

Lemma SkipMessage_reader fuel : message_reader fuel (SkipMessage fuel).
Proof using LawfulInput0.
  induction fuel as [|fuel IH]; intros s Hg Hle Hfuel; [lia|]. cbn [SkipMessage].
  destruct (ReadTag_spec s Hg) as [(tag & s1 & E & Ht & _) _]. rewrite E. cbn [mbind outcome_bind].
  destruct (Z.eqb_spec tag 0) as [Ez|Hne]; [by eapply stops_reading; [..|left]|].
  destruct (Z.eqb_spec (GetTagWireType tag) WIRETYPE_END_GROUP) as [Ee|Hnot]; [by eapply stops_reading; [..|right]|].
  destruct (a_varint u32 (avail s)) as [[v n]|] eqn:Ev; [|by destruct Ht].
  destruct Ht as (<- & Hn & Hm). eapply goes_on_reading; try done. apply skip_field_reader with fuel; [apply Hm| | |done].
  - by rewrite (moved_budget _ _ _ Hm), (moved_recursion _ _ _ Hm).
  - rewrite (avail_moved _ _ _ Hm), length_drop. apply a_varint_pos in Ev; [|by apply avail_bytes]. lia.
Qed.

(** C29. [SkipField] returns, and accepts exactly the well-formed values of a field
    with the tag: it is [true] if and only if the bytes to come begin with one,
    within the levels of groups that are left, and then the stream is behind it. *)
Theorem SkipField_exact fuel tag s : good s -> recursion_budget_ s <= recursion_limit_ s -> (length (avail s) < fuel)%nat ->
  exists b s', SkipField fuel tag s = Ok (b, s') /\
    (b = true <-> exists bytes more, avail s = bytes ++ more /\ skippable (recursion_budget_ s) tag bytes) /\
    (forall bytes more, avail s = bytes ++ more -> skippable (recursion_budget_ s) tag bytes ->
      moved (length bytes) s s' /\ avail s' = more).
Proof using LawfulInput0.
  intros Hg Hle Hf. destruct (skip_field_reader fuel (SkipMessage fuel) tag s Hg Hle Hf (SkipMessage_reader fuel))
    as (b & s' & E & Hsound & Hcomplete). exists b, s'. split; [done|]. split; [split|].
  - intros Eb. destruct (Hsound Eb) as (bytes & more & Ea & Hs & _). by exists bytes, more.
  - intros (bytes & more & Ea & Hs). by destruct (Hcomplete bytes more Ea Hs).
  - intros bytes more Ea Hs. destruct (Hcomplete bytes more Ea Hs) as [_ Hm]. split; [done|].
    by rewrite (avail_moved _ _ _ Hm), Ea, drop_app_length.
Qed.

(** A parser that knows none of the fields passes a written message as a whole,
    up to its end, and finds that it is complete. *)
Theorem SkipMessage_skips_written fuel s : good s -> recursion_budget_ s <= recursion_limit_ s -> (length (avail s) < fuel)%nat ->
  CurrentPosition s + Z.of_nat (length (avail s)) < total_bytes_limit_ s -> written (recursion_budget_ s) (avail s) ->
  exists s', SkipMessage fuel s = Ok (true, s') /\ avail s' = [] /\ ConsumedEntireMessage s' = true.
Proof using LawfulInput0.
  intros Hg Hle Hf Hp Hw. destruct (SkipMessage_reader fuel s Hg Hle Hf) as (b & s' & E & _ & _ & Hall).
  destruct (Hall (written_items _ _ Hw) Hp) as (-> & Hm & Hl). exists s'. split; [done|]. split; [|done].
  rewrite (avail_moved _ _ _ Hm). by apply drop_ge.
Qed.

End Spec.

(** ** A message in blocks of three bytes *)

#[local] Existing Instance ArrayInputStream.array_stream.
#[local] Existing Instance ArrayInputStream.array_reliable.
#[local] Existing Instance ArrayInputStream.array_lawful.

(** A group 3 with the field 1 = -2, and a string. *)
Definition group_bytes : list Z := WriteGroupToArray 3 (WriteScalarToArray TYPE_SINT32 1 (-2)).
Definition a_message : list Z := group_bytes ++ WriteStringToArray 2 [0x4F; 0x43].
Definition stream_of (bytes : list Z) : CodedInputStream ArrayInputStream.ArrayInputStream := flat_CodedInputStream bytes.

Lemma stream_of_good bytes : Forall byte bytes -> Z.of_nat (length bytes) <= INT_MAX ->
  good (stream_of bytes) /\ avail (stream_of bytes) = bytes.
Proof. apply flat_good. Qed.

Lemma a_message_written : written 100 a_message.
Proof.
  apply group_written; [lia|lia| |].
  - rewrite <- (app_nil_r (WriteScalarToArray _ _ _)). by apply scalar_written; [lia|simpl; lia|constructor].
  - rewrite <- (app_nil_r (WriteStringToArray _ _)). by apply string_written; [lia|by vm_compute|constructor].
Qed.

Lemma a_message_bytes : a_message = [0x1B; 0x08; 0x03; 0x1C; 0x12; 0x02; 0x4F; 0x43].
Proof. reflexivity. Qed.

Lemma a_message_good : good (stream_of a_message) /\ avail (stream_of a_message) = a_message.
Proof.
  apply stream_of_good; [|by vm_compute]. rewrite a_message_bytes. repeat (constructor; [unfold byte; lia|]). constructor.
Qed.

Lemma SkipMessage_skips_written_witness :
  exists s', SkipMessage 10 (stream_of a_message) = Ok (true, s') /\ avail s' = [] /\ ConsumedEntireMessage s' = true.
Proof.
  destruct a_message_good as [Hg Ea]. apply (SkipMessage_skips_written 10 (stream_of a_message)); [done|by vm_compute| | |].
  - rewrite Ea. by vm_compute; lia.
  - by rewrite Ea.
  - rewrite Ea. exact a_message_written.
Defined.


(** The group of the message, behind its tag. *)
Lemma SkipField_exact_witness :
  exists b s', SkipField 10 0x1B (stream_of [0x08; 0x03; 0x1C; 0x12]) = Ok (b, s') /\ b = true /\ avail s' = [0x12].
Proof.
  destruct (stream_of_good [0x08; 0x03; 0x1C; 0x12]) as [Hg Ea]; [repeat (constructor; [unfold byte; lia|]); constructor|by vm_compute|].
  destruct (SkipField_exact 10 0x1B (stream_of [0x08; 0x03; 0x1C; 0x12]) Hg ltac:(by vm_compute)) as (b & s' & E & Hb & Hm).
  { rewrite Ea. simpl. lia. }
  assert (skippable (recursion_budget_ (stream_of [0x08; 0x03; 0x1C; 0x12])) 0x1B [0x08; 0x03; 0x1C]) as Hs.
  { apply (skips_group _ _ [0x08; 0x03] [0x1C]); [done|done|by vm_compute| |done].
    apply (one_more_item _ [0x08] 8 [0x03] []); [done| |constructor]. by apply skips_varint with 3. }
  exists b, s'. split; [done|]. split.
  - apply Hb. by exists [0x08; 0x03; 0x1C], [0x12].
  - by apply (Hm [0x08; 0x03; 0x1C] [0x12]).
Defined.

(** Minus one billion, which takes five bytes of a stream in blocks of three. *)
Definition six_bytes : list Z := [0xFF; 0xA7; 0xD6; 0xB9; 0x07; 0x07].
Definition a_scalar : ArrayInputStream.ArrayInputStream := ArrayInputStream.new_ArrayInputStream six_bytes 3.

Lemma a_scalar_bytes : six_bytes = WriteNoTagToArray TYPE_SINT64 (-1000000000) ++ [0x07].
Proof. reflexivity. Qed.

Lemma a_scalar_good : exists s, new_CodedInputStream a_scalar = Ok s /\ good s /\ avail s = six_bytes.
Proof.
  assert (unread a_scalar = six_bytes) as Eu by reflexivity.
  destruct (new_good a_scalar) as (s & E & Hg & Ea & _); rewrite ?Eu in *; [apply ArrayInputStream.new_valid| |by vm_compute|by exists s].
  repeat (constructor; [unfold byte; lia|]). constructor.
Qed.

Lemma scalar_roundtrip_witness : exists s, new_CodedInputStream a_scalar = Ok s /\
  exists s', ReadPrimitive TYPE_SINT64 s = Ok (Some (-1000000000), s') /\ moved 5 s s' /\ avail s' = [0x07].
Proof.
  destruct a_scalar_good as (s & E & Hg & Ea). rewrite a_scalar_bytes in Ea. exists s. split; [done|].
  exact (scalar_roundtrip TYPE_SINT64 (-1000000000) [0x07] s Hg ltac:(simpl; lia) Ea).
Defined.
