(* ===== verification/OutputStream.v ===== *)
(** * Output streams of Protocol Buffers ([deps/protobuf/.../io/zero_copy_stream.h])

    The interface of an output stream that hands out buffers to be filled, its
    contract, and the stream into an array ([zero_copy_stream_impl_lite.cc]), which
    meets the contract.  The buffer handed out last is memory of the stream:
    [store] is a write into it. *)
From S2P Require Import Prelude ZeroCopyStream.
#[local] Open Scope Z_scope.

(** [Next] answers with the size of the buffer.  It may be zero, but not for ever:
    never more than [patience] times in a row. *)
Class ZeroCopyOutputStream (Out : Type) := {
  Next : Out -> outcome (option Z * Out);
  BackUp : Z -> Out -> outcome Out;
  ByteCount : Out -> Z;
  store : Z -> list Z -> Out -> outcome Out;
  patience : nat
}.

(** The bytes [bytes] in [l] from index [i] on. *)
Definition poke (i : nat) (bytes l : list Z) : list Z := take i l ++ bytes ++ drop (i + length bytes) l.

(** What the comments of the interface promise.  [content] are the bytes of the
    stream up to the end of the buffer handed out last, [lent] is the size of that
    buffer, as long as it may be written to or backed up into. *)
Class LawfulOutput (Out : Type) `{ZeroCopyOutputStream Out} := {
  valid_output : Out -> Prop;
  failed : Out -> Prop;
  content : Out -> list Z;
  lent : Out -> Z;
  max_buffer : Out -> Z;
  empties : Out -> nat;
  lent_lawful o : valid_output o -> 0 <= lent o <= Z.of_nat (length (content o)) /\ (empties o <= patience)%nat /\ 0 <= max_buffer o;
  count_lawful o : valid_output o -> ByteCount o = Z.of_nat (length (content o));
  next_lawful o : valid_output o ->
    exists r o', Next o = Ok (r, o') /\ valid_output o' /\ max_buffer o' = max_buffer o /\
      match r with
      | Some size => ~ failed o /\ 0 <= size <= max_buffer o /\ lent o' = size /\
          (0 < size \/ (empties o' < empties o)%nat) /\
          exists bytes, content o' = content o ++ bytes /\ Z.of_nat (length bytes) = size
      | None => failed o' /\ content o' = content o
      end;
  back_up_lawful n o : valid_output o -> 0 < n <= lent o ->
    exists o', BackUp n o = Ok o' /\ valid_output o' /\ max_buffer o' = max_buffer o /\
      content o' = take (length (content o) - Z.to_nat n) (content o);
  store_lawful i bytes o : valid_output o -> 0 <= i -> i + Z.of_nat (length bytes) <= lent o ->
    exists o', store i bytes o = Ok o' /\ valid_output o' /\ max_buffer o' = max_buffer o /\ lent o' = lent o /\
      empties o' = empties o /\ (failed o' <-> failed o) /\
      content o' = poke (Z.to_nat (Z.of_nat (length (content o)) - lent o + i)) bytes (content o)
}.

Lemma poke_length i bytes l : (i + length bytes <= length l)%nat -> length (poke i bytes l) = length l.
Proof. intros Hi. unfold poke. rewrite !length_app, length_take, length_drop. lia. Qed.

(** ** The stream into an array *)

Module ArrayOutputStream.

Record ArrayOutputStream := mkArrayOutputStream {
  data_ : list Z;
  size_ : Z;
  block_size_ : Z;
  position_ : Z;
  last_returned_size_ : Z
}.

Definition new_ArrayOutputStream (data : list Z) (block_size : Z) : ArrayOutputStream :=
  let size := Z.of_nat (length data) in
  mkArrayOutputStream data size (if 0 <? block_size then block_size else size) 0 0.

Definition at_position position last o : ArrayOutputStream :=
  mkArrayOutputStream (data_ o) (size_ o) (block_size_ o) position last.

Definition Next (o : ArrayOutputStream) : outcome (option Z * ArrayOutputStream) :=
  if position_ o <? size_ o then
    let size := Z.min (block_size_ o) (size_ o - position_ o) in
    Ok (Some size, at_position (position_ o + size) size o)
  else Ok (None, at_position (position_ o) 0 o).

Definition BackUp (count : Z) (o : ArrayOutputStream) : outcome ArrayOutputStream :=
  GOOGLE_CHECK (0 <? last_returned_size_ o);;
  GOOGLE_CHECK (count <=? last_returned_size_ o);;
  GOOGLE_CHECK (0 <=? count);;
  Ok (at_position (position_ o - count) 0 o).

Definition ByteCount (o : ArrayOutputStream) : Z := position_ o.

(** A write at [i] bytes behind the pointer that [Next] returned. *)
Definition store (i : Z) (bytes : list Z) (o : ArrayOutputStream) : outcome ArrayOutputStream :=
  if (0 <=? i) && (i + Z.of_nat (length bytes) <=? last_returned_size_ o) then
    Ok (mkArrayOutputStream (poke (Z.to_nat (position_ o - last_returned_size_ o + i)) bytes (data_ o))
          (size_ o) (block_size_ o) (position_ o) (last_returned_size_ o))
  else Undefined.

#[export] Instance array_output : ZeroCopyOutputStream ArrayOutputStream := {
  OutputStream.Next := Next;
  OutputStream.BackUp := BackUp;
  OutputStream.ByteCount := ByteCount;
  OutputStream.store := store;
  patience := 0
}.

(** *** It meets the contract *)

Record valid (o : ArrayOutputStream) : Prop := {
  valid_size : size_ o = Z.of_nat (length (data_ o));
  valid_block : 0 < block_size_ o \/ size_ o = 0;
  valid_position : 0 <= last_returned_size_ o <= position_ o;
  valid_end : position_ o <= size_ o
}.

Definition array_content (o : ArrayOutputStream) : list Z := take (Z.to_nat (position_ o)) (data_ o).

Lemma output_valid data block_size : valid (new_ArrayOutputStream data block_size).
Proof. split; simpl; try lia. destruct (Z.ltb_spec 0 block_size); lia. Qed.

Lemma array_content_length o : valid o -> Z.of_nat (length (array_content o)) = position_ o.
Proof. intros [Hs _ Hp He]. unfold array_content. rewrite length_take. lia. Qed.

Lemma poke_take i bytes n l : (i + length bytes <= n)%nat -> (n <= length l)%nat ->
  take n (poke i bytes l) = poke i bytes (take n l).
Proof.
  intros Hi Hn. unfold poke. rewrite take_take, (Nat.min_l i n) by lia.
  rewrite take_app_ge by (rewrite length_take; lia). rewrite length_take, Nat.min_l by lia.
  f_equal. rewrite take_app_ge by lia. f_equal. rewrite skipn_firstn_comm. f_equal. lia.
Qed.

#[export] Program Instance array_output_lawful : LawfulOutput ArrayOutputStream := {|
  valid_output := valid;
  failed o := size_ o <= position_ o;
  content := array_content;
  lent := last_returned_size_;
  max_buffer := size_;
  empties _ := O
|}.
Next Obligation.
  intros o Hv. rewrite (array_content_length o Hv). destruct Hv as [Hs Hb Hp He]. simpl. lia.
Qed.
Next Obligation. intros o Hv. by rewrite (array_content_length o Hv). Qed.
Next Obligation.
  intros o Hv. pose proof Hv as [Hs Hb Hp He]. simpl. unfold Next. destruct (Z.ltb_spec (position_ o) (size_ o)) as [Hlt|Hge].
  - set (size := Z.min _ _). assert (0 < size <= size_ o - position_ o) as Hsize by lia.
    eexists _, _. split; [done|]. split; [split; simpl; try done; lia|]. split; [done|].
    split; [lia|]. split; [lia|]. split; [done|]. split; [lia|].
    exists (take (Z.to_nat size) (drop (Z.to_nat (position_ o)) (data_ o))). unfold array_content. simpl. split.
    + replace (Z.to_nat (position_ o + size)) with (Z.to_nat (position_ o) + Z.to_nat size)%nat by lia.
      symmetry. apply take_take_drop.
    + rewrite length_take, length_drop. lia.
  - eexists _, _. split; [done|]. split; [split; simpl; try done; lia|]. simpl. by split_and!.
Qed.
Next Obligation.
  intros n o Hv Hn. pose proof Hv as [Hs Hb Hp He]. pose proof (array_content_length o Hv) as Hl. simpl. unfold BackUp.
  rewrite (proj2 (Z.ltb_lt 0 _)), (proj2 (Z.leb_le n _)), (proj2 (Z.leb_le 0 n)) by lia. simpl.
  eexists. split; [done|]. split; [split; simpl; try done; lia|]. split; [done|]. unfold array_content in *. simpl.
  rewrite take_take. f_equal. lia.
Qed.
Next Obligation.
  intros i bytes o Hv Hi Hn. pose proof Hv as [Hs Hb Hp He]. pose proof (array_content_length o Hv) as Hl. simpl. unfold store.
  rewrite (proj2 (Z.leb_le 0 i)), (proj2 (Z.leb_le _ _)) by lia. cbn [andb].
  eexists. split; [done|]. split; [split; simpl; try done; rewrite ?poke_length; lia|]. split_and!; try done.
  rewrite Hl. unfold array_content. simpl. apply poke_take; lia.
Qed.

End ArrayOutputStream.
