(* ===== verification/CodedOutput.v ===== *)
(** * Writing the wire format ([deps/protobuf/.../io/coded_stream])

    [CodedOutputStream]: the underlying stream, the pointer into the buffer it
    handed out last ([None] is a null pointer, [Some i] points [i] bytes behind its
    start), the bytes left there and the counters.  Aliased strings and
    deterministic serialisation of maps are left out. *)
From S2P Require Import Prelude Varint WireFormat OutputStream.
#[local] Open Scope Z_scope.

Record CodedOutputStream (Out : Type) := mkOutput {
  output_ : Out;
  buffer_ : option Z;
  buffer_size_ : Z;
  total_bytes_ : Z;
  had_error_ : bool
}.
Arguments mkOutput {Out}.
Arguments output_ {Out}.
Arguments buffer_ {Out}.
Arguments buffer_size_ {Out}.
Arguments total_bytes_ {Out}.
Arguments had_error_ {Out}.

(** The sum of two [int]s, of which the second is not negative. *)
Definition add_int (a b : Z) : outcome Z := if a + b <=? INT_MAX then Ok (a + b) else Undefined.

(** The calls of a writer that generated code is made of, and their bytes. *)
Inductive write :=
| Raw (bytes : list Z)
| Varint32 (value : Z)
| Varint64 (value : Z)
| Varint32SignExtended (value : Z)
| Tag (value : Z)
| Fixed32 (value : Z)
| Fixed64 (value : Z).

Definition bytes_of_write (w : write) : list Z :=
  match w with
  | Raw bytes => bytes
  | Varint32 value | Tag value => WriteVarint32ToArray value
  | Varint64 value => WriteVarint64ToArray value
  | Varint32SignExtended value => WriteVarint32SignExtendedToArray value
  | Fixed32 value => WriteLittleEndian32ToArray value
  | Fixed64 value => WriteLittleEndian64ToArray value
  end.

Definition bytes_of_writes (ws : list write) : list Z := concat (bytes_of_write <$> ws).

Section Stream.
Context {Out : Type} `{ZeroCopyOutputStream Out}.
Local Abbreviation stream := (CodedOutputStream Out).
Implicit Types s : stream.

Definition Advance (amount : Z) s : stream :=
  mkOutput (output_ s) (match buffer_ s with Some b => Some (b + amount) | None => None end) (buffer_size_ s - amount)
    (total_bytes_ s) (had_error_ s).

Definition HadError s : bool := had_error_ s.
Definition ByteCount s : Z := total_bytes_ s - buffer_size_ s.

(** [memcpy] to a pointer. *)
Definition copy_to (pointer : option Z) (bytes : list Z) s : outcome stream :=
  match bytes with
  | [] => Ok s
  | _ =>
      b ← in_bounds pointer;
      o ← store b bytes (output_ s);
      Ok (mkOutput o (buffer_ s) (buffer_size_ s) (total_bytes_ s) (had_error_ s))
  end.

Definition Refresh s : outcome (bool * stream) :=
  '(r, o) ← Next (output_ s);
  match r with
  | Some size =>
      total ← add_int (total_bytes_ s) size;
      Ok (true, mkOutput o (Some 0) size total (had_error_ s))
  | None => Ok (false, mkOutput o None 0 (total_bytes_ s) true)
  end.

Definition new_CodedOutputStream (o : Out) : outcome stream :=
  '(_, s) ← Refresh (mkOutput o None 0 0 false);
  Ok (mkOutput (output_ s) (buffer_ s) (buffer_size_ s) (total_bytes_ s) false).

Definition Trim s : outcome stream :=
  if 0 <? buffer_size_ s then
    o ← BackUp (buffer_size_ s) (output_ s);
    Ok (mkOutput o None 0 (total_bytes_ s - buffer_size_ s) (had_error_ s))
  else Ok s.

(** [~CodedOutputStream]. *)
Definition destroy s : outcome stream := Trim s.

(** What the loops can need: a turn for every byte, and between two bytes one for
    every empty buffer. *)
Definition turns (n : nat) : nat := S (n * (patience + 2) + patience + 1).

Fixpoint skip_loop (fuel : nat) (count : Z) s : outcome (bool * stream) :=
  match fuel with
  | O => Blocked
  | S fuel =>
      if buffer_size_ s <? count then
        let count := count - buffer_size_ s in
        '(b, s) ← Refresh s;
        if b : bool then skip_loop fuel count s else Ok (false, s)
      else Ok (true, Advance count s)
  end.

Definition Skip (count : Z) s : outcome (bool * stream) :=
  if count <? 0 then Ok (false, s) else skip_loop (turns (Z.to_nat count)) count s.

(** The pointer and the size. *)
Definition GetDirectBufferPointer s : outcome (option (option Z * Z) * stream) :=
  if buffer_size_ s =? 0 then
    '(b, s) ← Refresh s;
    Ok (if b : bool then Some (buffer_ s, buffer_size_ s) else None, s)
  else Ok (Some (buffer_ s, buffer_size_ s), s).

Definition GetDirectBufferForNBytesAndAdvance (size : Z) s : option Z * stream :=
  if buffer_size_ s <? size then (None, s) else (buffer_ s, Advance size s).

Fixpoint write_loop (fuel : nat) (data : list Z) s : outcome stream :=
  match fuel with
  | O => Blocked
  | S fuel =>
      if buffer_size_ s <? Z.of_nat (length data) then
        s ← copy_to (buffer_ s) (take (Z.to_nat (buffer_size_ s)) data) s;
        let data := drop (Z.to_nat (buffer_size_ s)) data in
        '(b, s) ← Refresh s;
        if b : bool then write_loop fuel data s else Ok s
      else
        s ← copy_to (buffer_ s) data s;
        Ok (Advance (Z.of_nat (length data)) s)
  end.

Definition WriteRaw (data : list Z) s : outcome stream := write_loop (turns (length data)) data s.

Definition WriteString (str : list Z) s : outcome stream := WriteRaw str s.

(** Straight into the buffer, if there are [room] bytes left, and over an array of
    its own otherwise. *)
Definition write_fast_or_slow (room : Z) (bytes : list Z) s : outcome stream :=
  if room <=? buffer_size_ s then
    s ← copy_to (buffer_ s) bytes s;
    Ok (Advance (Z.of_nat (length bytes)) s)
  else WriteRaw bytes s.

Definition WriteLittleEndian32 (value : Z) s : outcome stream := write_fast_or_slow 4 (WriteLittleEndian32ToArray value) s.
Definition WriteLittleEndian64 (value : Z) s : outcome stream := write_fast_or_slow 8 (WriteLittleEndian64ToArray value) s.
Definition WriteVarint32 (value : Z) s : outcome stream := write_fast_or_slow 5 (WriteVarint32ToArray value) s.
Definition WriteVarint64 (value : Z) s : outcome stream := write_fast_or_slow 10 (WriteVarint64ToArray value) s.
Definition WriteVarint32SignExtended (value : Z) s : outcome stream := WriteVarint64 (u64 value) s.
Definition WriteTag (value : Z) s : outcome stream := WriteVarint32 value s.

Definition perform (w : write) s : outcome stream :=
  match w with
  | Raw bytes => WriteRaw bytes s
  | Varint32 value => WriteVarint32 value s
  | Varint64 value => WriteVarint64 value s
  | Varint32SignExtended value => WriteVarint32SignExtended value s
  | Tag value => WriteTag value s
  | Fixed32 value => WriteLittleEndian32 value s
  | Fixed64 value => WriteLittleEndian64 value s
  end.

Fixpoint perform_all (ws : list write) s : outcome stream :=
  match ws with
  | [] => Ok s
  | w :: ws => s ← perform w s; perform_all ws s
  end.

End Stream.
