(* ===== verification/CodedOutputSpec.v ===== *)
(** * What a writer puts into its stream

    [sent] are the bytes in the stream up to the pointer of the writer.  Every
    write appends its bytes, whatever the buffers of the stream; when the stream
    fails a beginning of them is there, and nothing is appended any more. *)
From S2P Require Import Prelude Varint WireFormat OutputStream CodedOutput.
#[local] Open Scope Z_scope.

Section Spec.
Context {Out : Type} `{LawfulOutput Out}.
Local Abbreviation stream := (CodedOutputStream Out).
Implicit Types s : stream.

Definition sent s : list Z := take (length (content (output_ s)) - Z.to_nat (buffer_size_ s)) (content (output_ s)).

Record good s : Prop := {
  good_output : valid_output (output_ s);
  good_size : 0 <= buffer_size_ s;
  good_pointer : 0 < buffer_size_ s -> exists b, buffer_ s = Some b /\ 0 <= b /\ b + buffer_size_ s = lent (output_ s);
  good_count : 0 <= ByteCount s;
  good_error : had_error_ s = true -> buffer_size_ s = 0 /\ buffer_ s = None /\ failed (output_ s)
}.

(** The counters stay integers while [n] bytes are written. *)
Definition room (n : nat) s : Prop := ByteCount s + Z.of_nat n + max_buffer (output_ s) <= INT_MAX.

(** What a write of [bytes] does. *)
Record wrote (bytes : list Z) s s' : Prop := {
  wrote_good : good s';
  wrote_max : max_buffer (output_ s') = max_buffer (output_ s);
  wrote_count : ByteCount s' <= ByteCount s + Z.of_nat (length bytes);
  wrote_sent :
    if had_error_ s then had_error_ s' = true /\ sent s' = sent s
    else if had_error_ s' then exists k, (k < length bytes)%nat /\ sent s' = sent s ++ take k bytes
    else sent s' = sent s ++ bytes
}.

Lemma wrote_nothing s : good s -> wrote [] s s.
Proof using Type. intros Hg. split; [done|done|simpl; lia|]. destruct (had_error_ s) eqn:E; by rewrite ?E, ?app_nil_r. Qed.

Lemma wrote_trans bytes bytes' s s1 s2 : wrote bytes s s1 -> wrote bytes' s1 s2 -> wrote (bytes ++ bytes') s s2.
Proof using Type.
  intros [G1 M1 C1 S1] [G2 M2 C2 S2]. split; [done|congruence|rewrite length_app; lia|].
  destruct (had_error_ s); [destruct S1 as [E1 S1]; rewrite E1 in S2; destruct S2; split; [done|congruence]|].
  destruct (had_error_ s1).
  - destruct S1 as (k & Hk & S1), S2 as [E2 S2]. rewrite E2. exists k. rewrite length_app. split; [lia|].
    by rewrite S2, S1, take_app_le by lia.
  - destruct (had_error_ s2).
    + destruct S2 as (k & Hk & S2). exists (length bytes + k)%nat. rewrite length_app. split; [lia|]. by rewrite S2, S1, take_app_add, app_assoc.
    + by rewrite S2, S1, app_assoc.
Qed.

Lemma sent_content s : good s -> buffer_size_ s = 0 -> sent s = content (output_ s).
Proof using Type. intros _ E. unfold sent. rewrite E. apply take_ge. lia. Qed.

Lemma buffer_fits s : good s -> buffer_size_ s <= Z.of_nat (length (content (output_ s))).
Proof using Type.
  intros Hg. pose proof (lent_lawful (output_ s) (good_output s Hg)) as (Hl & _). pose proof (good_size s Hg).
  destruct (Z.eq_dec (buffer_size_ s) 0); [lia|]. destruct (good_pointer s Hg ltac:(lia)) as (b & _ & Hb & E). lia.
Qed.

Lemma sent_length s : good s -> Z.of_nat (length (sent s)) = Z.of_nat (length (content (output_ s))) - buffer_size_ s.
Proof using Type. intros Hg. pose proof (buffer_fits s Hg). pose proof (good_size s Hg). unfold sent. rewrite length_take. lia. Qed.

(** ** Writing into the buffer *)

Lemma copy_spec bytes s : good s -> Z.of_nat (length bytes) <= buffer_size_ s ->
  exists o, copy_to (buffer_ s) bytes s = Ok (mkOutput o (buffer_ s) (buffer_size_ s) (total_bytes_ s) (had_error_ s)) /\
    valid_output o /\ max_buffer o = max_buffer (output_ s) /\ lent o = lent (output_ s) /\ (failed o <-> failed (output_ s)) /\
    empties o = empties (output_ s) /\
    content o = sent s ++ bytes ++ drop (length (sent s) + length bytes) (content (output_ s)).
Proof using Type.
  intros Hg Hb. destruct bytes as [|b bytes].
  { exists (output_ s). split; [by destruct s|]. split_and!; try done; [apply Hg|]. cbn [app length]. unfold sent at 1.
    pose proof (buffer_fits s Hg). pose proof (good_size s Hg).
    rewrite Nat.add_0_r. replace (length (sent s)) with (length (content (output_ s)) - Z.to_nat (buffer_size_ s))%nat; [by rewrite take_drop|].
    unfold sent. rewrite length_take. lia. }
  unfold copy_to. destruct (good_pointer s Hg) as (p & -> & Hp & E); [simpl in Hb; lia|]. cbn [in_bounds mbind outcome_bind].
  destruct (store_lawful p (b :: bytes) (output_ s) (good_output s Hg) Hp ltac:(lia)) as (o & -> & Hv & Hm & Hl & He & Hf & Hc).
  cbn [mbind outcome_bind]. exists o. split; [done|]. split_and!; try done.
  pose proof (sent_length s Hg). replace (Z.to_nat _) with (length (sent s)) in Hc by lia. rewrite Hc. unfold poke. f_equal.
  unfold sent at 2. rewrite <- (Nat2Z.id (length (sent s))), (sent_length s Hg). f_equal. lia.
Qed.

(** Bytes that fit the buffer. *)
Lemma put_spec bytes s : good s -> Z.of_nat (length bytes) <= buffer_size_ s ->
  exists s', ('(s) ← copy_to (buffer_ s) bytes s; Ok (Advance (Z.of_nat (length bytes)) s)) = Ok s' /\ wrote bytes s s'.
Proof using Type.
  intros Hg Hb. destruct (copy_spec bytes s Hg Hb) as (o & -> & Hv & Hm & Hl & Hf & He & Hc). cbn [mbind outcome_bind].
  eexists. split; [done|]. pose proof (sent_length s Hg) as Hsl. pose proof (buffer_fits s Hg).
  assert (length (content o) = length (content (output_ s))) as Hlen.
  { rewrite Hc, !length_app, length_drop. lia. }
  assert (sent (Advance (Z.of_nat (length bytes)) (mkOutput o (buffer_ s) (buffer_size_ s) (total_bytes_ s) (had_error_ s))) = sent s ++ bytes) as Es.
  { unfold sent at 1. cbn. rewrite Hlen, Hc. rewrite app_assoc. rewrite take_app_le by (rewrite length_app; lia).
    apply take_ge. rewrite length_app. lia. }
  split; [split|..]; unfold ByteCount in *; cbn.
  - done.
  - lia.
  - intros Hpos. destruct (good_pointer s Hg) as (p & -> & Hp & E); [lia|]. exists (p + Z.of_nat (length bytes)).
    split; [done|]. rewrite Hl. lia.
  - pose proof (good_count s Hg) as Hcount. unfold ByteCount in Hcount. lia.
  - intros He'. destruct (good_error s Hg He') as (Hz & -> & Hfail). rewrite Hz in Hb. split; [lia|]. by rewrite Hf.
  - done.
  - lia.
  - change (sent _) with (sent (Advance (Z.of_nat (length bytes)) (mkOutput o (buffer_ s) (buffer_size_ s) (total_bytes_ s) (had_error_ s)))) at 1.
    rewrite Es. destruct (had_error_ s) eqn:E; [|done]. split; [done|].
    destruct (good_error s Hg E) as [Hz _]. rewrite Hz in Hb. destruct bytes; [by rewrite app_nil_r|simpl in Hb; lia].
Qed.

(** ** The next buffer *)

(** A new buffer, or the first failure; [s] has filled its own. *)
Lemma fresh_buffer_spec s : good s -> buffer_size_ s = 0 -> total_bytes_ s + max_buffer (output_ s) <= INT_MAX ->
  exists b s', Refresh s = Ok (b, s') /\ good s' /\ max_buffer (output_ s') = max_buffer (output_ s) /\
    sent s' = sent s /\ ByteCount s' = ByteCount s /\
    (if b : bool then had_error_ s = false /\ had_error_ s' = false /\
       (0 < buffer_size_ s' \/ (empties (output_ s') < empties (output_ s))%nat) /\ total_bytes_ s' <= total_bytes_ s + max_buffer (output_ s)
     else had_error_ s' = true).
Proof using Type.
  intros Hg Hz Hroom. unfold Refresh. rewrite (sent_content s Hg Hz).
  destruct (next_lawful (output_ s) (good_output s Hg)) as (r & o & -> & Hv & Hm & Hr). cbn [mbind outcome_bind].
  pose proof (good_count s Hg) as Hcount. unfold ByteCount in *. destruct r as [size|].
  - destruct Hr as (Hnf & Hsize & Hlent & Hempty & bytes & Hc & Hlen). unfold add_int.
    rewrite (proj2 (Z.leb_le _ _)) by lia. cbn [mbind outcome_bind]. eexists _, _. split; [done|].
    assert (had_error_ s = false) as He.
    { destruct (had_error_ s) eqn:E; [|done]. by destruct (good_error s Hg E) as (_ & _ & ?). }
    split; [split; cbn; unfold ByteCount; cbn; try done; try lia|].
    + intros _. exists 0. split; [done|lia].
    + by rewrite He.
    + split; [done|]. split; [|cbn; split; [lia|]; split_and!; try done; lia].
      unfold sent. cbn. rewrite Hc, length_app. replace (_ - _)%nat with (length (content (output_ s))) by lia. by rewrite take_app_length.
  - destruct Hr as [Hf Hc]. eexists _, _. split; [done|]. split; [split; cbn; unfold ByteCount; cbn; try done; try lia|].
    split; [done|]. split; [|cbn; split; [lia|done]]. unfold sent. cbn. rewrite Hc. apply take_ge. lia.
Qed.

(** Filling the buffer. *)
Definition full s : stream := mkOutput (output_ s) (buffer_ s) 0 (total_bytes_ s) (had_error_ s).

Lemma Refresh_full s : Refresh s = Refresh (full s).
Proof using Type. done. Qed.

(** The measure of the writing loop. *)
Definition todo (n : nat) s : nat :=
  (n * (patience + 2) + if (buffer_size_ s =? 0)%Z then S (empties (output_ s)) else 0)%nat.

Lemma todo_decreases (data : list Z) s s2 : good s -> valid_output (output_ s2) -> buffer_size_ s < Z.of_nat (length data) ->
  0 < buffer_size_ s2 \/ (empties (output_ s2) < empties (output_ s))%nat ->
  (todo (length (drop (Z.to_nat (buffer_size_ s)) data)) s2 < todo (length data) s)%nat.
Proof using Type.
  intros Hg Hv2 Hlt Hempty. unfold todo. rewrite length_drop. pose proof (good_size s Hg).
  pose proof (lent_lawful (output_ s2) Hv2) as (_ & He2 & _). destruct (Z.eqb_spec (buffer_size_ s) 0) as [Ez|Ez].
  - rewrite Ez. replace (length data - Z.to_nat 0)%nat with (length data) by lia. destruct (Z.eqb_spec (buffer_size_ s2) 0); lia.
  - assert (length data - Z.to_nat (buffer_size_ s) + 1 <= length data)%nat as Hle by lia.
    apply (Nat.mul_le_mono_r _ _ (patience + 2)) in Hle. destruct (Z.eqb_spec (buffer_size_ s2) 0); lia.
Qed.

Lemma write_loop_spec fuel data s : good s -> room (length data) s -> (todo (length data) s < fuel)%nat ->
  exists s', write_loop fuel data s = Ok s' /\ wrote data s s'.
Proof using Type.
  revert data s. induction fuel as [|fuel IH]; intros data s Hg Hroom Hfuel; [lia|]. cbn [write_loop].
  destruct (Z.ltb_spec (buffer_size_ s) (Z.of_nat (length data))) as [Hlt|Hge]; [|by apply put_spec; [|lia]].
  pose proof (good_size s Hg) as Hpos. set (n := Z.to_nat (buffer_size_ s)).
  assert (length (take n data) = n) as Hn by (rewrite length_take; lia).
  destruct (put_spec (take n data) s Hg ltac:(lia)) as (s1 & E1 & Hw).
  destruct (copy_spec (take n data) s Hg ltac:(lia)) as (o & Ec & _). rewrite Ec in E1 |- *. cbn [mbind outcome_bind] in E1 |- *.
  injection E1 as E1. rewrite Hn in E1.
  assert (buffer_size_ s1 = 0) as Hz1 by (rewrite <- E1; cbn; lia).
  assert (Refresh (mkOutput o (buffer_ s) (buffer_size_ s) (total_bytes_ s) (had_error_ s)) = Refresh s1) as -> by (rewrite <- E1; done).
  assert (total_bytes_ s1 = ByteCount s + buffer_size_ s) as Et by (rewrite <- E1; unfold ByteCount; cbn; lia).
  assert (empties (output_ s1) = empties (output_ s)) as Ee.
  { destruct (copy_spec (take n data) s Hg ltac:(lia)) as (o' & Ec' & _ & _ & _ & _ & He & _). rewrite Ec in Ec'. injection Ec' as <-.
    by rewrite <- E1. }
  pose proof (wrote_max _ _ _ Hw) as Hmax. unfold room in *.
  destruct (fresh_buffer_spec s1 (wrote_good _ _ _ Hw) Hz1) as (b & s2 & -> & Hg2 & Hm2 & Hs2 & Hc2 & Hb); [lia|].
  cbn [mbind outcome_bind].
  assert (had_error_ s1 = had_error_ s) as He by (by rewrite <- E1). pose proof (wrote_count _ _ _ Hw) as Hcount.
  rewrite Hn in Hcount. pose proof (wrote_sent _ _ _ Hw) as Hsent. rewrite He in Hsent. destruct b.
  - destruct Hb as (He1 & He2 & Hempty & _). rewrite He in He1. rewrite He1 in Hsent.
    assert (wrote (take n data) s s2) as Hw2.
    { split; [done|congruence|lia|]. by rewrite He1, He2, Hs2. }
    cbn [buffer_size_]. fold n. destruct (IH (drop n data) s2 Hg2) as (s' & -> & Hw').
    + unfold room. rewrite length_drop. lia.
    + eapply Nat.lt_le_trans; [|apply Nat.lt_succ_r, Hfuel]. apply (todo_decreases data s s2); [done|apply Hg2|lia|]. rewrite <- Ee. done.
    + exists s'. split; [done|]. rewrite <- (take_drop n data) at 1. by eapply wrote_trans.
  - exists s2. split; [done|]. split; [done|congruence|lia|]. rewrite Hb, Hs2. destruct (had_error_ s); [by destruct Hsent|].
    exists n. split; [lia|done].
Qed.

Lemma WriteRaw_spec data s : good s -> room (length data) s -> exists s', WriteRaw data s = Ok s' /\ wrote data s s'.
Proof using Type.
  intros Hg Hroom. apply write_loop_spec; [done|done|]. unfold todo, turns.
  pose proof (lent_lawful (output_ s) (good_output s Hg)) as (_ & He & _). destruct (_ =? _)%Z; lia.
Qed.

Lemma write_fast_or_slow_spec n bytes s : good s -> room (length bytes) s -> Z.of_nat (length bytes) <= n ->
  exists s', write_fast_or_slow n bytes s = Ok s' /\ wrote bytes s s'.
Proof using Type.
  intros Hg Hroom Hn. unfold write_fast_or_slow. destruct (Z.leb_spec n (buffer_size_ s)); [|by apply WriteRaw_spec].
  apply put_spec; [done|lia].
Qed.

(** ** Sequences of writes *)

Lemma written_spec w s : good s -> room (length (bytes_of_write w)) s ->
  exists s', perform w s = Ok s' /\ wrote (bytes_of_write w) s s'.
Proof using Type.
  intros Hg Hroom. destruct w; cbn [perform bytes_of_write] in *; [by apply WriteRaw_spec|..]; apply write_fast_or_slow_spec; try done.
  - pose proof (write_varint_length 5 value). unfold WriteVarint32ToArray, kMaxVarint32Bytes. lia.
  - pose proof (write_varint_length 10 value). unfold WriteVarint32SignExtendedToArray, WriteVarint64ToArray, kMaxVarintBytes. lia.
  - pose proof (write_varint_length 10 (u64 value)). unfold WriteVarint32SignExtendedToArray, WriteVarint64ToArray, kMaxVarintBytes. lia.
  - pose proof (write_varint_length 5 value). unfold WriteVarint32ToArray, kMaxVarint32Bytes. lia.
Qed.

Lemma all_written_spec ws s : good s -> room (length (bytes_of_writes ws)) s ->
  exists s', perform_all ws s = Ok s' /\ wrote (bytes_of_writes ws) s s'.
Proof using Type.
  revert s. induction ws as [|w ws IH]; intros s Hg Hroom; cbn [perform_all].
  { exists s. split; [done|by apply wrote_nothing]. }
  change (bytes_of_writes (w :: ws)) with (bytes_of_write w ++ bytes_of_writes ws) in *.
  unfold room in *. rewrite length_app in Hroom. destruct (written_spec w s Hg) as (s1 & -> & Hw); [unfold room; lia|].
  cbn [mbind outcome_bind]. destruct (IH s1 (wrote_good _ _ _ Hw)) as (s2 & -> & Hw2).
  - rewrite (wrote_max _ _ _ Hw). pose proof (wrote_count _ _ _ Hw). lia.
  - exists s2. split; [done|by eapply wrote_trans].
Qed.

(** ** The life of a writer *)

Lemma new_spec o : valid_output o -> max_buffer o <= INT_MAX ->
  exists s, new_CodedOutputStream o = Ok s /\ good s /\ sent s = content o /\ ByteCount s = 0 /\
    had_error_ s = false /\ max_buffer (output_ s) = max_buffer o.
Proof using Type.
  intros Hv Hm. unfold new_CodedOutputStream. set (s0 := mkOutput o None 0 0 false).
  assert (good s0) as Hg0 by (by split).
  destruct (fresh_buffer_spec s0 Hg0 eq_refl ltac:(done)) as (b & s & -> & Hg & Hmax & Hs & Hc & Hb). cbn [mbind outcome_bind].
  rewrite (sent_content s0 Hg0 eq_refl) in Hs.
  eexists. split; [done|]. split; [|done]. split; cbn; try apply Hg. done.
Qed.

Lemma output_destroy_spec s : good s ->
  exists s', destroy s = Ok s' /\ valid_output (output_ s') /\ max_buffer (output_ s') = max_buffer (output_ s) /\
    content (output_ s') = sent s /\ (had_error_ s = true -> failed (output_ s')).
Proof using Type.
  intros Hg. unfold destroy, Trim. pose proof (good_size s Hg). destruct (Z.ltb_spec 0 (buffer_size_ s)) as [Hpos|Hz].
  - destruct (good_pointer s Hg Hpos) as (b & _ & Hb & E).
    destruct (back_up_lawful (buffer_size_ s) (output_ s) (good_output s Hg) ltac:(lia)) as (o & -> & Hv & Hm & Hc).
    cbn [mbind outcome_bind]. eexists. split; [done|]. split_and!; try done. intros He. destruct (good_error s Hg He). lia.
  - exists s. split; [done|]. split; [apply Hg|]. split; [done|]. split; [symmetry; apply sent_content; [done|lia]|].
    intros He. by destruct (good_error s Hg He) as (_ & _ & ?).
Qed.

(** C26. A writer over a stream of any buffers performs every sequence of writes, and
    when it is destroyed the stream holds the bytes of the writes behind what it
    held before; or the stream failed, the writer says so, and a beginning of the
    bytes is there. *)
Theorem writes_arrive o ws :
  valid_output o -> Z.of_nat (length (bytes_of_writes ws)) + max_buffer o <= INT_MAX ->
  exists s s1 s2, new_CodedOutputStream o = Ok s /\ perform_all ws s = Ok s1 /\ destroy s1 = Ok s2 /\
    valid_output (output_ s2) /\
    if HadError s1 then failed (output_ s2) /\ exists k, (k < length (bytes_of_writes ws))%nat /\ content (output_ s2) = content o ++ take k (bytes_of_writes ws)
    else content (output_ s2) = content o ++ (bytes_of_writes ws).
Proof using Type.
  intros Hv Hroom. destruct (new_spec o Hv ltac:(lia)) as (s & E & Hg & Hs & Hc & He & Hm).
  destruct (all_written_spec ws s Hg) as (s1 & E1 & Hw); [unfold room; lia|].
  destruct (output_destroy_spec s1 (wrote_good _ _ _ Hw)) as (s2 & E2 & Hv2 & _ & Hc2 & Hf2). exists s, s1, s2.
  split_and!; try done. pose proof (wrote_sent _ _ _ Hw) as Hsent. rewrite He in Hsent. unfold HadError.
  rewrite Hc2, <- Hs. destruct (had_error_ s1); [by split; [apply Hf2|]|done].
Qed.

End Spec.

(** ** Into an array of ten bytes, four at a time *)

#[local] Existing Instance ArrayOutputStream.array_output.
#[local] Existing Instance ArrayOutputStream.array_output_lawful.

Definition ten_bytes : ArrayOutputStream.ArrayOutputStream := ArrayOutputStream.new_ArrayOutputStream (replicate 10 0) 4.
Definition three_writes : list write := [Varint32 300; Raw [0x4F; 0x43; 0x61]; Fixed32 42].

Lemma writes_arrive_witness : exists s s1 s2, new_CodedOutputStream ten_bytes = Ok s /\ perform_all three_writes s = Ok s1 /\
  destroy s1 = Ok s2 /\ valid_output (output_ s2) /\
  if HadError s1 then failed (output_ s2) /\ exists k, (k < 9)%nat /\ content (output_ s2) = take k [0xAC; 0x02; 0x4F; 0x43; 0x61; 0x2A; 0; 0; 0]
  else content (output_ s2) = [0xAC; 0x02; 0x4F; 0x43; 0x61; 0x2A; 0; 0; 0].
Proof. exact (writes_arrive ten_bytes three_writes (ArrayOutputStream.output_valid _ _) ltac:(by vm_compute)). Defined.
