(* ===== verification/Delimited.v ===== *)
(** * Delimited messages ([deps/protobuf/.../util/delimited_message_util.cc])

    A message behind its length.  What generated code does for a type of messages
    is the class [Serializable], for reading [Parsable]: the calls it makes of the
    streams are [SerializeWithCachedSizes], and [MergeFromCodedStream] gives the
    message that was read, or none on failure. *)
From S2P Require Import Prelude Varint ZeroCopyStream CodedStream WireFormat OutputStream CodedOutput.
#[local] Open Scope Z_scope.

Class Serializable (M : Type) := {
  ByteSize : M -> Z;
  SerializeWithCachedSizesToArray : M -> list Z;
  SerializeWithCachedSizes : M -> list write
}.

Class Parsable (M I : Type) := {
  MergeFromCodedStream : CodedInputStream I -> outcome (option M * CodedInputStream I)
}.

Section Writing.
Context {M Out : Type} `{Serializable M} `{ZeroCopyOutputStream Out}.

Definition SerializeDelimitedToCodedStream (message : M) (output : CodedOutputStream Out) : outcome (bool * CodedOutputStream Out) :=
  let size := ByteSize message in
  output ← WriteVarint32 (u32 size) output;
  let '(buffer, output) := GetDirectBufferForNBytesAndAdvance size output in
  match buffer with
  | Some _ => output ← copy_to buffer (SerializeWithCachedSizesToArray message) output; Ok (true, output)
  | None => output ← perform_all (SerializeWithCachedSizes message) output; Ok (negb (HadError output), output)
  end.

(** The writer is destroyed when the call returns. *)
Definition SerializeDelimitedToZeroCopyStream (message : M) (output : Out) : outcome (bool * Out) :=
  coded_output ← new_CodedOutputStream output;
  '(b, coded_output) ← SerializeDelimitedToCodedStream message coded_output;
  coded_output ← CodedOutput.destroy coded_output;
  Ok (b, output_ coded_output).

End Writing.

Section Reading.
Context {M I : Type} `{ZeroCopyInputStream I} `{Parsable M I}.

(** The message, [clean_eof], and the stream. *)
Definition ParseDelimitedFromCodedStream (input : CodedInputStream I) : outcome (option M * bool * CodedInputStream I) :=
  let start := CurrentPosition input in
  '(size, input) ← CodedStream.ReadVarint32 input;
  match size with
  | None => Ok (None, CurrentPosition input =? start, input)
  | Some size =>
      let '(limit, input) := PushLimit (i32 size) input in
      '(message, input) ← MergeFromCodedStream input;
      match message with
      | None => Ok (None, false, input)
      | Some message =>
          if ConsumedEntireMessage input then Ok (Some message, false, PopLimit limit input)
          else Ok (None, false, input)
      end
  end.

Definition ParseDelimitedFromZeroCopyStream (input : I) : outcome (option M * bool * I) :=
  coded_input ← new_CodedInputStream input;
  '(message, clean_eof, coded_input) ← ParseDelimitedFromCodedStream coded_input;
  coded_input ← CodedStream.destroy coded_input;
  input ← the_input coded_input;
  Ok (message, clean_eof, input).

End Reading.
