(* ===== verification/DelimitedSpec.v ===== *)
(** * Delimited messages survive their journey *)
From S2P Require Import Prelude Varint ZeroCopyStream CodedStream CodedStreamSpec WireFormat WireFormatSpec.
From S2P Require Import OutputStream CodedOutput CodedOutputSpec Delimited.
#[local] Open Scope Z_scope.

(** What generated code for messages promises: the size is the number of the
    bytes, and both ways of writing write the same bytes. *)
Class LawfulMessage (M : Type) `{Serializable M} := {
  size_lawful (m : M) : ByteSize m = Z.of_nat (length (SerializeWithCachedSizesToArray m));
  writes_lawful (m : M) : bytes_of_writes (SerializeWithCachedSizes m) = SerializeWithCachedSizesToArray m;
  bytes_lawful (m : M) : Forall byte (SerializeWithCachedSizesToArray m)
}.

Definition delimited {M} `{Serializable M} (m : M) : list Z :=
  WriteVarint32ToArray (u32 (ByteSize m)) ++ SerializeWithCachedSizesToArray m.

(** A parser finds the message whose bytes are all there is up to a limit, if its
    levels are within the budget. *)
Class LawfulParser (M I : Type) `{Serializable M, ReliableStream I, Parsable M I} := {
  depth : M -> Z;
  merge_lawful (m : M) (s : CodedInputStream I) :
    CodedStreamSpec.good s -> avail s = SerializeWithCachedSizesToArray m -> depth m <= recursion_budget_ s ->
    CurrentPosition s + Z.of_nat (length (avail s)) < total_bytes_limit_ s ->
    exists s', MergeFromCodedStream s = Ok (Some m, s') /\ moved (length (avail s)) s s' /\ ConsumedEntireMessage s' = true
}.

Section Writing.
Context {M Out : Type} `{LawfulMessage M} `{LawfulOutput Out}.
Implicit Types s : CodedOutputStream Out.

Lemma copy_after_Advance n pointer bytes s :
  copy_to pointer bytes (Advance n s) = ('(s) ← copy_to pointer bytes s; Ok (Advance n s)).
Proof using Type.
  destruct bytes; [done|]. unfold copy_to. destruct pointer; [|done]. cbn [in_bounds mbind outcome_bind]. cbn [Advance output_].
  by destruct (store _ _ _).
Qed.

Lemma Advance_null s (bytes : list Z) : CodedOutputSpec.good s -> buffer_ s = None -> Z.of_nat (length bytes) <= buffer_size_ s ->
  Advance (Z.of_nat (length bytes)) s = s.
Proof using Type.
  intros Hg Eb Hl. destruct (Z.lt_ge_cases 0 (buffer_size_ s)) as [Hpos|Hz].
  - destruct (good_pointer s Hg Hpos) as (b & E & _). by rewrite Eb in E.
  - unfold Advance. rewrite Eb. destruct s as [o b n t e]. cbn in *. subst b. f_equal. lia.
Qed.

(** The bytes of a message, directly or by the writes of generated code. *)
Lemma serialize_spec m s : CodedOutputSpec.good s -> room (length (delimited m)) s ->
  exists s', SerializeDelimitedToCodedStream m s = Ok (negb (HadError s'), s') /\ wrote (delimited m) s s'.
Proof using All.
  intros Hg Hroom. unfold SerializeDelimitedToCodedStream, delimited in *. rewrite length_app in Hroom. unfold room in *.
  destruct (write_fast_or_slow_spec 5 (WriteVarint32ToArray (u32 (ByteSize m))) s Hg) as (s1 & E & Hw).
  { unfold room. lia. }
  { pose proof (write_varint_length 5 (u32 (ByteSize m))). unfold WriteVarint32ToArray, kMaxVarint32Bytes. lia. }
  unfold WriteVarint32. rewrite E. cbn [mbind outcome_bind]. pose proof (wrote_good _ _ _ Hw) as Hg1.
  unfold GetDirectBufferForNBytesAndAdvance. rewrite size_lawful in *. set (bytes := SerializeWithCachedSizesToArray m) in *.
  assert (exists s', perform_all (SerializeWithCachedSizes m) s1 = Ok s' /\ wrote bytes s1 s') as (s2 & E2 & Hw2).
  { unfold bytes in *. rewrite <- (writes_lawful m) in *. apply all_written_spec; [done|]. unfold room. rewrite (wrote_max _ _ _ Hw). pose proof (wrote_count _ _ _ Hw). lia. }
  assert (exists s', ('(output) ← perform_all (SerializeWithCachedSizes m) s1; Ok (negb (HadError output), output)) = Ok (negb (HadError s'), s') /\
    wrote (WriteVarint32ToArray (u32 (Z.of_nat (length bytes))) ++ bytes) s s') as Hslow.
  { rewrite E2. exists s2. split; [done|]. by eapply wrote_trans. }
  destruct (Z.ltb_spec (buffer_size_ s1) (Z.of_nat (length bytes))); [done|].
  destruct (buffer_ s1) as [p|] eqn:Ep; [|by rewrite (Advance_null s1 bytes Hg1 Ep) by lia].
  destruct (put_spec bytes s1 Hg1 ltac:(lia)) as (s' & E' & Hw'). exists s'. rewrite Ep in E'.
  assert (had_error_ s' = false) as He.
  { assert (had_error_ s1 = false) as He1.
    { destruct (had_error_ s1) eqn:Ee; [|done]. destruct (good_error s1 Hg1 Ee) as (_ & Hb & _). by rewrite Ep in Hb. }
    destruct (copy_to (Some p) bytes s1) eqn:Ec; try done. injection E' as <-. cbn.
    destruct bytes; [by injection Ec as <-|]. unfold copy_to in Ec. cbn in Ec.
    destruct (store _ _ _); try done. by injection Ec as <-. }
  split; [|by eapply wrote_trans]. rewrite copy_after_Advance. unfold HadError. rewrite He.
  cbn [negb]. destruct (copy_to (Some p) bytes s1); try done. cbn [mbind outcome_bind] in *. by injection E' as ->.
Qed.

Lemma send_spec m o :
  valid_output o -> Z.of_nat (length (delimited m)) + max_buffer o <= INT_MAX ->
  exists b o', SerializeDelimitedToZeroCopyStream m o = Ok (b, o') /\ valid_output o' /\ max_buffer o' = max_buffer o /\
    if b : bool then content o' = content o ++ delimited m
    else failed o' /\ exists k, (k < length (delimited m))%nat /\ content o' = content o ++ take k (delimited m).
Proof using All.
  intros Hv Hroom. unfold SerializeDelimitedToZeroCopyStream.
  destruct (new_spec o Hv ltac:(lia)) as (s & -> & Hg & Hs & Hc & He & Hm). cbn [mbind outcome_bind].
  destruct (serialize_spec m s Hg) as (s1 & -> & Hw); [unfold room; lia|]. cbn [mbind outcome_bind].
  destruct (CodedOutputSpec.output_destroy_spec s1 (wrote_good _ _ _ Hw)) as (s2 & -> & Hv2 & Hm2 & Hc2 & Hf2). cbn [mbind outcome_bind].
  eexists _, _. split; [done|]. split; [done|]. split; [by rewrite Hm2, (wrote_max _ _ _ Hw)|].
  pose proof (wrote_sent _ _ _ Hw) as Hsent. rewrite He in Hsent.
  rewrite Hc2, <- Hs. unfold HadError. destruct (had_error_ s1); [by split; [apply Hf2|]|done].
Qed.

(** A message goes into a stream behind its length, byte for byte, whatever the
    buffers of the stream are; or the stream failed, the call says so, and only
    a beginning of the bytes is there. *)
Theorem SerializeDelimited_sends m o :
  valid_output o -> Z.of_nat (length (delimited m)) + max_buffer o <= INT_MAX ->
  exists b o', SerializeDelimitedToZeroCopyStream m o = Ok (b, o') /\ valid_output o' /\
    if b : bool then content o' = content o ++ delimited m
    else failed o' /\ exists k, (k < length (delimited m))%nat /\ content o' = content o ++ take k (delimited m).
Proof using All.
  intros Hv Hroom. destruct (send_spec m o Hv Hroom) as (b & o' & E & Hv' & _ & Hc). by exists b, o'.
Qed.

End Writing.

Section Reading.
Context {M I : Type} `{LM : LawfulMessage M} `{LI : ReliableStream I} `{PM : Parsable M I} `{LP : !LawfulParser M I}.
Implicit Types s : CodedInputStream I.

Definition small (m : M) : Prop := Z.of_nat (length (delimited m)) < INT_MAX.

Lemma parse_spec m more s : CodedStreamSpec.good s -> avail s = delimited m ++ more -> small m ->
  depth (I := I) m <= recursion_budget_ s -> CurrentPosition s + Z.of_nat (length (delimited m)) < total_bytes_limit_ s ->
  exists s', ParseDelimitedFromCodedStream s = Ok (Some m, false, s') /\ moved (length (delimited m)) s s'.
Proof using All.
  intros Hg Ea Hsmall Hdepth Hlimit. unfold ParseDelimitedFromCodedStream, small, delimited in *.
  rewrite length_app in Hsmall, Hlimit |- *. rewrite (size_lawful m) in Ea, Hsmall, Hlimit |- *. set (bytes := SerializeWithCachedSizesToArray m) in *. unfold INT_MAX in Hsmall.
  rewrite u32_small in Ea, Hsmall, Hlimit |- * by lia. rewrite <- app_assoc in Ea.
  destruct (reads_varint32 _ _ s Hg Ea ltac:(lia)) as (s1 & -> & _ & Hm1). cbn [mbind outcome_bind].
  unfold i32. rewrite signed_small by lia.
  pose proof (moved_good _ _ _ Hm1) as Hg1.
  destruct (PushLimit_spec (Z.of_nat (length bytes)) s1 Hg1 ltac:(lia)) as (s2 & E2 & Hg2 & _ & Hp2 & _ & Ht2 & Hb2 & _ & _ & Ea2).
  rewrite E2. rewrite Nat2Z.id, (avail_moved _ _ _ Hm1), Ea, drop_app_length, take_app_length in Ea2.
  destruct (merge_lawful m s2 Hg2 Ea2) as (s3 & -> & Hm3 & Hend).
  { by rewrite Hb2, (moved_budget _ _ _ Hm1). }
  { rewrite Hp2, Ht2, Ea2, (moved_position _ _ _ Hm1), (moved_total _ _ _ Hm1). lia. }
  cbn [mbind outcome_bind]. rewrite Hend. eexists. split; [done|].
  eapply moved_trans; [exact Hm1|]. eapply PushPop_spec; [done| |exact E2| |]; [lia| |].
  - by rewrite Ea2 in Hm3.
  - by rewrite Ea2.
Qed.

Lemma parse_stream m more i : valid_input i -> unread i = delimited m ++ more -> Forall byte more -> small m ->
  Z.of_nat (length (unread i)) <= INT_MAX -> depth (I := I) m <= default_recursion_limit_ ->
  exists i', ParseDelimitedFromZeroCopyStream i = Ok (Some m, false, i') /\ valid_input i' /\ unread i' = more.
Proof using All.
  intros Hv Eu Hmore Hsmall Hlen Hdepth. unfold ParseDelimitedFromZeroCopyStream.
  destruct (new_good i Hv) as (s & -> & Hg & Ea & Er & Ep & Ef & Eb & Et); [|done|].
  { rewrite Eu. apply Forall_app. split; [|done]. apply Forall_app. split; [apply write_varint_bytes, u32_range|apply bytes_lawful]. }
  cbn [mbind outcome_bind]. rewrite Eu in Ea.
  destruct (parse_spec m more s Hg Ea Hsmall) as (s1 & -> & Hm); [by rewrite Eb|rewrite Ep|].
  { by rewrite Et. }
  cbn [mbind outcome_bind].
  destruct (CodedStreamSpec.destroy_spec s1 (moved_good _ _ _ Hm)) as (s2 & i' & -> & Ei & Hv' & Eu'); [by rewrite (moved_flat _ _ _ Hm)|].
  cbn [mbind outcome_bind]. unfold the_input. rewrite Ei. exists i'. split; [done|]. split; [done|].
  by rewrite Eu', (moved_rest _ _ _ Hm), Er, Eu, drop_app_length.
Qed.

(** As many messages as the list has elements. *)
Fixpoint parse_all (n : nat) (i : I) : outcome (list M * I) :=
  match n with
  | O => Ok ([], i)
  | S n =>
      '(message, _, i) ← ParseDelimitedFromZeroCopyStream i;
      match message with
      | Some message => '(ms, i) ← parse_all n i; Ok (message :: ms, i)
      | None => Ok ([], i)
      end
  end.

Lemma delimited_bytes ms more : Forall byte more -> Forall byte (concat (delimited <$> ms) ++ more).
Proof using All.
  intros Hmore. apply Forall_app. split; [|done]. induction ms as [|m ms IH]; [constructor|]. simpl.
  apply Forall_app. split; [|done]. apply Forall_app. split; [apply write_varint_bytes, u32_range|apply bytes_lawful].
Qed.

Lemma parse_all_spec ms more i : valid_input i -> unread i = concat (delimited <$> ms) ++ more -> Forall byte more ->
  Z.of_nat (length (unread i)) < INT_MAX -> Forall (fun m => depth (I := I) m <= default_recursion_limit_) ms ->
  exists i', parse_all (length ms) i = Ok (ms, i') /\ valid_input i' /\ unread i' = more.
Proof using All.
  revert i. induction ms as [|m ms IH]; intros i Hv Eu Hmore Hlen Hdepth; [by exists i|].
  apply Forall_cons_1 in Hdepth as [Hm Hms]. cbn [fmap list_fmap concat] in Eu. rewrite <- app_assoc in Eu.
  assert (length (unread i) = length (delimited m) + length (concat (delimited <$> ms) ++ more))%nat as El by (by rewrite Eu, length_app).
  destruct (parse_stream m _ i Hv Eu) as (i1 & E1 & Hv1 & Eu1); [by apply delimited_bytes|unfold small; lia|lia|done|].
  cbn [length parse_all]. rewrite E1. cbn [mbind outcome_bind].
  destruct (IH i1 Hv1 Eu1 Hmore) as (i2 & -> & Hv2 & Eu2); [rewrite Eu1; lia|done|]. by exists i2.
Qed.

End Reading.

(** ** The whole way *)

Section Journey.
Context {M Out I : Type} `{LM : LawfulMessage M} `{LO : LawfulOutput Out} `{LI : ReliableStream I} `{PM : Parsable M I}.
Context `{LP : !LawfulParser M I}.

(** The messages one after the other, up to the first that fails. *)
Fixpoint serialize_all (ms : list M) (o : Out) : outcome (bool * Out) :=
  match ms with
  | [] => Ok (true, o)
  | m :: ms =>
      '(b, o) ← SerializeDelimitedToZeroCopyStream m o;
      if b : bool then serialize_all ms o else Ok (false, o)
  end.

Lemma serialize_all_spec ms o : valid_output o -> Z.of_nat (length (concat (delimited <$> ms))) + max_buffer o <= INT_MAX ->
  exists b o', serialize_all ms o = Ok (b, o') /\ valid_output o' /\ max_buffer o' = max_buffer o /\
    (b = true -> content o' = content o ++ concat (delimited <$> ms)) /\ (b = false -> failed o').
Proof using LM LO.
  revert o. induction ms as [|m ms IH]; intros o Hv Hroom.
  { exists true, o. split_and!; try done. intros _. simpl. by rewrite app_nil_r. }
  cbn [fmap list_fmap concat] in *. rewrite length_app in Hroom.
  destruct (send_spec m o Hv) as (b & o1 & E & Hv1 & Hm1 & Hc1); [lia|]. cbn [serialize_all].
  rewrite E. cbn [mbind outcome_bind]. destruct b; [|exists false, o1; split_and!; try done; by intros _; apply Hc1].
  destruct (IH o1 Hv1) as (b & o2 & -> & Hv2 & Hm2 & Hc2 & Hf2); [lia|]. exists b, o2. split; [done|]. split; [done|].
  split; [by rewrite Hm2|]. split; [|done]. intros Hb. by rewrite (Hc2 Hb), Hc1, app_assoc.
Qed.

(** C27. Messages that were written to a stream, whatever its buffers, are read back
    from any stream that carries its bytes, whatever its chunks: the same
    messages in the same order, and the bytes behind them are left. *)
Theorem delimited_roundtrip ms o i more :
  valid_output o -> Z.of_nat (length (concat (delimited <$> ms))) + max_buffer o <= INT_MAX ->
  Forall (fun m => depth (I := I) m <= default_recursion_limit_) ms ->
  exists b o', serialize_all ms o = Ok (b, o') /\
    (b = true -> valid_input i -> unread i = drop (length (content o)) (content o') ++ more -> Forall byte more ->
     Z.of_nat (length (unread i)) < INT_MAX ->
     exists i', parse_all (length ms) i = Ok (ms, i') /\ unread i' = more).
Proof using All.
  intros Hv Hroom Hdepth. destruct (serialize_all_spec ms o Hv Hroom) as (b & o' & E & _ & _ & Hc & _). exists b, o'. split; [done|].
  intros Hb Hi Eu Hmore Hlen. rewrite (Hc Hb), drop_app_length in Eu.
  destruct (parse_all_spec ms more i Hi Eu Hmore Hlen Hdepth) as (i' & E' & _ & Eu'). by exists i'.
Qed.

End Journey.


(** ** Messages of one field of type [bool] *)

#[local] Existing Instance ArrayInputStream.array_stream.
#[local] Existing Instance ArrayInputStream.array_reliable.
#[local] Existing Instance ArrayInputStream.array_lawful.
#[local] Existing Instance ArrayOutputStream.array_output.
#[local] Existing Instance ArrayOutputStream.array_output_lawful.

#[local] Instance one_bool : Serializable bool := {
  ByteSize _ := 2;
  SerializeWithCachedSizesToArray b := WriteScalarToArray TYPE_BOOL 1 (if b : bool then 1 else 0);
  SerializeWithCachedSizes b := [CodedOutput.Tag 0x08; CodedOutput.Varint32 (if b : bool then 1 else 0)]
}.

#[local] Instance one_bool_lawful : LawfulMessage bool.
Proof.
  split; intros b.
  - by destruct b.
  - by destruct b.
  - assert (SerializeWithCachedSizesToArray b = [0x08; if b : bool then 1 else 0]) as -> by (by destruct b).
    repeat (constructor; [unfold byte; destruct b; lia|]). constructor.
Defined.

#[local] Instance one_bool_parsable {I} `{ZeroCopyInputStream I} : Parsable bool I := {
  MergeFromCodedStream s :=
    '(tag, s) ← ReadTag s;
    if tag =? 0x08 then
      '(v, s) ← ReadPrimitive TYPE_BOOL s;
      match v with
      | Some v => '(tag, s) ← ReadTag s; Ok (if tag =? 0 then Some (v =? 1) else None, s)
      | None => Ok (None, s)
      end
    else Ok (None, s)
}.

#[local] Program Instance one_bool_parser {I} `{ReliableStream I} : LawfulParser bool I := {| depth _ := 0 |}.
Next Obligation.
  intros I ? ? b s Hg Ea _ Hlimit. set (v := if b then 1 else 0). assert (avail s = [0x08; v]) as Ea' by (by rewrite Ea; destruct b).
  rewrite Ea' in Hlimit |- *. cbn [MergeFromCodedStream one_bool_parsable length] in *.
  destruct (ReadTag_spec s Hg) as [(t & s1 & E1 & Ht & _) _]. rewrite Ea' in Ht. cbn in Ht. destruct Ht as (-> & _ & Hm1).
  rewrite E1. cbn [mbind outcome_bind]. rewrite Z.eqb_refl. cbn [ReadPrimitive].
  pose proof (moved_good _ _ _ Hm1) as Hg1. pose proof (avail_moved _ _ _ Hm1) as Ea1. rewrite Ea' in Ea1. cbn in Ea1.
  destruct (reads_varint64 v [] s1 Hg1) as [Hr _]; [by rewrite Ea1; destruct b|by destruct b|].
  destruct (reads_converted (fun temp => if temp =? 0 then 0 else 1) _ v v _ _ ltac:(by destruct b) Hr) as (s2 & -> & _ & Hm2).
  cbn [mbind outcome_bind]. assert (length (WriteVarint64ToArray v) = 1)%nat as El by (by destruct b). rewrite El in Hm2.
  pose proof (moved_good _ _ _ Hm2) as Hg2. pose proof (avail_moved _ _ _ Hm2) as Ea2. rewrite Ea1 in Ea2. cbn in Ea2.
  destruct (ReadTag_spec s2 Hg2) as [(t & s3 & -> & Ht & Hend) _]. rewrite Ea2 in Ht. cbn in Ht. destruct Ht as [-> _].
  cbn [mbind outcome_bind]. destruct (Hend Ea2) as [Hl Hm3].
  { rewrite (moved_position _ _ _ Hm2), (moved_position _ _ _ Hm1), (moved_total _ _ _ Hm2), (moved_total _ _ _ Hm1). lia. }
  exists s3. split; [by destruct b|]. split; [|done]. apply (moved_trans 1 1 s s1 s3); [done|]. by apply (moved_trans 1 0 s1 s2 s3).
Qed.

Definition ten_bytes_out : ArrayOutputStream.ArrayOutputStream := ArrayOutputStream.new_ArrayOutputStream (replicate 10 0) 4.
Definition carried : list Z := [0x02; 0x08; 0x01; 0x02; 0x08; 0x00; 0x7F].
Definition carrier : ArrayInputStream.ArrayInputStream := ArrayInputStream.new_ArrayInputStream carried 3.

Lemma SerializeDelimited_sends_witness :
  exists b o', SerializeDelimitedToZeroCopyStream true ten_bytes_out = Ok (b, o') /\ valid_output o' /\
    if b : bool then content o' = content ten_bytes_out ++ delimited true
    else failed o' /\ exists k, (k < length (delimited true))%nat /\ content o' = content ten_bytes_out ++ take k (delimited true).
Proof. exact (SerializeDelimited_sends true ten_bytes_out (ArrayOutputStream.output_valid _ _) ltac:(by vm_compute)). Defined.

(** Two messages and a byte behind them. *)
Lemma delimited_roundtrip_witness :
  exists o', serialize_all [true; false] ten_bytes_out = Ok (true, o') /\ content o' = take 6 carried /\
    exists i', parse_all 2 carrier = Ok ([true; false], i') /\ unread i' = [0x7F].
Proof.
  destruct (delimited_roundtrip [true; false] ten_bytes_out carrier [0x7F]) as (b & o' & E & Hread).
  { apply ArrayOutputStream.output_valid. }
  { by vm_compute. }
  { by repeat constructor. }
  assert (serialize_all [true; false] ten_bytes_out = Ok (true, ArrayOutputStream.mkArrayOutputStream (take 6 carried ++ [0; 0; 0; 0]) 10 4 6 0)) as E' by reflexivity.
  rewrite E' in E. injection E as <- <-. eexists. split; [exact E'|]. split; [done|].
  apply (Hread eq_refl (ArrayInputStream.new_valid _ _)); [done| |by vm_compute].
  constructor; [unfold byte; lia|constructor].
Defined.
