(* ===== verification/FileStream.v ===== *)
(** * Streams over files ([deps/protobuf/.../io/zero_copy_stream_impl_lite.cc],
    [deps/protobuf/.../io/zero_copy_stream_impl.cc])

    The log writer writes its log through such a stream: a buffer in front of a
    stream that copies, which is a file descriptor.  What the system answers to
    [write] and [close] is the class [FileDevice]. *)
From S2P Require Import Prelude ZeroCopyStream OutputStream.
#[local] Open Scope Z_scope.

(** A call of the system has succeeded or failed; [EINTR] is told apart. *)
Inductive io_result (A : Type) := Transferred (x : A) | Interrupted | IoError (errno : Z).
Arguments Transferred {A} x.
Arguments Interrupted {A}.
Arguments IoError {A} errno.

(** A file open for writing: [write] has taken so many bytes of what it was given.
    [file_patience]: signals do not interrupt a call more often in a row. *)
Class FileDevice (F : Type) := {
  file_write : list Z -> F -> io_result Z * F;
  file_close : F -> io_result unit * F;
  file_patience : nat
}.

Section CloseNoEintr.
Context {F : Type}.

(** The error of [close], if it fails. *)
Fixpoint close_no_eintr (fuel : nat) (close : F -> io_result unit * F) (f : F) : outcome (option Z * F) :=
  match fuel with
  | O => Blocked
  | S fuel =>
      let '(result, f) := close f in
      match result with
      | Interrupted => close_no_eintr fuel close f
      | IoError e => Ok (Some e, f)
      | Transferred _ => Ok (None, f)
      end
  end.
End CloseNoEintr.

(** Whether all bytes were written. *)
Class CopyingOutputStream (F : Type) := { Write : list Z -> F -> outcome (bool * F) }.

Definition kDefaultBlockSize : Z := 8192.

(** ** The buffer *)

Module Adaptor.
Section Adaptor.
Context {F : Type} `{CopyingOutputStream F}.

(** The stream that is copied to belongs to somebody else ([owns_copying_stream_] is
    false).  [handed_] is the size of the buffer that [Next] handed out and that may still
    be written; the code keeps no such number. *)
Record CopyingOutputStreamAdaptor := mkAdaptor {
  copying_stream_ : F;
  failed_ : bool;
  position_ : Z;
  buffer_ : option (list Z);
  buffer_size_ : Z;
  buffer_used_ : Z;
  handed_ : Z
}.
Implicit Types a : CopyingOutputStreamAdaptor.

Definition new_CopyingOutputStreamAdaptor (copying_stream : F) (block_size : Z) : CopyingOutputStreamAdaptor :=
  mkAdaptor copying_stream false 0 None (if 0 <? block_size then block_size else kDefaultBlockSize) 0 0.

(** The bytes of a new array are not initialised; here they are zeros. *)
Definition AllocateBufferIfNeeded a : CopyingOutputStreamAdaptor :=
  match buffer_ a with
  | Some _ => a
  | None =>
      mkAdaptor (copying_stream_ a) (failed_ a) (position_ a) (Some (replicate (Z.to_nat (buffer_size_ a)) 0))
        (buffer_size_ a) (buffer_used_ a) (handed_ a)
  end.

Definition WriteBuffer a : outcome (bool * CopyingOutputStreamAdaptor) :=
  if failed_ a then Ok (false, a)
  else if buffer_used_ a =? 0 then Ok (true, a)
  else
    buffer ← in_bounds (buffer_ a);
    '(written, stream) ← Write (take (Z.to_nat (buffer_used_ a)) buffer) (copying_stream_ a);
    Ok (if written : bool
        then (true, mkAdaptor stream false (position_ a + buffer_used_ a) (Some buffer) (buffer_size_ a) 0 0)
        else (false, mkAdaptor stream true (position_ a) None (buffer_size_ a) 0 0)).

Definition Flush a : outcome (bool * CopyingOutputStreamAdaptor) := WriteBuffer a.

(** The destructor; nothing looks at the stream after it. *)
Definition destroy a : outcome CopyingOutputStreamAdaptor := '(_, a) ← WriteBuffer a; Ok a.

Definition Next a : outcome (option Z * CopyingOutputStreamAdaptor) :=
  '(written, a) ← (if buffer_used_ a =? buffer_size_ a then WriteBuffer a else Ok (true, a));
  if written : bool then
    let a := AllocateBufferIfNeeded a in
    let size := buffer_size_ a - buffer_used_ a in
    Ok (Some size,
        mkAdaptor (copying_stream_ a) (failed_ a) (position_ a) (buffer_ a) (buffer_size_ a) (buffer_size_ a) size)
  else Ok (None, a).

Definition BackUp (count : Z) a : outcome CopyingOutputStreamAdaptor :=
  GOOGLE_CHECK (0 <=? count);;
  GOOGLE_CHECK (buffer_used_ a =? buffer_size_ a);;
  GOOGLE_CHECK (count <=? buffer_used_ a);;
  Ok (mkAdaptor (copying_stream_ a) (failed_ a) (position_ a) (buffer_ a) (buffer_size_ a) (buffer_used_ a - count) 0).

Definition ByteCount a : Z := position_ a + buffer_used_ a.

(** A write at [i] bytes behind the pointer that [Next] returned; a write of nothing
    needs no buffer. *)
Definition store (i : Z) (bytes : list Z) a : outcome CopyingOutputStreamAdaptor :=
  if (0 <=? i) && (i + Z.of_nat (length bytes) <=? handed_ a) then
    match bytes with
    | [] => Ok a
    | _ =>
        buffer ← in_bounds (buffer_ a);
        Ok (mkAdaptor (copying_stream_ a) (failed_ a) (position_ a)
              (Some (poke (Z.to_nat (buffer_size_ a - handed_ a + i)) bytes buffer))
              (buffer_size_ a) (buffer_used_ a) (handed_ a))
    end
  else Undefined.

#[export] Instance adaptor_output : ZeroCopyOutputStream CopyingOutputStreamAdaptor := {
  OutputStream.Next := Next;
  OutputStream.BackUp := BackUp;
  OutputStream.ByteCount := ByteCount;
  OutputStream.store := store;
  patience := 0
}.
End Adaptor.
Arguments CopyingOutputStreamAdaptor : clear implicits.
End Adaptor.

(** ** The file *)

Section File.
Context {F : Type} `{FileDevice F}.

Record CopyingFileOutputStream := mkFile {
  file_ : F;
  close_on_delete_ : bool;
  is_closed_ : bool;
  errno_ : Z
}.
Implicit Types c : CopyingFileOutputStream.

Definition new_CopyingFileOutputStream (file_descriptor : F) : CopyingFileOutputStream :=
  mkFile file_descriptor false false 0.

Definition set_file f c : CopyingFileOutputStream := mkFile f (close_on_delete_ c) (is_closed_ c) (errno_ c).
Definition set_errno e c : CopyingFileOutputStream := mkFile (file_ c) (close_on_delete_ c) (is_closed_ c) e.
Definition SetCloseOnDelete value c : CopyingFileOutputStream := mkFile (file_ c) value (is_closed_ c) (errno_ c).

(** Both loops of [Write]: what is left to be written. *)
Fixpoint write_loop (fuel : nat) (bytes : list Z) c : outcome (bool * CopyingFileOutputStream) :=
  match fuel, bytes with
  | _, [] => Ok (true, c)
  | O, _ => Blocked
  | S fuel, _ =>
      let '(result, f) := file_write bytes (file_ c) in
      let c := set_file f c in
      match result with
      | Interrupted => write_loop fuel bytes c
      | IoError e => Ok (false, set_errno e c)
      | Transferred n => if n <=? 0 then Ok (false, c) else write_loop fuel (drop (Z.to_nat n) bytes) c
      end
  end.

(** Each byte is written after so many interruptions at most. *)
Definition write_turns (n : nat) : nat := n * S file_patience.

Definition file_Write (bytes : list Z) c : outcome (bool * CopyingFileOutputStream) :=
  GOOGLE_CHECK (negb (is_closed_ c));;
  write_loop (write_turns (length bytes)) bytes c.

#[export] Instance file_copying : CopyingOutputStream CopyingFileOutputStream := { Write := file_Write }.

Definition file_Close c : outcome (bool * CopyingFileOutputStream) :=
  GOOGLE_CHECK (negb (is_closed_ c));;
  let c := mkFile (file_ c) (close_on_delete_ c) true (errno_ c) in
  '(error, f) ← close_no_eintr (S file_patience) file_close (file_ c);
  Ok (match error with
      | Some e => (false, set_errno e (set_file f c))
      | None => (true, set_file f c)
      end).

(** ** [FileOutputStream]: the buffer in front of the file *)

Definition FileOutputStream : Type := Adaptor.CopyingOutputStreamAdaptor CopyingFileOutputStream.

Definition new_FileOutputStream (file_descriptor : F) (block_size : Z) : FileOutputStream :=
  Adaptor.new_CopyingOutputStreamAdaptor (new_CopyingFileOutputStream file_descriptor) block_size.

Definition on_file (f : CopyingFileOutputStream -> CopyingFileOutputStream) (o : FileOutputStream) : FileOutputStream :=
  Adaptor.mkAdaptor (f (Adaptor.copying_stream_ o)) (Adaptor.failed_ o) (Adaptor.position_ o) (Adaptor.buffer_ o)
    (Adaptor.buffer_size_ o) (Adaptor.buffer_used_ o) (Adaptor.handed_ o).

Definition file_Flush (o : FileOutputStream) : outcome (bool * FileOutputStream) := Adaptor.Flush o.

Definition Close (o : FileOutputStream) : outcome (bool * FileOutputStream) :=
  '(flush_succeeded, o) ← Adaptor.Flush o;
  '(closed, c) ← file_Close (Adaptor.copying_stream_ o);
  Ok (closed && flush_succeeded, on_file (fun _ => c) o).
End File.
Arguments CopyingFileOutputStream : clear implicits.
Arguments FileOutputStream : clear implicits.
