(* ===== verification/FileStreamSpec.v ===== *)
(** * What is written to a file arrives there *)
From S2P Require Import Prelude Varint ZeroCopyStream CodedStream CodedStreamSpec WireFormat WireFormatSpec.
From S2P Require Import OutputStream CodedOutput CodedOutputSpec Delimited DelimitedSpec FileStream.
#[local] Open Scope Z_scope.

(** A stream that copies and does not fail. *)
Class ReliableCopying (F : Type) `{CopyingOutputStream F} := {
  copying_valid : F -> Prop;
  written : F -> list Z;
  write_copies bytes f : copying_valid f ->
    exists f', Write bytes f = Ok (true, f') /\ copying_valid f' /\ written f' = written f ++ bytes
}.

Lemma poke_app i bytes (l k : list Z) : poke (length l + i) bytes (l ++ k) = l ++ poke i bytes k.
Proof.
  unfold poke. rewrite take_app_add, <- app_assoc. f_equal. f_equal. f_equal.
  rewrite <- Nat.add_assoc. by rewrite drop_app_add.
Qed.

Module AdaptorSpec.
Import Adaptor.

Section Adaptor.
Context {F : Type} `{ReliableCopying F}.
Implicit Types a : CopyingOutputStreamAdaptor F.

Definition bytes_of a : list Z := default [] (buffer_ a).

Record valid a : Prop := {
  valid_stream : copying_valid (copying_stream_ a);
  valid_failed : failed_ a = false;
  valid_position : position_ a = Z.of_nat (length (written (copying_stream_ a)));
  valid_size : 0 < buffer_size_ a;
  valid_used : 0 <= buffer_used_ a <= buffer_size_ a;
  valid_buffer : match buffer_ a with
                 | Some b => Z.of_nat (length b) = buffer_size_ a
                 | None => buffer_used_ a = 0
                 end;
  valid_handed : 0 <= handed_ a <= buffer_used_ a /\ (0 < handed_ a -> buffer_used_ a = buffer_size_ a)
}.

Definition adaptor_content a : list Z :=
  written (copying_stream_ a) ++ take (Z.to_nat (buffer_used_ a)) (bytes_of a).

Lemma used_length a : valid a -> length (take (Z.to_nat (buffer_used_ a)) (bytes_of a)) = Z.to_nat (buffer_used_ a).
Proof using Type.
  intros Hv. pose proof (valid_used a Hv). pose proof (valid_buffer a Hv) as Hb. unfold bytes_of.
  rewrite length_take. destruct (buffer_ a); simpl in *; lia.
Qed.

Lemma content_length a : valid a -> Z.of_nat (length (adaptor_content a)) = ByteCount a.
Proof using Type.
  intros Hv. unfold adaptor_content, ByteCount. rewrite length_app, used_length by done.
  pose proof (valid_used a Hv). rewrite (valid_position a Hv). lia.
Qed.

(** The buffer goes to the stream; nothing is handed out after it. *)
Lemma WriteBuffer_spec a : valid a ->
  exists a', WriteBuffer a = Ok (true, a') /\ valid a' /\ buffer_size_ a' = buffer_size_ a /\
    buffer_used_ a' = 0 /\ adaptor_content a' = adaptor_content a /\ written (copying_stream_ a') = adaptor_content a.
Proof using Type.
  intros Hv. pose proof Hv as [Hs Hf Hp Hz Hu Hb Hh]. unfold WriteBuffer. rewrite Hf.
  destruct (Z.eqb_spec (buffer_used_ a) 0) as [E0|E0].
  { exists a. split; [done|]. split; [done|]. split; [done|]. split; [done|]. split; [done|].
    unfold adaptor_content. rewrite E0, take_0. by rewrite app_nil_r. }
  pose proof (used_length a Hv) as Hl. unfold adaptor_content, bytes_of in *.
  destruct (buffer_ a) as [b|]; [|lia]. change (default [] (Some b)) with b in *. cbn [in_bounds mbind outcome_bind].
  destruct (write_copies (take (Z.to_nat (buffer_used_ a)) b) (copying_stream_ a) Hs) as (f' & -> & Hs' & Hw).
  cbn [mbind outcome_bind]. eexists. split; [done|]. simpl. rewrite take_0, app_nil_r, Hw. split_and!; try done.
  split; simpl; try done; [|lia..]. rewrite Hw, length_app, Hl, Hp. lia.
Qed.

Lemma Allocate_spec a : valid a -> let a' := AllocateBufferIfNeeded a in
  valid a' /\ adaptor_content a' = adaptor_content a /\ buffer_size_ a' = buffer_size_ a /\ buffer_used_ a' = buffer_used_ a /\
  copying_stream_ a' = copying_stream_ a /\ Z.of_nat (length (bytes_of a')) = buffer_size_ a.
Proof using Type.
  intros Hv. pose proof Hv as [Hs Hf Hp Hz Hu Hb Hh]. cbn zeta. unfold AllocateBufferIfNeeded, adaptor_content, bytes_of.
  destruct (buffer_ a) as [b|] eqn:Eb.
  { rewrite Eb. split_and!; done. }
  simpl. rewrite length_replicate. split_and!; try done; [|by rewrite Hb|lia].
  split; simpl; try done. rewrite length_replicate. lia.
Qed.

#[export] Program Instance adaptor_lawful : LawfulOutput (CopyingOutputStreamAdaptor F) := {|
  valid_output := valid;
  failed _ := False;
  content := adaptor_content;
  lent := handed_;
  max_buffer := buffer_size_;
  empties _ := O
|}.
Next Obligation.
  intros a Hv. pose proof (content_length a Hv) as Hl. unfold ByteCount in Hl. pose proof Hv as [? ? Hp ? ? ? ?].
  rewrite Hl, Hp. simpl. split_and!; lia.
Qed.
Next Obligation. intros a Hv. by rewrite (content_length a Hv). Qed.
Next Obligation.
  intros a Hv. simpl. unfold Next.
  assert (exists a1, (if buffer_used_ a =? buffer_size_ a then WriteBuffer a else Ok (true, a)) = Ok (true, a1) /\ valid a1 /\
    buffer_size_ a1 = buffer_size_ a /\ buffer_used_ a1 < buffer_size_ a1 /\ adaptor_content a1 = adaptor_content a)
    as (a1 & -> & Hv1 & Es & Hlt & Ec).
  { destruct (Z.eqb_spec (buffer_used_ a) (buffer_size_ a)) as [E|E].
    - destruct (WriteBuffer_spec a Hv) as (a1 & -> & Hv1 & Es & E0 & Ec & _). exists a1. split_and!; try done.
      rewrite E0. apply Hv1.
    - exists a. split_and!; try done. pose proof (valid_used a Hv). lia. }
  cbn [mbind outcome_bind]. destruct (Allocate_spec a1 Hv1) as (Hv2 & Ec2 & Es2 & Eu2 & Ef2 & El2).
  set (a2 := AllocateBufferIfNeeded a1) in *. pose proof Hv2 as [Hs Hf Hp Hz Hu Hb Hh].
  eexists _, _. split; [done|]. split.
  { split; simpl; try done; try lia. unfold bytes_of in El2. destruct (buffer_ a2); simpl in *; [lia|lia]. }
  split; [simpl; congruence|]. split; [tauto|]. split; [simpl; lia|]. split; [done|]. split; [left; lia|].
  exists (drop (Z.to_nat (buffer_used_ a2)) (bytes_of a2)). split.
  - rewrite <- Ec, <- Ec2. unfold adaptor_content. simpl. rewrite <- app_assoc, take_drop. f_equal.
    apply take_ge. fold (bytes_of a2). change (bytes_of _) with (bytes_of a2). lia.
  - rewrite length_drop. lia.
Qed.
Next Obligation.
  intros n a Hv Hn. pose proof Hv as [Hs Hf Hp Hz Hu Hb [Hh Hfull]]. simpl. unfold BackUp.
  rewrite (proj2 (Z.leb_le 0 n)), (proj2 (Z.eqb_eq _ _)), (proj2 (Z.leb_le n _)) by lia. cbn.
  eexists. split; [done|]. split; [split; simpl; try done; try lia; destruct (buffer_ a); lia|]. split; [done|].
  pose proof (used_length a Hv) as Hl. unfold adaptor_content in *. simpl. change (bytes_of _) with (bytes_of a).
  rewrite length_app, Hl, take_app_ge by lia. f_equal. rewrite take_take. f_equal. lia.
Qed.
Next Obligation.
  intros i bytes a Hv Hi Hn. pose proof Hv as [Hs Hf Hp Hz Hu Hb [Hh Hfull]]. simpl. unfold store.
  rewrite (proj2 (Z.leb_le 0 i)), (proj2 (Z.leb_le _ _)) by lia. cbn [andb].
  pose proof (used_length a Hv) as Hl.
  assert (Z.to_nat (Z.of_nat (length (adaptor_content a)) - handed_ a + i) =
    length (written (copying_stream_ a)) + Z.to_nat (buffer_used_ a - handed_ a + i))%nat as En.
  { unfold adaptor_content. rewrite length_app, Hl. lia. }
  rewrite En. destruct bytes as [|x bytes].
  { exists a. split_and!; try done. unfold poke. simpl. rewrite Nat.add_0_r. by rewrite take_drop. }
  assert (0 < handed_ a) as Hpos by (cbn [length] in Hn; lia). specialize (Hfull Hpos).
  unfold adaptor_content, bytes_of in *. destruct (buffer_ a) as [b|]; [|lia]. change (default [] (Some b)) with b in *.
  cbn [in_bounds mbind outcome_bind]. eexists. split; [done|].
  assert (length (poke (Z.to_nat (buffer_size_ a - handed_ a + i)) (x :: bytes) b) = length b) as Ep by (apply poke_length; lia).
  split; [split; simpl; try done; by rewrite Ep|]. split_and!; try done.
  rewrite poke_app. cbn [copying_stream_ buffer_used_ buffer_]. f_equal.
  etrans; [|etrans; [apply (ArrayOutputStream.poke_take (Z.to_nat (buffer_size_ a - handed_ a + i)) (x :: bytes))|]].
  - done.
  - cbn [length] in *. lia.
  - lia.
  - f_equal. lia.
Qed.
End Adaptor.
End AdaptorSpec.

(** ** After a failure *)

Section Failure.
Context {F : Type} `{CopyingOutputStream F}.
Import Adaptor.
Implicit Types a : CopyingOutputStreamAdaptor F.

(** A call of the stream that returned. *)
Inductive output_call : CopyingOutputStreamAdaptor F -> CopyingOutputStreamAdaptor F -> Prop :=
  | call_Next a answer a' : Adaptor.Next a = Ok (answer, a') -> output_call a a'
  | call_BackUp n a a' : Adaptor.BackUp n a = Ok a' -> output_call a a'
  | call_store i bytes a a' : Adaptor.store i bytes a = Ok a' -> output_call a a'
  | call_Flush a answer a' : Adaptor.Flush a = Ok (answer, a') -> output_call a a'.

Lemma call_keeps_failed a a' : failed_ a = true -> output_call a a' ->
  failed_ a' = true /\ copying_stream_ a' = copying_stream_ a.
Proof using Type.
  intros Hf Hcall. revert Hf. destruct Hcall as [b answer b' E|n b b' E|i bytes b b' E|b answer b' E]; intros Hf; [unfold Adaptor.Next in E|unfold Adaptor.BackUp in E|unfold Adaptor.store in E|unfold Adaptor.Flush in E].
  - assert (WriteBuffer b = Ok (false, b)) as Ew by (unfold WriteBuffer; by rewrite Hf). rewrite Ew in E.
    destruct (buffer_used_ b =? buffer_size_ b); cbn [mbind outcome_bind] in E; apply ok_inj in E; injection E as <- <-; [done|].
    unfold AllocateBufferIfNeeded. by destruct (buffer_ b).
  - unfold GOOGLE_CHECK in E. destruct (_ <=? _), (_ =? _), (_ <=? _); cbn [mbind outcome_bind] in E; try discriminate E.
    by injection E as <-.
  - destruct (_ && _); [|done]. destruct bytes; [by injection E as <-|]. destruct (buffer_ b); [|done]. cbn in E. by injection E as <-.
  - unfold WriteBuffer in E. rewrite Hf in E. by injection E as <- <-.
Qed.

(** Once a write has failed nothing more reaches the stream that is copied to,
    whatever is called: [Next] may go on to hand out buffers, but flushing says
    that it failed. *)
Theorem failure_is_final a a' : failed_ a = true -> rtc output_call a a' ->
  copying_stream_ a' = copying_stream_ a /\ Adaptor.Flush a' = Ok (false, a').
Proof using Type.
  intros Hf Hcalls. assert (failed_ a' = true /\ copying_stream_ a' = copying_stream_ a) as [Hf' E].
  { induction Hcalls as [a|a b c Hcall _ IH]; [done|]. destruct (call_keeps_failed a b Hf Hcall) as [Hb <-]. by apply IH. }
  split; [done|]. unfold Adaptor.Flush, WriteBuffer. by rewrite Hf'.
Qed.
End Failure.

(** ** The file *)

(** A device that takes at least a byte of what it is given, interrupted by
    signals at most [interruptions] times before, and does not fail. *)
Class ReliableDevice (F : Type) `{FileDevice F} := {
  device_valid : F -> Prop;
  contents : F -> list Z;
  interruptions : F -> nat;
  interruptions_bounded f : device_valid f -> (interruptions f <= file_patience)%nat;
  write_reliable bytes f : device_valid f -> bytes <> [] ->
    let '(result, f') := file_write bytes f in
    device_valid f' /\
    match result with
    | Transferred n => 0 < n <= Z.of_nat (length bytes) /\ contents f' = contents f ++ take (Z.to_nat n) bytes
    | Interrupted => (interruptions f' < interruptions f)%nat /\ contents f' = contents f
    | IoError _ => False
    end;
  close_reliable f : device_valid f ->
    let '(result, f') := file_close f in
    device_valid f' /\ contents f' = contents f /\
    match result with
    | Transferred _ => True
    | Interrupted => (interruptions f' < interruptions f)%nat
    | IoError _ => False
    end
}.

Section File.
Context {F : Type} `{ReliableDevice F}.
Local Abbreviation file := (CopyingFileOutputStream F).
Local Abbreviation stream := (FileOutputStream F).

(** Enough turns for what is left. *)
Definition enough (fuel n interrupts : nat) : Prop := n = O \/ (pred n * S file_patience + interrupts < fuel)%nat.

Lemma file_write_loop_spec fuel bytes (c : file) :
  device_valid (file_ c) -> enough fuel (length bytes) (interruptions (file_ c)) ->
  exists f', write_loop fuel bytes c = Ok (true, set_file f' c) /\ device_valid f' /\ contents f' = contents (file_ c) ++ bytes.
Proof using Type.
  revert bytes c. induction fuel as [|fuel IH]; intros bytes c Hv Hf.
  all: (destruct bytes as [|x bytes]; [exists (file_ c); rewrite app_nil_r; by destruct c|]).
  all: (destruct Hf as [Hf|Hf]; [done|]). { by apply Nat.nlt_0_r in Hf. }
  cbn [write_loop]. pose proof (write_reliable (x :: bytes) (file_ c) Hv ltac:(done)) as Hw.
  destruct (file_write (x :: bytes) (file_ c)) as [result f]. destruct Hw as [Hv' Hw].
  destruct result as [n| |e]; [|destruct Hw as [Hi Hc]|done].
  - destruct Hw as [Hn Hc]. rewrite (proj2 (Z.leb_gt n 0)) by lia.
    destruct (IH (drop (Z.to_nat n) (x :: bytes)) (set_file f c) Hv') as (f' & -> & Hv2 & Hc2).
    { unfold enough. pose proof (interruptions_bounded f Hv'). rewrite length_drop. cbn [file_ set_file length pred] in *.
      destruct (decide (length bytes = 0)%nat) as [E|E]; [left; lia|]. destruct (decide (S (length bytes) - Z.to_nat n = 0)%nat); [by left|right].
      assert (pred (S (length bytes) - Z.to_nat n) <= pred (length bytes))%nat as Hp by lia.
      assert (pred (S (length bytes) - Z.to_nat n) * S file_patience <= pred (length bytes) * S file_patience)%nat by (by apply Nat.mul_le_mono_r).
      assert (length bytes * S file_patience = pred (length bytes) * S file_patience + S file_patience)%nat by (destruct (length bytes); [done|simpl; lia]).
      lia. }
    exists f'. split; [done|]. split; [done|]. rewrite Hc2. cbn [file_ set_file]. by rewrite Hc, <- app_assoc, take_drop.
  - destruct (IH (x :: bytes) (set_file f c) Hv') as (f' & -> & Hv2 & Hc2); [right; cbn [file_ set_file] in *; lia|].
    exists f'. split; [done|]. split; [done|]. by rewrite Hc2, <- Hc.
Qed.

#[export] Program Instance file_reliable : ReliableCopying file := {|
  copying_valid c := is_closed_ c = false /\ device_valid (file_ c);
  written c := contents (file_ c)
|}.
Next Obligation.
  intros bytes c [Hc Hv]. simpl. unfold file_Write. rewrite Hc. cbn [negb GOOGLE_CHECK mbind outcome_bind].
  destruct (file_write_loop_spec (write_turns (length bytes)) bytes c Hv) as (f' & -> & Hv' & E).
  { unfold enough, write_turns. pose proof (interruptions_bounded _ Hv). destruct (length bytes); [by left|right; simpl; lia]. }
  by eexists.
Qed.

Lemma new_file_valid (f : F) block_size :
  device_valid f -> contents f = [] -> AdaptorSpec.valid (new_FileOutputStream f block_size).
Proof using Type.
  intros Hv Hc. split; simpl; try done; try lia; [by rewrite Hc|by destruct (Z.ltb_spec 0 block_size)|].
  destruct (Z.ltb_spec 0 block_size); unfold kDefaultBlockSize; lia.
Qed.
(** [close] is called until no signal interrupts it. *)
Lemma close_no_eintr_spec fuel (f : F) : device_valid f -> (interruptions f < fuel)%nat ->
  exists f', close_no_eintr fuel file_close f = Ok (None, f') /\ device_valid f' /\ contents f' = contents f.
Proof using Type.
  revert f. induction fuel as [|fuel IH]; intros f Hv Hf; [lia|]. cbn [close_no_eintr].
  pose proof (close_reliable f Hv) as Hc. destruct (file_close f) as [result f1]. destruct Hc as (Hv1 & E & Hr).
  destruct result as [[]| |e]; [by exists f1| |done].
  destruct (IH f1 Hv1) as (f2 & -> & Hv2 & E2); [lia|]. exists f2. by rewrite E2.
Qed.

Definition file_contents (o : stream) : list Z := contents (file_ (Adaptor.copying_stream_ o)).

(** Closing writes what is left in the buffer. *)
Lemma Close_spec (o : stream) : AdaptorSpec.valid o ->
  exists o', Close o = Ok (true, o') /\ file_contents o' = AdaptorSpec.adaptor_content o /\
    is_closed_ (Adaptor.copying_stream_ o') = true.
Proof using Type.
  intros Hv. destruct (AdaptorSpec.WriteBuffer_spec o Hv) as (o1 & E1 & Hv1 & _ & _ & _ & Ec).
  unfold Close, Adaptor.Flush. rewrite E1. cbn [mbind outcome_bind].
  pose proof (AdaptorSpec.valid_stream o1 Hv1) as [Hopen Hdev]. unfold file_Close. rewrite Hopen. cbn [negb GOOGLE_CHECK mbind outcome_bind file_].
  destruct (close_no_eintr_spec (S file_patience) (file_ (Adaptor.copying_stream_ o1)) Hdev) as (f & -> & _ & E).
  { pose proof (interruptions_bounded _ Hdev). lia. }
  cbn [mbind outcome_bind]. eexists. split; [done|]. split; [|done]. unfold file_contents. simpl. by rewrite E, <- Ec.
Qed.
End File.

(** ** Messages in a log file *)

#[local] Existing Instance Adaptor.adaptor_output.
#[local] Existing Instance AdaptorSpec.adaptor_lawful.

Section Log.
Context {F M I : Type} `{RD : ReliableDevice F} `{LM : LawfulMessage M} `{LI : LawfulInput I} `{PM : Parsable M I}.
Context `{LP : !LawfulParser M I}.

(** All messages are accepted. *)
Lemma log_written (ms : list M) (f : F) block_size :
  device_valid f -> contents f = [] ->
  let o := new_FileOutputStream f block_size in
  Z.of_nat (length (concat (delimited <$> ms))) + Adaptor.buffer_size_ o < INT_MAX ->
  exists o1, serialize_all ms o = Ok (true, o1) /\ AdaptorSpec.valid o1 /\ Adaptor.buffer_size_ o1 = Adaptor.buffer_size_ o /\
    AdaptorSpec.adaptor_content o1 = concat (delimited <$> ms).
Proof using RD LM.
  cbn zeta. intros Hv Hc Hroom. set (o := new_FileOutputStream f block_size) in *.
  assert (valid_output o) as Ho by exact (new_file_valid f block_size Hv Hc).
  destruct (serialize_all_spec ms o Ho) as (b & o1 & E1 & Hv1 & Hm1 & Hc1 & Hb); [cbn [max_buffer AdaptorSpec.adaptor_lawful]; lia|].
  destruct b; [|by destruct (Hb eq_refl)]. specialize (Hc1 eq_refl). exists o1.
  assert (content o = []) as E0 by (change (contents f ++ take 0 [] = []); by rewrite Hc).
  rewrite E0 in Hc1. split_and!; done.
Qed.

(** Messages that are recorded in a new file, as the log writer does, are all
    accepted; the file holds a beginning of their delimited bytes, of which no
    more than one buffer is missing, whatever parts the system takes and however
    often signals interrupt it; once flushed it holds exactly these bytes, and
    reading it gives the messages back. *)
Theorem file_holds_messages (ms : list M) (f : F) block_size i :
  device_valid f -> contents f = [] ->
  let o := new_FileOutputStream f block_size in
  Z.of_nat (length (concat (delimited <$> ms))) + Adaptor.buffer_size_ o < INT_MAX ->
  Forall (fun m => depth (I := I) m <= default_recursion_limit_) ms ->
  exists o1 o2 missing,
    serialize_all ms o = Ok (true, o1) /\
    concat (delimited <$> ms) = file_contents o1 ++ missing /\ Z.of_nat (length missing) <= Adaptor.buffer_size_ o /\
    file_Flush o1 = Ok (true, o2) /\ file_contents o2 = concat (delimited <$> ms) /\
    (valid_input i -> unread i = file_contents o2 -> exists i', parse_all (length ms) i = Ok (ms, i') /\ unread i' = []).
Proof using All.
  cbn zeta. intros Hv Hc Hroom Hdepth. destruct (log_written ms f block_size Hv Hc Hroom) as (o1 & E1 & Hv1 & Hm1 & Hc1).
  destruct (AdaptorSpec.WriteBuffer_spec o1 Hv1) as (o2 & E2 & _ & _ & _ & _ & Hc2). rewrite Hc1 in Hc2.
  exists o1, o2, (take (Z.to_nat (Adaptor.buffer_used_ o1)) (AdaptorSpec.bytes_of o1)).
  split; [done|]. split; [by rewrite <- Hc1|]. split.
  { rewrite AdaptorSpec.used_length by done. pose proof (AdaptorSpec.valid_used o1 Hv1). lia. }
  split; [done|]. split; [exact Hc2|]. intros Hi Eu. unfold file_contents in Eu. cbn [written file_reliable] in Hc2. rewrite Hc2 in Eu.
  rewrite <- (app_nil_r (concat _)) in Eu.
  destruct (parse_all_spec ms [] i Hi Eu) as (i' & E' & _ & Eu'); [constructor| |done|by exists i'].
  rewrite Eu, app_nil_r. pose proof (AdaptorSpec.valid_size o1 Hv1). lia.
Qed.
End Log.

(** ** A log of two messages

    The device takes three bytes of what it is given at most, and a signal
    interrupts every call once; blocks of four bytes. *)

#[local] Existing Instance ArrayInputStream.array_stream.
#[local] Existing Instance ArrayInputStream.array_reliable.
#[local] Existing Instance ArrayInputStream.array_lawful.
#[local] Existing Instance one_bool.
#[local] Existing Instance one_bool_lawful.
#[local] Existing Instance one_bool_parsable.
#[local] Existing Instance one_bool_parser.

Record slow_device := mkSlow { slow_contents : list Z; slow_ready : bool }.

#[local] Instance slow_file : FileDevice slow_device := {
  file_write bytes f :=
    if slow_ready f
    then (Transferred (Z.of_nat (length (take 3 bytes))), mkSlow (slow_contents f ++ take 3 bytes) false)
    else (Interrupted, mkSlow (slow_contents f) true);
  file_close f := if slow_ready f then (Transferred tt, f) else (Interrupted, mkSlow (slow_contents f) true);
  file_patience := 1
}.

#[local] Program Instance slow_reliable : ReliableDevice slow_device := {|
  device_valid _ := True;
  contents := slow_contents;
  interruptions f := if slow_ready f then 0%nat else 1%nat
|}.
Next Obligation. intros [c [|]] _; simpl; lia. Qed.
Next Obligation.
  intros bytes [c [|]] _ Hne; simpl; [|by split; [|split; [lia|]]]. rewrite Nat2Z.id.
  split; [done|]. split; [destruct bytes as [|? [|? [|? ?]]]; simpl; done || lia|].
  f_equal. rewrite length_take. destruct (Nat.le_ge_cases 3 (length bytes)); [by rewrite Nat.min_l by lia|].
  by rewrite Nat.min_r, take_ge, firstn_all by lia.
Qed.
Next Obligation. intros [c [|]] _; simpl; [done|]. by split; [|split; [|lia]]. Qed.

Lemma file_holds_messages_witness :
  exists o1 o2 missing,
    serialize_all [true; false] (new_FileOutputStream (mkSlow [] false) 4) = Ok (true, o1) /\
    concat (delimited <$> [true; false]) = file_contents o1 ++ missing /\ Z.of_nat (length missing) <= 4 /\
    file_Flush o1 = Ok (true, o2) /\ file_contents o2 = concat (delimited <$> [true; false]) /\
    (valid_input carrier -> unread carrier = file_contents o2 ->
     exists i', parse_all 2 carrier = Ok ([true; false], i') /\ unread i' = []).
Proof.
  apply (file_holds_messages [true; false] (mkSlow [] false) 4 carrier); [exact I|done|by vm_compute|by repeat constructor].
Defined.

(** A device that is full: the first buffer cannot be written. *)
#[local] Instance full_device : CopyingOutputStream unit := { Write _ f := Ok (false, f) }.

Lemma failure_is_final_witness :
  exists a, Adaptor.Flush (Adaptor.mkAdaptor tt false 0 (Some [1; 2]) 2 2 2) = Ok (false, a) /\
    Adaptor.copying_stream_ a = tt /\ Adaptor.Flush a = Ok (false, a).
Proof.
  eexists. split; [reflexivity|]. apply (failure_is_final (Adaptor.mkAdaptor tt true 0 None 2 0 0)); [done|apply rtc_refl].
Defined.
