(* ===== verification/FileInput.v ===== *)
(** * Reading from files ([deps/protobuf/.../io/zero_copy_stream_impl_lite.cc],
    [deps/protobuf/.../io/zero_copy_stream_impl.cc])

    The way a log file is read back: a buffer in front of a stream that copies,
    which is a file descriptor.  What the system answers to [read], [lseek] and
    [close] is the class [InputDevice]. *)
From S2P Require Import Prelude ZeroCopyStream OutputStream FileStream.
#[local] Open Scope Z_scope.

(** [Read]: the bytes, none at the end of the stream, [None] for an error.
    [reads_left] bounds how often it can still give bytes. *)
Class Readable (F : Type) := {
  Read : Z -> F -> outcome (option (list Z) * F);
  reads_left : F -> nat
}.

(** [SkipCopying]: how many bytes were skipped. *)
Class CopyingInputStream (F : Type) `{Readable F} := { SkipCopying : Z -> F -> outcome (Z * F) }.

(** ** The default way of skipping: reading junk *)

Section Skip.
Context {F : Type} `{Readable F}.

Fixpoint skip_loop (fuel : nat) (count skipped : Z) (f : F) : outcome (Z * F) :=
  if skipped <? count then
    match fuel with
    | O => Blocked
    | S fuel =>
        '(bytes, f) ← Read (Z.min (count - skipped) 4096) f;
        match bytes with
        | None | Some [] => Ok (skipped, f)
        | Some bytes => skip_loop fuel count (skipped + Z.of_nat (length bytes)) f
        end
    end
  else Ok (skipped, f).

Definition default_Skip (count : Z) (f : F) : outcome (Z * F) := skip_loop (S (reads_left f)) count 0 f.
End Skip.

(** ** The buffer *)

Module InAdaptor.
Section Adaptor.
Context {F : Type} `{CopyingInputStream F}.

(** The stream that is copied from belongs to somebody else ([owns_copying_stream_]
    is false).  [handed_] is the size of the chunk that [Next] gave last and that may
    be backed up into; the code keeps no such number. *)
Record CopyingInputStreamAdaptor := mkAdaptor {
  copying_stream_ : F;
  failed_ : bool;
  position_ : Z;
  buffer_ : option (list Z);
  buffer_size_ : Z;
  buffer_used_ : Z;
  backup_bytes_ : Z;
  handed_ : Z
}.
Implicit Types a : CopyingInputStreamAdaptor.

Definition new_CopyingInputStreamAdaptor (copying_stream : F) (block_size : Z) : CopyingInputStreamAdaptor :=
  mkAdaptor copying_stream false 0 None (if 0 <? block_size then block_size else kDefaultBlockSize) 0 0 0.

(** The bytes of a new array are not initialised; here they are zeros. *)
Definition AllocateBufferIfNeeded a : CopyingInputStreamAdaptor :=
  match buffer_ a with
  | Some _ => a
  | None =>
      mkAdaptor (copying_stream_ a) (failed_ a) (position_ a) (Some (replicate (Z.to_nat (buffer_size_ a)) 0))
        (buffer_size_ a) (buffer_used_ a) (backup_bytes_ a) (handed_ a)
  end.

Definition FreeBuffer a : outcome CopyingInputStreamAdaptor :=
  GOOGLE_CHECK (backup_bytes_ a =? 0);;
  Ok (mkAdaptor (copying_stream_ a) (failed_ a) (position_ a) None (buffer_size_ a) 0 (backup_bytes_ a) 0).

(** The bytes from [start] on. *)
Definition slice (start size : Z) (buffer : list Z) : list Z := take (Z.to_nat size) (drop (Z.to_nat start) buffer).

Definition Next a : outcome (option (list Z) * CopyingInputStreamAdaptor) :=
  if failed_ a then Ok (None, a)
  else
    let a := AllocateBufferIfNeeded a in
    buffer ← in_bounds (buffer_ a);
    if 0 <? backup_bytes_ a then
      Ok (Some (slice (buffer_used_ a - backup_bytes_ a) (backup_bytes_ a) buffer),
          mkAdaptor (copying_stream_ a) (failed_ a) (position_ a) (buffer_ a) (buffer_size_ a) (buffer_used_ a) 0 (backup_bytes_ a))
    else
      '(bytes, f) ← Read (buffer_size_ a) (copying_stream_ a);
      match bytes with
      | None | Some [] =>
          a ← FreeBuffer (mkAdaptor f (match bytes with None => true | Some _ => failed_ a end) (position_ a) (buffer_ a)
                (buffer_size_ a) (buffer_used_ a) (backup_bytes_ a) (handed_ a));
          Ok (None, a)
      | Some bytes =>
          let used := Z.of_nat (length bytes) in
          let buffer := poke 0 bytes buffer in
          Ok (Some (slice 0 used buffer),
              mkAdaptor f (failed_ a) (position_ a + used) (Some buffer) (buffer_size_ a) used (backup_bytes_ a) used)
      end.

Definition with_backup (backup_bytes : Z) a : CopyingInputStreamAdaptor :=
  mkAdaptor (copying_stream_ a) (failed_ a) (position_ a) (buffer_ a) (buffer_size_ a) (buffer_used_ a) backup_bytes 0.

Definition BackUp (count : Z) a : outcome CopyingInputStreamAdaptor :=
  GOOGLE_CHECK ((backup_bytes_ a =? 0) && match buffer_ a with Some _ => true | None => false end);;
  GOOGLE_CHECK (count <=? buffer_used_ a);;
  GOOGLE_CHECK (0 <=? count);;
  Ok (with_backup count a).

Definition Skip (count : Z) a : outcome (bool * CopyingInputStreamAdaptor) :=
  GOOGLE_CHECK (0 <=? count);;
  if failed_ a then Ok (false, a)
  else if count <=? backup_bytes_ a then Ok (true, with_backup (backup_bytes_ a - count) a)
  else
    let count := count - backup_bytes_ a in
    '(skipped, f) ← SkipCopying count (copying_stream_ a);
    Ok (skipped =? count,
        mkAdaptor f (failed_ a) (position_ a + skipped) (buffer_ a) (buffer_size_ a) (buffer_used_ a) 0 0).

Definition ByteCount a : Z := position_ a - backup_bytes_ a.

#[export] Instance adaptor_input : ZeroCopyInputStream CopyingInputStreamAdaptor := {
  ZeroCopyStream.Next := Next;
  ZeroCopyStream.BackUp := BackUp;
  ZeroCopyStream.Skip := Skip;
  ZeroCopyStream.ByteCount := ByteCount;
  nexts_left a := (reads_left (copying_stream_ a) + if (0 <? backup_bytes_ a)%Z then 1 else 0)%nat
}.
End Adaptor.
Arguments CopyingInputStreamAdaptor : clear implicits.
End InAdaptor.

(** ** The file *)

(** A file open for reading: [read] gives bytes, none at the end; [lseek] moves
    forward and says whether it could.  Signals do not interrupt a call more often
    in a row than [input_patience], and [input_reads] calls can still give bytes. *)
Class InputDevice (F : Type) := {
  file_read : Z -> F -> io_result (list Z) * F;
  file_seek : Z -> F -> bool * F;
  input_close : F -> io_result unit * F;
  input_patience : nat;
  input_reads : F -> nat
}.

Section File.
Context {F : Type} `{InputDevice F}.

Record CopyingFileInputStream := mkFile {
  file_ : F;
  close_on_delete_ : bool;
  is_closed_ : bool;
  errno_ : Z;
  previous_seek_failed_ : bool
}.
Implicit Types c : CopyingFileInputStream.

Definition new_CopyingFileInputStream (file_descriptor : F) : CopyingFileInputStream :=
  mkFile file_descriptor false false 0 false.

Definition set_file f c : CopyingFileInputStream :=
  mkFile f (close_on_delete_ c) (is_closed_ c) (errno_ c) (previous_seek_failed_ c).
Definition set_errno e c : CopyingFileInputStream :=
  mkFile (file_ c) (close_on_delete_ c) (is_closed_ c) e (previous_seek_failed_ c).
Definition set_seek_failed b c : CopyingFileInputStream :=
  mkFile (file_ c) (close_on_delete_ c) (is_closed_ c) (errno_ c) b.
Definition InSetCloseOnDelete value c : CopyingFileInputStream :=
  mkFile (file_ c) value (is_closed_ c) (errno_ c) (previous_seek_failed_ c).

Fixpoint read_no_eintr (fuel : nat) (size : Z) c : outcome (option (list Z) * CopyingFileInputStream) :=
  match fuel with
  | O => Blocked
  | S fuel =>
      let '(result, f) := file_read size (file_ c) in
      let c := set_file f c in
      match result with
      | Interrupted => read_no_eintr fuel size c
      | IoError e => Ok (None, set_errno e c)
      | Transferred bytes => Ok (Some bytes, c)
      end
  end.

Definition file_Read (size : Z) c : outcome (option (list Z) * CopyingFileInputStream) :=
  GOOGLE_CHECK (negb (is_closed_ c));;
  read_no_eintr (S input_patience) size c.

#[export] Instance file_readable : Readable CopyingFileInputStream := {
  Read := file_Read;
  reads_left c := input_reads (file_ c)
}.

Definition file_Skip (count : Z) c : outcome (Z * CopyingFileInputStream) :=
  GOOGLE_CHECK (negb (is_closed_ c));;
  let '(sought, c) :=
    if previous_seek_failed_ c then (false, c)
    else let '(b, f) := file_seek count (file_ c) in (b, set_file f c) in
  if sought : bool then Ok (count, c) else default_Skip count (set_seek_failed true c).

#[export] Instance file_copying_input : CopyingInputStream CopyingFileInputStream := { SkipCopying := file_Skip }.

Definition file_input_Close c : outcome (bool * CopyingFileInputStream) :=
  GOOGLE_CHECK (negb (is_closed_ c));;
  let c := mkFile (file_ c) (close_on_delete_ c) true (errno_ c) (previous_seek_failed_ c) in
  '(error, f) ← close_no_eintr (S input_patience) input_close (file_ c);
  Ok (match error with
      | Some e => (false, set_errno e (set_file f c))
      | None => (true, set_file f c)
      end).

(** *** [FileInputStream]: the buffer in front of the file *)

Definition FileInputStream : Type := InAdaptor.CopyingInputStreamAdaptor CopyingFileInputStream.

Definition new_FileInputStream (file_descriptor : F) (block_size : Z) : FileInputStream :=
  InAdaptor.new_CopyingInputStreamAdaptor (new_CopyingFileInputStream file_descriptor) block_size.

Definition CloseInput (i : FileInputStream) : outcome (bool * FileInputStream) :=
  '(closed, c) ← file_input_Close (InAdaptor.copying_stream_ i);
  Ok (closed, InAdaptor.mkAdaptor c (InAdaptor.failed_ i) (InAdaptor.position_ i) (InAdaptor.buffer_ i)
    (InAdaptor.buffer_size_ i) (InAdaptor.buffer_used_ i) (InAdaptor.backup_bytes_ i) (InAdaptor.handed_ i)).
End File.
Arguments CopyingFileInputStream : clear implicits.
Arguments FileInputStream : clear implicits.
