(* ===== verification/FileInputSpec.v ===== *)
(** * What is read from a file is what it holds *)
From S2P Require Import Prelude Varint ZeroCopyStream CodedStream CodedStreamSpec WireFormat WireFormatSpec OutputStream.
From S2P Require Import CodedOutput CodedOutputSpec Delimited DelimitedSpec FileStream FileStreamSpec FileInput.
#[local] Open Scope Z_scope.

(** A stream that is copied from: [Read] gives the next bytes, some unless all have
    been read. *)
Class ReliableReadable (F : Type) `{Readable F} := {
  readable_valid : F -> Prop;
  to_read : F -> list Z;
  read_copies n f : readable_valid f -> 0 < n ->
    exists bytes f', Read n f = Ok (Some bytes, f') /\ readable_valid f' /\ to_read f = bytes ++ to_read f' /\
      Z.of_nat (length bytes) <= n /\ if decide (bytes = []) then to_read f = [] else (reads_left f' < reads_left f)%nat
}.

(** ... and whose way of skipping skips what is there. *)
Class ReliableSource (F : Type) `{ReliableReadable F, !CopyingInputStream F} := {
  skip_copies n f : readable_valid f -> 0 < n <= Z.of_nat (length (to_read f)) ->
    exists f', SkipCopying n f = Ok (n, f') /\ readable_valid f' /\ to_read f' = drop (Z.to_nat n) (to_read f)
}.

Section Skip.
Context {F : Type} `{ReliableReadable F}.

Lemma skip_loop_spec fuel count skipped f :
  readable_valid f -> (reads_left f < fuel)%nat -> skipped <= count ->
  exists f', skip_loop fuel count skipped f = Ok (Z.min count (skipped + Z.of_nat (length (to_read f))), f') /\
    readable_valid f' /\ to_read f' = drop (Z.to_nat (count - skipped)) (to_read f).
Proof using Type.
  revert skipped f. induction fuel as [|fuel IH]; intros skipped f Hv Hf Hs; [lia|]. cbn [skip_loop].
  destruct (Z.ltb_spec skipped count) as [Hlt|Hge].
  2: { exists f. rewrite Z.min_l by lia. replace (count - skipped) with 0 by lia. by replace count with skipped by lia. }
  destruct (read_copies (Z.min (count - skipped) 4096) f Hv ltac:(lia)) as (bytes & f1 & -> & Hv1 & E & Hl & Hd).
  cbn [mbind outcome_bind]. destruct bytes as [|b bytes]; cbn [decide] in Hd; case_decide; try done.
  - exists f1. rewrite Hd in E |- *. cbn [app length] in *. rewrite drop_nil, <- E. rewrite Z.min_r by lia. by rewrite Z.add_0_r.
  - destruct (IH (skipped + Z.of_nat (length (b :: bytes))) f1 Hv1) as (f2 & -> & Hv2 & E2); [lia|lia|].
    exists f2. rewrite E, length_app. split; [|split; [done|]].
    + do 3 f_equal. lia.
    + rewrite E2. rewrite drop_app_ge by lia. f_equal. lia.
Qed.

(** The default way of skipping reads what it skips, and stops at the end. *)
Lemma default_Skip_spec n f : readable_valid f -> 0 < n ->
  exists f', default_Skip n f = Ok (Z.min n (Z.of_nat (length (to_read f))), f') /\ readable_valid f' /\
    to_read f' = drop (Z.to_nat n) (to_read f).
Proof using Type.
  intros Hv Hn. destruct (skip_loop_spec (S (reads_left f)) n 0 f Hv) as (f' & E & Hv' & E'); [lia|lia|].
  exists f'. split; [exact E|]. split; [done|]. by rewrite E', Z.sub_0_r.
Qed.
End Skip.

Module InAdaptorSpec.
Import InAdaptor.

Section Adaptor.
Context {F : Type} `{ReliableReadable F} `{!CopyingInputStream F}.
Implicit Types a : CopyingInputStreamAdaptor F.

Definition bytes_of a : list Z := default [] (buffer_ a).

Record valid a : Prop := {
  valid_stream : readable_valid (copying_stream_ a);
  valid_failed : failed_ a = false;
  valid_size : 0 < buffer_size_ a;
  valid_used : buffer_used_ a <= buffer_size_ a;
  valid_buffer : match buffer_ a with
                 | Some b => Z.of_nat (length b) = buffer_size_ a
                 | None => buffer_used_ a = 0
                 end;
  valid_backup : 0 <= backup_bytes_ a <= buffer_used_ a;
  valid_handed : 0 <= handed_ a <= buffer_used_ a /\ (0 < handed_ a -> backup_bytes_ a = 0)
}.

Definition backed_up a : list Z := slice (buffer_used_ a - backup_bytes_ a) (backup_bytes_ a) (bytes_of a).
Definition handed_out a : list Z := slice (buffer_used_ a - handed_ a) (handed_ a) (bytes_of a).
Definition adaptor_unread a : list Z := backed_up a ++ to_read (copying_stream_ a).

Lemma buffer_slice_length start size (l : list Z) :
  0 <= start -> 0 <= size -> start + size <= Z.of_nat (length l) -> length (slice start size l) = Z.to_nat size.
Proof using Type. intros. unfold slice. rewrite length_take, length_drop. lia. Qed.

Lemma buffer_length a : valid a -> buffer_used_ a <= Z.of_nat (length (bytes_of a)).
Proof using Type.
  intros Hv. pose proof (valid_used a Hv). pose proof (valid_buffer a Hv) as Hb. unfold bytes_of. destruct (buffer_ a); simpl; lia.
Qed.

Lemma handed_out_length a : valid a -> length (handed_out a) = Z.to_nat (handed_ a).
Proof using Type. intros Hv. pose proof (buffer_length a Hv). pose proof (valid_handed a Hv). apply buffer_slice_length; lia. Qed.

Lemma backed_up_length a : valid a -> length (backed_up a) = Z.to_nat (backup_bytes_ a).
Proof using Type. intros Hv. pose proof (buffer_length a Hv). pose proof (valid_backup a Hv). apply buffer_slice_length; lia. Qed.

Lemma Allocate_valid a : valid a -> valid (AllocateBufferIfNeeded a) /\
  exists b, buffer_ (AllocateBufferIfNeeded a) = Some b /\ Z.of_nat (length b) = buffer_size_ a.
Proof using Type.
  intros Hv. pose proof Hv as [Hs Hf Hz Hu Hb Hk Hh]. unfold AllocateBufferIfNeeded. destruct (buffer_ a) as [b|] eqn:Eb.
  { split; [done|]. by exists b. }
  split; [|eexists; split; [done|]; rewrite length_replicate; lia].
  split; simpl; try done. rewrite length_replicate. lia.
Qed.

Lemma slice_nothing start (l : list Z) : slice start 0 l = [].
Proof using Type. apply take_0. Qed.

(** The end of a chunk, from the end of the bytes it is part of. *)
Lemma slice_end stop size n (l : list Z) : 0 <= n <= size -> size <= stop ->
  slice (stop - n) n l = drop (Z.to_nat size - Z.to_nat n) (slice (stop - size) size l).
Proof using Type.
  intros Hn Hs. unfold slice. rewrite skipn_firstn_comm, drop_drop. f_equal; [lia|f_equal; lia].
Qed.

Lemma slice_poke size bytes (l : list Z) : Z.of_nat (length bytes) = size -> size <= Z.of_nat (length l) ->
  slice 0 size (poke 0 bytes l) = bytes.
Proof using Type.
  intros <- Hl. unfold slice, poke. rewrite Nat2Z.id, take_0. change (Z.to_nat 0) with O. rewrite drop_0. cbn [app]. apply take_app_length.
Qed.

#[export] Program Instance adaptor_input_reliable : ReliableStream (CopyingInputStreamAdaptor F) := {|
  valid_input := valid;
  unread := adaptor_unread;
  returned := handed_out
|}.
Next Obligation.
  intros a Hv. simpl. unfold Next. rewrite (valid_failed a Hv).
  destruct (Allocate_valid a Hv) as (Hv1 & b & Eb & Hlb).
  assert (adaptor_unread (AllocateBufferIfNeeded a) = adaptor_unread a /\ copying_stream_ (AllocateBufferIfNeeded a) = copying_stream_ a /\
    backup_bytes_ (AllocateBufferIfNeeded a) = backup_bytes_ a /\ buffer_size_ (AllocateBufferIfNeeded a) = buffer_size_ a) as (<- & Ec & Ek & Ez).
  { pose proof Hv as [? ? ? ? Hb Hk ?]. unfold AllocateBufferIfNeeded, adaptor_unread, backed_up, bytes_of. destruct (buffer_ a) eqn:E; [by rewrite E|].
    simpl. split_and!; try done. f_equal. unfold slice. replace (Z.to_nat (backup_bytes_ a)) with 0%nat by lia. by rewrite !take_0. }
  rewrite <- Ec, <- Ek. rewrite <- Ez in Hlb. clear Ec Ek Ez Hv. set (a1 := AllocateBufferIfNeeded a) in *. clearbody a1.
  rewrite Eb. cbn [in_bounds mbind outcome_bind]. pose proof Hv1 as [Hs Hf Hz Hu Hb Hk [Hh _]].
  unfold adaptor_unread, backed_up, handed_out, bytes_of. rewrite Eb. change (default [] (Some b)) with b.
  destruct (Z.ltb_spec 0 (backup_bytes_ a1)) as [Hpos|Hnone].
  - eexists _, _. split; [done|]. split; [split; simpl; rewrite ?Eb; try done; lia|].
    cbn -[slice Z.ltb reads_left]. rewrite ?Eb. change (default [] (Some b)) with b. split; [|split; [done|cbn; lia]].
    done.
  - destruct (read_copies (buffer_size_ a1) (copying_stream_ a1) Hs Hz) as (bytes & f & -> & Hs' & E & Hl & Hd).
    cbn [mbind outcome_bind]. assert (backup_bytes_ a1 = 0) as -> by lia.
    rewrite slice_nothing. cbn [app].
    destruct bytes as [|x bytes]; case_decide; try done.
    + unfold FreeBuffer. cbn. eexists _, _. split; [done|]. split; [split; simpl; try done; lia|]. split; [done|].
      rewrite Hd in E. exact (eq_sym E).
    + pose proof (slice_poke (Z.of_nat (length (x :: bytes))) (x :: bytes) b eq_refl ltac:(lia)) as Hsl.
      assert (Z.of_nat (length (poke 0 (x :: bytes) b)) = buffer_size_ a1) as Hpl by (rewrite poke_length; lia).
      set (chunk := x :: bytes) in *. set (p := poke 0 chunk b) in *. clearbody p chunk. rewrite Hsl.
      eexists _, _. split; [done|]. split; [split; simpl; try done; lia|].
      simpl. change (default [] (Some p)) with p. rewrite Z.sub_diag. split; [done|]. split; [done|]. lia.
Qed.
Next Obligation.
  intros n a Hv Hn. rewrite handed_out_length in * by done. pose proof Hv as [Hs Hf Hz Hu Hb Hk [Hh Hh0]]. simpl. unfold BackUp.
  rewrite (proj2 (Z.eqb_eq _ 0)) by (apply Hh0; lia). destruct (buffer_ a) as [b|] eqn:Eb; [|lia].
  rewrite (proj2 (Z.leb_le n _)), (proj2 (Z.leb_le 0 n)) by lia. cbn.
  eexists. split; [done|]. split; [split; simpl; rewrite ?Eb; try done; lia|].
  unfold adaptor_unread, backed_up, handed_out, bytes_of. simpl. rewrite Hh0 by lia.
  rewrite slice_nothing. cbn [app]. f_equal. apply slice_end; lia.
Qed.

#[export] Instance adaptor_skips_within `{!ReliableSource F} : SkipsWithin (CopyingInputStreamAdaptor F).
Proof using Type.
  intros n a Hv Hn. pose proof Hv as [Hs Hf Hz Hu Hb Hk [Hh Hh0]]. simpl in *. unfold Skip. rewrite Hf, (proj2 (Z.leb_le 0 n)) by lia. cbn [GOOGLE_CHECK mbind outcome_bind].
  pose proof (backed_up_length a Hv) as Hl. unfold adaptor_unread in *. rewrite length_app, Hl in Hn.
  destruct (Z.leb_spec n (backup_bytes_ a)) as [Hle|Hgt].
  - eexists. split; [done|]. split; [split; simpl; try done; lia|].
    rewrite drop_app_le by lia. f_equal. unfold backed_up. simpl. change (bytes_of _) with (bytes_of a).
    rewrite (slice_end (buffer_used_ a) (backup_bytes_ a)) by lia. f_equal. lia.
  - destruct (skip_copies (n - backup_bytes_ a) (copying_stream_ a) Hs ltac:(lia)) as (f & -> & Hs' & E). cbn [mbind outcome_bind].
    rewrite Z.eqb_refl. eexists. split; [done|]. split; [split; simpl; try done; lia|].
    rewrite (drop_app_ge (backed_up a)) by lia. rewrite Hl. simpl. rewrite E. f_equal. lia.
Qed.
End Adaptor.
End InAdaptorSpec.

(** ** The file *)

(** A device that gives the bytes it holds, interrupted by signals at most
    [input_interruptions] times before, and whose position moves when it can, be it
    past the end as that of a regular file, or never as that of a pipe. *)
Class ReliableInput (F : Type) `{InputDevice F} := {
  input_valid : F -> Prop;
  rest : F -> list Z;
  input_interruptions : F -> nat;
  input_interruptions_bounded f : input_valid f -> (input_interruptions f <= input_patience)%nat;
  file_read_reliable n f : input_valid f -> 0 < n ->
    let '(result, f') := file_read n f in
    input_valid f' /\
    match result with
    | Transferred bytes =>
        rest f = bytes ++ rest f' /\ Z.of_nat (length bytes) <= n /\
        if decide (bytes = []) then rest f = [] else (input_reads f' < input_reads f)%nat
    | Interrupted =>
        (input_interruptions f' < input_interruptions f)%nat /\ rest f' = rest f /\ input_reads f' = input_reads f
    | IoError _ => False
    end;
  file_seek_reliable n f : input_valid f -> 0 < n ->
    let '(sought, f') := file_seek n f in
    input_valid f' /\ rest f' = if sought : bool then drop (Z.to_nat n) (rest f) else rest f
}.

Section File.
Context {F : Type} `{ReliableInput F}.
Local Abbreviation file := (CopyingFileInputStream F).

Lemma read_no_eintr_spec fuel n (c : file) :
  input_valid (file_ c) -> 0 < n -> (input_interruptions (file_ c) < fuel)%nat ->
  exists bytes f', read_no_eintr fuel n c = Ok (Some bytes, set_file f' c) /\ input_valid f' /\ rest (file_ c) = bytes ++ rest f' /\
    Z.of_nat (length bytes) <= n /\ if decide (bytes = []) then rest (file_ c) = [] else (input_reads f' < input_reads (file_ c))%nat.
Proof using Type.
  revert c. induction fuel as [|fuel IH]; intros c Hv Hn Hf; [lia|]. cbn [read_no_eintr].
  pose proof (file_read_reliable n (file_ c) Hv Hn) as Hr. destruct (file_read n (file_ c)) as [result f]. destruct Hr as [Hv1 Hr].
  destruct result as [bytes| |e]; [by exists bytes, f| |done]. destruct Hr as (Hi & <- & <-).
  destruct (IH (set_file f c) Hv1 Hn ltac:(cbn [file_ set_file]; lia)) as (bytes & f' & -> & Hrest). by exists bytes, f'.
Qed.

#[export] Program Instance file_input_readable : ReliableReadable file := {|
  readable_valid c := is_closed_ c = false /\ input_valid (file_ c);
  to_read c := rest (file_ c)
|}.
Next Obligation.
  intros n c [Hc Hv] Hn. simpl. unfold file_Read. rewrite Hc. cbn [negb GOOGLE_CHECK mbind outcome_bind].
  destruct (read_no_eintr_spec (S input_patience) n c Hv Hn) as (bytes & f' & -> & Hv' & Hrest).
  { pose proof (input_interruptions_bounded _ Hv). lia. }
  by eexists _, _.
Qed.

(** All branches of [Skip]. *)
Lemma file_Skip_spec n (c : file) : is_closed_ c = false -> input_valid (file_ c) -> 0 < n ->
  exists skipped c', file_Skip n c = Ok (skipped, c') /\ is_closed_ c' = false /\ input_valid (file_ c') /\
    rest (file_ c') = drop (Z.to_nat n) (rest (file_ c)) /\
    (skipped = Z.min n (Z.of_nat (length (rest (file_ c)))) \/ skipped = n /\ exists f', file_seek n (file_ c) = (true, f')).
Proof using Type.
  intros Hc Hv Hn. unfold file_Skip. rewrite Hc. cbn [negb GOOGLE_CHECK mbind outcome_bind].
  pose proof (file_seek_reliable n (file_ c) Hv Hn) as Hs.
  assert (forall c1 : file, is_closed_ c1 = false -> input_valid (file_ c1) -> rest (file_ c1) = rest (file_ c) ->
    exists skipped c', default_Skip n (set_seek_failed true c1) = Ok (skipped, c') /\ is_closed_ c' = false /\ input_valid (file_ c') /\
      rest (file_ c') = drop (Z.to_nat n) (rest (file_ c)) /\ skipped = Z.min n (Z.of_nat (length (rest (file_ c))))) as Hdefault.
  { intros c1 Hc1 Hv1 E1. destruct (default_Skip_spec n (set_seek_failed true c1)) as (c2 & -> & [Hc2 Hv2] & E2); [done|done|].
    eexists _, c2. split; [done|]. simpl in *. rewrite E1 in *. by rewrite E2. }
  destruct (previous_seek_failed_ c).
  - destruct (Hdefault c Hc Hv eq_refl) as (k & c' & -> & ? & ? & ? & ?). eexists _, _. split_and!; eauto.
  - destruct (file_seek n (file_ c)) as [[] f'] eqn:E; destruct Hs as [Hv' Hs].
    + exists n, (set_file f' c). split_and!; eauto.
    + destruct (Hdefault (set_file f' c) Hc Hv' Hs) as (k & c' & -> & ? & ? & ? & ?). eexists _, _. split_and!; eauto.
Qed.

#[export] Instance file_input_source : ReliableSource file.
Proof using Type.
  split. intros n c [Hc Hv] Hn. simpl in Hn. destruct (file_Skip_spec n c Hc Hv ltac:(lia)) as (k & c' & E & Hc' & Hv' & Hr & Hk).
  exists c'. split; [|done]. simpl. rewrite E. do 2 f_equal. destruct Hk as [->|[-> _]]; lia.
Qed.

Lemma new_file_input_valid (f : F) block_size :
  input_valid f -> InAdaptorSpec.valid (new_FileInputStream f block_size).
Proof using Type.
  intros Hv. split; simpl; try done; try lia; destruct (Z.ltb_spec 0 block_size); unfold kDefaultBlockSize; lia.
Qed.
End File.

#[local] Existing Instance Adaptor.adaptor_output.
#[local] Existing Instance AdaptorSpec.adaptor_lawful.
#[local] Existing Instance InAdaptor.adaptor_input.
#[local] Existing Instance InAdaptorSpec.adaptor_input_reliable.

Section Log.
Context {F G M : Type} `{RD : ReliableDevice F} `{RI : ReliableInput G}.
Context `{LM : LawfulMessage M} `{PM : !Parsable M (FileInputStream G)} `{LP : !LawfulParser M (FileInputStream G)}.

(** C39. A log that was written and closed can be read back, from a regular file or
    from a pipe: the same messages in the same order and nothing behind them,
    whatever parts the system takes and gives, however often signals interrupt it,
    and whatever the sizes of the buffers on both sides.  The log and one buffer are
    shorter than [INT_MAX] bytes, the calls fail for no other reason than a signal,
    and no message is nested deeper than the parser allows.  (That [lseek] moves
    past the end of a regular file does no harm here: the parser skips within the
    length of its message; see [skip_past_the_end].) *)
Theorem log_file_roundtrip (ms : list M) (f : F) block_size :
  device_valid f -> contents f = [] ->
  let o := new_FileOutputStream f block_size in
  Z.of_nat (length (concat (delimited <$> ms))) + Adaptor.buffer_size_ o < INT_MAX ->
  Forall (fun m => depth (I := FileInputStream G) m <= default_recursion_limit_) ms ->
  exists o1 o2,
    serialize_all ms o = Ok (true, o1) /\ Close o1 = Ok (true, o2) /\
    forall (g : G) read_size, input_valid g -> rest g = file_contents o2 ->
      exists i', parse_all (length ms) (new_FileInputStream g read_size) = Ok (ms, i') /\ unread i' = [].
Proof using All.
  cbn zeta. intros Hv Hc Hroom Hdepth. destruct (log_written ms f block_size Hv Hc Hroom) as (o1 & E1 & Hv1 & Hm & Ec).
  destruct (Close_spec o1 Hv1) as (o2 & E2 & Hf & _). exists o1, o2. split; [done|]. split; [done|].
  intros g read_size Hg Eg. assert (valid_input (new_FileInputStream g read_size)) as Hi by exact (new_file_input_valid g read_size Hg).
  assert (unread (new_FileInputStream g read_size) = concat (delimited <$> ms) ++ []) as Eu.
  { rewrite app_nil_r, <- Ec, <- Hf, <- Eg. done. }
  destruct (parse_all_spec ms [] _ Hi Eu) as (i' & E' & _ & Eu'); [constructor| |done|by exists i'].
  rewrite Eu, app_nil_r. pose proof (AdaptorSpec.valid_size o1 Hv1). lia.
Qed.
End Log.

(** ** Where [Skip] departs from its contract *)

Section Past.
Context {F : Type} `{RI : ReliableInput F}.

(** On a file whose position may move behind its end, [Skip] of more than there is
    says that it succeeded, though its contract promises [false] at the end of the
    stream; all of the file is then behind the stream. *)
Theorem skip_past_the_end n (i : FileInputStream F) f' :
  InAdaptor.failed_ i = false -> is_closed_ (InAdaptor.copying_stream_ i) = false ->
  previous_seek_failed_ (InAdaptor.copying_stream_ i) = false -> InAdaptor.backup_bytes_ i = 0 ->
  input_valid (file_ (InAdaptor.copying_stream_ i)) -> Z.of_nat (length (rest (file_ (InAdaptor.copying_stream_ i)))) < n ->
  file_seek n (file_ (InAdaptor.copying_stream_ i)) = (true, f') ->
  exists i', InAdaptor.Skip n i = Ok (true, i') /\ InAdaptor.backup_bytes_ i' = 0 /\ rest (file_ (InAdaptor.copying_stream_ i')) = [].
Proof using All.
  intros Hf Hc Hs Hb Hv Hn Hseek. unfold InAdaptor.Skip. rewrite (proj2 (Z.leb_le 0 n)), Hf, Hb, (proj2 (Z.leb_gt n 0)), Z.sub_0_r by lia.
  cbn [GOOGLE_CHECK mbind outcome_bind SkipCopying file_copying_input]. unfold file_Skip. rewrite Hc, Hs, Hseek.
  cbn [negb GOOGLE_CHECK mbind outcome_bind]. rewrite Z.eqb_refl. eexists. split; [done|]. split; [done|]. simpl.
  pose proof (file_seek_reliable n _ Hv ltac:(lia)) as Hr. rewrite Hseek in Hr. destruct Hr as [_ ->]. apply drop_ge. lia.
Qed.
End Past.

(** ** A log of two messages, read back

    Two bytes at a time at most, a signal interrupts every other call.  The position
    of a source that is not seekable, like a pipe, cannot be moved; that of one that
    is, like a regular file, can, past the end as well. *)

#[local] Existing Instance one_bool.
#[local] Existing Instance one_bool_lawful.
#[local] Existing Instance one_bool_parsable.
#[local] Existing Instance one_bool_parser.
#[local] Existing Instance slow_file.
#[local] Existing Instance slow_reliable.

Record slow_source := mkSource { source_rest : list Z; source_ready : bool; seekable : bool }.

#[local] Instance slow_input : InputDevice slow_source := {
  file_read size f :=
    if source_ready f
    then (Transferred (take (Z.to_nat (Z.min size 2)) (source_rest f)),
          mkSource (drop (Z.to_nat (Z.min size 2)) (source_rest f)) false (seekable f))
    else (Interrupted, mkSource (source_rest f) true (seekable f));
  file_seek n f := if seekable f then (true, mkSource (drop (Z.to_nat n) (source_rest f)) (source_ready f) true) else (false, f);
  input_close f := if source_ready f then (Transferred tt, f) else (Interrupted, mkSource (source_rest f) true (seekable f));
  input_patience := 1;
  input_reads f := length (source_rest f)
}.

Lemma slow_reads n (l : list Z) : 0 < n -> let k := Z.to_nat (Z.min n 2) in
  Z.of_nat (length (take k l)) <= n /\ if decide (take k l = []) then l = [] else (length (drop k l) < length l)%nat.
Proof.
  cbn zeta. intros Hn. rewrite length_take, length_drop. split; [lia|].
  destruct l as [|x l]; destruct (decide _) as [E|E]; try done; [..|cbn [length]; lia]; exfalso; [|].
  { by apply E, take_nil. }
  apply (f_equal length) in E. rewrite length_take in E. cbn [length] in E. lia.
Qed.

#[local] Program Instance file_input : ReliableInput slow_source := {|
  input_valid _ := True;
  rest := source_rest;
  input_interruptions f := if source_ready f then 0%nat else 1%nat
|}.
Next Obligation. intros [l [] s] _; simpl; lia. Qed.
Next Obligation.
  intros n [l [] s] _ Hn; simpl; (split; [done|]); [|by split; [lia|]].
  rewrite take_drop. split; [done|]. by apply slow_reads.
Qed.
Next Obligation. by intros n [l r []] _ Hn. Qed.

Lemma log_file_roundtrip_witness :
  exists o1 o2,
    serialize_all [true; false] (new_FileOutputStream (mkSlow [] false) 4) = Ok (true, o1) /\ Close o1 = Ok (true, o2) /\
    forall g read_size, source_rest g = file_contents o2 ->
      exists i', parse_all 2 (new_FileInputStream g read_size) = Ok ([true; false], i') /\ unread i' = [].
Proof.
  destruct (log_file_roundtrip (RI := file_input) [true; false] (mkSlow [] false) 4) as (o1 & o2 & E1 & E2 & Hread);
    [exact I|done|by vm_compute|by repeat constructor|].
  exists o1, o2. split; [exact E1|]. split; [exact E2|]. intros g read_size Eg. exact (Hread g read_size I Eg).
Defined.

Lemma skip_past_the_end_witness :
  exists i', InAdaptor.Skip 5 (new_FileInputStream (mkSource [1; 2; 3] false true) 4) = Ok (true, i') /\
    InAdaptor.backup_bytes_ i' = 0 /\ source_rest (file_ (InAdaptor.copying_stream_ i')) = [].
Proof.
  by apply (skip_past_the_end (RI := file_input) 5 (new_FileInputStream (mkSource [1; 2; 3] false true) 4) (mkSource [] false true)).
Defined.
