(* ===== verification/CombinedStreams.v ===== *)
(** * Streams made of streams ([deps/protobuf/.../io/zero_copy_stream_impl.cc])

    Several streams one after the other, and a part of a stream.  The assertions of
    debug builds are left out. *)
From S2P Require Import Prelude ZeroCopyStream.
#[local] Open Scope Z_scope.

(** ** One after the other *)

Module Concatenating.
Section Concatenating.
Context {I : Type} `{ZeroCopyInputStream I}.

(** [streams_] from the current stream on; its length is [stream_count_]. *)
Record ConcatenatingInputStream := mkConcatenating {
  streams_ : list I;
  bytes_retired_ : Z
}.
Implicit Types c : ConcatenatingInputStream.

Definition new_ConcatenatingInputStream (streams : list I) : ConcatenatingInputStream := mkConcatenating streams 0.

Fixpoint next_of (streams : list I) (retired : Z) : outcome (option (list Z) * ConcatenatingInputStream) :=
  match streams with
  | [] => Ok (None, mkConcatenating [] retired)
  | i :: streams =>
      '(data, i) ← ZeroCopyStream.Next i;
      match data with
      | Some data => Ok (Some data, mkConcatenating (i :: streams) retired)
      | None => next_of streams (retired + ZeroCopyStream.ByteCount i)
      end
  end.

Definition Next c : outcome (option (list Z) * ConcatenatingInputStream) := next_of (streams_ c) (bytes_retired_ c).

(** After the last stream the call is only logged. *)
Definition BackUp (count : Z) c : outcome ConcatenatingInputStream :=
  match streams_ c with
  | i :: streams => '(i) ← ZeroCopyStream.BackUp count i; Ok (mkConcatenating (i :: streams) (bytes_retired_ c))
  | [] => Ok c
  end.

Fixpoint skip_in (streams : list I) (retired count : Z) : outcome (bool * ConcatenatingInputStream) :=
  match streams with
  | [] => Ok (false, mkConcatenating [] retired)
  | i :: streams =>
      let target_byte_count := ZeroCopyStream.ByteCount i + count in
      '(skipped, i) ← ZeroCopyStream.Skip count i;
      if skipped : bool then Ok (true, mkConcatenating (i :: streams) retired)
      else
        let final_byte_count := ZeroCopyStream.ByteCount i in
        skip_in streams (retired + final_byte_count) (target_byte_count - final_byte_count)
  end.

Definition Skip (count : Z) c : outcome (bool * ConcatenatingInputStream) := skip_in (streams_ c) (bytes_retired_ c) count.

Definition ByteCount c : Z :=
  match streams_ c with
  | [] => bytes_retired_ c
  | i :: _ => bytes_retired_ c + ZeroCopyStream.ByteCount i
  end.

#[export] Instance concatenating_stream : ZeroCopyInputStream ConcatenatingInputStream := {
  ZeroCopyStream.Next := Next;
  ZeroCopyStream.BackUp := BackUp;
  ZeroCopyStream.Skip := Skip;
  ZeroCopyStream.ByteCount := ByteCount;
  nexts_left c := list_sum (nexts_left <$> streams_ c)
}.
End Concatenating.
Arguments ConcatenatingInputStream : clear implicits.
End Concatenating.

(** ** A part of a stream *)

Module Limiting.
Section Limiting.
Context {I : Type} `{ZeroCopyInputStream I}.

(** [limit_] is negative when the last chunk went beyond the limit. *)
Record LimitingInputStream := mkLimiting {
  input_ : I;
  limit_ : Z;
  prior_bytes_read_ : Z
}.
Implicit Types l : LimitingInputStream.

Definition new_LimitingInputStream (input : I) (limit : Z) : LimitingInputStream :=
  mkLimiting input limit (ZeroCopyStream.ByteCount input).

(** The destructor; the stream that was limited stays. *)
Definition destroy l : outcome I :=
  if limit_ l <? 0 then ZeroCopyStream.BackUp (- limit_ l) (input_ l) else Ok (input_ l).

Definition Next l : outcome (option (list Z) * LimitingInputStream) :=
  if limit_ l <=? 0 then Ok (None, l)
  else
    '(data, input) ← ZeroCopyStream.Next (input_ l);
    Ok (match data with
        | None => (None, mkLimiting input (limit_ l) (prior_bytes_read_ l))
        | Some data =>
            let size := Z.of_nat (length data) in
            let limit := limit_ l - size in
            let size := if limit <? 0 then size + limit else size in
            (Some (take (Z.to_nat size) data), mkLimiting input limit (prior_bytes_read_ l))
        end).

Definition BackUp (count : Z) l : outcome LimitingInputStream :=
  if limit_ l <? 0 then
    '(input) ← ZeroCopyStream.BackUp (count - limit_ l) (input_ l);
    Ok (mkLimiting input count (prior_bytes_read_ l))
  else
    '(input) ← ZeroCopyStream.BackUp count (input_ l);
    Ok (mkLimiting input (limit_ l + count) (prior_bytes_read_ l)).

Definition Skip (count : Z) l : outcome (bool * LimitingInputStream) :=
  if limit_ l <? count then
    if limit_ l <? 0 then Ok (false, l)
    else
      '(_, input) ← ZeroCopyStream.Skip (limit_ l) (input_ l);
      Ok (false, mkLimiting input 0 (prior_bytes_read_ l))
  else
    '(skipped, input) ← ZeroCopyStream.Skip count (input_ l);
    Ok (skipped, mkLimiting input (if skipped : bool then limit_ l - count else limit_ l) (prior_bytes_read_ l)).

Definition ByteCount l : Z :=
  if limit_ l <? 0 then ZeroCopyStream.ByteCount (input_ l) + limit_ l - prior_bytes_read_ l
  else ZeroCopyStream.ByteCount (input_ l) - prior_bytes_read_ l.

#[export] Instance limiting_stream : ZeroCopyInputStream LimitingInputStream := {
  ZeroCopyStream.Next := Next;
  ZeroCopyStream.BackUp := BackUp;
  ZeroCopyStream.Skip := Skip;
  ZeroCopyStream.ByteCount := ByteCount;
  nexts_left l := nexts_left (input_ l)
}.
End Limiting.
Arguments LimitingInputStream : clear implicits.
End Limiting.
