(* ===== verification/CombinedStreamsSpec.v ===== *)
(** * Streams made of streams meet the contract of a stream *)
From S2P Require Import Prelude Varint CodedStream CodedStreamSpec WireFormat WireFormatSpec OutputStream.
From S2P Require Import CodedOutput CodedOutputSpec Delimited DelimitedSpec ZeroCopyStream CombinedStreams.
#[local] Open Scope Z_scope.

(** A stream whose [ByteCount] is the number of bytes that were given. *)
Class CountingInput (I : Type) `{LawfulInput I} : Prop := {
  next_counts i o i' : valid_input i -> Next i = Ok (o, i') -> ByteCount i' = ByteCount i + Z.of_nat (length (default [] o));
  back_up_counts n i i' : valid_input i -> 0 < n <= Z.of_nat (length (returned i)) -> BackUp n i = Ok i' ->
    ByteCount i' = ByteCount i - n;
  skip_counts n i b i' : valid_input i -> 0 <= n -> Skip n i = Ok (b, i') ->
    ByteCount i' = ByteCount i + Z.min n (Z.of_nat (length (unread i)))
}.

Module ConcatenatingSpec.
Import Concatenating.

Section Concatenating.
Context {I : Type} `{CountingInput I}.
Local Abbreviation stream := (ConcatenatingInputStream I).
Implicit Types c : stream.

Definition valid c : Prop := Forall valid_input (streams_ c).
Definition all_unread (streams : list I) : list Z := concat (unread <$> streams).
Definition last_returned c : list Z := match streams_ c with i :: _ => returned i | [] => [] end.

Lemma all_unread_cons i streams : all_unread (i :: streams) = unread i ++ all_unread streams.
Proof using Type. done. Qed.

Lemma next_of_spec streams retired : Forall valid_input streams ->
  exists o c, next_of streams retired = Ok (o, c) /\ valid c /\
    match o with
    | Some chunk => all_unread streams = chunk ++ all_unread (streams_ c) /\ last_returned c = chunk /\
        (list_sum (nexts_left <$> streams_ c) < list_sum (nexts_left <$> streams))%nat
    | None => all_unread streams = [] /\ all_unread (streams_ c) = []
    end.
Proof using Type.
  revert retired. induction streams as [|i streams IH]; intros retired Hv.
  { exists None, (mkConcatenating [] retired). by split_and!. }
  apply Forall_cons_1 in Hv as [Hi Hv]. cbn [next_of].
  destruct (next_lawful i Hi) as (o & i' & -> & Hi' & Ho). cbn [mbind outcome_bind]. destruct o as [chunk|].
  - destruct Ho as (Eu & Er & Hn). eexists _, _. split; [done|]. split; [by constructor|]. unfold all_unread. cbn [streams_ fmap list_fmap concat].
    rewrite Eu, <- app_assoc. split_and!; [done..|]. simpl. lia.
  - destruct (IH (retired + ZeroCopyStream.ByteCount i') Hv) as (o & c & -> & Hc & Ho'). exists o, c. split; [done|]. split; [done|].
    unfold all_unread in *. cbn [fmap list_fmap concat]. destruct Ho as [-> _]. destruct o; [|done].
    destruct Ho' as (? & ? & Hn). split_and!; [done..|]. simpl. lia.
Qed.

Lemma skip_in_spec streams retired n : Forall valid_input streams -> 0 <= n ->
  exists b c, skip_in streams retired n = Ok (b, c) /\ valid c /\ all_unread (streams_ c) = drop (Z.to_nat n) (all_unread streams) /\
    (b = (n <=? Z.of_nat (length (all_unread streams))) \/ n = 0 /\ b = false /\ all_unread streams = []).
Proof using All.
  revert retired n. induction streams as [|i streams IH]; intros retired n Hv Hn.
  { exists false, (mkConcatenating [] retired). split_and!; try done; [by symmetry; apply drop_nil|]. simpl.
    destruct (decide (n = 0)) as [->|]; [by right|left]. symmetry. apply Z.leb_gt. lia. }
  apply Forall_cons_1 in Hv as [Hi Hv]. cbn [skip_in]. rewrite all_unread_cons.
  destruct (skip_lawful n i Hi Hn) as (b & i' & E & Hi' & Eu & Hb). rewrite E. cbn [mbind outcome_bind].
  rewrite (skip_counts n i b i' Hi Hn E), length_app. destruct b.
  - assert (n <= Z.of_nat (length (unread i))) as Hle by (destruct Hb as [Hb|(_ & ? & _)]; [by apply Z.leb_le|done]).
    eexists _, _. split; [done|]. split; [by constructor|]. cbn [streams_]. rewrite all_unread_cons, Eu, drop_app_le by lia.
    split; [done|]. left. symmetry. apply Z.leb_le. lia.
  - assert (Z.of_nat (length (unread i)) <= n) as Hge.
    { destruct Hb as [Hb|(-> & _ & ->)]; [symmetry in Hb; apply Z.leb_gt in Hb; lia|done]. }
    rewrite Z.min_r by done. set (n' := ZeroCopyStream.ByteCount i + n - _). assert (n' = n - Z.of_nat (length (unread i))) as -> by (unfold n'; lia).
    assert (0 <= n - Z.of_nat (length (unread i))) as Hn' by lia.
    destruct (IH (retired + (ZeroCopyStream.ByteCount i + Z.of_nat (length (unread i)))) (n - Z.of_nat (length (unread i))) Hv Hn') as (b & c & -> & Hc & Ec & Hb').
    exists b, c. split; [done|]. split; [done|]. rewrite Ec, drop_app_ge by lia. split; [f_equal; lia|].
    destruct Hb' as [->|(En & -> & E0)]; [left; apply eq_true_iff_eq; rewrite !Z.leb_le; lia|]. rewrite E0. simpl.
    destruct Hb as [Hb|(-> & _ & ->)]; [|by right]. symmetry in Hb. apply Z.leb_gt in Hb. lia.
Qed.

#[export] Program Instance concatenating_reliable : ReliableStream stream := {|
  valid_input := valid;
  unread c := all_unread (streams_ c);
  returned := last_returned
|}.
Next Obligation. intros c Hv. by apply next_of_spec. Qed.
Next Obligation.
  intros n c Hv Hn. simpl. unfold Concatenating.BackUp, last_returned, valid in *. destruct (streams_ c) as [|i streams]; [simpl in *; lia|].
  apply Forall_cons_1 in Hv as [Hi Hv]. destruct (back_up_lawful n i Hi Hn) as (i' & -> & Hi' & Eu).
  eexists. split; [done|]. split; [by constructor|]. unfold all_unread. cbn [streams_ fmap list_fmap concat]. by rewrite Eu, app_assoc.
Qed.

#[export] Instance concatenating_lawful : LawfulInput stream.
Proof using All. split. intros n c Hv Hn. by apply skip_in_spec. Qed.
End Concatenating.
End ConcatenatingSpec.

Module LimitingSpec.
Import Limiting.

Section Limiting.
Context {I : Type} `{ReliableStream I} `{!LawfulInput I}.
Local Abbreviation stream := (LimitingInputStream I).
Implicit Types l : stream.

(** What the last chunk has beyond the limit can be backed up. *)
Definition valid l : Prop := valid_input (input_ l) /\ - limit_ l <= Z.of_nat (length (returned (input_ l))).

Definition limited_unread l : list Z := take (Z.to_nat (limit_ l)) (unread (input_ l)).
Definition limited_returned l : list Z :=
  take (length (returned (input_ l)) - Z.to_nat (- limit_ l)) (returned (input_ l)).

(** The bytes behind the limit: those of the stream from there on. *)
Definition beyond l : list Z :=
  if limit_ l <? 0 then drop (length (returned (input_ l)) - Z.to_nat (- limit_ l)) (returned (input_ l)) ++ unread (input_ l)
  else drop (Z.to_nat (limit_ l)) (unread (input_ l)).

Lemma Next_spec l : valid l ->
  exists o l', Limiting.Next l = Ok (o, l') /\ valid l' /\ beyond l' = beyond l /\
    match o with
    | Some chunk => limited_unread l = chunk ++ limited_unread l' /\ limited_returned l' = chunk /\
        (nexts_left (input_ l') < nexts_left (input_ l))%nat
    | None => limited_unread l = [] /\ limited_unread l' = []
    end.
Proof using Type.
  intros [Hi Hr]. unfold Limiting.Next, limited_unread. destruct (Z.leb_spec (limit_ l) 0) as [Hz|Hpos].
  { exists None, l. replace (Z.to_nat (limit_ l)) with O by lia. by split_and!. }
  destruct (next_lawful (input_ l) Hi) as (o & i & -> & Hi' & Ho). cbn [mbind outcome_bind]. destruct o as [chunk|].
  - destruct Ho as (Eu & Er & Hn). eexists _, _. split; [done|]. set (size := Z.of_nat (length chunk)).
    split; [split; simpl; [done|rewrite Er; lia]|]. unfold beyond, limited_returned. cbn [input_ limit_]. rewrite Er, Eu, (proj2 (Z.ltb_ge (limit_ l) 0)) by lia.
    destruct (Z.ltb_spec (limit_ l - size) 0) as [Hover|Hin].
    + replace (Z.to_nat (limit_ l - size)) with O by lia. rewrite take_0, app_nil_r, take_app_le, drop_app_le by lia.
      split; [do 2 f_equal; lia|]. split; [f_equal; lia|]. split; [f_equal; lia|done].
    + replace (Z.to_nat (- (limit_ l - size))) with O by lia. rewrite Nat.sub_0_r, take_app_ge, drop_app_ge by lia.
      rewrite firstn_all, (firstn_all2 chunk (n := Z.to_nat size)) by lia.
      split; [f_equal; lia|]. split; [do 2 f_equal; lia|done].
  - destruct Ho as [E E']. eexists _, _. split; [done|]. split; [split; simpl; [done|lia]|]. unfold beyond. cbn [input_ limit_].
    rewrite (proj2 (Z.ltb_ge (limit_ l) 0)) by lia. rewrite E, E', take_nil. by split_and!.
Qed.

Lemma limited_returned_length l : length (limited_returned l) = (length (returned (input_ l)) - Z.to_nat (- limit_ l))%nat.
Proof using Type. unfold limited_returned. rewrite length_take. lia. Qed.

Lemma BackUp_spec n l : valid l -> 0 < n <= Z.of_nat (length (limited_returned l)) ->
  exists l', Limiting.BackUp n l = Ok l' /\ valid l' /\ beyond l' = beyond l /\
    limited_unread l' = drop (length (limited_returned l) - Z.to_nat n) (limited_returned l) ++ limited_unread l.
Proof using Type.
  intros [Hi Hr] Hn. rewrite limited_returned_length in *. unfold Limiting.BackUp, limited_returned, limited_unread, beyond.
  destruct (Z.ltb_spec (limit_ l) 0) as [Hover|Hin].
  - destruct (back_up_lawful (n - limit_ l) (input_ l) Hi ltac:(lia)) as (i & -> & Hi' & Eu). cbn [mbind outcome_bind].
    eexists. split; [done|]. split; [split; simpl; [done|lia]|]. cbn [input_ limit_]. rewrite (proj2 (Z.ltb_ge n 0)), Eu by lia.
    replace (Z.to_nat (limit_ l)) with O by lia. rewrite take_0, app_nil_r.
    rewrite drop_app_le, drop_drop, take_app_le, skipn_firstn_comm by (rewrite length_drop; lia).
    split; [do 2 f_equal; lia|f_equal; [lia|f_equal; lia]].
  - destruct (back_up_lawful n (input_ l) Hi ltac:(lia)) as (i & -> & Hi' & Eu). cbn [mbind outcome_bind].
    eexists. split; [done|]. split; [split; simpl; [done|lia]|]. cbn [input_ limit_]. rewrite (proj2 (Z.ltb_ge (limit_ l + n) 0)), Eu by lia.
    replace (Z.to_nat (- limit_ l)) with O by lia. rewrite Nat.sub_0_r, (firstn_all2 (returned _)) by lia.
    rewrite drop_app_ge, take_app_ge, length_drop by (rewrite length_drop; lia).
    split; [f_equal; lia|do 2 f_equal; lia].
Qed.

Lemma limiting_Skip_spec n l : valid l -> 0 <= n ->
  exists b l', Limiting.Skip n l = Ok (b, l') /\ valid l' /\ beyond l' = beyond l /\
    limited_unread l' = drop (Z.to_nat n) (limited_unread l) /\
    (b = (n <=? Z.of_nat (length (limited_unread l))) \/ n = 0 /\ b = false /\ limited_unread l = []).
Proof using All.
  intros [Hi Hr] Hn. unfold Limiting.Skip, limited_unread, beyond. rewrite length_take. destruct (Z.ltb_spec (limit_ l) n) as [Hlt|Hge].
  - destruct (Z.ltb_spec (limit_ l) 0) as [Hneg|Hnn].
    { exists false, l. replace (Z.to_nat (limit_ l)) with O by lia. rewrite take_0, drop_nil.
      split; [done|]. split; [by split|]. rewrite (proj2 (Z.ltb_lt (limit_ l) 0)) by lia. split; [done|]. split; [done|]. destruct (decide (n = 0)); [by right|left]. symmetry. apply Z.leb_gt. lia. }
    destruct (skip_lawful (limit_ l) (input_ l) Hi Hnn) as (b & i & -> & Hi' & Eu & _). cbn [mbind outcome_bind].
    eexists _, _. split; [done|]. split; [split; simpl; [done|lia]|]. cbn [input_ limit_]. rewrite Eu, take_0, drop_0.
    split; [done|]. split; [|left; symmetry; apply Z.leb_gt; lia]. by rewrite drop_ge by (rewrite length_take; lia).
  - destruct (skip_lawful n (input_ l) Hi Hn) as (b & i & -> & Hi' & Eu & Hb). cbn [mbind outcome_bind].
    eexists _, _. split; [done|]. split; [split; simpl; [done|destruct b; lia]|]. cbn [input_ limit_].
    rewrite !(proj2 (Z.ltb_ge _ 0)), Eu by (destruct b; lia). rewrite drop_drop, skipn_firstn_comm.
    assert (b = false -> Z.of_nat (length (unread (input_ l))) <= n) as Hfalse.
    { intros ->. destruct Hb as [Hb|(-> & _ & ->)]; [symmetry in Hb; apply Z.leb_gt in Hb; lia|done]. }
    split; [|split].
    + destruct b; [f_equal; lia|]. specialize (Hfalse eq_refl). rewrite !drop_ge by lia. done.
    + destruct b; [f_equal; lia|]. specialize (Hfalse eq_refl). rewrite drop_ge by lia. by rewrite !take_nil.
    + destruct Hb as [->|(-> & -> & ->)]; [left; apply eq_true_iff_eq; rewrite !Z.leb_le; lia|right]. by rewrite take_nil.
Qed.

#[export] Program Instance limiting_reliable : ReliableStream stream := {|
  valid_input := valid;
  unread := limited_unread;
  returned := limited_returned
|}.
Next Obligation. intros l Hv. destruct (Next_spec l Hv) as (o & l' & E & Hv' & _ & Ho). by exists o, l'. Qed.
Next Obligation. intros n l Hv Hn. destruct (BackUp_spec n l Hv Hn) as (l' & E & Hv' & _ & Ho). by exists l'. Qed.

#[export] Instance limiting_lawful : LawfulInput stream.
Proof using All. split. intros n l Hv Hn. destruct (limiting_Skip_spec n l Hv Hn) as (b & l' & E & Hv' & _ & Ho). by exists b, l'. Qed.
End Limiting.
End LimitingSpec.

(** ** What is left when the part has been read *)

Section Part.
Context {I : Type} `{ReliableStream I} `{!LawfulInput I}.
Import Limiting LimitingSpec.
Implicit Types l : LimitingInputStream I.

(** A call of the stream, within its contract. *)
Inductive part_call : LimitingInputStream I -> LimitingInputStream I -> Prop :=
  | part_Next l o l' : Limiting.Next l = Ok (o, l') -> part_call l l'
  | part_BackUp n l l' : 0 < n <= Z.of_nat (length (limited_returned l)) -> Limiting.BackUp n l = Ok l' -> part_call l l'
  | part_Skip n l b l' : 0 <= n -> Limiting.Skip n l = Ok (b, l') -> part_call l l'.

Lemma part_call_keeps l l' : valid l -> part_call l l' -> valid l' /\ beyond l' = beyond l.
Proof using LawfulInput0.
  intros Hv Hcall. destruct Hcall as [l o l' E|n l l' Hn E|n l b l' Hn E].
  - destruct (Next_spec l Hv) as (o1 & l1 & E1 & Hv1 & Hb & _). rewrite E1 in E. apply ok_inj in E. by injection E as _ <-.
  - destruct (BackUp_spec n l Hv Hn) as (l1 & E1 & Hv1 & Hb & _). rewrite E1 in E. by injection E as <-.
  - destruct (limiting_Skip_spec n l Hv Hn) as (b1 & l1 & E1 & Hv1 & Hb & _). rewrite E1 in E. apply ok_inj in E. by injection E as _ <-.
Qed.

(** C33. However a part of a stream was read, backed up and skipped, the destructor
    puts the stream behind what was consumed: the bytes of the part that are
    unread, and all bytes behind the part, are there to be read; none is lost to
    a chunk that went beyond the limit. *)
Theorem part_leaves_the_rest i limit l : valid_input i -> 0 <= limit ->
  rtc part_call (new_LimitingInputStream i limit) l ->
  exists i', destroy l = Ok i' /\ valid_input i' /\ unread i' = unread l ++ drop (Z.to_nat limit) (unread i).
Proof using All.
  intros Hi Hlimit Hcalls.
  assert (valid l /\ beyond l = drop (Z.to_nat limit) (unread i)) as [[Hv Hr] Hb].
  { assert (valid (new_LimitingInputStream i limit)) as Hnew by (split; simpl; [done|lia]).
    assert (beyond (new_LimitingInputStream i limit) = drop (Z.to_nat limit) (unread i)) as <-.
    { unfold beyond. cbn [limit_ input_ new_LimitingInputStream]. by rewrite (proj2 (Z.ltb_ge limit 0)). }
    clear Hi. induction Hcalls as [|a b c Hcall _ IH]; [done|]. destruct (part_call_keeps a b Hnew Hcall) as [Hb <-]. by apply IH. }
  rewrite <- Hb. unfold destroy, beyond. simpl. unfold limited_unread. destruct (Z.ltb_spec (limit_ l) 0).
  - destruct (back_up_lawful (- limit_ l) (input_ l) Hv ltac:(lia)) as (i' & -> & Hi' & Eu). exists i'. split; [done|]. split; [done|].
    replace (Z.to_nat (limit_ l)) with O by lia. by rewrite Eu.
  - exists (input_ l). by rewrite take_drop.
Qed.
End Part.

(** ** Messages in pieces *)

#[local] Existing Instance Concatenating.concatenating_stream.
#[local] Existing Instance ConcatenatingSpec.concatenating_reliable.
#[local] Existing Instance ConcatenatingSpec.concatenating_lawful.

Section Pieces.
Context {I M : Type} `{LI : LawfulInput I, !CountingInput I} `{LM : LawfulMessage M}.
Context `{PM : !Parsable M (Concatenating.ConcatenatingInputStream I)} `{LP : !LawfulParser M (Concatenating.ConcatenatingInputStream I)}.

(** Messages that lie in several streams, wherever they were cut, are read from
    the streams put together: the same messages in the same order. *)
Theorem messages_in_pieces (ms : list M) (streams : list I) :
  Forall valid_input streams -> concat (unread <$> streams) = concat (delimited <$> ms) ->
  Z.of_nat (length (concat (delimited <$> ms))) < INT_MAX ->
  Forall (fun m => depth (I := Concatenating.ConcatenatingInputStream I) m <= default_recursion_limit_) ms ->
  exists c, parse_all (length ms) (Concatenating.new_ConcatenatingInputStream streams) = Ok (ms, c) /\ unread c = [].
Proof using All.
  intros Hv Eu Hlen Hdepth. set (c := Concatenating.new_ConcatenatingInputStream streams).
  assert (valid_input c) as Hc by exact Hv. assert (unread c = concat (delimited <$> ms) ++ []) as Ec by (rewrite app_nil_r; exact Eu).
  destruct (parse_all_spec ms [] c Hc Ec) as (c' & E & _ & Ec'); [constructor| |done|by exists c']. by rewrite Ec, app_nil_r.
Qed.
End Pieces.

(** ** Arrays count *)

#[local] Existing Instance ArrayInputStream.array_stream.
#[local] Existing Instance ArrayInputStream.array_reliable.
#[local] Existing Instance ArrayInputStream.array_lawful.
#[local] Existing Instance one_bool.
#[local] Existing Instance one_bool_lawful.
#[local] Existing Instance one_bool_parsable.
#[local] Existing Instance one_bool_parser.

#[export] Instance array_counts : CountingInput ArrayInputStream.ArrayInputStream.
Proof.
  split.
  - intros i o i' [Hs Hb Hp He] E. cbn in E. unfold ArrayInputStream.Next in E. destruct (Z.ltb_spec (ArrayInputStream.position_ i) (ArrayInputStream.size_ i)).
    all: apply ok_inj in E; injection E as <- <-; simpl; unfold ArrayInputStream.ByteCount; simpl.
    + rewrite length_take, length_drop. lia.
    + lia.
  - intros n i i' Hv Hn E. cbn in E. unfold ArrayInputStream.BackUp, GOOGLE_CHECK in E.
    destruct (_ <? _), (_ <=? _), (_ <=? _); cbn [mbind outcome_bind] in E; try discriminate E. by injection E as <-.
  - intros n i b i' [Hs Hb Hp He] Hn E. cbn in E. unfold ArrayInputStream.Skip in E. rewrite (proj2 (Z.leb_le 0 n)) in E by lia.
    cbn [GOOGLE_CHECK mbind outcome_bind] in E. simpl. unfold ArrayInputStream.array_unread, ArrayInputStream.ByteCount. rewrite length_drop.
    destruct (Z.ltb_spec (ArrayInputStream.size_ i - ArrayInputStream.position_ i) n); apply ok_inj in E; injection E as <- <-; simpl; lia.
Qed.

(** Two chunks of three bytes, the second one beyond the limit, and a byte given back. *)
Lemma part_leaves_the_rest_witness :
  let i := ArrayInputStream.new_ArrayInputStream [1; 2; 3; 4; 5; 6; 7] 3 in
  exists l i', rtc part_call (Limiting.new_LimitingInputStream i 5) l /\ Limiting.limit_ l = 1 /\
    Limiting.destroy l = Ok i' /\ unread i' = [5; 6; 7].
Proof.
  cbn zeta. set (i := ArrayInputStream.new_ArrayInputStream _ _).
  set (l := Limiting.mkLimiting (ArrayInputStream.at_position 4 0 i) 1 0).
  assert (rtc part_call (Limiting.new_LimitingInputStream i 5) l) as Hcalls.
  { eapply rtc_l; [by eapply part_Next|]. eapply rtc_l; [by eapply part_Next|]. apply rtc_once. eapply (part_BackUp 1); [split; vm_compute; congruence|done]. }
  assert (valid_input i) as Hi by exact (ArrayInputStream.new_valid _ _).
  destruct (part_leaves_the_rest i 5 l Hi ltac:(lia) Hcalls) as (i' & E & _ & Eu).
  exists l, i'. done.
Defined.

(** The second message is cut in its middle. *)
Lemma messages_in_pieces_witness :
  exists c, parse_all 2 (Concatenating.new_ConcatenatingInputStream
      [ArrayInputStream.new_ArrayInputStream [0x02; 0x08; 0x01; 0x02] 3; ArrayInputStream.new_ArrayInputStream [0x08; 0x00] 1]) = Ok ([true; false], c) /\ unread c = [].
Proof.
  apply (messages_in_pieces [true; false]); [|done|by vm_compute|by repeat constructor].
  repeat (constructor; [apply ArrayInputStream.new_valid|]). constructor.
Defined.
