(* ===== verification/FieldSkipper.v ===== *)
(** * Unknown fields that are kept ([deps/protobuf/.../wire_format_lite.cc])

    Skipping with a copy into an output stream, and the packed enumerations, whose
    unknown values are kept in the same way.  A state is the input and the output
    stream. *)
From S2P Require Import Prelude Varint ZeroCopyStream CodedStream WireFormat OutputStream CodedOutput.
#[local] Open Scope Z_scope.

Section Skipping.
Context {I Out : Type} `{ZeroCopyInputStream I} `{ZeroCopyOutputStream Out}.
Local Abbreviation input := (CodedInputStream I).
Local Abbreviation output := (CodedOutputStream Out).

(** A value that was read is written behind its tag. *)
Definition keep (tag : Z) (o : outcome (option Z * input)) (write_value : Z -> output -> outcome output) (out : output) :
    outcome (bool * input * output) :=
  '(value, s) ← o;
  match value with
  | Some value => out ← WriteVarint32 tag out; out ← write_value value out; Ok (true, s, out)
  | None => Ok (false, s, out)
  end.

(** [SkipField] over the [SkipMessage] it calls for a group. *)
Definition skip_field_to (skip_message : input -> output -> outcome (bool * input * output)) (tag : Z) (s : input) (out : output) :
    outcome (bool * input * output) :=
  if GetTagFieldNumber tag =? 0 then Ok (false, s, out)
  else
    let type := GetTagWireType tag in
    if type =? WIRETYPE_VARINT then keep tag (ReadVarint64 s) WriteVarint64 out
    else if type =? WIRETYPE_FIXED64 then keep tag (ReadLittleEndian64 s) WriteLittleEndian64 out
    else if type =? WIRETYPE_LENGTH_DELIMITED then
      '(length, s) ← CodedStream.ReadVarint32 s;
      match length with
      | Some length =>
          out ← WriteVarint32 tag out;
          out ← WriteVarint32 length out;
          '(b, temp, s) ← ReadString (i32 length) s;
          if b : bool then out ← WriteString temp out; Ok (true, s, out) else Ok (false, s, out)
      | None => Ok (false, s, out)
      end
    else if type =? WIRETYPE_START_GROUP then
      out ← WriteVarint32 tag out;
      let '(b, s) := IncrementRecursionDepth s in
      if b : bool then
        '(b, s, out) ← skip_message s out;
        if b : bool then
          let s := DecrementRecursionDepth s in
          Ok (LastTagWas (MakeTag (GetTagFieldNumber tag) WIRETYPE_END_GROUP) s, s, out)
        else Ok (false, s, out)
      else Ok (false, s, out)
    else if type =? WIRETYPE_END_GROUP then Ok (false, s, out)
    else if type =? WIRETYPE_FIXED32 then keep tag (ReadLittleEndian32 s) WriteLittleEndian32 out
    else Ok (false, s, out).

(** [fuel] tags, nested ones included. *)
Fixpoint SkipMessageTo (fuel : nat) (s : input) (out : output) : outcome (bool * input * output) :=
  match fuel with
  | O => Blocked
  | S fuel =>
      '(tag, s) ← ReadTag s;
      if tag =? 0 then Ok (true, s, out)
      else if GetTagWireType tag =? WIRETYPE_END_GROUP then
        out ← WriteVarint32 tag out; Ok (true, s, out)
      else
        '(b, s, out) ← skip_field_to (SkipMessageTo fuel) tag s out;
        if b : bool then SkipMessageTo fuel s out else Ok (false, s, out)
  end.

Definition SkipFieldTo (fuel : nat) (tag : Z) (s : input) (out : output) : outcome (bool * input * output) :=
  skip_field_to (SkipMessageTo fuel) tag s out.

(** [CodedOutputStreamFieldSkipper::SkipUnknownEnum]. *)
Definition SkipUnknownEnum (field_number value : Z) (out : output) : outcome output :=
  out ← WriteVarint32 (u32 field_number) out;
  WriteVarint64 (u64 value) out.

(** ** Packed enumerations *)

(** [is_valid == NULL || is_valid(value)]. *)
Definition accepted (is_valid : option (Z -> bool)) (value : Z) : bool :=
  match is_valid with None => true | Some is_valid => is_valid value end.

(** One value per turn; [fuel] values, each of at least a byte.  [values] are
    those added before. *)
Fixpoint packed_loop (fuel : nat) (is_valid : option (Z -> bool)) (values : list Z) (s : input) : outcome (bool * list Z * input) :=
  match fuel with
  | O => Blocked
  | S fuel =>
      if 0 <? BytesUntilLimit s then
        '(value, s) ← ReadPrimitive TYPE_ENUM s;
        match value with
        | Some value => packed_loop fuel is_valid (if accepted is_valid value then values ++ [value] else values) s
        | None => Ok (false, values, s)
        end
      else Ok (true, values, s)
  end.

Definition ReadPackedEnumNoInline (fuel : nat) (is_valid : option (Z -> bool)) (values : list Z) (s : input) : outcome (bool * list Z * input) :=
  '(length, s) ← CodedStream.ReadVarint32 s;
  match length with
  | Some length =>
      let '(limit, s) := PushLimit (i32 length) s in
      '(b, values, s) ← packed_loop fuel is_valid values s;
      Ok (b, values, if b : bool then PopLimit limit s else s)
  | None => Ok (false, values, s)
  end.

(** With the values that are not valid kept as fields of their own. *)
Fixpoint preserving_loop (fuel : nat) (field_number : Z) (is_valid : option (Z -> bool)) (values : list Z) (s : input) (out : output) :
    outcome (bool * list Z * input * output) :=
  match fuel with
  | O => Blocked
  | S fuel =>
      if 0 <? BytesUntilLimit s then
        '(value, s) ← ReadPrimitive TYPE_ENUM s;
        match value with
        | Some value =>
            if accepted is_valid value then preserving_loop fuel field_number is_valid (values ++ [value]) s out
            else
              let tag := MakeTag field_number WIRETYPE_VARINT in
              out ← WriteVarint32 tag out;
              out ← WriteVarint32 (u32 value) out;
              preserving_loop fuel field_number is_valid values s out
        | None => Ok (false, values, s, out)
        end
      else Ok (true, values, s, out)
  end.

Definition ReadPackedEnumPreserveUnknowns (fuel : nat) (field_number : Z) (is_valid : option (Z -> bool)) (values : list Z) (s : input) (out : output) :
    outcome (bool * list Z * input * output) :=
  '(length, s) ← CodedStream.ReadVarint32 s;
  match length with
  | Some length =>
      let '(limit, s) := PushLimit (i32 length) s in
      '(b, values, s, out) ← preserving_loop fuel field_number is_valid values s out;
      Ok (b, values, if b : bool then PopLimit limit s else s, out)
  | None => Ok (false, values, s, out)
  end.

End Skipping.
