(* ===== verification/FieldSkipperSpec.v ===== *)
(** * What becomes of unknown fields and unknown values of enumerations *)
From S2P Require Import Prelude Varint ZeroCopyStream CodedStream CodedStreamSpec WireFormat WireFormatSpec.
From S2P Require Import OutputStream CodedOutput CodedOutputSpec FieldSkipper.
#[local] Open Scope Z_scope.

(** ** Canonical encodings *)

Lemma write_varint_longer fuel v m : 0 <= v < 2 ^ (7 * Z.of_nat fuel) -> (0 < fuel)%nat -> write_varint (fuel + m) v = write_varint fuel v.
Proof.
  revert v. induction fuel as [|fuel IH]; intros v Hv Hf; [lia|]. cbn [write_varint Nat.add].
  destruct (Z.leb_spec 0x80 v); [|done]. f_equal. apply IH.
  - rewrite Z.shiftr_div_pow2 by lia. split; [apply Z.div_pos; lia|]. apply Z.div_lt_upper_bound; [lia|].
    rewrite <- Z.pow_add_r by lia. replace (7 + 7 * Z.of_nat fuel) with (7 * Z.of_nat (S fuel)) by lia. lia.
  - destruct fuel; [simpl in Hv; lia|lia].
Qed.

(** The writers of both widths agree where both apply. *)
Lemma narrow_varint v : 0 <= v < 2 ^ 32 -> WriteVarint64ToArray v = WriteVarint32ToArray v.
Proof. intros Hv. apply (write_varint_longer 5 v 5); lia. Qed.

(** A field of the wire type reads the value as [w] and keeps it as it was. *)
Definition canonical_varint (bytes : list Z) : Prop := exists w, 0 <= w < 2 ^ 64 /\ bytes = WriteVarint64ToArray w.

Lemma scalar_canonical t v : in_range t v ->
  match WireTypeForFieldType t with
  | 0 => canonical_varint (WriteNoTagToArray t v)
  | 1 => exists w, 0 <= w < 2 ^ 64 /\ WriteNoTagToArray t v = WriteLittleEndian64ToArray w
  | _ => exists w, 0 <= w < 2 ^ 32 /\ WriteNoTagToArray t v = WriteLittleEndian32ToArray w
  end.
Proof.
  intros Hv. unfold canonical_varint.
  assert (forall u, 0 <= u < 2 ^ 32 -> exists w, 0 <= w < 2 ^ 64 /\ WriteVarint32ToArray u = WriteVarint64ToArray w) as H32.
  { intros u Hu. exists u. rewrite narrow_varint by done. split; [lia|done]. }
  destruct t; cbn [WireTypeForFieldType in_range WriteNoTagToArray WIRETYPE_VARINT WIRETYPE_FIXED64 WIRETYPE_FIXED32] in *; try by exists v.
  - exists (u64 v). split; [apply u64_range|done].
  - exists (u64 v). split; [apply u64_range|done].
  - apply H32. destruct (v =? 0); lia.
  - by apply H32.
  - exists (u64 v). split; [apply u64_range|done].
  - exists (u32 v). split; [apply u32_range|done].
  - exists (u64 v). split; [apply u64_range|done].
  - destruct (zigzag32 v Hv) as [-> _]. by apply H32, (zigzag_range 32).
  - destruct (zigzag64 v Hv) as [-> _]. exists (zigzag v). split; [by apply (zigzag_range 64)|done].
Qed.

Section Spec.
Context {I Out : Type} `{LI : LawfulInput I} `{LO : LawfulOutput Out}.
Local Abbreviation input := (CodedInputStream I).
Local Abbreviation output := (CodedOutputStream Out).
Implicit Types s : input.
Implicit Types out : output.

Lemma room_after bytes m out out' : wrote bytes out out' -> room (length bytes + m) out -> room m out'.
Proof using Type. intros [_ Hm Hc _]. unfold room. lia. Qed.

(** What both streams are after a call: [n] bytes of the input passed, [bytes]
    written. *)
Definition passes (o : outcome (bool * input * output)) (n : nat) (bytes : list Z) s out : Prop :=
  exists s' out', o = Ok (true, s', out') /\ moved n s s' /\ wrote bytes out out'.

Lemma keep_spec tag bytes (read : outcome (option Z * input)) write_value v n s out :
  CodedOutputSpec.good out -> room (length (WriteVarint32ToArray tag ++ bytes)) out ->
  reads read (Some (v, n)) s ->
  (forall out, CodedOutputSpec.good out -> room (length bytes) out -> exists out', write_value v out = Ok out' /\ wrote bytes out out') ->
  passes (keep tag read write_value out) n (WriteVarint32ToArray tag ++ bytes) s out.
Proof using Type.
  intros Hg Hroom (s' & -> & Hn & Hm) Hwrite. unfold keep. cbn [mbind outcome_bind]. rewrite length_app in Hroom.
  destruct (written_spec (CodedOutput.Varint32 tag) out Hg) as (out1 & E1 & Hw1); [unfold room in *; cbn [bytes_of_write]; lia|].
  cbn [perform bytes_of_write] in E1, Hw1. rewrite E1. cbn [mbind outcome_bind].
  destruct (Hwrite out1 (wrote_good _ _ _ Hw1)) as (out2 & -> & Hw2); [by eapply room_after|]. cbn [mbind outcome_bind].
  exists s', out2. split; [done|]. split; [done|]. by eapply wrote_trans.
Qed.

Lemma writes w out : CodedOutputSpec.good out -> room (length (bytes_of_write w)) out ->
  exists out', perform w out = Ok out' /\ wrote (bytes_of_write w) out out'.
Proof using Type. apply written_spec. Qed.

(** A scalar behind its tag. *)
Lemma keeps_scalar skip number t v more s out :
  0 < number < 2 ^ 29 -> in_range t v -> CodedStreamSpec.good s -> CodedOutputSpec.good out ->
  avail s = WriteNoTagToArray t v ++ more -> room (length (WriteScalarToArray t number v)) out ->
  passes (skip_field_to skip (MakeTag number (WireTypeForFieldType t)) s out) (length (WriteNoTagToArray t v))
    (WriteScalarToArray t number v) s out.
Proof using Type.
  intros Hn Hv Hg Hgo Ea Hroom. unfold skip_field_to. rewrite MakeTag_field, MakeTag_type by first [lia|by destruct t].
  rewrite (proj2 (Z.eqb_neq number 0)) by lia. pose proof (scalar_canonical t v Hv) as Hc. unfold WriteScalarToArray in *.
  set (tag := MakeTag number (WireTypeForFieldType t)) in *. change (WriteTagToArray _ _) with (WriteVarint32ToArray tag) in *.
  assert (WireTypeForFieldType t = 0 \/ WireTypeForFieldType t = 1 \/ WireTypeForFieldType t = 5) as [E|[E|E]] by (destruct t; auto);
    rewrite E in Hc |- *; cbn [Z.eqb Pos.eqb WIRETYPE_VARINT WIRETYPE_FIXED64 WIRETYPE_LENGTH_DELIMITED WIRETYPE_START_GROUP WIRETYPE_END_GROUP WIRETYPE_FIXED32];
    destruct Hc as (w & Hw & Eb); rewrite Eb in *.
  - apply (keep_spec _ _ _ _ w); [done|done|by apply (reads_varint64 _ more)|]. intros o Ho Hr. by apply (writes (CodedOutput.Varint64 w)).
  - replace (length (WriteLittleEndian64ToArray w)) with 8%nat by (symmetry; apply bytes_of_length).
    apply (keep_spec _ _ _ _ w); [done|done|by apply (reads_bytes 8 w more); [..|lia]|].
    intros o Ho Hr. by apply (writes (CodedOutput.Fixed64 w)).
  - replace (length (WriteLittleEndian32ToArray w)) with 4%nat by (symmetry; apply bytes_of_length).
    apply (keep_spec _ _ _ _ w); [done|done|by apply (reads_bytes 4 w more); [..|lia]|].
    intros o Ho Hr. by apply (writes (CodedOutput.Fixed32 w)).
Qed.

(** A length and as many bytes behind their tag. *)
Lemma keeps_string skip number bytes more s out :
  0 < number < 2 ^ 29 -> Z.of_nat (length bytes) <= INT_MAX -> CodedStreamSpec.good s -> CodedOutputSpec.good out ->
  avail s = WriteStringWithSizeToArray bytes ++ more -> room (length (WriteStringToArray number bytes)) out ->
  passes (skip_field_to skip (MakeTag number WIRETYPE_LENGTH_DELIMITED) s out) (length (WriteStringWithSizeToArray bytes))
    (WriteStringToArray number bytes) s out.
Proof using Type.
  intros Hn Hl Hg Hgo Ea Hroom. unfold skip_field_to. rewrite MakeTag_field, MakeTag_type by first [lia|by split].
  rewrite (proj2 (Z.eqb_neq number 0)) by lia.
  cbn [Z.eqb Pos.eqb WIRETYPE_VARINT WIRETYPE_FIXED64 WIRETYPE_LENGTH_DELIMITED].
  unfold WriteStringToArray, WriteStringWithSizeToArray in *. set (tag := MakeTag number WIRETYPE_LENGTH_DELIMITED) in *.
  change (WriteTagToArray _ _) with (WriteVarint32ToArray tag) in *. unfold INT_MAX in Hl.
  rewrite u32_small in * by lia. rewrite <- app_assoc in Ea.
  destruct (reads_varint32 _ _ s Hg Ea ltac:(lia)) as (s1 & -> & _ & Hm1). cbn [mbind outcome_bind].
  rewrite !length_app in Hroom.
  destruct (writes (CodedOutput.Varint32 tag) out Hgo) as (out1 & E1 & Hw1); [unfold room in *; cbn [bytes_of_write]; lia|].
  cbn [perform] in E1. rewrite E1. cbn [mbind outcome_bind bytes_of_write] in *.
  pose proof (room_after _ _ _ _ Hw1 Hroom) as Hroom1.
  destruct (writes (CodedOutput.Varint32 (Z.of_nat (length bytes))) out1 (wrote_good _ _ _ Hw1)) as (out2 & E2 & Hw2);
    [unfold room in *; cbn [bytes_of_write]; lia|]. cbn [perform] in E2. rewrite E2. cbn [mbind outcome_bind bytes_of_write] in *.
  pose proof (room_after _ _ _ _ Hw2 Hroom1) as Hroom2.
  unfold i32. rewrite signed_small by lia. pose proof (avail_moved _ _ _ Hm1) as Ea1. rewrite Ea, drop_app_length in Ea1.
  destruct (ReadString_spec (Z.of_nat (length bytes)) s1 (moved_good _ _ _ Hm1) ltac:(lia)) as (b & s2 & -> & -> & Hm2).
  rewrite Ea1, Nat2Z.id, take_app_length in Hm2 |- *. rewrite length_app, (proj2 (Z.leb_le _ _)) by lia.
  cbn [mbind outcome_bind].
  destruct (writes (CodedOutput.Raw bytes) out2 (wrote_good _ _ _ Hw2) Hroom2) as (out3 & E3 & Hw3).
  cbn [perform] in E3. unfold WriteString. rewrite E3. cbn [mbind outcome_bind].
  exists s2, out3. split; [done|]. rewrite length_app. split; [by eapply moved_trans|].
  eapply wrote_trans; [done|]. by eapply wrote_trans.
Qed.

(** A tag in front of what comes. *)
Lemma reads_written_tag tag more s : CodedStreamSpec.good s -> 0 <= tag < 2 ^ 32 -> avail s = WriteVarint32ToArray tag ++ more ->
  exists s', ReadTag s = Ok (tag, s') /\ moved (length (WriteVarint32ToArray tag)) s s' /\ avail s' = more /\ last_tag_ s' = tag.
Proof using Type.
  intros Hg Ht Ea. destruct (ReadTag_spec s Hg) as [(t & s' & E & Hr & _) Hlast]. specialize (Hlast _ _ E).
  rewrite Ea, read_varint32 in Hr by done. destruct Hr as (-> & _ & Hm). exists s'. split; [done|]. split; [done|]. split; [|done].
  by rewrite (avail_moved _ _ _ Hm), Ea, drop_app_length.
Qed.

Lemma field_tag number type : 0 < number < 2 ^ 29 -> 0 <= type < 8 -> MakeTag number type <> 0.
Proof using Type. intros Hn Ht E. pose proof (MakeTag_field number type ltac:(lia) Ht) as Ef. rewrite E in Ef. change (GetTagFieldNumber 0) with 0 in Ef. lia. Qed.

(** Whatever is done behind the written fields [bytes] is done with their copy in
    the output and enough turns left. *)
Definition copied (bytes more : list Z) fuel s out : Prop := exists fuel' s' out',
  SkipMessageTo fuel s out = SkipMessageTo fuel' s' out' /\ (length (avail s') < fuel')%nat /\
  avail s' = more /\ moved (length bytes) s s' /\ wrote bytes out out'.

(** One field, and the others. *)
Lemma copied_field number type body fields more fuel s out :
  0 < number < 2 ^ 29 -> 0 <= type < 8 -> type <> WIRETYPE_END_GROUP -> CodedStreamSpec.good s ->
  avail s = (WriteTagToArray number type ++ body) ++ fields ++ more -> (length (avail s) < S fuel)%nat ->
  (forall s1, CodedStreamSpec.good s1 -> avail s1 = body ++ fields ++ more -> recursion_budget_ s1 = recursion_budget_ s ->
    recursion_limit_ s1 = recursion_limit_ s -> (length (avail s1) < fuel)%nat ->
    passes (skip_field_to (SkipMessageTo fuel) (MakeTag number type) s1 out) (length body) (WriteTagToArray number type ++ body) s1 out) ->
  (forall s2 out2, moved (length (WriteTagToArray number type ++ body)) s s2 -> wrote (WriteTagToArray number type ++ body) out out2 ->
    avail s2 = fields ++ more -> (length (avail s2) < fuel)%nat -> copied fields more fuel s2 out2) ->
  copied ((WriteTagToArray number type ++ body) ++ fields) more (S fuel) s out.
Proof using Type.
  intros Hn Ht Hne Hg Ea Hf Hfield Hrest. rewrite <- app_assoc in Ea.
  destruct (reads_written_tag (MakeTag number type) _ s Hg (MakeTag_range _ _) Ea) as (s1 & E1 & Hm1 & Ea1 & _).
  assert (0 < length (WriteTagToArray number type))%nat as Hpos.
  { apply write_varint_nonempty. unfold kMaxVarint32Bytes. lia. }
  rewrite Ea, length_app in Hf.
  destruct (Hfield s1 (moved_good _ _ _ Hm1) Ea1 (moved_budget _ _ _ Hm1) (moved_recursion _ _ _ Hm1)) as (s2 & out2 & E2 & Hm2 & Hw2);
    [rewrite Ea1; lia|].
  assert (avail s2 = fields ++ more) as Ea2 by (by rewrite (avail_moved _ _ _ Hm2), Ea1, drop_app_length).
  pose proof (moved_trans _ _ _ _ _ Hm1 Hm2) as Hm. change (WriteVarint32ToArray (MakeTag number type)) with (WriteTagToArray number type) in Hm.
  rewrite <- length_app in Hm.
  destruct (Hrest s2 out2 Hm Hw2 Ea2) as (fuel' & s' & out' & E' & Hf' & Ea' & Hm' & Hw').
  { rewrite Ea2. rewrite (length_app body) in Hf. lia. }
  exists fuel', s', out'. split; [|split; [done|]; split; [done|]; split; [rewrite length_app; by eapply moved_trans|by eapply wrote_trans]].
  rewrite <- E'. cbn [SkipMessageTo]. rewrite E1. cbn [mbind outcome_bind].
  rewrite (proj2 (Z.eqb_neq _ 0)) by (by apply field_tag). rewrite MakeTag_type by done.
  rewrite (proj2 (Z.eqb_neq _ _)) by done. rewrite E2. done.
Qed.

(** A group, whose fields are copied by the call for the message inside. *)
Lemma keeps_group fuel number bytes more s out :
  0 < number < 2 ^ 29 -> 1 <= recursion_budget_ s -> recursion_budget_ s <= recursion_limit_ s ->
  CodedStreamSpec.good s -> CodedOutputSpec.good out ->
  avail s = (bytes ++ WriteTagToArray number WIRETYPE_END_GROUP) ++ more -> (length (avail s) < fuel)%nat ->
  room (length (WriteGroupToArray number bytes)) out ->
  (forall s1 out1, CodedStreamSpec.good s1 -> recursion_budget_ s1 = recursion_budget_ s - 1 -> recursion_limit_ s1 = recursion_limit_ s ->
    avail s1 = bytes ++ WriteTagToArray number WIRETYPE_END_GROUP ++ more -> (length (avail s1) < fuel)%nat ->
    CodedOutputSpec.good out1 -> room (length bytes) out1 ->
    copied bytes (WriteTagToArray number WIRETYPE_END_GROUP ++ more) fuel s1 out1) ->
  passes (skip_field_to (SkipMessageTo fuel) (MakeTag number WIRETYPE_START_GROUP) s out)
    (length (bytes ++ WriteTagToArray number WIRETYPE_END_GROUP)) (WriteGroupToArray number bytes) s out.
Proof using Type.
  intros Hn Hb Hle Hg Hgo Ea Hf Hroom Hinside. rewrite <- app_assoc in Ea. unfold skip_field_to.
  rewrite MakeTag_field, MakeTag_type by first [lia|by split]. rewrite (proj2 (Z.eqb_neq number 0)) by lia.
  cbn [Z.eqb Pos.eqb WIRETYPE_VARINT WIRETYPE_FIXED64 WIRETYPE_LENGTH_DELIMITED WIRETYPE_START_GROUP].
  unfold WriteGroupToArray in *. set (tag := MakeTag number WIRETYPE_START_GROUP).
  change (WriteTagToArray number WIRETYPE_START_GROUP) with (WriteVarint32ToArray tag) in *. rewrite !length_app in Hroom.
  destruct (writes (CodedOutput.Varint32 tag) out Hgo) as (out1 & E1 & Hw1); [unfold room in *; cbn [bytes_of_write]; lia|].
  cbn [perform] in E1. rewrite E1. cbn [mbind outcome_bind bytes_of_write] in *.
  pose proof (room_after _ _ _ _ Hw1 Hroom) as Hroom1. unfold IncrementRecursionDepth. set (s1 := set_recursion _ _ s).
  change (recursion_budget_ s1) with (recursion_budget_ s - 1). rewrite (proj2 (Z.leb_le 0 _)) by lia.
  destruct (Hinside s1 out1) as (fuel2 & s2 & out2 & -> & Hf2 & Ea2 & Hm2 & Hw2);
    [by apply set_recursion_good|done|done|done|done|apply Hw1|unfold room in *; lia|].
  pose proof (room_after _ _ _ _ Hw2 Hroom1) as Hroom2. set (close := MakeTag number WIRETYPE_END_GROUP).
  change (WriteTagToArray number WIRETYPE_END_GROUP) with (WriteVarint32ToArray close) in *.
  destruct (reads_written_tag close _ s2 (moved_good _ _ _ Hm2) (MakeTag_range _ _) Ea2) as (s3 & E3 & Hm3 & _ & El3).
  destruct fuel2 as [|fuel2]; [lia|]. cbn [SkipMessageTo]. rewrite E3. cbn [mbind outcome_bind].
  rewrite (proj2 (Z.eqb_neq close 0)) by (by apply field_tag). assert (GetTagWireType close = WIRETYPE_END_GROUP) as -> by apply end_group_tag. rewrite Z.eqb_refl.
  destruct (writes (CodedOutput.Varint32 close) out2 (wrote_good _ _ _ Hw2) Hroom2) as (out3 & E4 & Hw3).
  cbn [perform] in E4. rewrite E4. cbn [mbind outcome_bind bytes_of_write] in *.
  pose proof (moved_trans _ _ _ _ _ Hm2 Hm3) as Hm. exists (DecrementRecursionDepth s3), out3. split.
  - assert (last_tag_ (DecrementRecursionDepth s3) = last_tag_ s3) as El by (unfold DecrementRecursionDepth; by case_match).
    unfold LastTagWas. by rewrite El, El3, Z.eqb_refl.
  - rewrite length_app. split; [by apply recursion_moved|]. eapply wrote_trans; [done|]. by eapply wrote_trans.
Qed.

Lemma copies bytes budget : written budget bytes -> forall more fuel s out,
  CodedStreamSpec.good s -> recursion_budget_ s = budget -> budget <= recursion_limit_ s ->
  avail s = bytes ++ more -> (length (avail s) < fuel)%nat ->
  CodedOutputSpec.good out -> room (length bytes) out -> copied bytes more fuel s out.
Proof using Type.
  induction 1 as [budget|budget number t v its Hn Hv _ IH|budget number bytes its Hn Hl _ IH|budget number bytes its Hn Hl _ IH|
    budget number bytes its Hn Hb Hbytes IHb _ IH]; intros more fuel s out Hg Eb Hle Ea Hf Hgo Hroom.
  { exists fuel, s, out. split; [done|]. split; [done|]. split; [done|]. split; [by apply moved_refl|by apply wrote_nothing]. }
  all: destruct fuel as [|fuel]; [lia|]; rewrite <- app_assoc in Ea; rewrite length_app in Hroom.
  all: eapply copied_field; [done| | |done|exact Ea|done| |];
    [..|intros s2 out2 Hm2 Hw2 Ea2 Hf2; apply IH; [apply Hm2|by rewrite (moved_budget _ _ _ Hm2)|by rewrite (moved_recursion _ _ _ Hm2)|
      done|done|apply Hw2|by eapply room_after]].
  all: try by destruct t. all: try by (split; lia). all: try done.
  - intros s1 Hg1 Ea1 _ _ _. apply (keeps_scalar _ number t v (its ++ more)); try done. unfold room in *. lia.
  - intros s1 Hg1 Ea1 _ _ _. apply (keeps_string _ number bytes (its ++ more)); try done. unfold room in *. lia.
  - change (WriteMessageToArray number bytes) with (WriteStringToArray number bytes) in Hroom.
    intros s1 Hg1 Ea1 _ _ _. apply (keeps_string _ number bytes (its ++ more)); try done. unfold room in *. lia.
  - intros s1 Hg1 Ea1 Eb1 El1 Hf1.
    apply (keeps_group fuel number bytes (its ++ more)); try done; [by rewrite Eb1, Eb|by rewrite Eb1, El1, Eb|unfold room in *; lia|].
    intros s2 out2 Hg2 Eb2 El2 Ea2 Hf2 Hgo2 Hroom2. apply IHb; try done; [by rewrite Eb2, Eb1, Eb|rewrite El2, El1; lia].
Qed.

(** C28. Unknown fields are kept: behind a written message that a parser knows
    nothing of the output has a copy of it, byte for byte, and the input is found
    complete; if the output fails it says so. *)
Theorem SkipMessage_preserves fuel s out :
  CodedStreamSpec.good s -> recursion_budget_ s <= recursion_limit_ s -> (length (avail s) < fuel)%nat ->
  CurrentPosition s + Z.of_nat (length (avail s)) < total_bytes_limit_ s -> written (recursion_budget_ s) (avail s) ->
  CodedOutputSpec.good out -> room (length (avail s)) out ->
  exists s' out', SkipMessageTo fuel s out = Ok (true, s', out') /\
    avail s' = [] /\ ConsumedEntireMessage s' = true /\ wrote (avail s) out out'.
Proof using Type.
  intros Hg Hle Hf Hp Hw Hgo Hroom.
  destruct (copies (avail s) _ Hw [] fuel s out) as (fuel' & s1 & out' & -> & Hf1 & Ea1 & Hm1 & Hw1); try done; [by rewrite app_nil_r|].
  destruct fuel' as [|fuel']; [lia|]. cbn [SkipMessageTo].
  destruct (ReadTag_spec s1 (moved_good _ _ _ Hm1)) as [(t & s2 & -> & Ht & Hend) _]. rewrite Ea1 in Ht. cbn in Ht. destruct Ht as [-> _].
  cbn [mbind outcome_bind]. destruct (Hend Ea1) as [Hl Hm2].
  { rewrite (moved_position _ _ _ Hm1), (moved_total _ _ _ Hm1). lia. }
  exists s2, out'. split; [done|]. split; [by rewrite (avail_moved _ _ _ Hm2), Ea1|done].
Qed.

(** ** Unknown values of enumerations *)

(** An unknown value of an enumeration is kept behind the number of its field,
    and not behind a tag: for the fields 1 to 7 the kept bytes are no fields at
    all, and for a field [8 * g] they are a value of the field [g]. *)
Theorem unknown_enum_misfiled number value out :
  CodedOutputSpec.good out -> room 20 out -> 0 < number < 2 ^ 29 ->
  exists bytes out', SkipUnknownEnum number value out = Ok out' /\ wrote bytes out out' /\
    (number < 8 -> forall budget, ~ items budget bytes) /\
    (forall g, number = 8 * g -> bytes = WriteTagToArray g WIRETYPE_VARINT ++ WriteVarint64ToArray (u64 value)).
Proof using Type.
  intros Hg Hroom Hn. unfold SkipUnknownEnum. rewrite u32_small by lia.
  exists (bytes_of_writes [CodedOutput.Varint32 number; CodedOutput.Varint64 (u64 value)]).
  pose proof (write_varint_length 5 number). pose proof (write_varint_length 10 (u64 value)).
  destruct (all_written_spec [CodedOutput.Varint32 number; CodedOutput.Varint64 (u64 value)] out Hg) as (out' & E & Hw).
  { unfold bytes_of_writes. cbn [fmap list_fmap concat bytes_of_write]. rewrite !length_app, length_nil.
    unfold WriteVarint32ToArray, WriteVarint64ToArray, kMaxVarint32Bytes, kMaxVarintBytes.
    revert Hroom. unfold room. lia. }
  exists out'. cbn [perform_all perform] in E. split; [|split; [done|]].
  { destruct (WriteVarint32 number out); try done. cbn [mbind outcome_bind] in *. by destruct (WriteVarint64 _ _). }
  unfold bytes_of_writes. cbn [fmap list_fmap concat bytes_of_write]. rewrite app_nil_r. split.
  - intros Hsmall budget Hits.
    assert (a_varint u32 (WriteVarint32ToArray number ++ WriteVarint64ToArray (u64 value)) = Some (number, length (WriteVarint32ToArray number))) as Ev
      by (apply read_varint32; lia).
    destruct (items_field _ _ _ _ Ev Hits) as (body & more & _ & Hs & _). apply skippable_tag in Hs as [Hf _]. apply Hf.
    unfold GetTagFieldNumber, kTagTypeBits. rewrite Z.shiftr_div_pow2 by lia. change (2 ^ 3) with 8. by rewrite Z.div_small by lia.
  - intros g ->. f_equal. unfold WriteTagToArray. f_equal. unfold MakeTag, WIRETYPE_VARINT, kTagTypeBits.
    rewrite (u32_small g), Z.lor_0_r, Z.shiftl_mul_pow2 by lia. rewrite !u32_small by (rewrite ?u32_small; lia). lia.
Qed.

(** ** Packed enumerations *)

Definition packed (values : list Z) : list Z := concat (WriteNoTagToArray TYPE_ENUM <$> values).

(** The bytes until the limit are what is available, if it ends there. *)
Definition limited s : Prop :=
  current_limit_ s < INT_MAX /\ current_limit_ s = CurrentPosition s + Z.of_nat (length (avail s)).

Lemma position_within s : CodedStreamSpec.good s -> CurrentPosition s <= closest_limit s.
Proof using Type.
  intros Hg. pose proof (good_after s Hg). pose proof (shape_pointers s (good_shape s Hg)). unfold CurrentPosition, BufferSize in *. lia.
Qed.

Lemma limited_moved n s s' : limited s -> (n <= length (avail s))%nat -> moved n s s' -> limited s'.
Proof using Type.
  intros [Hlt Hc] Hn Hm. unfold limited. rewrite (moved_current _ _ _ Hm), (moved_position _ _ _ Hm), (avail_moved _ _ _ Hm), length_drop. lia.
Qed.

Lemma limited_until s : limited s -> BytesUntilLimit s = Z.of_nat (length (avail s)).
Proof using Type. intros [Hlt Hc]. unfold BytesUntilLimit. rewrite (proj2 (Z.eqb_neq _ _)); lia. Qed.

Lemma reads_enum v more s : CodedStreamSpec.good s -> - 2 ^ 31 <= v < 2 ^ 31 -> avail s = WriteNoTagToArray TYPE_ENUM v ++ more ->
  reads (ReadPrimitive TYPE_ENUM s) (Some (v, length (WriteNoTagToArray TYPE_ENUM v))) s.
Proof using Type.
  intros Hg Hv Ea. apply (reads_converted i32 _ (u32 v)); [by apply (signed_of_unsigned 32)|]. rewrite <- u32_u64.
  by apply (reads_varint64 _ more); [..|apply u64_range].
Qed.

Lemma enum_nonempty v : (0 < length (WriteNoTagToArray TYPE_ENUM v))%nat.
Proof using Type. apply write_varint_nonempty. unfold kMaxVarintBytes. lia. Qed.

(** What the packed values that are not valid become: fields of their own, each
    with the value in as few bytes as it needs. *)
Definition kept_field (number value : Z) : list Z := WriteTagToArray number WIRETYPE_VARINT ++ WriteVarint32ToArray (u32 value).
Definition kept_fields (number : Z) (is_valid : option (Z -> bool)) (values : list Z) : list Z :=
  concat (kept_field number <$> filter (fun v => accepted is_valid v = false) values).

Lemma kept_fields_cons number is_valid v values :
  kept_fields number is_valid (v :: values) = (if accepted is_valid v then [] else kept_field number v) ++ kept_fields number is_valid values.
Proof using Type. unfold kept_fields. rewrite filter_cons. by destruct (accepted is_valid v). Qed.

(** One turn of either loop. *)
Lemma packed_turn v values s : CodedStreamSpec.good s -> limited s -> avail s = packed (v :: values) -> - 2 ^ 31 <= v < 2 ^ 31 ->
  0 < BytesUntilLimit s /\
  exists s', ReadPrimitive TYPE_ENUM s = Ok (Some v, s') /\ moved (length (WriteNoTagToArray TYPE_ENUM v)) s s' /\
    CodedStreamSpec.good s' /\ limited s' /\ avail s' = packed values.
Proof using Type.
  intros Hg Hl Ea Hv. rewrite (limited_until s Hl), Ea.
  change (packed (v :: values)) with (WriteNoTagToArray TYPE_ENUM v ++ packed values) in *. pose proof (enum_nonempty v) as Hpos.
  rewrite length_app. split; [lia|]. destruct (reads_enum v _ s Hg Hv Ea) as (s1 & E & Hn & Hm1). exists s1.
  split; [done|]. split; [done|]. split; [apply Hm1|]. split; [by eapply limited_moved|].
  by rewrite (avail_moved _ _ _ Hm1), Ea, drop_app_length.
Qed.

Lemma packed_end s : limited s -> avail s = packed [] -> BytesUntilLimit s = 0.
Proof using Type. intros Hl Ea. by rewrite (limited_until s Hl), Ea. Qed.

Lemma packed_loop_spec is_valid values before fuel s :
  CodedStreamSpec.good s -> limited s -> avail s = packed values -> Forall (fun v => - 2 ^ 31 <= v < 2 ^ 31) values ->
  (length values < fuel)%nat ->
  exists s', packed_loop fuel is_valid before s = Ok (true, before ++ filter (fun v => accepted is_valid v = true) values, s') /\
    moved (length (packed values)) s s'.
Proof using Type.
  revert before fuel s. induction values as [|v values IH]; intros before fuel s Hg Hl Ea Hv Hf; (destruct fuel as [|fuel]; [simpl in Hf; lia|]);
    cbn [packed_loop].
  - rewrite (packed_end s Hl Ea). exists s. split; [|by apply moved_refl]. by rewrite app_nil_r.
  - apply Forall_cons_1 in Hv as [Hv Hvs]. destruct (packed_turn v values s Hg Hl Ea Hv) as (Hpos & s1 & -> & Hm1 & Hg1 & Hl1 & Ea1).
    rewrite (proj2 (Z.ltb_lt 0 _)) by done. cbn [mbind outcome_bind].
    destruct (IH (if accepted is_valid v then before ++ [v] else before) fuel s1) as (s2 & -> & Hm2); try done; [simpl in Hf; lia|].
    exists s2. rewrite filter_cons. change (packed (v :: values)) with (WriteNoTagToArray TYPE_ENUM v ++ packed values).
    rewrite length_app. split; [|by eapply moved_trans]. destruct (accepted is_valid v); [by rewrite <- app_assoc|done].
Qed.

Lemma keeps_value number value out : CodedOutputSpec.good out -> room (length (kept_field number value)) out ->
  exists out1 out2, WriteVarint32 (MakeTag number WIRETYPE_VARINT) out = Ok out1 /\ WriteVarint32 (u32 value) out1 = Ok out2 /\
    wrote (kept_field number value) out out2.
Proof using Type.
  intros Hg Hroom. unfold kept_field in *. rewrite length_app in Hroom.
  destruct (writes (CodedOutput.Varint32 (MakeTag number WIRETYPE_VARINT)) out Hg) as (out1 & E1 & Hw1); [unfold room in *; cbn [bytes_of_write]; unfold WriteTagToArray in Hroom; lia|].
  pose proof (room_after _ _ _ _ Hw1 Hroom) as Hroom1.
  destruct (writes (CodedOutput.Varint32 (u32 value)) out1 (wrote_good _ _ _ Hw1) Hroom1) as (out2 & E2 & Hw2).
  exists out1, out2. split; [done|]. split; [done|]. by eapply wrote_trans.
Qed.

Lemma preserving_loop_spec number is_valid values before fuel s out :
  CodedStreamSpec.good s -> limited s -> avail s = packed values -> Forall (fun v => - 2 ^ 31 <= v < 2 ^ 31) values ->
  (length values < fuel)%nat -> CodedOutputSpec.good out -> room (length (kept_fields number is_valid values)) out ->
  exists s' out', preserving_loop fuel number is_valid before s out =
      Ok (true, before ++ filter (fun v => accepted is_valid v = true) values, s', out') /\
    moved (length (packed values)) s s' /\ wrote (kept_fields number is_valid values) out out'.
Proof using Type.
  revert before fuel s out. induction values as [|v values IH]; intros before fuel s out Hg Hl Ea Hv Hf Hgo Hroom;
    (destruct fuel as [|fuel]; [simpl in Hf; lia|]); cbn [preserving_loop].
  - rewrite (packed_end s Hl Ea). exists s, out. split; [by rewrite app_nil_r|]. split; [by apply moved_refl|by apply wrote_nothing].
  - apply Forall_cons_1 in Hv as [Hv Hvs]. destruct (packed_turn v values s Hg Hl Ea Hv) as (Hpos & s1 & -> & Hm1 & Hg1 & Hl1 & Ea1).
    rewrite (proj2 (Z.ltb_lt 0 _)) by done. cbn [mbind outcome_bind]. rewrite filter_cons. rewrite kept_fields_cons in Hroom |- *.
    change (packed (v :: values)) with (WriteNoTagToArray TYPE_ENUM v ++ packed values). rewrite length_app.
    simpl in Hf. destruct (accepted is_valid v).
    + destruct (IH (before ++ [v]) fuel s1 out) as (s2 & out2 & -> & Hm2 & Hw2); try done; [lia|].
      exists s2, out2. split; [by rewrite <- app_assoc|]. split; [by eapply moved_trans|done].
    + rewrite length_app in Hroom.
      destruct (keeps_value number v out Hgo) as (out1 & out2 & E1 & E2 & Hw); [unfold room in *; lia|].
      rewrite E1. cbn [mbind outcome_bind]. rewrite E2. cbn [mbind outcome_bind].
      destruct (IH before fuel s1 out2) as (s3 & out3 & -> & Hm3 & Hw3); try done; [lia|apply Hw|by eapply room_after|].
      exists s3, out3. split; [done|]. split; [by eapply moved_trans|by eapply wrote_trans].
Qed.

(** The length in front of the values, and the limit it sets. *)
Lemma packed_begins values more s :
  CodedStreamSpec.good s -> avail s = WriteStringWithSizeToArray (packed values) ++ more ->
  CurrentPosition s + Z.of_nat (length (avail s)) < INT_MAX ->
  exists length s1 limit s2, CodedStream.ReadVarint32 s = Ok (Some length, s1) /\ PushLimit (i32 length) s1 = (limit, s2) /\
    CodedStreamSpec.good s2 /\ limited s2 /\ avail s2 = packed values /\
    forall s3, moved (List.length (packed values)) s2 s3 ->
      moved (List.length (WriteStringWithSizeToArray (packed values))) s (PopLimit limit s3) /\ avail (PopLimit limit s3) = more.
Proof using Type.
  intros Hg Ea Hsmall. unfold WriteStringWithSizeToArray in *. set (bytes := packed values) in *.
  pose proof (shape_position s (good_shape s Hg)). rewrite Ea, !length_app in Hsmall. unfold INT_MAX in Hsmall. rewrite u32_small in * by lia.
  rewrite <- app_assoc in Ea. destruct (reads_varint32 _ _ s Hg Ea ltac:(lia)) as (s1 & E1 & _ & Hm1).
  pose proof (avail_moved _ _ _ Hm1) as Ea1. rewrite Ea, drop_app_length in Ea1.
  destruct (PushLimit_spec (Z.of_nat (length bytes)) s1 (moved_good _ _ _ Hm1) ltac:(lia)) as (s2 & E2 & Hg2 & _ & Hp2 & Hc2 & _ & _ & _ & _ & Ea2).
  rewrite Nat2Z.id, Ea1, take_app_length in Ea2. pose proof (moved_position _ _ _ Hm1) as Hp1.
  exists (Z.of_nat (length bytes)), s1, (current_limit_ s1), s2. unfold i32. rewrite signed_small by lia.
  split; [done|]. split; [done|]. split; [done|]. split; [|split; [done|]].
  - pose proof (avail_length s1) as Hal. pose proof (position_within s1 (moved_good _ _ _ Hm1)) as Hlim.
    unfold closest_limit in Hal, Hlim. rewrite Ea1, length_app in Hal. unfold limited. rewrite Ea2, Hc2, Hp2. unfold INT_MAX. lia.
  - intros s3 Hm3. assert (moved (length bytes) s1 (PopLimit (current_limit_ s1) s3)) as Hm4.
    { eapply PushPop_spec; [apply Hm1| |exact E2|done|by rewrite Ea2]. lia. }
    rewrite length_app. pose proof (moved_trans _ _ _ _ _ Hm1 Hm4) as Hm. split; [done|].
    by rewrite (avail_moved _ _ _ Hm), Ea, app_assoc, <- length_app, drop_app_length.
Qed.

(** A packed field of an enumeration gives the values that are valid, in order
    and whatever the chunks, and ends behind its bytes with the old limit in force. *)
Theorem packed_enum_read is_valid values before more fuel s :
  CodedStreamSpec.good s -> Forall (fun v => - 2 ^ 31 <= v < 2 ^ 31) values -> (length values < fuel)%nat ->
  avail s = WriteStringWithSizeToArray (packed values) ++ more ->
  CurrentPosition s + Z.of_nat (length (avail s)) < INT_MAX ->
  exists s', ReadPackedEnumNoInline fuel is_valid before s = Ok (true, before ++ filter (fun v => accepted is_valid v = true) values, s') /\
    moved (length (WriteStringWithSizeToArray (packed values))) s s' /\ avail s' = more.
Proof using Type.
  intros Hg Hv Hf Ea Hsmall. destruct (packed_begins values more s Hg Ea Hsmall) as (n & s1 & limit & s2 & E1 & E2 & Hg2 & Hl2 & Ea2 & Hend).
  unfold ReadPackedEnumNoInline. rewrite E1. cbn [mbind outcome_bind]. rewrite E2.
  destruct (packed_loop_spec is_valid values before fuel s2 Hg2 Hl2 Ea2 Hv Hf) as (s3 & -> & Hm3). cbn [mbind outcome_bind].
  destruct (Hend s3 Hm3). by eexists.
Qed.

(** No value of a packed enumeration is lost: those that are valid are added in
    order, the others are kept as fields of their own, and reading goes on behind
    the packed field with the old limit in force. *)
Theorem packed_enum_preserved number is_valid values before more fuel s out :
  CodedStreamSpec.good s -> Forall (fun v => - 2 ^ 31 <= v < 2 ^ 31) values -> (length values < fuel)%nat ->
  avail s = WriteStringWithSizeToArray (packed values) ++ more ->
  CurrentPosition s + Z.of_nat (length (avail s)) < INT_MAX ->
  CodedOutputSpec.good out -> room (length (kept_fields number is_valid values)) out ->
  exists s' out', ReadPackedEnumPreserveUnknowns fuel number is_valid before s out =
      Ok (true, before ++ filter (fun v => accepted is_valid v = true) values, s', out') /\
    moved (length (WriteStringWithSizeToArray (packed values))) s s' /\ avail s' = more /\
    wrote (kept_fields number is_valid values) out out'.
Proof using Type.
  intros Hg Hv Hf Ea Hsmall Hgo Hroom.
  destruct (packed_begins values more s Hg Ea Hsmall) as (n & s1 & limit & s2 & E1 & E2 & Hg2 & Hl2 & Ea2 & Hend).
  unfold ReadPackedEnumPreserveUnknowns. rewrite E1. cbn [mbind outcome_bind]. rewrite E2.
  destruct (preserving_loop_spec number is_valid values before fuel s2 out Hg2 Hl2 Ea2 Hv Hf Hgo Hroom) as (s3 & out' & -> & Hm3 & Hw).
  cbn [mbind outcome_bind]. destruct (Hend s3 Hm3). by eexists _, _.
Qed.

End Spec.

(** ** Into an array of twenty-four bytes, five at a time *)

#[local] Existing Instance ArrayInputStream.array_stream.
#[local] Existing Instance ArrayInputStream.array_reliable.
#[local] Existing Instance ArrayInputStream.array_lawful.
#[local] Existing Instance ArrayOutputStream.array_output.
#[local] Existing Instance ArrayOutputStream.array_output_lawful.

Definition drain : ArrayOutputStream.ArrayOutputStream := ArrayOutputStream.new_ArrayOutputStream (replicate 24 0) 5.

Lemma drain_good : exists out, new_CodedOutputStream drain = Ok out /\ CodedOutputSpec.good out /\ room 20 out.
Proof.
  assert (valid_output drain) as Hv by apply ArrayOutputStream.output_valid.
  destruct (new_spec drain Hv ltac:(by vm_compute)) as (out & E & Hg & _ & Hc & _ & Hm).
  exists out. split; [done|]. split; [done|]. unfold room. rewrite Hc, Hm. by vm_compute.
Qed.

Lemma smaller_room n {Out} `{LawfulOutput Out} (out : CodedOutputStream Out) : room 20 out -> (n <= 20)%nat -> room n out.
Proof. unfold room. lia. Qed.

Lemma SkipMessage_preserves_witness : exists out, new_CodedOutputStream drain = Ok out /\
  exists s' out', SkipMessageTo 10 (stream_of a_message) out = Ok (true, s', out') /\
    avail s' = [] /\ ConsumedEntireMessage s' = true /\ wrote a_message out out'.
Proof.
  destruct drain_good as (out & E & Hg & Hr). exists out. split; [done|]. destruct a_message_good as [Hgi Ea].
  destruct (SkipMessage_preserves 10 (stream_of a_message) out) as (s' & out' & H); try done.
  - rewrite Ea, a_message_bytes. simpl. lia.
  - rewrite Ea. exact a_message_written.
  - apply smaller_room; [done|]. rewrite Ea, a_message_bytes. simpl. lia.
  - rewrite Ea in H. by exists s', out'.
Defined.

(** The value 5 of the field 16 becomes a value of the field 2. *)
Lemma unknown_enum_misfiled_witness : exists out, new_CodedOutputStream drain = Ok out /\
  exists out', SkipUnknownEnum 16 5 out = Ok out' /\ wrote (WriteTagToArray 2 WIRETYPE_VARINT ++ WriteVarint64ToArray 5) out out'.
Proof.
  destruct drain_good as (out & E & Hg & Hr). exists out. split; [done|].
  destruct (unknown_enum_misfiled 16 5 out Hg Hr) as (bytes & out' & E' & Hw & _ & Hb); [lia|].
  exists out'. split; [done|]. rewrite (Hb 2 eq_refl) in Hw. exact Hw.
Defined.

Definition small_only : option (Z -> bool) := Some (fun v => v <? 3).
Definition a_packed_field : list Z := [4; 0x01; 0x07; 0x02; 0x09; 0x2A].

Lemma packed_enum_preserved_witness : exists out, new_CodedOutputStream drain = Ok out /\
  exists s' out', ReadPackedEnumPreserveUnknowns 5 3 small_only [0] (stream_of a_packed_field) out = Ok (true, [0; 1; 2], s', out') /\
    avail s' = [0x2A] /\ wrote [0x18; 0x07; 0x18; 0x09] out out'.
Proof.
  destruct drain_good as (out & E & Hg & Hr). exists out. split; [done|].
  destruct (stream_of_good a_packed_field) as [Hgi Ea]; [repeat (constructor; [unfold byte; lia|]); constructor|by vm_compute|].
  destruct (packed_enum_preserved 3 small_only [1; 7; 2; 9] [0] [0x2A] 5 (stream_of a_packed_field) out Hgi) as (s' & out' & E' & _ & Ea' & Hw).
  - repeat (constructor; [lia|]). constructor.
  - simpl. lia.
  - exact Ea.
  - rewrite Ea. by vm_compute.
  - done.
  - apply smaller_room; [done|]. apply Nat.leb_le. by vm_compute.
  - exists s', out'. split; [exact E'|]. by split.
Defined.
