(* ===== verification/ProtocolHandler.v ===== *)
(** * Messages from the collector ([lib/protocol_handler.cpp])

    A message is a length and a body.  The handler asks for
    [MAX_HEADER_SIZE] bytes, decodes the length from them, asks for the rest of
    the body, parses it and calls the listener.  At most one read is pending; it
    completes with the bytes that arrived, which the socket has stored in the
    buffer, or with an error.  The parser of the generated code and the state of
    the connection are parameters. *)
From S2P Require Import Prelude Messages SignalHandler ProcScanner CollectorController ZeroCopyStream CodedStream.
#[local] Existing Instance ArrayInputStream.array_stream.

Definition MAX_BUFFER_SIZE : nat := 1024.

Class CollectorParser := { ParseFromArray : list Z -> option CollectorEnvelope }.

Class CollectorMessageListener (L : Type) := {
  on_terminate : L -> outcome L;
  on_sample_rate : SampleRate -> L -> outcome L;
  on_heartbeat : L -> outcome L;
  (** [network_.isConnected()]; a call of the listener may disconnect. *)
  listener_isConnected : L -> bool
}.

Inductive continuation := OnReadHeader | OnReadBody.

(** [asio::async_read]: [length] bytes to the buffer from [dest] on. *)
Record read_request := mkRead { dest : nat; read_length : Z; handler : continuation }.

Record ProtocolHandler (L : Type) := mkProtocolHandler {
  buffer : list Z;
  size : Z;
  offset : nat;
  pending : option read_request;
  listener_ : L
}.
Arguments mkProtocolHandler {L}.
Arguments buffer {L}.
Arguments size {L}.
Arguments offset {L}.
Arguments pending {L}.
Arguments listener_ {L}.

(** [error_code] as the handlers tell it apart. *)
Inductive error_code := NoError | Eof | OperationAborted | OtherError.

Section Handler.
Context {L : Type} `{CollectorMessageListener L} `{CollectorParser}.
Local Abbreviation ProtocolHandler := (ProtocolHandler L).
Implicit Types p : ProtocolHandler.

Definition new_ProtocolHandler (l : L) : ProtocolHandler :=
  mkProtocolHandler (replicate MAX_BUFFER_SIZE 0) 0 0 None l.

Definition set_pending r p : ProtocolHandler := mkProtocolHandler (buffer p) (size p) (offset p) r (listener_ p).
Definition set_buffer b p : ProtocolHandler := mkProtocolHandler b (size p) (offset p) (pending p) (listener_ p).
Definition set_header s o p : ProtocolHandler := mkProtocolHandler (buffer p) s o (pending p) (listener_ p).
Definition set_listener l p : ProtocolHandler := mkProtocolHandler (buffer p) (size p) (offset p) (pending p) l.

Definition async_read (dest : nat) (length : Z) (handler : continuation) p : ProtocolHandler :=
  set_pending (Some (mkRead dest length handler)) p.

Definition attemptRead p : ProtocolHandler :=
  if listener_isConnected (listener_ p) then async_read 0 (Z.of_nat MAX_HEADER_SIZE) OnReadHeader p else p.

(** The length of the part of the body still to be read: [unsigned int] minus
    [int], converted to [size_t].  The branch for a negative value only logs,
    and is never taken. *)
Definition remaining (size : Z) (offset : nat) : Z :=
  let messagePrefixRead := Z.of_nat MAX_HEADER_SIZE - Z.of_nat offset in u32 (size - messagePrefixRead).

(** The length in front of a message and the position behind it, over a stream
    that has only these bytes; a stream to refill it from is not used. *)
Definition read_header (bytes : list Z) : outcome (option (Z * nat)) :=
  let cis := flat_CodedInputStream (I := ArrayInputStream.ArrayInputStream) bytes in
  '(v, cis) ← CodedStream.ReadVarint32 cis;
  Ok (match v with Some size => Some (size, Z.to_nat (CurrentPosition cis)) | None => None end).

Definition onReadHeader (ec : error_code) p : outcome ProtocolHandler :=
  match ec with
  | NoError =>
      v ← read_header (take MAX_HEADER_SIZE (buffer p));
      Ok (match v with
          | Some (size, offset) =>
              let p := set_header size offset p in
              if listener_isConnected (listener_ p) then
                async_read MAX_HEADER_SIZE (remaining size offset) OnReadBody p
              else p
          (* the failed decoder has set the length *)
          | None => attemptRead (set_header (2 ^ 32 - 1) (offset p) p)
          end)
  | _ => Ok p
  end.

Definition dispatch (envelope : CollectorEnvelope) (l : L) : outcome L :=
  match envelope with
  | Terminate => on_terminate l
  | SampleRateMessage sampleRate => on_sample_rate sampleRate l
  | CollectorHeartbeat _ => on_heartbeat l
  | Unset => Ok l
  end.

(** The [size] bytes from [offset] on. *)
Definition body (size : Z) (offset : nat) (b : list Z) : outcome (list Z) :=
  if Z.of_nat offset + size <=? Z.of_nat (length b) then Ok (take (Z.to_nat size) (drop offset b)) else Undefined.

Definition onReadBody (ec : error_code) p : outcome ProtocolHandler :=
  match ec with
  | NoError =>
      message ← body (size p) (offset p) (buffer p);
      l ← match ParseFromArray message with
          | None => Ok (listener_ p)
          | Some collectorEnvelope => dispatch collectorEnvelope (listener_ p)
          end;
      Ok (attemptRead (set_listener l p))
  | _ => Ok (attemptRead p)
  end.

(** The socket stores what arrived from [dest] on. *)
Definition store (dest : nat) (bytes b : list Z) : outcome (list Z) :=
  if (dest + length bytes <=? length b)%nat then Ok (take dest b ++ bytes ++ drop (dest + length bytes) b)
  else Undefined.

(** The pending read completes: without an error it has transferred all the
    bytes it asked for. *)
Definition complete_read (bytes : list Z) (ec : error_code) p : outcome ProtocolHandler :=
  match pending p with
  | None => Ok p
  | Some r =>
      b ← store (dest r) bytes (buffer p);
      let p := set_pending None (set_buffer b p) in
      match handler r with OnReadHeader => onReadHeader ec p | OnReadBody => onReadBody ec p end
  end.

(** The handler served from a stream of bytes, for at most [fuel] reads; it
    returns what is left of the stream when the stream holds less than the
    pending read asks for. *)
Fixpoint serve (fuel : nat) (stream : list Z) p : outcome (list Z * ProtocolHandler) :=
  match fuel, pending p with
  | S fuel, Some r =>
      if read_length r <=? Z.of_nat (length stream) then
        let n := Z.to_nat (read_length r) in
        p ← complete_read (take n stream) NoError p;
        serve fuel (drop n stream) p
      else Ok (stream, p)
  | _, _ => Ok (stream, p)
  end.
End Handler.

(** The listener of the agent is the controller. *)
#[export] Instance agent_listener {N M} `{NetworkApi N} `{MetricsApi M} `{Kernel} :
    CollectorMessageListener (agent N M) := {
  on_terminate a := Ok (onTerminate a);
  on_sample_rate := onSampleRate;
  on_heartbeat a := Ok (onHeartbeat a);
  listener_isConnected a := network_isConnected (network a)
}.
