(* ===== verification/ProtocolHandlerSpec.v ===== *)
(** * Framing

    Messages of a workable length are handed to the listener one by one; the
    length of any other message makes a read that does not fit the buffer. *)
From S2P Require Import Prelude Messages SignalHandler ProcScanner CollectorController Varint ZeroCopyStream CodedStream CodedStreamSpec WireFormatSpec ProtocolHandler.
#[local] Existing Instance ArrayInputStream.array_stream.
#[local] Existing Instance ArrayInputStream.array_reliable.
#[local] Existing Instance ArrayInputStream.array_lawful.

Section Spec.
Context {L : Type} `{CollectorMessageListener L} `{CollectorParser}.
Local Abbreviation ProtocolHandler := (ProtocolHandler L).
Implicit Types p : ProtocolHandler.

Definition header (m : list Z) : list Z := WriteVarint32ToArray (Z.of_nat (length m)).
Definition framed (m : list Z) : list Z := header m ++ m.

(** The bytes of the header read that belong to the body are all of this
    message's, and header and body fit the buffer. *)
Record workable (m : list Z) : Prop := {
  workable_bytes : Forall byte m;
  workable_long : (MAX_HEADER_SIZE <= length (framed m))%nat;
  workable_short : (length (framed m) <= MAX_BUFFER_SIZE)%nat
}.

(** Waiting for a header. *)
Record ready p : Prop := {
  ready_pending : pending p = Some (mkRead 0 5 OnReadHeader);
  ready_buffer : length (buffer p) = MAX_BUFFER_SIZE;
  ready_connected : listener_isConnected (listener_ p) = true
}.

Definition receive (m : list Z) (l : L) : outcome L :=
  match ParseFromArray m with None => Ok l | Some envelope => dispatch envelope l end.

(** The listener is handed the messages in turn, and stays connected. *)
Inductive receives : list (list Z) -> L -> L -> Prop :=
| receives_nil l : receives [] l l
| receives_cons m ms l l1 l' :
    receive m l = Ok l1 -> listener_isConnected l1 = true -> receives ms l1 l' -> receives (m :: ms) l l'.

Lemma header_length m : (1 <= length (header m) <= 5)%nat.
Proof using Type.
  unfold header, WriteVarint32ToArray. split; [apply write_varint_nonempty; unfold kMaxVarint32Bytes; lia|].
  apply write_varint_length.
Qed.

(** The decoder sees no further than the bytes of the header read. *)
Lemma read_header_written v more : 0 <= v < 2 ^ 32 -> Forall byte more ->
  Z.of_nat (length (WriteVarint32ToArray v ++ more)) <= INT_MAX ->
  read_header (WriteVarint32ToArray v ++ more) = Ok (Some (v, length (WriteVarint32ToArray v))).
Proof using Type.
  intros Hv Hm Hl. unfold read_header.
  destruct (flat_good (I := ArrayInputStream.ArrayInputStream) (WriteVarint32ToArray v ++ more)) as [Hg Ea]; [|done|].
  { apply Forall_app. split; [apply write_varint_bytes; lia|done]. }
  destruct (reads_varint32 v more _ Hg Ea Hv) as (s' & -> & _ & Hpos). cbn [mbind outcome_bind].
  pose proof (moved_position _ _ _ Hpos) as E. do 3 f_equal. rewrite E.
  change (CurrentPosition _) with (Z.of_nat (length (WriteVarint32ToArray v ++ more)) -
    (Z.of_nat (length (WriteVarint32ToArray v ++ more)) - 0 + 0)). lia.
Qed.

(** The stream after the header read, and the header in it. *)
Lemma header_read m stream :
  workable m -> stream = framed m ++ drop (length (framed m)) stream -> Forall byte stream ->
  read_header (take MAX_HEADER_SIZE stream) = Ok (Some (Z.of_nat (length m), length (header m))).
Proof using Type.
  intros [Hb Hl Hs] Hstream Hbytes. pose proof (header_length m) as Hh.
  rewrite Hstream. unfold framed at 1. rewrite <- app_assoc, take_app_ge by (unfold MAX_HEADER_SIZE; lia).
  apply read_header_written.
  - unfold framed in Hs. rewrite length_app in Hs. unfold MAX_BUFFER_SIZE in Hs. lia.
  - apply Forall_take. apply Forall_app. split; [done|]. by apply Forall_drop.
  - fold (header m). rewrite length_app, length_take. unfold INT_MAX, MAX_HEADER_SIZE. lia.
Qed.

Lemma remaining_workable m :
  workable m -> remaining (Z.of_nat (length m)) (length (header m)) = Z.of_nat (length (framed m)) - 5.
Proof using Type.
  intros [Hb Hl Hs]. unfold remaining, framed in *. rewrite length_app in *.
  pose proof (header_length m). unfold MAX_HEADER_SIZE, MAX_BUFFER_SIZE in *. rewrite u32_small by lia. lia.
Qed.

Lemma store_ok dest bytes b :
  (dest + length bytes <= length b)%nat ->
  store dest bytes b = Ok (take dest b ++ bytes ++ drop (dest + length bytes) b) /\
  length (take dest b ++ bytes ++ drop (dest + length bytes) b) = length b.
Proof using Type.
  intros Hb. unfold store. rewrite (proj2 (Nat.leb_le _ _) Hb). split; [done|].
  rewrite !length_app, length_take, length_drop. lia.
Qed.

Lemma body_workable m rest :
  body (Z.of_nat (length m)) (length (header m)) (framed m ++ rest) = Ok m.
Proof using Type.
  unfold body, framed. rewrite !length_app. rewrite (proj2 (Z.leb_le _ _)) by lia.
  rewrite Nat2Z.id, <- app_assoc, drop_app_length. by rewrite take_app_length.
Qed.

Lemma take_5 (stream : list Z) : (5 <= length stream)%nat -> length (take MAX_HEADER_SIZE stream) = MAX_HEADER_SIZE.
Proof using Type. rewrite length_take. unfold MAX_HEADER_SIZE. lia. Qed.

(** The state between the two reads of a message. *)
Record reading (m stream : list Z) (l : L) p : Prop := {
  reading_pending : pending p = Some (mkRead 5 (Z.of_nat (length (framed m)) - 5) OnReadBody);
  reading_size : size p = Z.of_nat (length m);
  reading_offset : offset p = length (header m);
  reading_buffer : exists old, buffer p = take MAX_HEADER_SIZE stream ++ old /\
    (length old + MAX_HEADER_SIZE = MAX_BUFFER_SIZE)%nat;
  reading_listener : listener_ p = l
}.

Lemma header_step m rest p :
  ready p -> workable m -> Forall byte rest ->
  exists p', complete_read (take MAX_HEADER_SIZE (framed m ++ rest)) NoError p = Ok p' /\
    reading m (framed m ++ rest) (listener_ p) p'.
Proof using Type.
  intros [Hp Hlen Hconn] Hm Hrest. pose proof Hm as [Hb Hl Hs]. set (stream := framed m ++ rest).
  assert (length (take MAX_HEADER_SIZE stream) = MAX_HEADER_SIZE) as H5.
  { apply take_5. subst stream. rewrite length_app. unfold MAX_HEADER_SIZE in Hl. lia. }
  unfold complete_read. rewrite Hp. cbn [dest handler].
  destruct (store_ok 0 (take MAX_HEADER_SIZE stream) (buffer p)) as [-> Hlen1].
  { rewrite H5, Hlen. unfold MAX_HEADER_SIZE, MAX_BUFFER_SIZE. lia. }
  cbn [mbind outcome_bind onReadHeader set_pending set_buffer buffer listener_].
  rewrite take_0 in *. cbn [app] in *. rewrite take_app_le by (rewrite H5; lia). rewrite take_take, Nat.min_id.
  rewrite (header_read m stream Hm).
  - cbn [mbind outcome_bind set_header listener_ async_read set_pending set_buffer]. rewrite Hconn, (remaining_workable m Hm).
    eexists. split; [done|]. split; try done. eexists. split; [done|].
    rewrite length_app, H5, Hlen in Hlen1. rewrite H5. lia.
  - subst stream. by rewrite drop_app_length.
  - apply Forall_app. split; [|done]. apply Forall_app. split; [|done]. apply write_varint_bytes. lia.
Qed.

Lemma body_step m rest l l1 p :
  reading m (framed m ++ rest) l p -> workable m -> receive m l = Ok l1 -> listener_isConnected l1 = true ->
  exists p', complete_read (drop MAX_HEADER_SIZE (framed m)) NoError p = Ok p' /\ ready p' /\ listener_ p' = l1.
Proof using Type.
  intros [Hp Hsz Hof (old & Hbuf & Hold) Hlst] Hm Hrecv Hconn. pose proof Hm as [Hb Hl Hs].
  unfold complete_read. rewrite Hp. cbn [dest handler].
  assert (length (take MAX_HEADER_SIZE (framed m ++ rest)) = MAX_HEADER_SIZE) as H5.
  { apply take_5. rewrite length_app. unfold MAX_HEADER_SIZE in Hl. lia. }
  assert (length (buffer p) = MAX_BUFFER_SIZE) as Hlen by (rewrite Hbuf, length_app, H5; lia).
  destruct (store_ok 5 (drop MAX_HEADER_SIZE (framed m)) (buffer p)) as [-> Hlen1].
  { rewrite length_drop, Hlen. unfold MAX_HEADER_SIZE in *. lia. }
  cbn [mbind outcome_bind onReadBody set_pending set_buffer buffer listener_ size offset].
  assert (take 5 (buffer p) ++ drop MAX_HEADER_SIZE (framed m) ++ drop (5 + length (drop MAX_HEADER_SIZE (framed m))) (buffer p)
    = framed m ++ drop (5 + length (drop MAX_HEADER_SIZE (framed m))) (buffer p)) as E.
  { rewrite Hbuf at 1. rewrite take_app_le by (rewrite H5; done). rewrite take_take, Nat.min_l by done.
    rewrite take_app_le by done. rewrite app_assoc. change 5%nat with MAX_HEADER_SIZE at 1. by rewrite take_drop. }
  rewrite E in Hlen1. rewrite E, Hsz, Hof, body_workable. cbn [mbind outcome_bind]. rewrite Hlst.
  unfold receive in Hrecv. rewrite Hrecv. cbn [mbind outcome_bind]. unfold attemptRead.
  cbn [listener_ set_listener]. rewrite Hconn. eexists. split; [done|]. split; [|done].
  split; [done| |done]. exact (eq_trans Hlen1 Hlen).
Qed.

(** The two reads of one message. *)
Lemma serve_message f m rest p l1 :
  ready p -> workable m -> Forall byte rest -> receive m (listener_ p) = Ok l1 -> listener_isConnected l1 = true ->
  exists p', serve (S (S f)) (framed m ++ rest) p = serve f rest p' /\ ready p' /\ listener_ p' = l1.
Proof using Type.
  intros Hr Hm Hrest Hrecv Hconn. pose proof Hm as [Hb Hl Hs].
  destruct (header_step m rest p Hr Hm Hrest) as (p1 & E1 & Hreading).
  destruct (body_step m rest (listener_ p) l1 p1 Hreading Hm Hrecv Hconn) as (p' & E2 & Hr' & Hl').
  exists p'. split; [|done].
  cbn [serve]. rewrite (ready_pending p Hr). cbn [read_length]. change (Z.to_nat 5) with MAX_HEADER_SIZE.
  rewrite (proj2 (Z.leb_le _ _)) by (rewrite length_app; unfold MAX_HEADER_SIZE in Hl; lia).
  rewrite E1. cbn [mbind outcome_bind]. rewrite (reading_pending _ _ _ _ Hreading). cbn [read_length].
  rewrite drop_app_le by done.
  assert (Z.to_nat (Z.of_nat (length (framed m)) - 5) = length (drop MAX_HEADER_SIZE (framed m))) as En.
  { rewrite length_drop. unfold MAX_HEADER_SIZE. lia. }
  rewrite (proj2 (Z.leb_le _ _)) by (rewrite length_app; unfold MAX_HEADER_SIZE in *; lia).
  rewrite En, take_app_length, drop_app_length, E2. done.
Qed.

Lemma serve_messages ms f rest p l' :
  ready p -> Forall workable ms -> Forall byte rest -> receives ms (listener_ p) l' ->
  exists p', serve (2 * length ms + f) (concat (framed <$> ms) ++ rest) p = serve f rest p' /\
    ready p' /\ listener_ p' = l'.
Proof using Type.
  revert p. induction ms as [|m ms IH]; intros p Hr Hms Hrest Hrecv.
  { inversion Hrecv; subst. by exists p. }
  inversion Hrecv as [|? ? ? l1 ? Hm Hc Hrec]; subst. apply Forall_cons_1 in Hms as [Hwm Hms].
  destruct (serve_message (2 * length ms + f) m (concat (framed <$> ms) ++ rest) p l1) as (p1 & E & Hr1 & Hl1); try done.
  { apply Forall_app. split; [|done]. clear -Hms. induction Hms as [|m ms [Hb _ _] Hms IH]; [constructor|].
    simpl. apply Forall_app. split; [|done]. apply Forall_app. split; [apply write_varint_bytes; lia|done]. }
  subst l1. destruct (IH p1 Hr1 Hms Hrest Hrec) as (p' & E' & Hr' & Hl').
  exists p'. split; [|done]. rewrite <- E', <- E. cbn [length fmap list_fmap concat].
  rewrite <- app_assoc. f_equal. lia.
Qed.

(** C13. Messages whose header and body together take from five bytes up to the
    size of the buffer, sent one after the other, reach the listener one by one,
    in order and with exactly their bytes, whatever their number, as long as the
    listener stays connected; the bytes of an incomplete header stay in the stream.
    Two reads per message are enough.  The sizes are a condition ([workable]): a
    shorter message stalls the handler ([short_message_stalls]), and a longer one
    is read past the end of the buffer ([body_read_bounds]). *)
Theorem framing fuel ms rest p l' :
  (2 * length ms < fuel)%nat ->
  ready p -> Forall workable ms -> Forall byte rest -> (length rest < 5)%nat -> receives ms (listener_ p) l' ->
  exists p', serve fuel (concat (framed <$> ms) ++ rest) p = Ok (rest, p') /\ ready p' /\ listener_ p' = l'.
Proof using Type.
  intros Hf Hr Hms Hrest Hshort Hrecv.
  destruct (serve_messages ms (fuel - 2 * length ms) rest p l' Hr Hms Hrest Hrecv) as (p' & E & Hr' & Hl').
  exists p'. split; [|done]. replace (2 * length ms + (fuel - 2 * length ms))%nat with fuel in E by lia.
  rewrite E. destruct (fuel - 2 * length ms)%nat as [|g] eqn:Eg; [lia|]. cbn [serve].
  rewrite (ready_pending p' Hr'). cbn [read_length]. by rewrite (proj2 (Z.leb_gt _ _)) by lia.
Qed.

(** Waiting for the body after a header. *)
Definition awaits_body (v : Z) (o : nat) p : Prop :=
  pending p = Some (mkRead 5 (remaining v o) OnReadBody) /\ length (buffer p) = MAX_BUFFER_SIZE.

Lemma remaining_cases v o :
  0 <= v < 2 ^ 32 -> (1 <= o <= 5)%nat ->
  (5 - Z.of_nat o <= v /\ remaining v o = v + Z.of_nat o - 5) \/
  (v < 5 - Z.of_nat o /\ remaining v o = 2 ^ 32 + v + Z.of_nat o - 5).
Proof using Type.
  intros Hv Ho. unfold remaining, u32, MAX_HEADER_SIZE. destruct (Z.le_gt_cases (5 - Z.of_nat o) v).
  - left. split; [done|]. rewrite Z.mod_small; lia.
  - right. split; [done|]. symmetry. apply Z.mod_unique with (-1); lia.
Qed.

Lemma body_read_fits v o :
  0 <= v < 2 ^ 32 -> (1 <= o <= 5)%nat ->
  5 + remaining v o <= Z.of_nat MAX_BUFFER_SIZE <-> 5 <= v + Z.of_nat o <= Z.of_nat MAX_BUFFER_SIZE.
Proof using Type.
  intros Hv Ho. unfold MAX_BUFFER_SIZE. destruct (remaining_cases v o Hv Ho) as [[? ->]|[? ->]]; lia.
Qed.

(** After a header with the length [v] in [o] bytes the handler asks for
    bytes that end inside its buffer exactly if header and body together have
    from five bytes up to the size of the buffer.  Otherwise, so also for a
    message of less than four bytes, the read runs past the end of the buffer as
    soon as the bytes arrive. *)
Theorem body_read_bounds v o bytes p :
  0 <= v < 2 ^ 32 -> (1 <= o <= 5)%nat -> awaits_body v o p ->
  (5 + remaining v o <= Z.of_nat MAX_BUFFER_SIZE <-> 5 <= v + Z.of_nat o <= Z.of_nat MAX_BUFFER_SIZE) /\
  (~ 5 <= v + Z.of_nat o <= Z.of_nat MAX_BUFFER_SIZE -> Z.of_nat (length bytes) = remaining v o ->
   complete_read bytes NoError p = Undefined).
Proof using Type.
  intros Hv Ho [Hp Hb]. split; [by apply body_read_fits|]. intros Hbad Hlen.
  rewrite <- (body_read_fits v o Hv Ho) in Hbad. unfold complete_read. rewrite Hp. cbn [dest].
  unfold store. rewrite (proj2 (Nat.leb_gt _ _)); [done|]. rewrite Hb. lia.
Qed.

(** A message of fewer than four bytes, an empty terminate message for
    instance, is not seen when it arrives: the handler waits for more than four
    thousand million bytes that belong to later messages. *)
Theorem short_message_stalls m rest p :
  ready p -> Forall byte m -> (length (framed m) < 5)%nat ->
  Forall byte rest -> (5 <= length (framed m ++ rest))%nat ->
  exists p', complete_read (take MAX_HEADER_SIZE (framed m ++ rest)) NoError p = Ok p' /\
    listener_ p' = listener_ p /\
    exists r, pending p' = Some r /\ handler r = OnReadBody /\ 2 ^ 32 - 4 <= read_length r < 2 ^ 32.
Proof using Type.
  intros [Hp Hlen Hconn] Hm Hshort Hrest Hlong. set (stream := framed m ++ rest) in *.
  pose proof (take_5 stream Hlong) as H5. pose proof (header_length m) as Hh.
  unfold framed in Hshort. rewrite length_app in Hshort.
  unfold complete_read. rewrite Hp. cbn [dest handler].
  destruct (store_ok 0 (take MAX_HEADER_SIZE stream) (buffer p)) as [-> _].
  { rewrite H5, Hlen. unfold MAX_HEADER_SIZE, MAX_BUFFER_SIZE. lia. }
  cbn [mbind outcome_bind onReadHeader set_pending set_buffer buffer listener_].
  rewrite take_0. cbn [app]. rewrite take_app_le by (rewrite H5; lia). rewrite take_take, Nat.min_id.
  assert (read_header (take MAX_HEADER_SIZE stream) = Ok (Some (Z.of_nat (length m), length (header m)))) as ->.
  { subst stream. unfold framed. rewrite <- app_assoc, take_app_ge by (unfold MAX_HEADER_SIZE; lia).
    apply read_header_written; [lia|apply Forall_take, Forall_app; by split|].
    fold (header m). rewrite length_app, length_take. unfold INT_MAX, MAX_HEADER_SIZE. lia. }
  cbn [mbind outcome_bind set_header listener_ async_read set_pending set_buffer]. rewrite Hconn.
  eexists. split; [done|]. split; [done|]. eexists. split; [done|]. split; [done|]. cbn [read_length].
  destruct (remaining_cases (Z.of_nat (length m)) (length (header m))) as [[? ?]|[? ->]]; lia.
Qed.
End Spec.

(** ** A listener that counts heartbeats *)

#[local] Instance heartbeats : CollectorMessageListener nat := {
  on_terminate l := Ok l;
  on_sample_rate _ l := Ok l;
  on_heartbeat l := Ok (S l);
  listener_isConnected _ := true
}.
(** The field number of a heartbeat. *)
#[local] Instance first_byte : CollectorParser := {
  ParseFromArray l := match l with 50 :: _ => Some (CollectorHeartbeat 0) | 10 :: _ => Some Terminate | _ => None end
}.

Definition a_heartbeat : list Z := [50; 3; 8; 172; 2].
Definition waiting : ProtocolHandler nat := attemptRead (new_ProtocolHandler O).

Lemma waiting_ready : ready waiting.
Proof. split; [done|apply length_replicate|done]. Qed.

Lemma framing_witness :
  exists p', serve 5 (concat (framed <$> [a_heartbeat; a_heartbeat]) ++ [5; 50]) waiting = Ok ([5; 50], p') /\
    ready p' /\ listener_ p' = 2%nat.
Proof.
  apply (framing 5 [a_heartbeat; a_heartbeat] [5; 50] waiting 2%nat).
  - simpl. lia.
  - exact waiting_ready.
  - assert (workable a_heartbeat) as Hw; [|by repeat constructor].
    split; [repeat constructor; unfold byte; lia|apply Nat.leb_le; reflexivity|apply Nat.leb_le; reflexivity].
  - repeat constructor; unfold byte; lia.
  - simpl. lia.
  - repeat (eapply receives_cons; [reflexivity|reflexivity|]). constructor.
Defined.

Definition awaiting (v : Z) : ProtocolHandler nat := async_read 5 (remaining v 1) OnReadBody waiting.

Lemma body_read_bounds_witness :
  ~ 5 + remaining 2 1 <= Z.of_nat MAX_BUFFER_SIZE.
Proof.
  destruct (body_read_bounds 2 1 [] (awaiting 2)) as [H _]; [lia|lia|split; [done|apply length_replicate]|].
  intros Hfit. apply H in Hfit. lia.
Defined.

Lemma short_message_stalls_witness :
  exists p', complete_read (take MAX_HEADER_SIZE (framed [10; 0] ++ [2; 10; 0])) NoError waiting = Ok p' /\
    listener_ p' = 0%nat /\
    exists r, pending p' = Some r /\ handler r = OnReadBody /\ 2 ^ 32 - 4 <= read_length r < 2 ^ 32.
Proof.
  apply (short_message_stalls [10; 0] [2; 10; 0] waiting waiting_ready).
  - repeat constructor; unfold byte; lia.
  - apply Nat.ltb_lt. reflexivity.
  - repeat constructor; unfold byte; lia.
  - apply Nat.leb_le. reflexivity.
Defined.
