(* ===== verification/Network.v ===== *)
(** * The connection itself ([lib/network.cpp])

    One TLS socket.  What the operating system, Asio and the peer do is the class
    [Asio]: for the [n]-th operation of the connection, how long it takes if left
    alone and how it ends.  An operation that a timeout closes the socket under
    ends with [operation_aborted].  Handlers of other components that run inside
    [run_one], the log output and the drained operations of [close] are left
    out; a nested [sendWithSize] is the case [isSending_ = true]. *)
From S2P Require Import Prelude Messages CollectorController OutputStream CodedOutput Delimited.
#[local] Existing Instance ArrayOutputStream.array_output.
#[local] Open Scope Z_scope.

Definition CONNECT_TIMEOUT_IN_MS : Z := 1000.

(** Linux error numbers; 0 is success. *)
Definition io_error : Z := 5.
Definition broken_pipe : Z := 32.
Definition network_down : Z := 100.
Definition network_unreachable : Z := 101.
Definition network_reset : Z := 102.
Definition connection_reset : Z := 104.
Definition operation_aborted : Z := 125.

Record result := mkResult { takes : Z; ec : Z }.

Class Asio := {
  async_resolve : nat -> result;
  async_connect : nat -> result;
  handshake : nat -> result;
  (** whether the socket is still open when the handshake returns *)
  open_after_handshake : nat -> bool;
  async_write : nat -> list Z -> result
}.

(** [sock_]: no socket, or one that is open or closed.  [operations] counts what
    was asked of Asio, [clock] is the time that passed. *)
Record Network := mkNetwork {
  isConnected_ : bool;
  isSending_ : bool;
  sock_ : option bool;
  operations : nat;
  clock : Z
}.

Definition new_Network : Network := mkNetwork false false None 0 0.

Definition set_connected b n : Network := mkNetwork b (isSending_ n) (sock_ n) (operations n) (clock n).
Definition set_sending b n : Network := mkNetwork (isConnected_ n) b (sock_ n) (operations n) (clock n).
Definition set_sock s n : Network := mkNetwork (isConnected_ n) (isSending_ n) s (operations n) (clock n).
Definition spend t n : Network := mkNetwork (isConnected_ n) (isSending_ n) (sock_ n) (S (operations n)) (clock n + t).

Definition is_open n : bool := match sock_ n with Some o => o | None => false end.

Definition closeSocket n : Network :=
  match sock_ n with Some _ => set_connected false (set_sock (Some false) n) | None => n end.

Definition close n : Network :=
  let n := closeSocket n in match sock_ n with Some _ => set_sock None n | None => n end.

Definition on_fork n : Network := close n.

(** [setupTimeout] and [awaitCompletionOrTimeout].  The timer's handler is bound
    to a copy of the error code, so it ends the wait only through closing the
    socket, which aborts the operation. *)
Definition awaitCompletionOrTimeout (doClose : bool) (r : result) n : Z * Network :=
  if takes r <? CONNECT_TIMEOUT_IN_MS then (ec r, spend (takes r) n)
  else if doClose then (operation_aborted, closeSocket (spend CONNECT_TIMEOUT_IN_MS n))
  else (ec r, spend (takes r) n).

Section Operations.
Context `{Asio, Serializable AgentEnvelope}.
Context (prometheusEnabled_ : bool).

Definition connect n : bool * Network :=
  if prometheusEnabled_ then (true, n)
  else
    let '(resolveErrorCode, n) := awaitCompletionOrTimeout false (async_resolve (operations n)) n in
    if negb (resolveErrorCode =? 0) then (false, close n)
    else
      let n := set_sock (Some true) n in
      let '(connectErrorCode, n) := awaitCompletionOrTimeout true (async_connect (operations n)) n in
      if negb (connectErrorCode =? 0) || negb (is_open n) then (false, close n)
      else
        let r := handshake (operations n) in
        let n := set_sock (Some (open_after_handshake (operations n))) (spend (takes r) n) in
        if negb (ec r =? 0) || negb (is_open n) then (false, close n)
        else (true, set_connected true n).

(** The errors taken for the loss of the connection. *)
Definition is_disconnect (ec : Z) : bool :=
  existsb (Z.eqb ec) [connection_reset; broken_pipe; io_error; network_down; network_reset; network_unreachable].

(** The bytes of the buffer up to the count of the stream, or a failure. *)
Definition serialized (agentEnvelope : AgentEnvelope) : outcome (option (list Z)) :=
  let size := ByteSize agentEnvelope in
  let maxSize := Z.of_nat MAX_HEADER_SIZE + size in
  let buffer := replicate (Z.to_nat maxSize) 0 in
  let aos := ArrayOutputStream.new_ArrayOutputStream buffer (-1) in
  '(b, aos) ← SerializeDelimitedToZeroCopyStream agentEnvelope aos;
  Ok (if b : bool then Some (take (Z.to_nat (OutputStream.ByteCount aos)) (ArrayOutputStream.data_ aos)) else None).

(** [ConnectionLost] is the call of [controller.onDisconnect]; the code returns
    whether the result is [Delivered].  [NetworkSpec.serialized_spec] shows that
    serialising has no other outcome than [Ok]. *)
Definition sendWithSize (agentEnvelope : AgentEnvelope) n : delivery * Network :=
  if isConnected_ n then
    if isSending_ n then (NotDelivered, n)
    else
      let n := set_sending true n in
      match serialized agentEnvelope with
      | Ok (Some bytes) =>
          let '(ec, n) := awaitCompletionOrTimeout true (async_write (operations n) bytes) n in
          if is_disconnect ec then (ConnectionLost, set_sending false (close n))
          else (if ec =? 0 then Delivered else NotDelivered, set_sending false n)
      | _ => (NotDelivered, set_sending false n)
      end
  else (NotDelivered, set_sending false n).

(** The connection the controller uses. *)
#[export] Instance Network_api : NetworkApi Network := {
  network_isConnected := isConnected_;
  network_connect := connect;
  network_transmit := sendWithSize;
  network_close := close
}.
End Operations.

(** ** Polling *)

Definition MAX_POLLS : nat := 10.

(** One call of [poll_one]: the number of handlers that ran, whether it failed,
    and the state those handlers left. *)
Fixpoint poll_loop {W} (poll_one : W -> nat * bool * W) (i : nat) (work : nat) (w : W) : bool * W :=
  match i with
  | O => ((0 <? work)%nat, w)
  | S i =>
      let '(n, failed, w) := poll_one w in
      if failed then ((0 <? work + n)%nat, w) else poll_loop poll_one i (work + n) w
  end.

Definition poll {W} (poll_one : W -> nat * bool * W) (w : W) : bool * W := poll_loop poll_one MAX_POLLS 0 w.
