(* ===== verification/NetworkSpec.v ===== *)
(** * The connection: its invariant, its timing, and how losses are reported *)
From S2P Require Import Prelude Messages CollectorController Varint OutputStream CodedOutput Delimited DelimitedSpec Network.
#[local] Existing Instance ArrayOutputStream.array_output.
#[local] Existing Instance ArrayOutputStream.array_output_lawful.
#[local] Open Scope Z_scope.

(** A connected network has an open socket; between calls nothing is being sent. *)
Record valid (n : Network) : Prop := {
  valid_open : isConnected_ n = true -> sock_ n = Some true;
  valid_idle : isSending_ n = false
}.

Inductive reachable_by `{Asio, Serializable AgentEnvelope} (prometheus : bool) : Network -> Network -> Prop :=
| by_connect n : reachable_by prometheus n (connect prometheus n).2
| by_send e n : reachable_by prometheus n (sendWithSize e n).2
| by_close n : reachable_by prometheus n (close n)
| by_fork n : reachable_by prometheus n (on_fork n).

Section Spec.
Context `{Asio, Serializable AgentEnvelope} (prometheus : bool).

(** What [close] needs. *)
Definition has_socket (n : Network) : Prop := isConnected_ n = true -> sock_ n <> None.

Lemma valid_socket n : valid n -> has_socket n.
Proof using Type. intros [Ho _] Hc. by rewrite (Ho Hc). Qed.

Lemma close_disconnects n : has_socket n -> isConnected_ (close n) = false /\ sock_ (close n) = None.
Proof using Type.
  unfold has_socket, close, closeSocket. intros Hs. destruct (sock_ n) as [o|] eqn:E; simpl; [done|].
  rewrite E. destruct (isConnected_ n); [by specialize (Hs eq_refl)|done].
Qed.

Lemma close_sending n : isSending_ (close n) = isSending_ n.
Proof using Type. unfold close, closeSocket. destruct (sock_ n) eqn:E; simpl; by rewrite ?E. Qed.

Lemma close_valid n : has_socket n -> isSending_ n = false -> valid (close n).
Proof using Type.
  intros Hs Hi. destruct (close_disconnects n Hs) as [Hc _]. split; [by rewrite Hc|by rewrite close_sending].
Qed.

Lemma await_sending doClose r n : isSending_ (awaitCompletionOrTimeout doClose r n).2 = isSending_ n.
Proof using Type.
  unfold awaitCompletionOrTimeout, closeSocket. destruct (_ <? _); [done|]. destruct doClose; [|done].
  simpl. by destruct (sock_ n).
Qed.

(** Unless it is timed out an operation leaves the socket as it was. *)
Lemma await_socket doClose r n :
  (isConnected_ n = true -> sock_ n = Some true) ->
  let n' := (awaitCompletionOrTimeout doClose r n).2 in
  (isConnected_ n' = true -> sock_ n' = Some true) /\ (sock_ n <> None -> sock_ n' <> None).
Proof using Type.
  intros Ho. unfold awaitCompletionOrTimeout, closeSocket. destruct (_ <? _); [done|]. destruct doClose; [|done].
  simpl. by destruct (sock_ n) eqn:E; simpl; rewrite ?E.
Qed.

Lemma await_valid doClose r n : valid n -> valid (awaitCompletionOrTimeout doClose r n).2.
Proof using Type.
  intros [Ho Hi]. split; [apply (await_socket doClose r n Ho)|by rewrite await_sending].
Qed.

Lemma connect_valid n : valid n -> valid (connect prometheus n).2.
Proof using Type.
  intros Hv. unfold connect. destruct prometheus; [done|].
  pose proof (await_valid false (async_resolve (operations n)) n Hv) as Hv1.
  destruct (awaitCompletionOrTimeout false _ n) as [c1 n1]. cbn [snd] in *.
  destruct (negb (c1 =? 0)); [apply close_valid; [by apply valid_socket|apply Hv1]|].
  assert (valid (set_sock (Some true) n1)) as Hv2 by (destruct Hv1; by split).
  pose proof (await_valid true (async_connect (operations (set_sock (Some true) n1))) _ Hv2) as Hv3.
  destruct (awaitCompletionOrTimeout true _ _) as [c3 n3]. cbn [snd] in *.
  destruct (negb (c3 =? 0) || negb (is_open n3)); [apply close_valid; [by apply valid_socket|apply Hv3]|].
  destruct (negb (ec _ =? 0)); cbn [orb]; [apply close_valid; [done|apply Hv3]|].
  unfold is_open. cbn [sock_ set_sock spend]. destruct (open_after_handshake _) eqn:E; cbn [negb].
  - split; [done|apply Hv3].
  - apply close_valid; [done|apply Hv3].
Qed.

Lemma send_valid e n : valid n -> valid (sendWithSize e n).2.
Proof using Type.
  intros Hv. pose proof Hv as [Ho Hi]. unfold sendWithSize. rewrite Hi.
  destruct (isConnected_ n) eqn:Ec; [|split; [simpl; by rewrite Ec|done]].
  specialize (Ho eq_refl). destruct (serialized e) as [[bytes|]| | |]; [|by split..].
  pose proof (await_socket true (async_write (operations (set_sending true n)) bytes) (set_sending true n) (fun _ => Ho)) as [Hs Hs'].
  destruct (awaitCompletionOrTimeout true _ _) as [c n']. cbn [snd] in *. destruct (is_disconnect c).
  - assert (has_socket n') as Hn' by (intros Hc; by rewrite (Hs Hc)).
    destruct (close_disconnects n' Hn') as [Hc _]. by split; simpl; rewrite ?Hc.
  - by split.
Qed.

(** C20. Whatever is called, and however the operations end, a network that
    counts as connected has an open socket, and no send is left marked as
    running, which would block all later ones. *)
Theorem network_stays_valid n : rtc (reachable_by prometheus) new_Network n -> valid n.
Proof using Type.
  intros Hr. assert (valid new_Network) as Hnew by done. revert Hnew. induction Hr as [|n n1 n2 Hs Hr IH]; [done|].
  intros Hv. apply IH. destruct Hs.
  - by apply connect_valid.
  - by apply send_valid.
  - apply close_valid; [by apply valid_socket|apply Hv].
  - apply close_valid; [by apply valid_socket|apply Hv].
Qed.

(** [connect] succeeds exactly if the name is resolved, the TCP connection
    is made within the timeout, and the TLS handshake ends well with the socket
    still open; then the network is connected, and otherwise it is not and has no
    socket. *)
Theorem connect_outcome n :
  valid n ->
  let c := async_connect (S (operations n)) in
  let ok := (ec (async_resolve (operations n)) =? 0) && (takes c <? CONNECT_TIMEOUT_IN_MS) && (ec c =? 0)
            && (ec (handshake (S (S (operations n)))) =? 0) && open_after_handshake (S (S (operations n))) in
  let '(b, n') := connect false n in
  b = ok /\ isConnected_ n' = ok /\ sock_ n' = if ok then Some true else None.
Proof using Type.
  intros Hv. pose proof (valid_socket n Hv) as Hs. cbn zeta. unfold connect, awaitCompletionOrTimeout.
  assert (forall a b, (if takes (async_resolve (operations n)) <? a then b else b) = (b : Z * Network)) as E
    by (intros; by destruct (_ <? _)).
  rewrite E. clear E. destruct (ec (async_resolve (operations n)) =? 0); cbn [negb andb].
  2: { destruct (close_disconnects (spend (takes (async_resolve (operations n))) n)) as [Hc Ho]; [exact Hs|done]. }
  unfold is_open, close, closeSocket. cbn [operations set_sock spend sock_ set_connected isConnected_].
  destruct (takes (async_connect _) <? _); cbn [andb]; [|done].
  destruct (ec (async_connect _) =? 0); cbn [negb orb andb sock_ operations]; [|done].
  destruct (ec (handshake _) =? 0); cbn [negb orb andb]; [|done].
  by destruct (open_after_handshake _).
Qed.

(** The timeout of a second bounds the TCP connection only: [connect] waits
    for the resolver as long as that takes, although it sets a timer, and for the
    TLS handshake, for which it sets none. *)
Theorem connect_time n :
  let r := async_resolve (operations n) in
  let c := async_connect (S (operations n)) in
  let h := handshake (S (S (operations n))) in
  clock (connect false n).2 =
    clock n + takes r +
    (if ec r =? 0 then
       Z.min CONNECT_TIMEOUT_IN_MS (takes c) +
       (if (takes c <? CONNECT_TIMEOUT_IN_MS) && (ec c =? 0) then takes h else 0)
     else 0).
Proof using Type.
  assert (forall m, clock (close m) = clock m) as Hclose.
  { intros m. unfold close, closeSocket. destruct (sock_ m) eqn:E; simpl; by rewrite ?E. }
  cbn zeta. unfold connect, awaitCompletionOrTimeout.
  assert (forall a b, (if takes (async_resolve (operations n)) <? a then b else b) = (b : Z * Network)) as E
    by (intros; by destruct (_ <? _)).
  rewrite E. clear E. destruct (ec (async_resolve (operations n)) =? 0); cbn [negb].
  2: { cbn [snd]. rewrite Hclose. cbn [spend clock]. lia. }
  cbn [operations set_sock spend].
  destruct (Z.ltb_spec (takes (async_connect (S (operations n)))) CONNECT_TIMEOUT_IN_MS); cbn [andb].
  2: { unfold operation_aborted. cbn [Z.eqb negb orb snd]. rewrite Hclose. unfold closeSocket. simpl. lia. }
  destruct (ec (async_connect _) =? 0); cbn [negb orb].
  2: { cbn [snd]. rewrite Hclose. simpl. lia. }
  unfold is_open. cbn [sock_ spend set_sock negb operations].
  destruct (negb (ec _ =? 0)); cbn [orb].
  { cbn [snd]. rewrite Hclose. simpl. lia. }
  destruct (open_after_handshake _); cbn [snd negb]; rewrite ?Hclose; simpl; lia.
Qed.

(** ** What is sent *)

(** The buffer of a message has a size. *)
Definition fits (e : AgentEnvelope) : Prop := 2 * (5 + ByteSize e) <= INT_MAX.

(** The buffer is large enough for every message, and what is sent of it is the
    message behind its length. *)
Lemma serialized_spec `{LM : !LawfulMessage AgentEnvelope} e : fits e -> serialized e = Ok (Some (delimited e)).
Proof using Type.
  unfold fits. intros Hf. unfold serialized. pose proof (size_lawful e) as Hsize.
  set (aos := ArrayOutputStream.new_ArrayOutputStream _ _).
  assert (Z.of_nat (length (delimited e)) <= 5 + ByteSize e) as Hlen.
  { unfold delimited. rewrite length_app. pose proof (write_varint_length 5 (u32 (ByteSize e))).
    unfold WriteVarint32ToArray, kMaxVarint32Bytes. lia. }
  assert (ArrayOutputStream.size_ aos = 5 + ByteSize e) as Eaos.
  { unfold aos, ArrayOutputStream.new_ArrayOutputStream, MAX_HEADER_SIZE. cbn. rewrite length_replicate. lia. }
  assert (valid_output aos) as Hvalid by apply ArrayOutputStream.output_valid.
  destruct (send_spec e aos Hvalid) as (b & o & -> & Hv & Hm & Hc); [change (max_buffer aos) with (ArrayOutputStream.size_ aos); lia|].
  change (ArrayOutputStream.valid o) in Hv. change (ArrayOutputStream.size_ o = ArrayOutputStream.size_ aos) in Hm.
  change (content o) with (ArrayOutputStream.array_content o) in Hc. change (content aos) with (@nil Z) in Hc. cbn [app] in Hc.
  pose proof (ArrayOutputStream.array_content_length o Hv) as Hpos. cbn [mbind outcome_bind]. destruct b.
  - do 2 f_equal. exact Hc.
  - destruct Hc as (Hfail & k & Hk & Hc). change (ArrayOutputStream.size_ o <= ArrayOutputStream.position_ o) in Hfail.
    rewrite Hc, length_take in Hpos. lia.
Qed.

(** C21. A connected network writes the message behind its length, byte for byte,
    and reports it as delivered exactly when the system took these bytes in time
    and without an error. *)
Theorem send_writes_delimited `{LM : !LawfulMessage AgentEnvelope} e n :
  valid n -> isConnected_ n = true -> fits e ->
  let r := async_write (operations n) (delimited e) in
  (sendWithSize e n).1 = Delivered <-> takes r < CONNECT_TIMEOUT_IN_MS /\ ec r = 0.
Proof using Type.
  intros Hv Hc Hf r. unfold sendWithSize. rewrite Hc, (valid_idle _ Hv), (serialized_spec e Hf).
  unfold awaitCompletionOrTimeout. cbn [operations set_sending]. fold r.
  destruct (Z.ltb_spec (takes r) CONNECT_TIMEOUT_IN_MS) as [Ht|Ht].
  - destruct (is_disconnect (ec r)) eqn:Ed.
    + split; [done|]. intros [_ E]. by rewrite E in Ed.
    + destruct (Z.eqb_spec (ec r) 0); simpl; [done|]. split; [done|]. by intros [_ ?].
  - change (is_disconnect operation_aborted) with false. simpl. split; [done|]. lia.
Qed.

(** A send that times out closes the socket, but is not taken for a loss of
    the connection: the controller's state is left as it was, so a connected
    controller counts as connected without a connection until the collector's
    silence is noticed. *)
Theorem timed_out_send_is_silent {M} `{MetricsApi M, LM : !LawfulMessage AgentEnvelope} e (a : agent Network M) :
  valid (network a) -> isConnected_ (network a) = true -> fits e ->
  CONNECT_TIMEOUT_IN_MS <= takes (async_write (operations (network a)) (delimited e)) ->
  let api := Network_api prometheus in
  let a' := CollectorController.recordWithSize e a in
  controller a' = controller a /\ isConnected_ (network a') = false /\
  clock (network a') = clock (network a) + CONNECT_TIMEOUT_IN_MS.
Proof using Type.
  intros Hv Hc Hs Ht. cbn zeta. unfold CollectorController.recordWithSize.
  cbn [network_transmit Network_api]. unfold sendWithSize. rewrite Hc, (valid_idle _ Hv), (serialized_spec e Hs).
  unfold awaitCompletionOrTimeout. cbn [operations set_sending].
  rewrite (proj2 (Z.ltb_ge _ _) Ht). change (is_disconnect operation_aborted) with false.
  unfold closeSocket. cbn [sock_ spend set_sending]. by rewrite (valid_open _ Hv Hc).
Qed.
End Spec.

(** ** A peer that accepts connections and then reads nothing *)

#[local] Instance stuck_peer : Asio := {
  async_resolve _ := mkResult 5000 0;
  async_connect _ := mkResult 20 0;
  handshake _ := mkResult 30 0;
  open_after_handshake _ := true;
  async_write _ _ := mkResult 3000 0
}.

(** A message is a field with its kind. *)
#[local] Instance kinds : Serializable AgentEnvelope := {
  ByteSize _ := 2;
  SerializeWithCachedSizesToArray e := [0x08; match e with Heartbeat _ => 3 | _ => 1 end];
  SerializeWithCachedSizes e := [Raw [0x08; match e with Heartbeat _ => 3 | _ => 1 end]]
}.
#[local] Instance kinds_lawful : LawfulMessage AgentEnvelope.
Proof.
  split; intros e; [done|done|]. cbn [SerializeWithCachedSizesToArray kinds].
  repeat (constructor; [unfold byte; destruct e; lia|]). constructor.
Defined.
#[local] Instance any_metrics : MetricsApi unit := {
  metrics_setSampleRate _ m := m;
  metrics_enable _ m := m;
  metrics_disable m := m;
  metrics_thread_running _ := true
}.

Definition a_network : Network := (connect false new_Network).2.
Definition an_agent : agent Network unit :=
  mkAgent (set_state CONNECTED (new_controller (mkSettings "k" "a" "h" "1" "4.14" 1 false 0 0 1 "g" "b" 1 "UTC" 0) true))
    a_network tt (SignalHandler.new_SignalHandler ∅) (ProcScanner.new_scanner ∅) CircularQueue.no_failures 0 0 0 0.

Lemma network_stays_valid_witness : valid (sendWithSize (Heartbeat 0) a_network).2.
Proof.
  apply (network_stays_valid false). eapply rtc_l; [apply by_connect|]. apply rtc_once, by_send.
Defined.

Lemma connect_outcome_witness :
  let '(b, n) := connect false new_Network in b = true /\ isConnected_ n = true /\ sock_ n = Some true.
Proof. exact (connect_outcome new_Network ltac:(done)). Defined.

Lemma timed_out_send_is_silent_witness :
  let a' := @CollectorController.recordWithSize Network unit (Network_api false) _ (Heartbeat 0) an_agent in
  controller a' = controller an_agent /\ isConnected_ (network a') = false /\
  clock (network a') = clock (network an_agent) + CONNECT_TIMEOUT_IN_MS.
Proof.
  apply (timed_out_send_is_silent false (Heartbeat 0) an_agent).
  - by split.
  - reflexivity.
  - by vm_compute.
  - unfold CONNECT_TIMEOUT_IN_MS. simpl. lia.
Defined.

(** The system takes the two bytes of a heartbeat and its length, and nothing else. *)
Definition picky_peer : Asio := {|
  async_resolve _ := mkResult 5 0;
  async_connect _ := mkResult 20 0;
  handshake _ := mkResult 30 0;
  open_after_handshake _ := true;
  async_write _ bytes := mkResult 10 (if bool_decide (bytes = [0x02; 0x08; 0x03]) then 0 else operation_aborted)
|}.

Lemma send_writes_delimited_witness :
  (@sendWithSize picky_peer kinds (Heartbeat 0) a_network).1 = Delivered /\
  (@sendWithSize picky_peer kinds ConstantMetricsComplete a_network).1 <> Delivered.
Proof.
  split.
  - apply (@send_writes_delimited picky_peer kinds kinds_lawful (Heartbeat 0) a_network); [by split|done|by vm_compute|by split].
  - intros E. apply (@send_writes_delimited picky_peer kinds kinds_lawful ConstantMetricsComplete a_network) in E; [by destruct E|by split|done|by vm_compute].
Defined.
