(* ===== verification/Processor.v ===== *)
(** * The processor thread ([lib/processor.cpp])

    The loop that drives the controller, the network and the queues.  The
    controller, the network and the clock are the class [ProcessorApi]; the
    queues are those of [CircularQueue], popped with the state as the listener.
    Creating and joining the thread, and its signal mask, are left out. *)
From S2P Require Import Prelude MetricTypes InternalQueue CircularQueue.

Definition MAX_POLLS : nat := 10.
Definition MIN_SLEEP_IN_MS : Z := 2.
Definition MAX_SLEEP_IN_MS : Z := 200.

Class ProcessorApi (W : Type) := {
  on_processor_thread_start : W -> W;
  controller_onStart : W -> outcome W;
  controller_onEnd : W -> outcome W;
  controller_isOn : W -> bool;
  controller_isActive : W -> bool;
  controller_poll : W -> outcome (bool * W);
  network_poll : W -> outcome (bool * W);
  (** the flag the exit handler clears *)
  processorRunning : W -> bool;
  sleep_ms : Z -> W -> W
}.

Section Processor.
Context {W : Type} `{HasQueue W} `{QueueListener W} `{ProcessorApi W}.

(** The [for] loop: [todo] pops at most, [i] so far. *)
Fixpoint pop_loop (todo i : nat) (w : W) : outcome (nat * W) :=
  match todo with
  | O => Ok (i, w)
  | S todo =>
      '(popped, w) ← pop w;
      if popped : bool then pop_loop todo (S i) w else Ok (i, w)
  end.

(** The body of the [while] loop, which returns the next duration to sleep. *)
Definition turn (sleepDurationInMs : Z) (w : W) : outcome (Z * W) :=
  '(doneWork, w) ← controller_poll w;
  '(polled, w) ← network_poll w;
  let doneWork := doneWork || polled in
  '(doneWork, w) ← (if controller_isActive w then
                      '(i, w) ← pop_loop MAX_POLLS 0 w;
                      Ok (doneWork || (0 <? i)%nat, w)
                    else Ok (doneWork, w));
  Ok (if negb doneWork && processorRunning w then
        (Z.min MAX_SLEEP_IN_MS (u64 (sleepDurationInMs * 2)), sleep_ms sleepDurationInMs w)
      else (MIN_SLEEP_IN_MS, w)).

(** At most [fuel] turns; the flag tells whether the loop has ended. *)
Fixpoint run_loop (fuel : nat) (sleepDurationInMs : Z) (w : W) : outcome (bool * (Z * W)) :=
  if controller_isOn w && processorRunning w then
    match fuel with
    | O => Ok (false, (sleepDurationInMs, w))
    | S fuel => '(d, w) ← turn sleepDurationInMs w; run_loop fuel d w
    end
  else Ok (true, (sleepDurationInMs, w)).

Definition run (fuel : nat) (w : W) : outcome (bool * W) :=
  w ← controller_onStart (on_processor_thread_start w);
  '(ended, (_, w)) ← run_loop fuel MIN_SLEEP_IN_MS w;
  if ended : bool then w ← controller_onEnd w; Ok (true, w) else Ok (false, w).
End Processor.
