(* ===== verification/ProcessorSpec.v ===== *)
(** * How fast the processor works, how long it sleeps, and what it sends

    The last part gives the loop of the processor the log writer as its
    listener: what was pushed becomes envelopes, item by item, on the network and
    in the log file. *)
From S2P Require Import Prelude Options MetricTypes InternalQueue InternalQueueSpec CircularQueue CircularQueueSpec ListenerSim.
From S2P Require Import Messages SignalHandler ProcScanner CollectorController CollectorControllerSpec SymbolTable SymbolTableSpec.
From S2P Require Import LogWriter LogWriterSpec Processor.

Lemma pop_nothing {W} `{HasQueue W} `{QueueListener W} max w :
  holds max (the_queue w) (Contents [] [] []) -> pop w = Ok (false, w).
Proof.
  intros [Hm Ha Hs]. unfold pop, pop_main. rewrite (rep_empty _ _ _ _ Hm). cbn [mbind outcome_bind].
  unfold pop_allocation. rewrite (rep_empty _ _ _ _ Ha). cbn [mbind outcome_bind].
  unfold pop_stack. by rewrite (rep_empty _ _ _ _ Hs).
Qed.

Lemma pop_loop_along {W} `{HasQueue W} `{QueueListener W} (R : relation W) `{!PreOrder R} todo i w i' w' :
  (forall c w, R w (put_queue c w)) -> (forall e w w', deliver_event e w = Ok w' -> R w w') ->
  pop_loop todo i w = Ok (i', w') -> R w w'.
Proof.
  intros Hput Hdeliver. revert i w. induction todo as [|todo IH]; intros i w E; cbn [pop_loop] in E.
  { by injection E as _ <-. }
  apply bind_ok in E as ([b w1] & E1 & E). assert (R w w1) as H1 by (by eapply pop_along).
  destruct b; [|by injection E as _ <-]. etrans; [exact H1|]. by eapply IH.
Qed.

Lemma pop_loop_sim {W1 W2} `{HasQueue W1} `{QueueListener W1} `{HasQueue W2} `{QueueListener W2}
    (R : W1 -> W2 -> Prop) `{!Simulates R} todo i w1 w2 :
  R w1 w2 -> outcome_rel (same_result R) (pop_loop todo i w1) (pop_loop todo i w2).
Proof.
  revert i w1 w2. induction todo as [|todo IH]; intros i w1 w2 Hw; cbn [pop_loop]; [by split|].
  eapply outcome_rel_bind; [by apply (pop_sim R)|]. intros [b v1] [b' v2] [E Hv]. cbn [fst snd] in E, Hv. subst b'.
  destruct b; [by apply IH|by split].
Qed.

(** ** Draining the queues *)

Section Drain.
Context {max : nat} {W : Type} `{LawfulListener max W}.

Definition acceptable (l : contents) : Prop :=
  Forall (fun e => accepts (AllocEvent e)) (alloc_items l) /\ Forall (fun e => accepts (StackEvent e)) (stack_items l).

Definition of_main (e : event) : option main_item := match e with MainEvent m => Some m | _ => None end.
Definition of_alloc (e : event) : option alloc_item := match e with AllocEvent a => Some a | _ => None end.
Definition of_stack (e : event) : option stack_item := match e with StackEvent s => Some s | _ => None end.

(** Notifications are always acceptable, and so is what waits in the main ring. *)
Definition main_acceptable : Prop := forall e, accepts (MainEvent e).

Lemma omap_fmap_some {A B C} (f : B -> option C) (g : A -> B) (h : A -> C) (l : list A) :
  (forall a, f (g a) = Some (h a)) -> omap f (g <$> l) = h <$> l.
Proof. intros E. induction l as [|a l IH]; [done|]. cbn. rewrite E. f_equal. exact IH. Qed.

Lemma omap_fmap_none {A B C} (f : B -> option C) (g : A -> B) (l : list A) : (forall a, f (g a) = None) -> omap f (g <$> l) = [].
Proof. intros E. induction l as [|a l IH]; [done|]. cbn. rewrite E. exact IH. Qed.

Lemma popped_kinds l :
  let es := (MainEvent <$> take 1 (main_items l)) ++ (AllocEvent <$> take 1 (alloc_items l))
              ++ (StackEvent <$> take 1 (stack_items l)) in
  omap of_alloc es = take 1 (alloc_items l) /\ omap of_stack es = take 1 (stack_items l) /\
  omap of_main es = take 1 (main_items l).
Proof.
  cbn zeta. rewrite !omap_app, (omap_fmap_none of_alloc MainEvent), (omap_fmap_none of_alloc StackEvent),
    (omap_fmap_none of_stack MainEvent), (omap_fmap_none of_stack AllocEvent), (omap_fmap_some of_alloc AllocEvent id),
    (omap_fmap_none of_main AllocEvent), (omap_fmap_none of_main StackEvent), (omap_fmap_some of_main MainEvent id),
    (omap_fmap_some of_stack StackEvent id), !list_fmap_id, !app_nil_r by done. done.
Qed.

(** From the main ring, which may grow meanwhile: the oldest items, in order, at
    least [todo] of them if there are so many. *)
Definition drains_main (todo : nat) (es : list event) (l l' : contents) : Prop :=
  (exists m, main_items l ++ m = omap of_main es ++ main_items l') /\
  (todo `min` length (main_items l) <= length (omap of_main es))%nat.

Lemma take_S_drop {A} n (l : list A) : take 1 l ++ take n (drop 1 l) = take (S n) l.
Proof. destruct l as [|a l]; simpl; [by rewrite take_nil|done]. Qed.

Lemma drop_S_drop {A} n (l : list A) : drop n (drop 1 l) = drop (S n) l.
Proof. rewrite drop_drop. f_equal. Qed.

Lemma pop_loop_spec todo i w l :
  main_acceptable -> listening w -> holds max (the_queue w) l -> acceptable l ->
  exists i' w' es l', pop_loop todo i w = Ok (i', w') /\ (i <= i' <= i + todo)%nat /\
    popped w w' es l' /\ drains_main todo es l l' /\
    omap of_alloc es = take todo (alloc_items l) /\ alloc_items l' = drop todo (alloc_items l) /\
    omap of_stack es = take todo (stack_items l) /\ stack_items l' = drop todo (stack_items l) /\
    (i' = i -> es = []).
Proof.
  intros Hmain. revert i w l. induction todo as [|todo IH]; intros i w l Hw Hl [Ha Hs].
  { exists i, w, [], l. rewrite !take_0, !drop_0. split; [done|]. split; [lia|]. split; [|split].
    - split; [done|]. by rewrite app_nil_r.
    - split; [exists []; by rewrite app_nil_r|simpl; lia].
    - by split_and!; try done; try lia. }
  cbn [pop_loop].
  destruct (pop_spec w l Hw Hl) as (w1 & m & -> & (Hw1 & Hh1 & Hl1)); [by apply list.Forall_true|done|done|].
  cbn [mbind outcome_bind].
  destruct (popped_kinds l) as (Ek1 & Ek2 & Ek3). set (es1 := (MainEvent <$> _) ++ _) in *.
  destruct (nonempty (main_items l) || nonempty (alloc_items l) || nonempty (stack_items l)) eqn:Ene.
  - destruct (IH (S i) w1 _ Hw1 Hl1) as (i' & w' & es & l' & -> & Hi & (Hw' & Hh' & Hl') & [[m' Em] Hlen] & E1 & E2 & E3 & E4 & E5).
    { split; [by apply Forall_drop|by apply Forall_drop]. }
    cbn [alloc_items stack_items] in *. exists i', w', (es1 ++ es), l'. split; [done|]. split; [lia|]. split; [|split; [|split_and!]].
    + split; [done|]. split; [by rewrite Hh', Hh1, app_assoc|done].
    + split; rewrite omap_app, Ek3.
      * exists (m ++ m'). cbn [main_items] in Em. rewrite <- app_assoc, <- Em, !app_assoc. by rewrite take_drop.
      * cbn [main_items] in Hlen. rewrite length_app, length_drop in Hlen. rewrite length_app, length_take. lia.
    + by rewrite omap_app, E1, Ek1, take_S_drop.
    + by rewrite E2, drop_S_drop.
    + by rewrite omap_app, E3, Ek2, take_S_drop.
    + by rewrite E4, drop_S_drop.
    + lia.
  - destruct l as [lm la ls]. cbn [main_items alloc_items stack_items] in *.
    destruct lm, la, ls; try done. exists i, w1, es1, (Contents (drop 1 [] ++ m) [] []).
    split; [done|]. split; [lia|]. split; [by split_and!|]. split; [split; [by exists m|simpl; lia]|]. by destruct todo.
Qed.

End Drain.

(** The loop hands the oldest items to the listener, whatever it does with them. *)
Lemma pop_loop_history {W} `{HasQueue W} `{QueueListener W} max (accepted : event -> Prop) todo i w l :
  responsive accepted -> (forall e, accepted (MainEvent e)) -> holds max (the_queue w) l ->
  Forall (fun e => accepted (AllocEvent e)) (alloc_items l) -> Forall (fun e => accepted (StackEvent e)) (stack_items l) ->
  exists i' w' es l', pop_loop todo i w = Ok (i', w') /\ delivered w es w' /\ holds max (the_queue w') l' /\
    drains_main todo es l l' /\
    omap of_alloc es = take todo (alloc_items l) /\ alloc_items l' = drop todo (alloc_items l) /\
    omap of_stack es = take todo (stack_items l) /\ stack_items l' = drop todo (stack_items l) /\
    (i <= i')%nat /\ (i' = i -> es = []).
Proof.
  intros Hr Hmain Hl Ha Hs.
  destruct (@pop_loop_spec max _ _ _ (history_lawful max accepted Hr w) todo i (Remember w []) l)
    as (i' & [w' es'] & es & l' & E & Hi & (Hlisten & Hheard & Hholds) & Em & E1 & E2 & E3 & E4 & E5);
    [exact Hmain|apply delivered_nil|exact Hl|by split|].
  pose proof (pop_loop_sim erases todo i (Remember w []) w eq_refl) as Her. rewrite E in Her.
  destruct (pop_loop todo i w) as [[j v]| | |]; try done. destruct Her as [Ej Ev]. cbn [fst snd] in Ej, Ev.
  unfold erases in Ev. cbn [r_state] in Ev. subst j v. simpl in Hheard, Hlisten, Hholds. subst es'.
  exists i', w', es, l'. split_and!; try done. lia.
Qed.

Lemma pop_loop_careful {W} `{HasQueue W} `{QueueListener W} todo i (v : careful W) j v' :
  pop_loop todo i v = Ok (j, v') -> c_failed v' = false ->
  c_failed v = false /\ pop_loop todo i (c_state v) = Ok (j, c_state v').
Proof.
  revert i v. induction todo as [|todo IH]; intros i v; cbn [pop_loop]; [by intros [= <- <-]|].
  intros E Hok. apply bind_ok in E as ([b v1] & E1 & E). destruct b.
  - destruct (IH _ _ E Hok) as [H1 E2]. destruct (pop_careful _ _ _ E1 H1) as [Hv ->]. done.
  - injection E as <- <-. destruct (pop_careful _ _ _ E1 Hok) as [Hv ->]. done.
Qed.

(** The same for a listener that may fail, as long as it does not. *)
Lemma pop_loop_handed {W} `{HasQueue W} `{QueueListener W} max (accepted : event -> Prop) todo i w l :
  gentle accepted -> (forall e, accepted (MainEvent e)) -> holds max (the_queue w) l ->
  Forall (fun e => accepted (AllocEvent e)) (alloc_items l) -> Forall (fun e => accepted (StackEvent e)) (stack_items l) ->
  exists i' v es l', handed w es v /\ (c_failed v = false -> pop_loop todo i w = Ok (i', c_state v)) /\
    holds max (the_queue (c_state v)) l' /\
    omap of_alloc es = take todo (alloc_items l) /\ alloc_items l' = drop todo (alloc_items l) /\
    omap of_stack es = take todo (stack_items l) /\ stack_items l' = drop todo (stack_items l) /\
    (i' = i -> es = []).
Proof.
  intros Hg Hmain Hl Ha Hs.
  destruct (@pop_loop_spec max _ _ _ (careful_lawful max accepted Hg w) todo i (Careful w [] false) l)
    as (i' & v & es & l' & E & Hi & (Hlisten & Hheard & Hholds) & Em & E1 & E2 & E3 & E4 & E5);
    [exact Hmain|apply handed_nil|exact Hl|by split|].
  simpl in Hheard, Hlisten, Hholds. rewrite Hheard in Hlisten.
  exists i', v, es, l'. split_and!; try done. intros Hok. by destruct (pop_loop_careful _ _ _ _ _ E Hok).
Qed.

Section Turn.
Context {max : nat} {W : Type} `{LawfulListener max W}.
Context `{ProcessorApi W}.

(** What polling the controller and the network may do here: return, with the
    queues as they were. *)
Definition polls_quietly (w : W) (done : bool) (w' : W) : Prop :=
  exists c n w1, controller_poll w = Ok (c, w1) /\ network_poll w1 = Ok (n, w') /\ done = c || n.

(** C32. A turn of the loop of an active controller delivers up to ten of the
    oldest allocations and stack traces, in order, and removes exactly those; and
    the oldest of the main ring, which may grow meanwhile, in order as well.
    Every item the rings hold in excess waits for the next turn.  If polling or
    popping did anything, the loop does not sleep. *)
Theorem turn_drains d w w1 done l :
  polls_quietly w done w1 -> controller_isActive w1 = true ->
  main_acceptable -> listening w1 -> holds max (the_queue w1) l -> acceptable l ->
  exists i w2 es l',
    turn d w = Ok (if negb (done || (0 <? i)%nat) && processorRunning w2
                   then (Z.min MAX_SLEEP_IN_MS (u64 (d * 2)), sleep_ms d w2) else (MIN_SLEEP_IN_MS, w2)) /\
    popped w1 w2 es l' /\ (i <= MAX_POLLS)%nat /\ (i = 0%nat -> es = []) /\ drains_main MAX_POLLS es l l' /\
    omap of_alloc es = take MAX_POLLS (alloc_items l) /\ alloc_items l' = drop MAX_POLLS (alloc_items l) /\
    omap of_stack es = take MAX_POLLS (stack_items l) /\ stack_items l' = drop MAX_POLLS (stack_items l).
Proof.
  intros (c & n & w0 & Ec & En & ->) Hactive Hmain Hw Hl Hacc. unfold turn.
  rewrite Ec. cbn [mbind outcome_bind]. rewrite En. cbn [mbind outcome_bind]. rewrite Hactive.
  destruct (pop_loop_spec MAX_POLLS 0 w1 l Hmain Hw Hl Hacc) as (i & w2 & es & l' & -> & Hi & Hp & Em & E1 & E2 & E3 & E4 & E5).
  cbn [mbind outcome_bind]. exists i, w2, es, l'. split; [done|]. by split_and!; try done; try lia.
Qed.
End Turn.

(** ** Sleeping *)

Section Idle.
Context {W : Type} `{HasQueue W} `{QueueListener W} `{ProcessorApi W}.

(** Nothing to do: polling does nothing, and an active controller's queues are
    empty.  Time alone changes nothing. *)
Record idle (w : W) : Prop := {
  idle_on : controller_isOn w = true;
  idle_running : processorRunning w = true;
  idle_controller : controller_poll w = Ok (false, w);
  idle_network : network_poll w = Ok (false, w);
  idle_queues : controller_isActive w = true -> pop w = Ok (false, w)
}.

Lemma idle_turn d w :
  idle w -> turn d w = Ok (Z.min MAX_SLEEP_IN_MS (u64 (d * 2)), sleep_ms d w).
Proof.
  intros [Hon Hrun Hc Hn Hq]. unfold turn. rewrite Hc. cbn [mbind outcome_bind]. rewrite Hn.
  cbn [mbind outcome_bind orb]. destruct (controller_isActive w).
  - unfold MAX_POLLS. cbn [pop_loop]. rewrite (Hq eq_refl). cbn [mbind outcome_bind]. by rewrite Hrun.
  - cbn [mbind outcome_bind]. by rewrite Hrun.
Qed.

(** The duration of the [k]-th sleep in a row. *)
Definition nap (k : nat) : Z := Z.min MAX_SLEEP_IN_MS (MIN_SLEEP_IN_MS * 2 ^ Z.of_nat k).

Lemma nap_next k : Z.min MAX_SLEEP_IN_MS (u64 (nap k * 2)) = nap (S k).
Proof.
  unfold nap, MAX_SLEEP_IN_MS, MIN_SLEEP_IN_MS.
  pose proof (Z.pow_pos_nonneg 2 (Z.of_nat k) ltac:(lia) ltac:(lia)).
  rewrite Nat2Z.inj_succ, Z.pow_succ_r by lia. rewrite u64_small by lia. lia.
Qed.

(** [P]: states with nothing to do, which time does not change. *)
Definition stays_idle (P : W -> Prop) : Prop :=
  (forall w, P w -> idle w) /\ (forall d w, P w -> P (sleep_ms d w)).

Lemma idle_turns P n k w :
  stays_idle P -> P w ->
  exists w', run_loop n (nap k) w = Ok (false, (nap (k + n), w')) /\
    w' = fold_left (fun w d => sleep_ms d w) (nap <$> seq k n) w.
Proof.
  intros [Hidle Hsleep]. revert k w. induction n as [|n IH]; intros k w HP; pose proof (Hidle w HP) as Hw.
  - exists w. split; [|done]. cbn [run_loop]. rewrite (idle_on w Hw), (idle_running w Hw). by rewrite Nat.add_0_r.
  - cbn [run_loop]. rewrite (idle_on w Hw), (idle_running w Hw). cbn [andb].
    rewrite (idle_turn _ _ Hw). cbn [mbind outcome_bind]. rewrite nap_next.
    destruct (IH (S k) (sleep_ms (nap k) w) (Hsleep _ _ HP)) as (w' & E & Ew).
    exists w'. split; [rewrite E; do 4 f_equal; lia|]. exact Ew.
Qed.

(** While there is nothing to do the loop sleeps for 2, 4, 8, ... and then
    for 200 milliseconds at a time, and only sleeps. *)
Theorem idle_sleeps P n w :
  stays_idle P -> P w ->
  exists d, run_loop n MIN_SLEEP_IN_MS w =
    Ok (false, (d, fold_left (fun w d => sleep_ms d w) (nap <$> seq 0 n) w)) /\
    MIN_SLEEP_IN_MS <= d <= MAX_SLEEP_IN_MS.
Proof.
  intros Hsleep Hw. destruct (idle_turns P n 0 w Hsleep Hw) as (w' & E & ->).
  exists (nap (0 + n)). split; [exact E|]. unfold nap, MAX_SLEEP_IN_MS, MIN_SLEEP_IN_MS.
  pose proof (Z.pow_pos_nonneg 2 (Z.of_nat (0 + n)) ltac:(lia) ltac:(lia)). lia.
Qed.
End Idle.

(** ** A recorder with a clock *)

Record timed := Timed { t_recorder : recorder; t_clock : Z }.

#[local] Instance timed_queue : HasQueue timed := {
  the_queue w := rec_queue (t_recorder w);
  put_queue c w := Timed (put_queue c (t_recorder w)) (t_clock w);
  the_queue_put c w := eq_refl;
  put_queue_the w := match w with Timed (Recorder _ _) _ => eq_refl end;
  put_queue_twice c c' w := eq_refl
}.

Definition timed_event (e : event) (w : timed) : outcome timed :=
  r ← remember e (t_recorder w); Ok (Timed r (t_clock w)).

#[local] Instance timed_listener : QueueListener timed := {
  recordStackTrace ts t sg st tsc := timed_event (StackEvent (TraceTaken ts t sg st tsc));
  recordThread i n := timed_event (StackEvent (ThreadNamed i n));
  recordAllocation n o s := timed_event (AllocEvent (Allocated n o s));
  recordNotification k p v := timed_event (MainEvent (Notified k p v));
  recordMetricInformation i := timed_event (MainEvent (InformationSent i));
  recordMetricSamples t l := timed_event (MainEvent (SamplesSent t l));
  recordConstantMetricsComplete := timed_event (MainEvent ConstantsComplete)
}.

#[local] Program Instance timed_lawful max : LawfulListener max timed := {|
  listening _ := True;
  accepts _ := True;
  heard w := rec_heard (t_recorder w)
|}.
Next Obligation. done. Qed.
Next Obligation. done. Qed.
Next Obligation.
  intros max e w _ _ _. exists (Timed (Recorder (rec_queue (t_recorder w)) (rec_heard (t_recorder w) ++ [e])) (t_clock w)).
  split; [by destruct e as [[]|[]|[]]|]. split_and!; [done|done|]. apply notified_none.
Qed.

#[local] Instance timed_api : ProcessorApi timed := {
  on_processor_thread_start w := w;
  controller_onStart w := Ok w;
  controller_onEnd w := Ok w;
  controller_isOn _ := true;
  controller_isActive _ := true;
  controller_poll w := Ok (false, w);
  network_poll w := Ok (false, w);
  processorRunning _ := true;
  sleep_ms d w := Timed (t_recorder w) (t_clock w + d)
}.

Definition timed_start : timed := Timed (Recorder one_notification []) 0.

Lemma turn_drains_witness :
  exists i w2 es l',
    turn 2 timed_start = Ok (if negb (false || (0 <? i)%nat) && processorRunning w2
                   then (Z.min MAX_SLEEP_IN_MS (u64 (2 * 2)), sleep_ms 2 w2) else (MIN_SLEEP_IN_MS, w2)) /\
    popped (max := 4) timed_start w2 es l' /\ (i <= MAX_POLLS)%nat /\ (i = 0%nat -> es = []) /\
    drains_main MAX_POLLS es (Contents [Notified NotificationCategory.USER_ERROR "x" 1] [] []) l' /\
    omap of_alloc es = [] /\ alloc_items l' = [] /\ omap of_stack es = [] /\ stack_items l' = [].
Proof.
  apply (turn_drains (max := 4) 2 timed_start timed_start false
    (Contents [Notified NotificationCategory.USER_ERROR "x" 1] [] [])).
  - by exists false, false, timed_start.
  - reflexivity.
  - done.
  - done.
  - exact one_notification_holds.
  - by split; constructor.
Defined.


Definition empty_start (t : Z) : timed := Timed (Recorder (new_CircularQueue None 0 4) []) t.

Lemma empty_idle t : idle (empty_start t).
Proof. by split. Qed.

Lemma idle_sleeps_witness :
  exists d, run_loop 3 MIN_SLEEP_IN_MS (empty_start 0) =
    Ok (false, (d, fold_left (fun w d => sleep_ms d w) (nap <$> seq 0 3) (empty_start 0))) /\
    MIN_SLEEP_IN_MS <= d <= MAX_SLEEP_IN_MS.
Proof.
  apply (idle_sleeps (fun w => exists t, w = empty_start t) 3 (empty_start 0)); [|by exists 0].
  split; [intros w [t ->]; apply empty_idle|]. intros d w [t ->]. by exists (t + d).
Defined.

Example naps : nap <$> seq 0 9 = [2; 4; 8; 16; 32; 64; 128; 200; 200].
Proof. reflexivity. Qed.

(** ** Draining the queues through the log writer *)

Section Drain.
Context {N M : Type} `{NetworkApi N} `{MetricsApi M} `{Backtrace} `{ThreadNames}.
Local Abbreviation logWriter := (logWriter N M).
Implicit Types w : logWriter.

(** The items were handled one after the other, each with the envelopes it
    stands for; in between the queues may change, and nothing else. *)
Inductive handled_all w0 : list event -> list (list AgentEnvelope) -> logWriter -> Prop :=
| handled_nil : handled_all w0 [] [] w0
| handled_put c es ls w : handled_all w0 es ls w -> handled_all w0 es ls (set_buffer c w)
| handled_event e es l ls w w' :
    handled_all w0 es ls w -> handled e l w w' -> handled_all w0 (es ++ [e]) (ls ++ [l]) w'.

Lemma handled_posted w0 es ls w : handled_all w0 es ls w -> posted (concat ls) w0 w.
Proof using Type.
  induction 1 as [|c es ls w Hw IH|e es l ls w w' Hw IH [Hp _]]; [by apply posted_nothing|by destruct IH|].
  rewrite concat_app. simpl. rewrite app_nil_r. by eapply posted_app.
Qed.

Lemma delivered_handled w0 es w :
  delivered w0 es w -> Forall manageable es -> exists ls, handled_all w0 es ls w.
Proof using Type.
  induction 1 as [|c es w Hw IH|e es w w' Hw IH E]; intros Hes.
  - exists []. constructor.
  - destruct (IH Hes) as [ls Hls]. exists ls. by apply handled_put.
  - apply Forall_app in Hes as [Hes [He _]%Forall_cons_1]. destruct (IH Hes) as [ls Hls].
    destruct (deliver_handled e w He) as (w2 & l & E' & Hl). rewrite E in E'. injection E' as <-.
    exists (ls ++ [l]). by eapply handled_event.
Qed.

(** The stack items among the events are those that were queued. *)
Lemma events_manageable es : Forall (fun e => manageable (StackEvent e)) (omap of_stack es) -> Forall manageable es.
Proof using Type.
  induction es as [|e es IH]; intros Hes; [constructor|]. destruct e as [m|a|s]; simpl in Hes.
  - constructor; [done|by apply IH].
  - constructor; [done|by apply IH].
  - apply Forall_cons_1 in Hes as [Hs Hes]. constructor; [done|by apply IH].
Qed.

(** C14. Draining the queues through the log writer for up to [todo] rounds
    returns, if libbacktrace reports no error for the queued traces, and
    handles the oldest items of each ring, in order: an item that announces a
    metric, a batch of metric samples, a notification, the end of the constant
    metrics and a stack trace become the envelopes that say just that
    ([handled]), an allocation is added to the table, and the envelopes, and
    nothing else, are handed to the network and written to the log file, in
    that order.  What was not reached stays in its ring. *)
Theorem drain_writes_envelopes max todo w l :
  holds max (buffer_ w) l -> Forall (fun e => manageable (StackEvent e)) (stack_items l) ->
  exists i w' es ls l',
    pop_loop todo 0 w = Ok (i, w') /\ handled_all w es ls w' /\
    recorded w' = recorded w ++ concat ls /\ network (controller_ w') = offers (concat ls) (network (controller_ w)) /\
    drains_main todo es l l' /\
    omap of_alloc es = take todo (alloc_items l) /\ omap of_stack es = take todo (stack_items l) /\
    holds max (buffer_ w') l' /\ alloc_items l' = drop todo (alloc_items l) /\ stack_items l' = drop todo (stack_items l).
Proof using Type.
  intros Hl Hs.
  destruct (pop_loop_history max manageable todo 0 w l logWriter_responsive) as
    (i & w' & es & l' & E & Hd & Hl' & Hm & Ha1 & Ha2 & Hs1 & Hs2 & _); [done|done|by apply list.Forall_true|done|].
  destruct (delivered_handled w es w' Hd) as [ls Hls]; [apply events_manageable; rewrite Hs1; by apply Forall_take|].
  destruct (handled_posted _ _ _ _ Hls). exists i, w', es, ls, l'. by split_and!.
Qed.
End Drain.

(** A batch of samples and a trace. *)
#[local] Existing Instance down_network.
#[local] Existing Instance no_metrics.
#[local] Existing Instance one_program.
#[local] Existing Instance one_thread.

Definition some_samples : list MetricSample := [mkMetricSample 3 (mkMetricData MetricDataType.LONG "" 42)].

Lemma drain_writes_envelopes_witness :
  exists c i w' es ls, pop_loop 3 0 (writer_with c) = Ok (i, w') /\ handled_all (writer_with c) es ls w' /\
    recorded w' = concat ls /\ (exists m, omap of_main es = SamplesSent 7 some_samples :: m) /\
    omap of_stack es = [TraceTaken midnight (stored 8 (trace_of [100; 200])) SIGPROF 0 5].
Proof.
  pose proof (samples_holds 8 empty_queue (Contents [] [] []) some_samples 7 (qrep_new None 0 8)) as H1.
  destruct (push_trace_holds 8 (pushMetricSamples some_samples 7 empty_queue).2 _ midnight (trace_of [100; 200]) SIGPROF 0 5 H1)
    as (c & _ & Hc); [split; apply Nat.leb_le; reflexivity|reflexivity|].
  destruct (drain_writes_envelopes 8 3 (writer_with c) _ Hc) as (i & w' & es & ls & l' & E & Hh & Hr & _ & [[m Em] Hlen] & _ & Es & _ & _ & _).
  - repeat constructor. unfold in_array, frame_count. simpl. lia.
  - exists c, i, w', es, ls. split; [exact E|]. split; [exact Hh|]. split; [exact Hr|]. split; [|exact Es].
    cbn in Em, Hlen. destruct (omap of_main es) as [|x xs]; [simpl in Hlen; lia|]. injection Em as <- _. by exists xs.
Defined.
