(* ===== verification/CPUDataReader.v ===== *)
(** * Processor and memory metrics ([lib/cpudata_reader.cpp])

    One [read] collects the entries of its sources and hands them to the metrics
    listener.  The readings are the record [sources]; Boost's [split] and
    [lexical_cast] are the class [Boost].  An exception is a value [Throws]. *)
From S2P Require Import Prelude MetricTypes.
From stdpp Require Import pretty.
#[local] Open Scope Z_scope.

Definition KILO_TO_BYTES : Z := 1024.
Definition MEM_CORE_NAME_PREFIX : string := "mem.system.core.".
Definition MEM_EXTENDED_NAME_PREFIX : string := "mem.system.extended.".

Class Boost := {
  (** [boost::split] at runs of blanks *)
  boost_split : string -> list string;
  (** [boost::lexical_cast<int64_t>], [None] for [bad_lexical_cast] *)
  lexical_cast : string -> option Z;
  bad_lexical_cast_what : string
}.

Inductive Error :=
| RUSAGE_FAILURE | PROC_STAT_FILE_ERROR | PROC_STAT_PARSE_ERROR | PROC_MEMINFO_FILE_ERROR | PROC_MEMINFO_PARSE_ERROR.
#[export] Instance Error_eq_dec : EqDecision Error.
Proof. solve_decision. Defined.

Record timeval := mkTimeval { t_sec : Z; t_usec : Z }.
Record rusage := mkRusage {
  ru_utime : timeval;
  ru_stime : timeval;
  ru_maxrss : Z;
  ru_minflt : Z;
  ru_majflt : Z;
  ru_inblock : Z;
  ru_oublock : Z;
  ru_nvcsw : Z;
  ru_nivcsw : Z
}.

(** What one reading of the sources finds.  A file that was opened is a list of
    lines. *)
Record sources := mkSources {
  get_nprocs : Z;
  getrusage : Z + rusage;
  sysconf_CLK_TCK : Z;
  proc_stat : list string;
  proc_meminfo : list string
}.

(** [readable], [openError] and [error] of a [SeekableFile]. *)
Record SeekableFile := mkSeekableFile { readable : bool; openError : bool; file_error : string }.

Definition open_file (good : bool) (strerror : string) : SeekableFile :=
  mkSeekableFile good (negb good) (if good then EmptyString else strerror).
Definition reset (f : SeekableFile) : bool := readable f.
Definition hasOpenError (f : SeekableFile) : bool * SeekableFile :=
  (openError f, mkSeekableFile (readable f) false (file_error f)).

Record CPUDataReader := mkReader {
  cpuProcessEnabled : bool;
  cpuSystemEnabled : bool;
  cpuNCoresEnabled : bool;
  memCoreEnabled : bool;
  memExtendedEnabled : bool;
  readNCores : bool;
  readClockTicksPerSecond : bool;
  sentErrors_ : list Error;
  clockTicksPerSecond : Z;
  procMemInfo : SeekableFile;
  procStat : SeekableFile;
  hasEmittedConstantMetrics_ : bool;
  (** the static counter *)
  errors : Z
}.

Definition updateEntryPrefixes (disabledPrefixes : list string) (r : CPUDataReader) : CPUDataReader :=
  mkReader (negb (isPrefixDisabled "cpu.process" disabledPrefixes)) (negb (isPrefixDisabled "cpu.system" disabledPrefixes))
    (negb (isPrefixDisabled "cpu.ncores" disabledPrefixes)) (negb (isPrefixDisabled "mem.system.core" disabledPrefixes))
    (negb (isPrefixDisabled "mem.system.extended" disabledPrefixes))
    (readNCores r) (readClockTicksPerSecond r) (sentErrors_ r) (clockTicksPerSecond r) (procMemInfo r) (procStat r)
    (hasEmittedConstantMetrics_ r) (errors r).

Definition new_CPUDataReader (disabledPrefixes : list string) (meminfo stat : SeekableFile) (errors : Z) : CPUDataReader :=
  updateEntryPrefixes disabledPrefixes
    (mkReader false false false false false false false [] 0 meminfo stat false errors).

Definition set_ncores_read (r : CPUDataReader) : CPUDataReader :=
  mkReader (cpuProcessEnabled r) (cpuSystemEnabled r) (cpuNCoresEnabled r) (memCoreEnabled r) (memExtendedEnabled r)
    true (readClockTicksPerSecond r) (sentErrors_ r) (clockTicksPerSecond r) (procMemInfo r) (procStat r)
    (hasEmittedConstantMetrics_ r) (errors r).
Definition set_ticks t (r : CPUDataReader) : CPUDataReader :=
  mkReader (cpuProcessEnabled r) (cpuSystemEnabled r) (cpuNCoresEnabled r) (memCoreEnabled r) (memExtendedEnabled r)
    (readNCores r) true (sentErrors_ r) t (procMemInfo r) (procStat r) (hasEmittedConstantMetrics_ r) (errors r).
Definition set_errors sent n (r : CPUDataReader) : CPUDataReader :=
  mkReader (cpuProcessEnabled r) (cpuSystemEnabled r) (cpuNCoresEnabled r) (memCoreEnabled r) (memExtendedEnabled r)
    (readNCores r) (readClockTicksPerSecond r) sent (clockTicksPerSecond r) (procMemInfo r) (procStat r)
    (hasEmittedConstantMetrics_ r) n.
Definition set_files meminfo stat (r : CPUDataReader) : CPUDataReader :=
  mkReader (cpuProcessEnabled r) (cpuSystemEnabled r) (cpuNCoresEnabled r) (memCoreEnabled r) (memExtendedEnabled r)
    (readNCores r) (readClockTicksPerSecond r) (sentErrors_ r) (clockTicksPerSecond r) meminfo stat
    (hasEmittedConstantMetrics_ r) (errors r).
Definition set_emitted (r : CPUDataReader) : CPUDataReader :=
  mkReader (cpuProcessEnabled r) (cpuSystemEnabled r) (cpuNCoresEnabled r) (memCoreEnabled r) (memExtendedEnabled r)
    (readNCores r) (readClockTicksPerSecond r) (sentErrors_ r) (clockTicksPerSecond r) (procMemInfo r) (procStat r)
    true (errors r).

Definition addLongEntry (name : string) (unit : MetricUnit.t) (variability : MetricVariability.t) (value : Z)
    (entries : list MetricListenerEntry) : list MetricListenerEntry :=
  entries ++ [mkMetricListenerEntry name variability unit (mkMetricData MetricDataType.LONG EmptyString value)].

Definition addLongVar (name : string) (unit : MetricUnit.t) (value : Z) (entries : list MetricListenerEntry)
    : list MetricListenerEntry :=
  addLongEntry name unit MetricVariability.VARIABLE value entries.

(** Signed overflow and integer division by zero are undefined. *)
Definition int64_of (v : Z) : outcome Z := if i64 v =? v then Ok v else Undefined.
Definition int64_mul (a b : Z) : outcome Z := int64_of (a * b).

Definition timevalToMs (ts : timeval) : outcome Z :=
  millis ← int64_mul (t_sec ts) 1000;
  int64_of (millis + Z.quot (t_usec ts) 1000).

Section Read.
Context {W : Type} `{MetricDataListener W} `{Boost}.

Definition error (payload : string) (status : Error) (rw : CPUDataReader * W) : CPUDataReader * W :=
  let '(r, w) := rw in
  if bool_decide (status ∈ sentErrors_ r) then (set_errors (sentErrors_ r) (u32 (errors r + 1)) r, w)
  else
    (set_errors (status :: sentErrors_ r) (u32 (errors r + 1)) r,
     recordMetricNotification NotificationCategory.INFO_LOGGING payload
       (recordMetricNotification NotificationCategory.USER_ERROR "Unable to record CPU Metrics" w)).

(** ** Fields of a line *)

Definition at_ (result : list string) (i : nat) : outcome string :=
  match result !! i with Some s => Ok s | None => Throws "out_of_range" end.
Definition int64At (result : list string) (i : nat) : outcome Z :=
  s ← at_ result i; match lexical_cast s with Some v => Ok v | None => Throws "bad_lexical_cast" end.
Definition kbAt (result : list string) (i : nat) : outcome Z := v ← int64At result i; int64_mul v KILO_TO_BYTES.
Definition ticksAt (ticks : Z) (result : list string) (i : nat) : outcome Z :=
  v ← int64At result i;
  millis ← int64_mul v 1000;
  if ticks =? 0 then Undefined else Ok (Z.quot millis ticks).

(** A row of calls of [addLongVar]: those before the one that throws have taken
    effect. *)
Fixpoint add_fields (fields : list (string * MetricUnit.t * outcome Z)) (entries : list MetricListenerEntry)
    : list MetricListenerEntry * outcome unit :=
  match fields with
  | [] => (entries, Ok tt)
  | (name, unit, value) :: fields =>
      match value with
      | Ok v => add_fields fields (addLongVar name unit v entries)
      | Undefined => (entries, Undefined)
      | Blocked => (entries, Blocked)
      | Throws e => (entries, Throws e)
      end
  end.

(** The fields that a line of [/proc/stat] is read for. *)
Definition stat_fields (ticks : Z) (result : list string) : list (string * MetricUnit.t * outcome Z) :=
  match result with
  | [] => [(EmptyString, MetricUnit.NONE, Throws "out_of_range")]
  | key :: _ =>
      let ms := MetricUnit.MILLISECONDS in
      let t := ticksAt ticks result in
      let n := int64At result in
      if String.eqb key "cpu" then
        [("cpu.system.user", ms, t 1%nat); ("cpu.system.nice", ms, t 2%nat); ("cpu.system.system", ms, t 3%nat);
         ("cpu.system.idle", ms, t 4%nat); ("cpu.system.iowait", ms, t 5%nat); ("cpu.system.irq", ms, t 6%nat);
         ("cpu.system.softirq", ms, t 7%nat); ("cpu.system.steal", ms, t 8%nat); ("cpu.system.guest", ms, t 9%nat);
         ("cpu.system.guest_nice", ms, t 10%nat)]%string
      else if String.eqb key "page" then
        [("cpu.system.pages.in", MetricUnit.EVENTS, n 1%nat); ("cpu.system.pages.out", MetricUnit.EVENTS, n 2%nat)]%string
      else if String.eqb key "swap" then
        [("cpu.system.swap.in", MetricUnit.EVENTS, n 1%nat); ("cpu.system.swap.out", MetricUnit.EVENTS, n 2%nat)]%string
      else if String.eqb key "ctxt" then [("cpu.system.csw", MetricUnit.EVENTS, n 1%nat)]%string
      else if String.eqb key "procs_running" then [("cpu.system.procs.running", MetricUnit.NONE, n 1%nat)]%string
      else if String.eqb key "procs_blocked" then [("cpu.system.procs.blocked", MetricUnit.NONE, n 1%nat)]%string
      else []
  end.

Definition procMemNames : list string :=
  ["MemTotal:"; "MemFree:"; "MemAvailable:"; "SwapTotal:"; "SwapFree:"; "Shmem:"; "Dirty:"; "Writeback:"]%string.

(** [entryName.erase(entryName.size() - 1)], which throws for an empty name. *)
Definition without_last (s : string) : outcome string :=
  match s with
  | EmptyString => Throws "out_of_range"
  | _ => Ok (String.substring 0 (String.length s - 1) s)
  end.

(** The field that a line of [/proc/meminfo] is read for. *)
Definition meminfo_fields (extended : bool) (result : list string) : list (string * MetricUnit.t * outcome Z) :=
  match result with
  | [] => [(EmptyString, MetricUnit.NONE, Throws "out_of_range")]
  | entryName :: _ =>
      let isCoreMetric := bool_decide (entryName ∈ procMemNames) in
      if extended || isCoreMetric then
        match without_last entryName with
        | Ok base =>
            let name := (if isCoreMetric then MEM_CORE_NAME_PREFIX else MEM_EXTENDED_NAME_PREFIX) +:+ base in
            if (2 <? length result)%nat then [(name, MetricUnit.BYTES, kbAt result 1)]
            else [(name, MetricUnit.NONE, int64At result 1)]
        | Throws e => [(EmptyString, MetricUnit.NONE, Throws e)]
        | _ => []
        end
      else []
  end.

(** The loop over the lines of a file, with its two handlers. *)
Fixpoint read_lines (fields : list string -> list (string * MetricUnit.t * outcome Z)) (what : string) (status : Error)
    (lines : list string) (st : list MetricListenerEntry * (CPUDataReader * W))
    : outcome (list MetricListenerEntry * (CPUDataReader * W)) :=
  match lines with
  | [] => Ok st
  | line :: lines =>
      let '(entries, rw) := st in
      match add_fields (fields (boost_split line)) entries with
      | (entries, Ok _) => read_lines fields what status lines (entries, rw)
      | (entries, Throws e) =>
          if String.eqb e "bad_lexical_cast" then read_lines fields what status lines (entries, error what status rw)
          else if String.eqb e "out_of_range" then read_lines fields what status lines (entries, rw)
          else Throws e
      | (_, Undefined) => Undefined
      | (_, Blocked) => Blocked
      end
  end.

(** ** The sources in turn *)

Definition read_ncores (s : sources) (st : list MetricListenerEntry * (CPUDataReader * W))
    : list MetricListenerEntry * (CPUDataReader * W) :=
  let '(entries, (r, w)) := st in
  if cpuNCoresEnabled r && negb (readNCores r) then
    (addLongEntry "cpu.ncores" MetricUnit.NONE MetricVariability.CONSTANT (get_nprocs s) entries, (set_ncores_read r, w))
  else st.

Definition rusage_fields (usage : rusage) : list (string * MetricUnit.t * outcome Z) :=
  [("cpu.process.time.user", MetricUnit.MILLISECONDS, timevalToMs (ru_utime usage));
   ("cpu.process.time.system", MetricUnit.MILLISECONDS, timevalToMs (ru_stime usage));
   ("cpu.process.maxrss", MetricUnit.BYTES, int64_mul (ru_maxrss usage) KILO_TO_BYTES);
   ("cpu.process.page_faults.soft", MetricUnit.EVENTS, Ok (ru_minflt usage));
   ("cpu.process.page_faults.hard", MetricUnit.EVENTS, Ok (ru_majflt usage));
   ("cpu.process.blocks.in", MetricUnit.EVENTS, Ok (ru_inblock usage));
   ("cpu.process.blocks.out", MetricUnit.EVENTS, Ok (ru_oublock usage));
   ("cpu.process.csw.voluntary", MetricUnit.EVENTS, Ok (ru_nvcsw usage));
   ("cpu.process.csw.involuntary", MetricUnit.EVENTS, Ok (ru_nivcsw usage))]%string.

Definition read_rusage (s : sources) (st : list MetricListenerEntry * (CPUDataReader * W))
    : outcome (list MetricListenerEntry * (CPUDataReader * W)) :=
  let '(entries, (r, w)) := st in
  if cpuProcessEnabled r then
    match getrusage s with
    | inr usage =>
        let '(entries, result) := add_fields (rusage_fields usage) entries in _ ← result; Ok (entries, (r, w))
    | inl err => Ok (entries, error ("Got getrusage error of " +:+ pretty err) RUSAGE_FAILURE (r, w))
    end
  else Ok st.

Definition read_stat (s : sources) (st : list MetricListenerEntry * (CPUDataReader * W))
    : outcome (list MetricListenerEntry * (CPUDataReader * W)) :=
  let '(entries, (r, w)) := st in
  if cpuSystemEnabled r then
    let r := if negb (readClockTicksPerSecond r) then set_ticks (sysconf_CLK_TCK s) r else r in
    if reset (procStat r) then
      read_lines (stat_fields (clockTicksPerSecond r)) ("Got bad_lexical_cast exception while parsing /proc/stat: " +:+ bad_lexical_cast_what)
        PROC_STAT_PARSE_ERROR (proc_stat s) (entries, (r, w))
    else
      let '(failed, f) := hasOpenError (procStat r) in
      let r := set_files (procMemInfo r) f r in
      Ok (entries, if failed then error (file_error f) PROC_STAT_FILE_ERROR (r, w) else (r, w))
  else Ok st.

Definition read_meminfo (s : sources) (st : list MetricListenerEntry * (CPUDataReader * W))
    : outcome (list MetricListenerEntry * (CPUDataReader * W)) :=
  let '(entries, (r, w)) := st in
  if memCoreEnabled r then
    if reset (procMemInfo r) then
      read_lines (meminfo_fields (memExtendedEnabled r)) ("Got bad_lexical_cast exception while parsing /proc/meminfo: " +:+ bad_lexical_cast_what)
        PROC_MEMINFO_PARSE_ERROR (proc_meminfo s) (entries, (r, w))
    else
      let '(failed, f) := hasOpenError (procMemInfo r) in
      let r := set_files f (procStat r) r in
      Ok (entries, if failed then error (file_error f) PROC_MEMINFO_FILE_ERROR (r, w) else (r, w))
  else Ok st.

Definition read (s : sources) (timestampInMs : Z) (rw : CPUDataReader * W) : outcome (CPUDataReader * W) :=
  st ← read_rusage s (read_ncores s ([], rw));
  st ← read_stat s st;
  '(entries, (r, w)) ← read_meminfo s st;
  let w := match entries with [] => w | _ => recordEntries entries timestampInMs w end in
  Ok (if negb (hasEmittedConstantMetrics_ r) then set_emitted r else r, w).
End Read.
