(* ===== verification/CPUDataReaderSpec.v ===== *)
(** * What a reading comes to, and that one bad line spoils nothing else *)
From S2P Require Import Prelude MetricTypes CPUDataReader.
From stdpp Require Import pretty.
#[local] Open Scope Z_scope.

(** ** What each source is read for *)

Definition reading (name : string) (unit : MetricUnit.t) (v : Z) : MetricListenerEntry :=
  mkMetricListenerEntry name MetricVariability.VARIABLE unit (mkMetricData MetricDataType.LONG EmptyString v).

Definition fits (v : Z) : bool := (- 2 ^ 63 <=? v) && (v <? 2 ^ 63).

(** How the number in a column becomes the value of a metric; [None] when that
    is undefined in C. *)
Inductive scale := Plain | Kilobytes | Ticks (per_second : Z).
Definition scaled (sc : scale) (v : Z) : option Z :=
  match sc with
  | Plain => Some v
  | Kilobytes => if fits (v * 1024) then Some (v * 1024) else None
  | Ticks t => if fits (v * 1000) && negb (t =? 0) then Some (Z.quot (v * 1000) t) else None
  end.

Definition column : Type := string * MetricUnit.t * scale.

(** The columns of each kind of line of [/proc/stat]. *)
Definition stat_table (ticks : Z) : list (string * list column) :=
  let time name := (("cpu.system." ++ name)%string, MetricUnit.MILLISECONDS, Ticks ticks) in
  let events name := (("cpu.system." ++ name)%string, MetricUnit.EVENTS, Plain) in
  let number name := (("cpu.system." ++ name)%string, MetricUnit.NONE, Plain) in
  [("cpu", time <$> ["user"; "nice"; "system"; "idle"; "iowait"; "irq"; "softirq"; "steal"; "guest"; "guest_nice"]);
   ("page", events <$> ["pages.in"; "pages.out"]);
   ("swap", events <$> ["swap.in"; "swap.out"]);
   ("ctxt", [events "csw"]);
   ("procs_running", [number "procs.running"]);
   ("procs_blocked", [number "procs.blocked"])]%string.

Fixpoint columns_of (key : string) (table : list (string * list column)) : list column :=
  match table with
  | [] => []
  | (key', columns) :: table => if String.eqb key key' then columns else columns_of key table
  end.

(** How the reading of a line ends. *)
Inductive ending := Fine | TooShort | NotANumber | TooLarge.

Definition ending_outcome (e : ending) : outcome unit :=
  match e with
  | Fine => Ok tt
  | TooShort => Throws "out_of_range"
  | NotANumber => Throws "bad_lexical_cast"
  | TooLarge => Undefined
  end.

Definition is_bad (e : ending) : bool := match e with NotANumber => true | _ => false end.
Definition is_undefined (e : ending) : bool := match e with TooLarge => true | _ => false end.

Section Spec.
Context {W : Type} `{MetricDataListener W} `{Boost}.

(** The entries of a line: its columns in order, up to the first that is missing,
    not a number, or too large to scale. *)
Fixpoint line_reading (columns : list column) (words : list string) : list MetricListenerEntry * ending :=
  match columns with
  | [] => ([], Fine)
  | (name, unit, sc) :: columns =>
      match words with
      | [] => ([], TooShort)
      | word :: words =>
          match lexical_cast word with
          | None => ([], NotANumber)
          | Some v =>
              match scaled sc v with
              | None => ([], TooLarge)
              | Some v => let '(es, e) := line_reading columns words in (reading name unit v :: es, e)
              end
          end
      end
  end.

Definition stat_line (ticks : Z) (words : list string) : list MetricListenerEntry * ending :=
  match words with
  | [] => ([], TooShort)
  | key :: words => line_reading (columns_of key (stat_table ticks)) words
  end.

Definition core_names : list string :=
  ["MemTotal:"; "MemFree:"; "MemAvailable:"; "SwapTotal:"; "SwapFree:"; "Shmem:"; "Dirty:"; "Writeback:"]%string.

(** A line of [/proc/meminfo] is a name with a colon, a number and, for a size,
    its unit. *)
Definition meminfo_line (extended : bool) (words : list string) : list MetricListenerEntry * ending :=
  match words with
  | [] => ([], TooShort)
  | label :: words =>
      let core := bool_decide (label ∈ core_names) in
      if negb extended && negb core then ([], Fine)
      else if String.eqb label "" then ([], TooShort)
      else
        let name := ((if core then "mem.system.core." else "mem.system.extended.")
                     ++ String.substring 0 (String.length label - 1) label)%string in
        line_reading [if (1 <? length words)%nat then (name, MetricUnit.BYTES, Kilobytes)
                      else (name, MetricUnit.NONE, Plain)] words
  end.

(** ** Fields are columns *)

Definition cell (sc : scale) (words : list string) (i : nat) : outcome Z :=
  match sc with Plain => int64At words i | Kilobytes => kbAt words i | Ticks t => ticksAt t words i end.

Fixpoint cells (columns : list column) (words : list string) (i : nat) : list (string * MetricUnit.t * outcome Z) :=
  match columns with
  | [] => []
  | (name, unit, sc) :: columns => (name, unit, cell sc words i) :: cells columns words (S i)
  end.

Lemma int64_of_fits v : int64_of v = if fits v then Ok v else Undefined.
Proof using Type.
  unfold int64_of, fits. destruct (Z.leb_spec (- 2 ^ 63) v), (Z.ltb_spec v (2 ^ 63)); cbn [andb];
    try (unfold i64; rewrite signed_small by lia; by rewrite Z.eqb_refl).
  all: destruct (Z.eqb_spec (i64 v) v) as [E|]; [|done].
  all: pose proof (signed_range 64 v ltac:(lia)); unfold i64 in E; lia.
Qed.

(** The value of a cell, by how the word of its column reads. *)
Lemma cell_value sc words i :
  cell sc words i =
    match words !! i with
    | None => Throws "out_of_range"
    | Some word =>
        match lexical_cast word with
        | None => Throws "bad_lexical_cast"
        | Some v => match scaled sc v with Some v => Ok v | None => Undefined end
        end
    end.
Proof using Type.
  unfold cell, kbAt, ticksAt, int64At, at_, int64_mul, scaled.
  destruct sc as [| |t], (words !! i) as [word|]; try done; simpl; destruct (lexical_cast word) as [v|]; try done; simpl;
    rewrite int64_of_fits; unfold KILO_TO_BYTES; destruct (fits _); try done; simpl; by destruct (t =? 0).
Qed.

Lemma add_cells columns words i entries :
  let '(es, e) := line_reading columns (drop i words) in
  add_fields (cells columns words i) entries = (entries ++ es, ending_outcome e).
Proof using Type.
  revert i entries. induction columns as [|[[name unit] sc] columns IH]; intros i entries; cbn [line_reading cells add_fields].
  { by rewrite app_nil_r. }
  rewrite cell_value. destruct (words !! i) as [word|] eqn:Ei.
  2: { rewrite drop_ge by (by apply lookup_ge_None in Ei). by rewrite app_nil_r. }
  rewrite (drop_S words word i) by done. destruct (lexical_cast word) as [v|]; [|by rewrite app_nil_r].
  destruct (scaled sc v) as [v'|]; [|by rewrite app_nil_r].
  specialize (IH (S i) (addLongVar name unit v' entries)). destruct (line_reading columns _) as [es e].
  rewrite IH. unfold addLongVar, addLongEntry. by rewrite <- app_assoc.
Qed.

(** One line, whatever it holds. *)
Definition reads_line (fields : list string -> list (string * MetricUnit.t * outcome Z))
    (line_of : list string -> list MetricListenerEntry * ending) : Prop :=
  forall words entries, add_fields (fields words) entries =
    (entries ++ (line_of words).1, ending_outcome (line_of words).2).

Lemma add_line columns key words entries :
  add_fields (cells columns (key :: words) 1) entries =
    (entries ++ (line_reading columns words).1, ending_outcome (line_reading columns words).2).
Proof using Type.
  pose proof (add_cells columns (key :: words) 1 entries) as Hc. simpl in Hc. rewrite drop_0 in Hc.
  by destruct (line_reading _ _).
Qed.

Lemma stat_reads ticks : reads_line (stat_fields ticks) (stat_line ticks).
Proof using Type.
  intros [|key words] entries; [simpl; by rewrite app_nil_r|]. unfold stat_line. rewrite <- (add_line _ key). f_equal.
  unfold stat_fields. cbn [columns_of stat_table fmap list_fmap].
  destruct (String.eqb key "cpu"); [done|]. destruct (String.eqb key "page"); [done|].
  destruct (String.eqb key "swap"); [done|]. destruct (String.eqb key "ctxt"); [done|].
  destruct (String.eqb key "procs_running"); [done|]. by destruct (String.eqb key "procs_blocked").
Qed.

Lemma meminfo_reads extended : reads_line (meminfo_fields extended) (meminfo_line extended).
Proof using Type.
  intros [|label words] entries; [simpl; by rewrite app_nil_r|]. unfold meminfo_line, meminfo_fields.
  change procMemNames with core_names. destruct (bool_decide (label ∈ core_names)), extended; cbn [orb andb negb];
    try (simpl; by rewrite app_nil_r).
  all: destruct label as [|c label]; [simpl; by rewrite app_nil_r|]; cbn [without_last String.eqb].
  all: change (2 <? length (String c label :: words))%nat with (1 <? length words)%nat.
  all: destruct (1 <? length words)%nat; by rewrite <- (add_line _ (String c label)).
Qed.

(** ** What is reported *)

Definition complaint : Type := Error * string.

(** The listener hears of the first complaint of each kind. *)
Fixpoint told (known : list Error) (cs : list complaint) (w : W) : W :=
  match cs with
  | [] => w
  | (e, what) :: cs =>
      if bool_decide (e ∈ known) then told known cs w
      else told (e :: known) cs
        (recordMetricNotification NotificationCategory.INFO_LOGGING what
          (recordMetricNotification NotificationCategory.USER_ERROR "Unable to record CPU Metrics" w))
  end.

Fixpoint after_telling (known : list Error) (cs : list complaint) : list Error :=
  match cs with
  | [] => known
  | (e, _) :: cs => after_telling (if bool_decide (e ∈ known) then known else e :: known) cs
  end.

(** Every complaint is counted, modulo [2 ^ 32]. *)
Definition count_after (n : Z) (cs : list complaint) : Z := Nat.iter (length cs) (fun n => u32 (n + 1)) n.

Definition complain (cs : list complaint) (rw : CPUDataReader * W) : CPUDataReader * W :=
  fold_left (fun rw '(e, what) => error what e rw) cs rw.

Lemma complain_told cs r w :
  complain cs (r, w) = (set_errors (after_telling (sentErrors_ r) cs) (count_after (errors r) cs) r, told (sentErrors_ r) cs w).
Proof using Type.
  revert r w. induction cs as [|[e what] cs IH]; intros r w; [by destruct r|].
  unfold complain. cbn [fold_left]. fold (complain cs (error what e (r, w))).
  unfold error. unfold count_after. cbn [length]. rewrite Nat.iter_succ_r. fold (count_after (u32 (errors r + 1)) cs).
  cbn [told after_telling]. destruct (bool_decide _); by rewrite IH.
Qed.

Lemma told_app known cs1 cs2 w : told known (cs1 ++ cs2) w = told (after_telling known cs1) cs2 (told known cs1 w).
Proof using Type.
  revert known w. induction cs1 as [|[e what] cs1 IH]; intros known w; [done|]. simpl. destruct (bool_decide _); apply IH.
Qed.

Lemma after_telling_app known cs1 cs2 : after_telling known (cs1 ++ cs2) = after_telling (after_telling known cs1) cs2.
Proof using Type. revert known. induction cs1 as [|[e what] cs1 IH]; intros known; [done|]. apply IH. Qed.

Lemma count_after_app n cs1 cs2 : count_after n (cs1 ++ cs2) = count_after (count_after n cs1) cs2.
Proof using Type.
  unfold count_after. rewrite length_app. revert n. induction cs1 as [|c cs1 IH]; intros n; [done|].
  cbn [length Nat.add]. rewrite !Nat.iter_succ_r. apply IH.
Qed.

(** ** The lines of a file *)

Definition entries_in (line_of : list string -> list MetricListenerEntry * ending) (lines : list string) : list MetricListenerEntry :=
  concat ((fun line => (line_of (boost_split line)).1) <$> lines).

Definition complaints_in (line_of : list string -> list MetricListenerEntry * ending) (c : complaint) (lines : list string) : list complaint :=
  lines ≫= (fun line => if is_bad (line_of (boost_split line)).2 then [c] else []).

Definition undefined_in (line_of : list string -> list MetricListenerEntry * ending) (lines : list string) : bool :=
  existsb (fun line => is_undefined (line_of (boost_split line)).2) lines.

Lemma read_lines_spec fields line_of what status lines entries rw :
  reads_line fields line_of ->
  read_lines fields what status lines (entries, rw) =
    if undefined_in line_of lines then Undefined
    else Ok (entries ++ entries_in line_of lines, complain (complaints_in line_of (status, what) lines) rw).
Proof using Type.
  intros Hline. revert entries rw. induction lines as [|line lines IH]; intros entries rw.
  { simpl. by rewrite app_nil_r. }
  cbn [read_lines undefined_in existsb]. rewrite Hline. unfold complaints_in, entries_in. simpl.
  destruct (line_of (boost_split line)) as [es e]. cbn [fst snd].
  destruct e; cbn [ending_outcome is_undefined is_bad orb]; [| | |done];
    simpl; rewrite IH; fold (undefined_in line_of lines); by destruct (undefined_in _ _); rewrite <- ?app_assoc.
Qed.

(** ** A whole reading *)

Definition ncores_entry (n : Z) : MetricListenerEntry :=
  mkMetricListenerEntry "cpu.ncores" MetricVariability.CONSTANT MetricUnit.NONE (mkMetricData MetricDataType.LONG EmptyString n).

Definition millis (t : timeval) : Z := t_sec t * 1000 + Z.quot (t_usec t) 1000.

Definition usage_reading (u : rusage) : list MetricListenerEntry :=
  [reading "cpu.process.time.user" MetricUnit.MILLISECONDS (millis (ru_utime u));
   reading "cpu.process.time.system" MetricUnit.MILLISECONDS (millis (ru_stime u));
   reading "cpu.process.maxrss" MetricUnit.BYTES (ru_maxrss u * 1024);
   reading "cpu.process.page_faults.soft" MetricUnit.EVENTS (ru_minflt u);
   reading "cpu.process.page_faults.hard" MetricUnit.EVENTS (ru_majflt u);
   reading "cpu.process.blocks.in" MetricUnit.EVENTS (ru_inblock u);
   reading "cpu.process.blocks.out" MetricUnit.EVENTS (ru_oublock u);
   reading "cpu.process.csw.voluntary" MetricUnit.EVENTS (ru_nvcsw u);
   reading "cpu.process.csw.involuntary" MetricUnit.EVENTS (ru_nivcsw u)]%string.

Definition time_fits (t : timeval) : bool := fits (t_sec t * 1000) && fits (millis t).
Definition usage_fits (u : rusage) : bool :=
  time_fits (ru_utime u) && time_fits (ru_stime u) && fits (ru_maxrss u * 1024).

Definition ticks_of (s : sources) (r : CPUDataReader) : Z :=
  if readClockTicksPerSecond r then clockTicksPerSecond r else sysconf_CLK_TCK s.

(** Each source that is enabled and, for a file, open. *)
Definition expected_entries (s : sources) (r : CPUDataReader) : list MetricListenerEntry :=
  (if cpuNCoresEnabled r && negb (readNCores r) then [ncores_entry (get_nprocs s)] else []) ++
  (if cpuProcessEnabled r then match getrusage s with inr usage => usage_reading usage | inl _ => [] end else []) ++
  (if cpuSystemEnabled r && readable (procStat r) then entries_in (stat_line (ticks_of s r)) (proc_stat s) else []) ++
  (if memCoreEnabled r && readable (procMemInfo r) then entries_in (meminfo_line (memExtendedEnabled r)) (proc_meminfo s) else []).

(** What there is to complain about: a call that failed, the lines that hold a
    word that is not a number, and a file that could not be opened, once. *)
Definition file_complaints (f : SeekableFile) (status : Error) (of_lines : list complaint) : list complaint :=
  if readable f then of_lines else if openError f then [(status, file_error f)] else [].

Definition expected_complaints (s : sources) (r : CPUDataReader) : list complaint :=
  (if cpuProcessEnabled r
   then match getrusage s with inl err => [(RUSAGE_FAILURE, "Got getrusage error of " +:+ pretty err)] | inr _ => [] end
   else []) ++
  (if cpuSystemEnabled r
   then file_complaints (procStat r) PROC_STAT_FILE_ERROR
          (complaints_in (stat_line (ticks_of s r))
             (PROC_STAT_PARSE_ERROR, "Got bad_lexical_cast exception while parsing /proc/stat: " +:+ bad_lexical_cast_what) (proc_stat s))
   else []) ++
  (if memCoreEnabled r
   then file_complaints (procMemInfo r) PROC_MEMINFO_FILE_ERROR
          (complaints_in (meminfo_line (memExtendedEnabled r))
             (PROC_MEMINFO_PARSE_ERROR, "Got bad_lexical_cast exception while parsing /proc/meminfo: " +:+ bad_lexical_cast_what)
             (proc_meminfo s))
   else []).

(** A number too large to scale is read, or a number of ticks is divided by zero. *)
Definition overflows (s : sources) (r : CPUDataReader) : bool :=
  (cpuProcessEnabled r && match getrusage s with inr usage => negb (usage_fits usage) | inl _ => false end) ||
  (cpuSystemEnabled r && readable (procStat r) && undefined_in (stat_line (ticks_of s r)) (proc_stat s)) ||
  (memCoreEnabled r && readable (procMemInfo r) && undefined_in (meminfo_line (memExtendedEnabled r)) (proc_meminfo s)).
(** What a reading changes in the reader besides what it keeps of the complaints:
    the number of cores and the rate of the clock are asked for once, and so is
    the error of a file that could not be opened. *)
Definition asked (f : SeekableFile) : SeekableFile :=
  if readable f then f else mkSeekableFile false false (file_error f).
Definition ncores_after (r : CPUDataReader) : CPUDataReader :=
  if cpuNCoresEnabled r && negb (readNCores r) then set_ncores_read r else r.
Definition stat_after (s : sources) (r : CPUDataReader) : CPUDataReader :=
  if cpuSystemEnabled r then set_files (procMemInfo r) (asked (procStat r)) (set_ticks (ticks_of s r) r) else r.
Definition meminfo_after (r : CPUDataReader) : CPUDataReader :=
  if memCoreEnabled r then set_files (asked (procMemInfo r)) (procStat r) r else r.

(** Changes that the complaints do not see. *)
Definition aside (f : CPUDataReader -> CPUDataReader) : Prop :=
  forall r, sentErrors_ (f r) = sentErrors_ r /\ errors (f r) = errors r /\
    forall k n, set_errors k n (f r) = f (set_errors k n r).

Lemma complain_aside f cs r w : aside f -> complain cs (f r, w) = prod_map f id (complain cs (r, w)).
Proof using Type. intros Hf. destruct (Hf r) as (E1 & E2 & E3). by rewrite !complain_told, E1, E2, E3. Qed.

Lemma stat_after_aside s : aside (stat_after s).
Proof using Type. intros r. unfold stat_after. destruct r; simpl. by repeat case_match. Qed.
Lemma meminfo_after_aside : aside meminfo_after.
Proof using Type. intros r. unfold meminfo_after. destruct r; simpl. by repeat case_match. Qed.
Lemma set_emitted_aside : aside set_emitted.
Proof using Type. by intros []. Qed.

Lemma stat_after_keeps s r :
  memCoreEnabled (stat_after s r) = memCoreEnabled r /\ procMemInfo (stat_after s r) = procMemInfo r /\
  memExtendedEnabled (stat_after s r) = memExtendedEnabled r.
Proof using Type. unfold stat_after. by destruct (cpuSystemEnabled r). Qed.

Lemma usage_reads u entries :
  add_fields (rusage_fields u) entries =
    if usage_fits u then (entries ++ usage_reading u, Ok tt)
    else (entries ++ (if time_fits (ru_utime u)
                      then if time_fits (ru_stime u) then take 2 (usage_reading u) else take 1 (usage_reading u) else []), Undefined).
Proof using Type.
  assert (forall t, timevalToMs t = if time_fits t then Ok (millis t) else Undefined) as Ht.
  { intros t. unfold timevalToMs, int64_mul, time_fits. rewrite int64_of_fits. destruct (fits (t_sec t * 1000)); simpl; [|done].
    by rewrite int64_of_fits. }
  unfold rusage_fields, int64_mul, usage_fits. rewrite !Ht, int64_of_fits. unfold KILO_TO_BYTES.
  destruct (time_fits (ru_utime u)); cbn [andb add_fields]; [|by rewrite app_nil_r].
  destruct (time_fits (ru_stime u)); cbn [andb add_fields]; [|done].
  unfold addLongVar, addLongEntry. destruct (fits _); cbn [add_fields]; by rewrite <- !app_assoc.
Qed.

Lemma read_rusage_spec s entries r w :
  read_rusage s (entries, (r, w)) =
    if cpuProcessEnabled r && match getrusage s with inr usage => negb (usage_fits usage) | inl _ => false end then Undefined
    else Ok (entries ++ (if cpuProcessEnabled r then match getrusage s with inr usage => usage_reading usage | inl _ => [] end else []),
             complain (if cpuProcessEnabled r
                       then match getrusage s with inl err => [(RUSAGE_FAILURE, "Got getrusage error of " +:+ pretty err)] | inr _ => [] end
                       else []) (r, w)).
Proof using Type.
  unfold read_rusage. destruct (cpuProcessEnabled r); cbn [andb]; [|by rewrite app_nil_r].
  destruct (getrusage s) as [err|usage]; [by rewrite app_nil_r|]. rewrite usage_reads. by destruct (usage_fits usage).
Qed.

Lemma read_stat_spec s entries r w :
  read_stat s (entries, (r, w)) =
    if cpuSystemEnabled r && readable (procStat r) && undefined_in (stat_line (ticks_of s r)) (proc_stat s) then Undefined
    else Ok (entries ++ (if cpuSystemEnabled r && readable (procStat r) then entries_in (stat_line (ticks_of s r)) (proc_stat s) else []),
             prod_map (stat_after s) id (complain
               (if cpuSystemEnabled r
                then file_complaints (procStat r) PROC_STAT_FILE_ERROR (complaints_in (stat_line (ticks_of s r))
                  (PROC_STAT_PARSE_ERROR, "Got bad_lexical_cast exception while parsing /proc/stat: " +:+ bad_lexical_cast_what) (proc_stat s))
                else []) (r, w))).
Proof using Type.
  rewrite <- complain_aside by apply stat_after_aside. unfold read_stat, stat_after.
  destruct (cpuSystemEnabled r) eqn:Es; cbn [andb]; [|by rewrite app_nil_r].
  assert ((if negb (readClockTicksPerSecond r) then set_ticks (sysconf_CLK_TCK s) r else r) = set_ticks (ticks_of s r) r) as ->
    by (unfold ticks_of; destruct r as [? ? ? ? ? ? []]; done).
  set (r1 := set_ticks _ r). unfold reset, asked, file_complaints.
  change (procStat r1) with (procStat r). change (procMemInfo r) with (procMemInfo r1).
  change (clockTicksPerSecond r1) with (ticks_of s r).
  destruct (readable (procStat r)) eqn:Er; cbn [andb].
  - rewrite (read_lines_spec _ (stat_line (ticks_of s r))) by apply stat_reads.
    assert (set_files (procMemInfo r1) (procStat r) r1 = r1) as -> by done. done.
  - rewrite app_nil_r. unfold hasOpenError. rewrite Er. by destruct (openError (procStat r)).
Qed.

Lemma read_meminfo_spec s entries r w :
  read_meminfo s (entries, (r, w)) =
    if memCoreEnabled r && readable (procMemInfo r) && undefined_in (meminfo_line (memExtendedEnabled r)) (proc_meminfo s) then Undefined
    else Ok (entries ++ (if memCoreEnabled r && readable (procMemInfo r)
                         then entries_in (meminfo_line (memExtendedEnabled r)) (proc_meminfo s) else []),
             prod_map meminfo_after id (complain
               (if memCoreEnabled r
                then file_complaints (procMemInfo r) PROC_MEMINFO_FILE_ERROR (complaints_in (meminfo_line (memExtendedEnabled r))
                  (PROC_MEMINFO_PARSE_ERROR, "Got bad_lexical_cast exception while parsing /proc/meminfo: " +:+ bad_lexical_cast_what)
                  (proc_meminfo s))
                else []) (r, w))).
Proof using Type.
  rewrite <- complain_aside by apply meminfo_after_aside. unfold read_meminfo, meminfo_after.
  destruct (memCoreEnabled r) eqn:Es; cbn [andb]; [|by rewrite app_nil_r].
  unfold reset, asked, file_complaints. destruct (readable (procMemInfo r)) eqn:Er; cbn [andb].
  - rewrite (read_lines_spec _ (meminfo_line (memExtendedEnabled r))) by apply meminfo_reads.
    assert (set_files (procMemInfo r) (procStat r) r = r) as -> by (by destruct r). done.
  - rewrite app_nil_r. unfold hasOpenError. rewrite Er. by destruct (openError (procMemInfo r)).
Qed.

(** C35. What a reading comes to, whatever the system files contain.  Each source
    that is enabled and could be opened contributes, in order, the metrics of its
    table for each of its lines, scaled to their unit, up to the first column of
    the line that is missing or not a number; a bad line spoils no other.  The
    entries are recorded together, unless there is none; before that the listener
    is told of the first complaint of each kind that it has not heard of, and each
    complaint is counted.  The number of cores and the rate of the clock are asked
    for once, and so is the error of a file that could not be opened.  The only
    other outcome is undefined behaviour, exactly when a number is reached that
    overflows an [int64_t] when scaled, or the clock has no ticks. *)
Theorem read_collects s timestampInMs r w :
  read s timestampInMs (r, w) =
    if overflows s r then Undefined
    else
      let complaints := expected_complaints s r in
      let w' := told (sentErrors_ r) complaints w in
      Ok (set_errors (after_telling (sentErrors_ r) complaints) (count_after (errors r) complaints)
            (set_emitted (meminfo_after (stat_after s (ncores_after r)))),
          match expected_entries s r with [] => w' | es => recordEntries es timestampInMs w' end).
Proof using Type.
  unfold read.
  assert (read_ncores s ([], (r, w)) =
    (if cpuNCoresEnabled r && negb (readNCores r) then [ncores_entry (get_nprocs s)] else [], (ncores_after r, w))) as ->
    by (unfold read_ncores, ncores_after; by destruct (_ && _)).
  unfold expected_entries, expected_complaints, overflows.
  assert (cpuProcessEnabled (ncores_after r) = cpuProcessEnabled r /\ cpuSystemEnabled (ncores_after r) = cpuSystemEnabled r /\
    memCoreEnabled (ncores_after r) = memCoreEnabled r /\ memExtendedEnabled (ncores_after r) = memExtendedEnabled r /\
    procStat (ncores_after r) = procStat r /\ procMemInfo (ncores_after r) = procMemInfo r /\
    ticks_of s (ncores_after r) = ticks_of s r /\ sentErrors_ (ncores_after r) = sentErrors_ r /\ errors (ncores_after r) = errors r)
    as (E1 & E2 & E3 & E4 & E5 & E6 & E7 & E8 & E9) by (unfold ncores_after; by destruct (_ && _)).
  rewrite <- E1, <- E2, <- E3, <- E4, <- E5, <- E6, <- E7, <- E8, <- E9. clear E1 E2 E3 E4 E5 E6 E7 E8 E9.
  generalize (if cpuNCoresEnabled r && negb (readNCores r) then [ncores_entry (get_nprocs s)] else []) as e1.
  generalize (ncores_after r) as r1. clear r. intros r e1.
  rewrite read_rusage_spec. destruct (cpuProcessEnabled r && _); cbn [orb mbind outcome_bind]; [done|].
  match goal with |- context [complain ?c (r, w)] => set (c1 := c) end.
  rewrite complain_told, read_stat_spec.
  match goal with |- context [ticks_of s (set_errors ?k ?n r)] => change (ticks_of s (set_errors k n r)) with (ticks_of s r) end.
  cbn [cpuSystemEnabled procStat set_errors].
  destruct (cpuSystemEnabled r && readable (procStat r) && _); cbn [orb mbind outcome_bind]; [done|].
  set (c2 := if cpuSystemEnabled r then _ else []). rewrite complain_told. unfold prod_map at 1. cbn [fst snd id].
  set (k1 := after_telling _ c1). set (n1 := count_after _ c1).
  change (sentErrors_ (set_errors k1 n1 r)) with k1. change (errors (set_errors k1 n1 r)) with n1.
  change (set_errors (after_telling k1 c2) (count_after n1 c2) (set_errors k1 n1 r))
    with (set_errors (after_telling k1 c2) (count_after n1 c2) r).
  destruct (stat_after_aside s r) as (S1 & S2 & <-). destruct (stat_after_keeps s r) as (G1 & G2 & G3).
  rewrite read_meminfo_spec. cbn [memCoreEnabled procMemInfo memExtendedEnabled set_errors]. rewrite G1, G2, G3.
  destruct (memCoreEnabled r && readable (procMemInfo r) && _); cbn [orb mbind outcome_bind]; [done|].
  set (c3 := if memCoreEnabled r then _ else []). rewrite complain_told. unfold prod_map. cbn [fst snd id].
  set (r2 := stat_after s r). set (k2 := after_telling k1 c2). set (n2 := count_after n1 c2).
  change (sentErrors_ (set_errors k2 n2 r2)) with k2. change (errors (set_errors k2 n2 r2)) with n2.
  change (set_errors (after_telling k2 c3) (count_after n2 c3) (set_errors k2 n2 r2))
    with (set_errors (after_telling k2 c3) (count_after n2 c3) r2).
  rewrite !told_app, !after_telling_app, !count_after_app, <- !app_assoc. fold k1 n1 k2 n2.
  destruct (meminfo_after_aside r2) as (_ & _ & <-). destruct (set_emitted_aside (meminfo_after r2)) as (_ & _ & ->).
  f_equal. f_equal.
  - generalize (meminfo_after r2). intros r3. by destruct r3 as [? ? ? ? ? ? ? ? ? ? ? [] ?].
  - by destruct (e1 ++ _).
Qed.
End Spec.

(** ** A machine whose statistics have a corrupt line *)

#[local] Instance quiet_listener : MetricDataListener (list (list MetricListenerEntry)) := {
  recordEntries es t w := w ++ [es];
  recordMetricNotification k p w := w
}.

(** Only the words the example needs. *)
#[local] Instance few_words : Boost := {
  boost_split line :=
    if String.eqb line "ctxt x" then ["ctxt"; "x"]%string
    else if String.eqb line "procs_running 2" then ["procs_running"; "2"]%string else [line];
  lexical_cast s := if String.eqb s "2" then Some 2 else None;
  bad_lexical_cast_what := "bad lexical cast"
}.

Definition two_lines : sources := mkSources 4 (inl 1) 100 ["ctxt x"; "procs_running 2"; EmptyString]%string [].
Definition a_reader : CPUDataReader :=
  new_CPUDataReader ["cpu.process"; "mem."]%string (open_file true EmptyString) (open_file true EmptyString) 0.

(** The line that is not a number is complained about; the empty line is not. *)
Example two_lines_complaints :
  expected_complaints two_lines a_reader =
    [(PROC_STAT_PARSE_ERROR, "Got bad_lexical_cast exception while parsing /proc/stat: bad lexical cast"%string)] /\
  overflows two_lines a_reader = false.
Proof. split; reflexivity. Qed.

Example two_lines_read :
  expected_entries two_lines a_reader =
    [ncores_entry 4; reading "cpu.system.procs.running" MetricUnit.NONE 2].
Proof. reflexivity. Qed.
