(* ===== verification/EventRing.v ===== *)
(** * Metrics of the OCaml runtime ([lib/events.enabled.cpp], [lib/event_ring_reader.cpp])

    The runtime writes events to a ring, which a cursor reads; the callbacks turn
    them into entries, which are handed on in batches of equal time.  The calls
    into the runtime are reduced to what they leave behind: the record [runtime],
    with the events the cursor still has to read. *)
From S2P Require Import Prelude MetricTypes.

Inductive ev_runtime_phase := EV_MINOR | EV_MAJOR | OtherPhase (n : Z).
#[export] Instance ev_runtime_phase_eq_dec : EqDecision ev_runtime_phase.
Proof. solve_decision. Defined.

Inductive ev_runtime_counter :=
| EV_C_FORCE_MINOR_ALLOC_SMALL | EV_C_FORCE_MINOR_MAKE_VECT | EV_C_FORCE_MINOR_SET_MINOR_HEAP_SIZE
| EV_C_FORCE_MINOR_WEAK | EV_C_FORCE_MINOR_MEMPROF | EV_C_MINOR_PROMOTED | EV_C_MINOR_ALLOCATED
| OtherCounter (n : Z).

Definition MAX_EVENTS : nat := Z.to_nat 60000.
Definition LOST_EVENTS_NAME : string := "ocaml.eventring.lost_events".
(** [sizeof(unsigned)]. *)
Definition WORD_SIZE : Z := 4.
Definition NS_IN_MS : Z := 1000000.

Definition REQUIRED_PHASES (phase : ev_runtime_phase) : option string :=
  match phase with
  | EV_MINOR => Some "ocaml.eventring.EV_MINOR"%string
  | EV_MAJOR => Some "ocaml.eventring.EV_MAJOR"%string
  | OtherPhase _ => None
  end.

Definition REQUIRED_COUNTERS (counter : ev_runtime_counter) : option string :=
  match counter with
  | EV_C_FORCE_MINOR_ALLOC_SMALL => Some "ocaml.eventring.EV_C_FORCE_MINOR_ALLOC_SMALL"%string
  | EV_C_FORCE_MINOR_MAKE_VECT => Some "ocaml.eventring.EV_C_FORCE_MINOR_MAKE_VECT"%string
  | EV_C_FORCE_MINOR_SET_MINOR_HEAP_SIZE => Some "ocaml.eventring.EV_C_FORCE_MINOR_SET_MINOR_HEAP_SIZE"%string
  | EV_C_FORCE_MINOR_WEAK => Some "ocaml.eventring.EV_C_FORCE_MINOR_WEAK"%string
  | EV_C_FORCE_MINOR_MEMPROF => Some "ocaml.eventring.EV_C_FORCE_MINOR_MEMPROF"%string
  | EV_C_MINOR_PROMOTED => Some "ocaml.eventring.EV_C_MINOR_PROMOTED"%string
  | EV_C_MINOR_ALLOCATED => Some "ocaml.eventring.EV_C_MINOR_ALLOCATED"%string
  | OtherCounter _ => None
  end.

Definition is_words (counter : ev_runtime_counter) : bool :=
  match counter with EV_C_MINOR_PROMOTED | EV_C_MINOR_ALLOCATED => true | _ => false end.

(** What the cursor calls back with. *)
Inductive ring_event :=
| RuntimeBegin (domainId timestamp : Z) (phase : ev_runtime_phase)
| RuntimeEnd (domainId timestamp : Z) (phase : ev_runtime_phase)
| RuntimeCounter (domainId timestamp : Z) (counter : ev_runtime_counter) (value : Z)
| LostEvents (domainId lost_events : Z).

Record EventState := mkEventState { beginTimestamp : Z; eventName : string }.
(** [phaseToEventState_]: at most one state for each phase. *)
Definition phase_states : Type := list (ev_runtime_phase * EventState).

Fixpoint find_phase (phase : ev_runtime_phase) (l : phase_states) : option EventState :=
  match l with
  | [] => None
  | (p, s) :: l => if bool_decide (p = phase) then Some s else find_phase phase l
  end.
Fixpoint erase_phase (phase : ev_runtime_phase) (l : phase_states) : phase_states :=
  match l with
  | [] => []
  | x :: l => if bool_decide (x.1 = phase) then erase_phase phase l else x :: erase_phase phase l
  end.
Definition set_phase (phase : ev_runtime_phase) (s : EventState) (l : phase_states) : phase_states :=
  (phase, s) :: erase_phase phase l.

(** ** [PollState] *)

Record PollState (W : Type) := mkPollState {
  listener_ : W;
  entries_ : list MetricListenerEntry;
  lostEvents_ : Z;
  lastTimestampInMs_ : Z
}.
Arguments mkPollState {W}.
Arguments listener_ {W}.
Arguments entries_ {W}.
Arguments lostEvents_ {W}.
Arguments lastTimestampInMs_ {W}.

Definition long_entry (name : string) (unit : MetricUnit.t) (value : Z) : MetricListenerEntry :=
  mkMetricListenerEntry name MetricVariability.VARIABLE unit (mkMetricData MetricDataType.LONG EmptyString value).

Section Poll.
Context {W : Type} `{MetricDataListener W}.
(** [MONOTONIC_TO_REALTIME_ADJUSTMENT_IN_MS]. *)
Context (adjustment : Z).
Implicit Types p : PollState W.

Definition new_PollState (listener : W) : PollState W := mkPollState listener [] 0 0.

Definition push p : PollState W :=
  match entries_ p with
  | [] => p
  | _ =>
      let '(entries, lost) :=
        if 0 <? lostEvents_ p
        then (entries_ p ++ [long_entry LOST_EVENTS_NAME MetricUnit.NONE (lostEvents_ p)], 0)
        else (entries_ p, lostEvents_ p) in
      mkPollState (recordEntries entries (i64 (adjustment + lastTimestampInMs_ p)) (listener_ p)) [] lost
        (lastTimestampInMs_ p)
  end.

Definition addEntry (entry : MetricListenerEntry) (timestampInNs : Z) p : PollState W :=
  let timestampInMs := timestampInNs / NS_IN_MS in
  let p :=
    if lastTimestampInMs_ p =? 0 then mkPollState (listener_ p) (entries_ p) (lostEvents_ p) timestampInMs
    else if negb (lastTimestampInMs_ p =? timestampInMs) then
      let p := push p in mkPollState (listener_ p) (entries_ p) (lostEvents_ p) timestampInMs
    else p in
  mkPollState (listener_ p) (entries_ p ++ [entry]) (lostEvents_ p) (lastTimestampInMs_ p).

Definition lostEvents (n : Z) p : PollState W :=
  mkPollState (listener_ p) (entries_ p) (i32 (lostEvents_ p + n)) (lastTimestampInMs_ p).

(** ** The callbacks *)

Definition eventRingBegin (timestamp : Z) (phase : ev_runtime_phase) (states : phase_states) : phase_states :=
  match REQUIRED_PHASES phase with
  | None => states
  | Some name =>
      let eventName := match find_phase phase states with Some s => eventName s | None => name end in
      set_phase phase (mkEventState timestamp eventName) states
  end.

Definition eventRingEnd (timestamp : Z) (phase : ev_runtime_phase) (sp : phase_states * PollState W)
    : phase_states * PollState W :=
  let '(states, pollState) := sp in
  match REQUIRED_PHASES phase with
  | None => sp
  | Some _ =>
      match find_phase phase states with
      | None => sp
      | Some state =>
          let duration := u64 (timestamp - beginTimestamp state) in
          (erase_phase phase states,
           addEntry (long_entry (eventName state) MetricUnit.NANOSECONDS (i64 duration)) timestamp pollState)
      end
  end.

Definition eventRingCounter (timestamp : Z) (counter : ev_runtime_counter) (value : Z) (pollState : PollState W)
    : PollState W :=
  match REQUIRED_COUNTERS counter with
  | None => pollState
  | Some name =>
      let '(value, unit) :=
        if is_words counter then (u64 (value * WORD_SIZE), MetricUnit.BYTES) else (value, MetricUnit.EVENTS) in
      addEntry (long_entry name unit (i64 value)) timestamp pollState
  end.

Definition on_event (sp : phase_states * PollState W) (e : ring_event) : phase_states * PollState W :=
  match e with
  | RuntimeBegin _ t ph => (eventRingBegin t ph sp.1, sp.2)
  | RuntimeEnd _ t ph => eventRingEnd t ph sp
  | RuntimeCounter _ t c v => (sp.1, eventRingCounter t c v sp.2)
  | LostEvents _ n => (sp.1, lostEvents n sp.2)
  end.
End Poll.

(** ** The integration with the runtime *)

Inductive ring_status := NotStarted | Running | Paused.

(** [create_cursor_succeeds]: what creating the next cursor yields; [unread]: the
    events a cursor has still to read. *)
Record runtime := mkRuntime {
  status : ring_status;
  calledStart_ : bool;
  cursor_ : bool;
  adjustment_in_ms : Z;
  phaseToEventState_ : phase_states;
  unread : list ring_event
}.

Definition new_runtime : runtime := mkRuntime NotStarted false false 0 [] [].

Definition disable_runtime_events (r : runtime) : runtime :=
  mkRuntime (if calledStart_ r then Paused else status r) (calledStart_ r) false (adjustment_in_ms r)
    (phaseToEventState_ r) (unread r).

(** [realtime] and [monotonic]: the clocks in milliseconds. *)
Definition enable_runtime_events (wasEnabled enable create_cursor_succeeds : bool) (realtime monotonic : Z) (r : runtime)
    : bool * runtime :=
  if negb wasEnabled && enable then
    let r :=
      if negb (calledStart_ r) then
        mkRuntime Running true (cursor_ r) (realtime - monotonic) [] (unread r)
      else mkRuntime Running true (cursor_ r) (adjustment_in_ms r) (phaseToEventState_ r) (unread r) in
    (create_cursor_succeeds,
     mkRuntime (status r) (calledStart_ r) create_cursor_succeeds (adjustment_in_ms r) (phaseToEventState_ r) (unread r))
  else if wasEnabled && negb enable then (enable, disable_runtime_events r)
  else (enable, r).

(** The cursor stops after [MAX_EVENTS] events. *)
Definition read_runtime_events {W} `{MetricDataListener W} (r : runtime) (listener : W) : Z * runtime * W :=
  if cursor_ r then
    let events := take MAX_EVENTS (unread r) in
    let '(states, pollState) :=
      fold_left (on_event (adjustment_in_ms r)) events (phaseToEventState_ r, new_PollState listener) in
    let pollState := push (adjustment_in_ms r) pollState in
    (u32 (Z.of_nat (length events)),
     mkRuntime (status r) (calledStart_ r) true (adjustment_in_ms r) states (drop MAX_EVENTS (unread r)),
     listener_ pollState)
  else (0, r, listener).

(** ** The reader *)

Definition EVENT_RING_NAME : string := "ocaml.eventring".
Definition ENABLED_NAME : string := "ocaml.eventring.enabled".
Definition RUN_PARAM_NAME : string := "ocaml.runparam".
Definition VERSION_PARAM_NAME : string := "ocaml.version".

(** What the environment provides for the constants. *)
Record ocaml_environment := mkOCamlEnvironment {
  OCAMLRUNPARAM : option string;
  CAMLRUNPARAM : option string;
  OCAML_VERSION_STRING : string
}.

Record EventRingReader := mkEventRingReader { enabled_ : bool; hasEmittedConstantMetrics_ : bool }.

Definition updateEntryPrefixes (disabledPrefixes : list string) (create_cursor_succeeds : bool) (realtime monotonic : Z)
    (x : EventRingReader * runtime) : EventRingReader * runtime :=
  let '(reader, r) := x in
  let enable := negb (isPrefixDisabled EVENT_RING_NAME disabledPrefixes) in
  let '(e, r) := enable_runtime_events (enabled_ reader) enable create_cursor_succeeds realtime monotonic r in
  (mkEventRingReader e (hasEmittedConstantMetrics_ reader), r).

Definition new_EventRingReader (disabledPrefixes : list string) (create_cursor_succeeds : bool) (realtime monotonic : Z)
    (r : runtime) : EventRingReader * runtime :=
  updateEntryPrefixes disabledPrefixes create_cursor_succeeds realtime monotonic (mkEventRingReader false false, r).

Definition disable (x : EventRingReader * runtime) : EventRingReader * runtime :=
  if enabled_ x.1 then (x.1, disable_runtime_events x.2) else x.

Definition string_entry (name : string) (unit : MetricUnit.t) (value : string) : MetricListenerEntry :=
  mkMetricListenerEntry name MetricVariability.CONSTANT unit (mkMetricData MetricDataType.STRING value 0).

(** [has_runtime_events] is true in this build. *)
Definition constantMetrics (env : ocaml_environment) : list MetricListenerEntry :=
  let runParam := match OCAMLRUNPARAM env with Some p => Some p | None => CAMLRUNPARAM env end in
  [mkMetricListenerEntry ENABLED_NAME MetricVariability.CONSTANT MetricUnit.NONE
     (mkMetricData MetricDataType.LONG EmptyString 1)] ++
  (match runParam with Some p => [string_entry RUN_PARAM_NAME MetricUnit.STRING p] | None => [] end) ++
  [string_entry VERSION_PARAM_NAME MetricUnit.NONE (OCAML_VERSION_STRING env)].

Definition read {W} `{MetricDataListener W} (env : ocaml_environment) (timestampInMs : Z)
    (x : EventRingReader * runtime) (listener : W) : Z * (EventRingReader * runtime) * W :=
  let '(reader, r) := x in
  if enabled_ reader then
    let '(events, reader, listener) :=
      if negb (hasEmittedConstantMetrics_ reader) then
        (1, mkEventRingReader (enabled_ reader) true, recordEntries (constantMetrics env) timestampInMs listener)
      else (0, reader, listener) in
    let '(n, r, listener) := read_runtime_events r listener in
    (u32 (events + n), (reader, r), listener)
  else (0, x, listener).
