(* ===== verification/EventRingSpec.v ===== *)
(** * What becomes of the events of the runtime *)
From S2P Require Import Prelude MetricTypes EventRing.

(** ** Phases *)

Definition phase_event (phase : ev_runtime_phase) (e : ring_event) : option (bool * Z) :=
  match e with
  | RuntimeBegin _ t ph => if bool_decide (ph = phase) then Some (true, t) else None
  | RuntimeEnd _ t ph => if bool_decide (ph = phase) then Some (false, t) else None
  | _ => None
  end.

Lemma find_erase_same phase l : find_phase phase (erase_phase phase l) = None.
Proof.
  induction l as [|[p s] l IH]; [done|]. simpl. destruct (bool_decide (p = phase)) eqn:E; [done|].
  simpl. by rewrite E.
Qed.

Lemma find_erase_other phase phase' l : phase <> phase' -> find_phase phase' (erase_phase phase l) = find_phase phase' l.
Proof.
  intros Hne. induction l as [|[p s] l IH]; [done|]. simpl. destruct (bool_decide_reflect (p = phase)) as [->|]; simpl.
  - by rewrite (bool_decide_eq_false_2 (phase = phase')).
  - by rewrite IH.
Qed.

Lemma find_set_same phase s l : find_phase phase (set_phase phase s l) = Some s.
Proof. simpl. by rewrite bool_decide_eq_true_2. Qed.

Lemma find_set_other phase phase' s l : phase <> phase' -> find_phase phase' (set_phase phase s l) = find_phase phase' l.
Proof. intros Hne. simpl. rewrite bool_decide_eq_false_2 by done. by apply find_erase_other. Qed.

Section Spec.
Context {W : Type} `{MetricDataListener W}.
Context (adjustment : Z).

(** What is known of a phase: the time of its last event, if that is a begin. *)
Definition tracked (phase : ev_runtime_phase) (events : list ring_event) : option EventState :=
  match REQUIRED_PHASES phase, list.last (omap (phase_event phase) events) with
  | Some name, Some (true, t) => Some (mkEventState t name)
  | _, _ => None
  end.

Definition names_right (states : phase_states) : Prop :=
  forall phase s, find_phase phase states = Some s -> REQUIRED_PHASES phase = Some (eventName s).

Lemma on_event_states sp e phase :
  names_right sp.1 -> REQUIRED_PHASES phase <> None ->
  find_phase phase (on_event (W := W) adjustment sp e).1 =
    match phase_event phase e, REQUIRED_PHASES phase with
    | Some (true, t), Some name => Some (mkEventState t name)
    | Some (false, t), _ => None
    | _, _ => find_phase phase sp.1
    end.
Proof.
  intros Hn Hreq. destruct sp as [states p], e as [d t ph|d t ph|d t c v|d n]; simpl; try done.
  - unfold eventRingBegin. destruct (decide (ph = phase)) as [->|Hne].
    + rewrite bool_decide_eq_true_2 by done. destruct (REQUIRED_PHASES phase) as [name|] eqn:E; [|done].
      rewrite find_set_same. destruct (find_phase phase states) as [s|] eqn:Ef; [|done].
      apply Hn in Ef. simpl in Ef. rewrite E in Ef. by injection Ef as ->.
    + rewrite bool_decide_eq_false_2 by done. destruct (REQUIRED_PHASES ph); [|done]. by apply find_set_other.
  - destruct (decide (ph = phase)) as [->|Hne].
    + rewrite bool_decide_eq_true_2 by done. destruct (REQUIRED_PHASES phase) as [name|] eqn:E; [|done].
      destruct (find_phase phase states) as [s|] eqn:Ef; [apply find_erase_same|done].
    + rewrite bool_decide_eq_false_2 by done. destruct (REQUIRED_PHASES ph); [|done].
      destruct (find_phase ph states); [by apply find_erase_other|done].
Qed.

Lemma on_event_names sp e : names_right sp.1 -> names_right (on_event (W := W) adjustment sp e).1.
Proof.
  intros Hn phase s. destruct (REQUIRED_PHASES phase) as [name|] eqn:E.
  - rewrite on_event_states by (done || by rewrite E). rewrite E.
    destruct (phase_event phase e) as [[[] t]|]; [by intros [= <-]|done|]. intros Hf. apply Hn in Hf. congruence.
  - intros Hf. exfalso. assert (find_phase phase sp.1 = None) as Hnone.
    { destruct (find_phase phase sp.1) as [s'|] eqn:Ef; [|done]. apply Hn in Ef. congruence. }
    destruct sp as [states p], e as [d t ph|d t ph|d t c v|d n]; simpl in *; try congruence.
    + unfold eventRingBegin in Hf. destruct (REQUIRED_PHASES ph) eqn:E'; [|congruence].
      rewrite find_set_other in Hf by congruence. congruence.
    + destruct (REQUIRED_PHASES ph) eqn:E'; [|by simpl in Hf; congruence].
      destruct (find_phase ph states); simpl in Hf; [|congruence].
      rewrite find_erase_other in Hf by congruence. congruence.
Qed.

Lemma states_after events states (p : PollState W) phase :
  names_right states -> REQUIRED_PHASES phase <> None ->
  find_phase phase (fold_left (on_event adjustment) events (states, p)).1 =
    match list.last (omap (phase_event phase) events) with
    | Some (true, t) => mkEventState t <$> REQUIRED_PHASES phase
    | Some (false, _) => None
    | None => find_phase phase states
    end.
Proof.
  intros Hn Hreq. induction events as [|e events IH] using rev_ind; [done|].
  rewrite fold_left_app. cbn [fold_left].
  assert (names_right (fold_left (on_event adjustment) events (states, p)).1) as Hn'.
  { clear IH. revert states p Hn. induction events as [|e' events IH]; intros states p Hn; [done|].
    cbn [fold_left]. destruct (on_event adjustment (states, p) e') as [s1 p1] eqn:E. apply IH.
    pose proof (on_event_names (states, p) e' Hn) as H1. by rewrite E in H1. }
  rewrite on_event_states by done. rewrite omap_app. cbn [omap list_omap].
  destruct (phase_event phase e) as [[b t]|]; [|by rewrite app_nil_r].
  rewrite last_snoc. destruct b; [|done]. by destruct (REQUIRED_PHASES phase).
Qed.

(** A phase has a begin time exactly while the last event seen of it is a
    begin, and it is the time of that event, whichever domain it came from. *)
Theorem phase_state_is_last_begin events (w : W) phase :
  REQUIRED_PHASES phase <> None ->
  find_phase phase (fold_left (on_event adjustment) events ([], new_PollState w)).1 = tracked phase events.
Proof.
  intros Hreq. rewrite states_after by done. unfold tracked. destruct (REQUIRED_PHASES phase); [|done].
  by destruct (list.last (omap (phase_event phase) events)) as [[[] t]|].
Qed.

(** When two domains are in the same phase at a time, one duration is
    reported, which is neither's: from the second begin to the first end; the
    other domain's is lost. *)
Theorem overlapping_domains_mix d d' t0 t1 t2 t3 (w : W) :
  0 < t0 < t1 -> t1 < t2 < t3 -> t3 < 2 ^ 63 ->
  let '(states, p) := fold_left (on_event adjustment)
    [RuntimeBegin d t0 EV_MINOR; RuntimeBegin d' t1 EV_MINOR; RuntimeEnd d t2 EV_MINOR; RuntimeEnd d' t3 EV_MINOR]
    ([], new_PollState w) in
  states = [] /\ listener_ p = w /\
  entries_ p = [long_entry "ocaml.eventring.EV_MINOR" MetricUnit.NANOSECONDS (t2 - t1)] /\
  t2 - t1 <> t2 - t0 /\ t2 - t1 < t3 - t0.
Proof.
  intros H01 H12 H3. assert (t2 - t1 <> t2 - t0 /\ t2 - t1 < t3 - t0) as Hneq by lia.
  cbn. split; [done|]. split; [done|]. split; [|exact Hneq].
  unfold addEntry. cbn [entries_ new_PollState lastTimestampInMs_ listener_ lostEvents_ Z.eqb app beginTimestamp].
  rewrite u64_small, i64_small by lia. done.
Qed.

(** ** What the events amount to *)

Definition metric_of_phase (phase : ev_runtime_phase) : option string :=
  match phase with
  | EV_MINOR => Some "ocaml.eventring.EV_MINOR"%string
  | EV_MAJOR => Some "ocaml.eventring.EV_MAJOR"%string
  | OtherPhase _ => None
  end.

(** Counts of words are reported in bytes, four to a word. *)
Definition metric_of_counter (c : ev_runtime_counter) : option (string * MetricUnit.t * Z) :=
  match c with
  | EV_C_FORCE_MINOR_ALLOC_SMALL => Some ("ocaml.eventring.EV_C_FORCE_MINOR_ALLOC_SMALL"%string, MetricUnit.EVENTS, 1)
  | EV_C_FORCE_MINOR_MAKE_VECT => Some ("ocaml.eventring.EV_C_FORCE_MINOR_MAKE_VECT"%string, MetricUnit.EVENTS, 1)
  | EV_C_FORCE_MINOR_SET_MINOR_HEAP_SIZE =>
      Some ("ocaml.eventring.EV_C_FORCE_MINOR_SET_MINOR_HEAP_SIZE"%string, MetricUnit.EVENTS, 1)
  | EV_C_FORCE_MINOR_WEAK => Some ("ocaml.eventring.EV_C_FORCE_MINOR_WEAK"%string, MetricUnit.EVENTS, 1)
  | EV_C_FORCE_MINOR_MEMPROF => Some ("ocaml.eventring.EV_C_FORCE_MINOR_MEMPROF"%string, MetricUnit.EVENTS, 1)
  | EV_C_MINOR_PROMOTED => Some ("ocaml.eventring.EV_C_MINOR_PROMOTED"%string, MetricUnit.BYTES, 4)
  | EV_C_MINOR_ALLOCATED => Some ("ocaml.eventring.EV_C_MINOR_ALLOCATED"%string, MetricUnit.BYTES, 4)
  | OtherCounter _ => None
  end.

(** The begin a phase is measured from, after some events: the last one, of
    whichever domain, unless an end came since. *)
Definition begun (states : phase_states) (before : list ring_event) (phase : ev_runtime_phase) : option Z :=
  match list.last (omap (phase_event phase) before) with
  | Some (true, t) => Some t
  | Some (false, _) => None
  | None => beginTimestamp <$> find_phase phase states
  end.

(** An entry with its millisecond, or a number of events that were lost. *)
Definition item : Type := (MetricListenerEntry * Z) + Z.

Definition item_of (states : phase_states) (before : list ring_event) (e : ring_event) : list item :=
  match e with
  | RuntimeBegin _ _ _ => []
  | RuntimeEnd _ t ph =>
      match metric_of_phase ph, begun states before ph with
      | Some name, Some t0 => [inl (long_entry name MetricUnit.NANOSECONDS (i64 (t - t0)), t / 1000000)]
      | _, _ => []
      end
  | RuntimeCounter _ t c v =>
      match metric_of_counter c with
      | Some (name, unit, k) => [inl (long_entry name unit (i64 (v * k)), t / 1000000)]
      | None => []
      end
  | LostEvents _ n => [inr n]
  end.

Fixpoint items (states : phase_states) (before events : list ring_event) : list item :=
  match events with
  | [] => []
  | e :: events => item_of states before e ++ items states (before ++ [e]) events
  end.

(** ** Batches *)

Definition entries_of (l : list item) : list MetricListenerEntry :=
  omap (fun x => match x with inl (e, _) => Some e | inr _ => None end) l.
Definition losses (l : list item) : Z := foldr (fun x n => match x with inl _ => n | inr k => k + n end) 0 l.

Definition note (lost : Z) : list MetricListenerEntry :=
  if 0 <? lost then [long_entry "ocaml.eventring.lost_events" MetricUnit.NONE lost] else [].

(** The batch of a segment: its entries, the number of events whose loss was
    noticed in it, and the time of day of its millisecond. *)
Definition batch (s : Z * list item) : list MetricListenerEntry * Z :=
  (entries_of s.2 ++ note (losses s.2), i64 (adjustment + s.1)).

Definition all_at (m : Z) (l : list item) : Prop :=
  Forall (fun x => match x with inl (_, m') => m' = m | inr _ => True end) l.

(** A new segment begins at each entry of another millisecond, and only there. *)
Fixpoint chain (m : Z) (segments : list (Z * list item)) : Prop :=
  match segments with
  | [] => True
  | (m', segment) :: segments =>
      m' <> m /\ (exists e rest, segment = inl (e, m') :: rest) /\ all_at m' segment /\ chain m' segments
  end.

(** What the listener is given for a list of items: nothing if there is no entry;
    otherwise the items, all of them, in segments of one millisecond. *)
Definition batched (l : list item) (bs : list (list MetricListenerEntry * Z)) : Prop :=
  (entries_of l = [] /\ bs = []) \/
  exists m segment segments, l = segment ++ concat (segments.*2) /\ entries_of segment <> [] /\ all_at m segment /\
    chain m segments /\ bs = batch <$> (m, segment) :: segments.

(** Times of at least a millisecond; losses that an [int] can count. *)
Definition countable (lost : Z) (l : list item) : Prop :=
  Forall (fun x => match x with inl (_, m) => m <> 0 | inr n => 0 <= n end) l /\ lost + losses l < 2 ^ 31.

Definition record_batches (bs : list (list MetricListenerEntry * Z)) (w : W) : W :=
  fold_left (fun w '(es, t) => recordEntries es t w) bs w.

(** ** One item *)

Definition take_item (x : item) (p : PollState W) : PollState W :=
  match x with
  | inl (e, m) => addEntry adjustment e (m * 1000000) p
  | inr n => lostEvents n p
  end.

Lemma addEntry_ms e t p : addEntry (W := W) adjustment e t p = addEntry adjustment e (t / 1000000 * 1000000) p.
Proof. unfold addEntry, NS_IN_MS. by rewrite Z.div_mul. Qed.

Lemma i64_u64 v : i64 (u64 v) = i64 v.
Proof. unfold i64, u64, signed. by rewrite Zmod_mod. Qed.

(** The states know the begins. *)
Definition follows (states0 : phase_states) (before : list ring_event) (states : phase_states) : Prop :=
  forall phase name, REQUIRED_PHASES phase = Some name ->
    find_phase phase states = (fun t => mkEventState t name) <$> begun states0 before phase.

Lemma metric_of_phase_eq phase : metric_of_phase phase = REQUIRED_PHASES phase.
Proof. by destruct phase. Qed.

Lemma on_event_items states0 before states p e :
  names_right states -> follows states0 before states ->
  exists states', on_event adjustment (states, p) e = (states', fold_left (fun p x => take_item x p) (item_of states0 before e) p) /\
    names_right states' /\ follows states0 (before ++ [e]) states'.
Proof.
  intros Hn Hf. pose proof (on_event_names (states, p) e Hn) as Hn'.
  assert (follows states0 (before ++ [e]) (on_event adjustment (states, p) e).1) as Hf'.
  { intros phase name E. rewrite (on_event_states (states, p) e phase Hn) by congruence. rewrite E. unfold begun. rewrite omap_app. simpl.
    destruct (phase_event phase e) as [[[] t]|]; rewrite ?last_snoc, ?app_nil_r; [done..|]. by apply Hf. }
  destruct (on_event adjustment (states, p) e) as [states' p'] eqn:Ee. exists states'. split; [|done]. f_equal.
  clear Hn' Hf'. destruct e as [d t ph|d t ph|d t c v|d n]; simpl in Ee |- *.
  - by injection Ee as <- <-.
  - rewrite metric_of_phase_eq. destruct (REQUIRED_PHASES ph) as [name|] eqn:E; [|by injection Ee as <- <-].
    rewrite (Hf ph name E) in Ee. destruct (begun states0 before ph) as [t0|]; simpl in Ee; [|by injection Ee as <- <-].
    injection Ee as <- <-. simpl. by rewrite i64_u64, addEntry_ms.
  - injection Ee as <- <-. unfold eventRingCounter.
    destruct c; simpl; rewrite ?i64_u64, ?Z.mul_1_r; try reflexivity; by rewrite addEntry_ms.
  - by injection Ee as <- <-.
Qed.

Lemma on_events_items states0 before states p events :
  names_right states -> follows states0 before states ->
  exists states', fold_left (on_event adjustment) events (states, p) =
      (states', fold_left (fun p x => take_item x p) (items states0 before events) p) /\
    names_right states' /\ follows states0 (before ++ events) states'.
Proof.
  revert before states p. induction events as [|e events IH]; intros before states p Hn Hf.
  { exists states. by rewrite app_nil_r. }
  destruct (on_event_items states0 before states p e Hn Hf) as (s1 & E1 & Hn1 & Hf1). cbn [fold_left items]. rewrite E1.
  destruct (IH (before ++ [e]) s1 (fold_left (fun p x => take_item x p) (item_of states0 before e) p) Hn1 Hf1) as (s2 & -> & Hn2 & Hf2).
  exists s2. rewrite fold_left_app. split; [done|]. split; [done|]. by rewrite <- app_assoc in Hf2.
Qed.

(** ** The items in turn *)

Lemma push_note p :
  entries_ p <> [] -> 0 <= lostEvents_ p ->
  push adjustment p =
    mkPollState (recordEntries (entries_ p ++ note (lostEvents_ p)) (i64 (adjustment + lastTimestampInMs_ p)) (listener_ p)) [] 0
      (lastTimestampInMs_ p).
Proof.
  intros Hne Hl. unfold push, note. destruct (entries_ p) as [|e es]; [done|].
  destruct (Z.ltb_spec 0 (lostEvents_ p)); [done|]. rewrite app_nil_r. by replace (lostEvents_ p) with 0 by lia.
Qed.

Lemma countable_cons lost x l :
  countable lost (x :: l) -> 0 <= lost ->
  match x with
  | inl (_, m) => m <> 0 /\ countable lost l /\ countable 0 l
  | inr n => i32 (lost + n) = lost + n /\ 0 <= lost + n /\ countable (lost + n) l
  end.
Proof.
  intros [[Hx Hl]%Forall_cons_1 Hsum] Hlost.
  assert (0 <= losses l) as Hpos.
  { clear Hsum. induction Hl as [|[[]|] l Hy Hl IH]; simpl; lia. }
  unfold countable. destruct x as [[e m]|n]; simpl in Hsum.
  - split; [done|]. split; split; (done || lia).
  - split; [unfold i32; rewrite signed_small; lia|]. split; [lia|]. split; [done|lia].
Qed.

(** From the middle of a segment. *)
Lemma take_items_open l p :
  entries_ p <> [] -> lastTimestampInMs_ p <> 0 -> 0 <= lostEvents_ p -> countable (lostEvents_ p) l ->
  exists segment segments, l = segment ++ concat (segments.*2) /\ all_at (lastTimestampInMs_ p) segment /\
    chain (lastTimestampInMs_ p) segments /\
    listener_ (push adjustment (fold_left (fun p x => take_item x p) l p)) =
      record_batches ((entries_ p ++ entries_of segment ++ note (lostEvents_ p + losses segment), i64 (adjustment + lastTimestampInMs_ p))
        :: (batch <$> segments)) (listener_ p).
Proof.
  revert p. induction l as [|x l IH]; intros p Hne Hm Hlost Hc.
  { exists [], []. split_and!; [done|constructor|done|]. cbn [fold_left]. rewrite push_note by done. simpl. by rewrite Z.add_0_r. }
  pose proof (countable_cons _ _ _ Hc Hlost) as Hx. destruct x as [[e m]|n]; cbn [fold_left take_item].
  - destruct Hx as (Hm0 & Hc1 & Hc0). unfold addEntry, NS_IN_MS. rewrite Z.div_mul by done.
    rewrite (proj2 (Z.eqb_neq _ _) Hm). destruct (Z.eqb_spec (lastTimestampInMs_ p) m) as [<-|Hnew]; cbn [negb].
    + destruct (IH (mkPollState (listener_ p) (entries_ p ++ [e]) (lostEvents_ p) (lastTimestampInMs_ p))) as (sg & sgs & -> & H1 & H2 & E);
        [by destruct (entries_ p)|done|done|done|].
      exists (inl (e, lastTimestampInMs_ p) :: sg), sgs. split; [done|]. split; [by constructor|]. split; [done|].
      rewrite E. cbn [entries_ lostEvents_ lastTimestampInMs_ listener_]. by rewrite <- !app_assoc.
    + rewrite (push_note p) by done. cbn [listener_ entries_ lostEvents_ lastTimestampInMs_ app].
      destruct (IH (mkPollState (recordEntries (entries_ p ++ note (lostEvents_ p)) (i64 (adjustment + lastTimestampInMs_ p)) (listener_ p)) [e] 0 m))
        as (sg & sgs & -> & H1 & H2 & E); [done|done|done|done|].
      exists [], ((m, inl (e, m) :: sg) :: sgs). split; [done|]. split; [constructor|]. split.
      { split; [done|]. split; [by exists e, sg|]. split; [by constructor|done]. }
      simpl app in E |- *. rewrite E. cbn [losses foldr]. by rewrite Z.add_0_r.
  - destruct Hx as (E32 & Hpos & Hc1). unfold lostEvents. rewrite E32.
    destruct (IH (mkPollState (listener_ p) (entries_ p) (lostEvents_ p + n) (lastTimestampInMs_ p))) as (sg & sgs & -> & H1 & H2 & E);
      [done|done|done|done|].
    exists (inr n :: sg), sgs. split; [done|]. split; [by constructor|]. split; [done|].
    rewrite E. cbn [entries_ lostEvents_ lastTimestampInMs_ listener_ losses foldr]. fold (losses sg). by rewrite Z.add_assoc.
Qed.

(** From the start of a poll. *)
Lemma take_items l w lost :
  0 <= lost -> countable lost l ->
  (entries_of l = [] /\ listener_ (push adjustment (fold_left (fun p x => take_item x p) l (mkPollState w [] lost 0))) = w) \/
  exists m segment segments, l = segment ++ concat (segments.*2) /\ entries_of segment <> [] /\ all_at m segment /\ chain m segments /\
    listener_ (push adjustment (fold_left (fun p x => take_item x p) l (mkPollState w [] lost 0))) =
      record_batches ((entries_of segment ++ note (lost + losses segment), i64 (adjustment + m)) :: (batch <$> segments)) w.
Proof.
  revert lost. induction l as [|x l IH]; intros lost Hlost Hc; [by left|].
  pose proof (countable_cons _ _ _ Hc Hlost) as Hx. destruct x as [[e m]|n]; cbn [fold_left take_item].
  - destruct Hx as (Hm0 & Hc1 & _). unfold addEntry, NS_IN_MS. rewrite Z.div_mul by done. cbn [lastTimestampInMs_ Z.eqb].
    destruct (take_items_open l (mkPollState w [e] lost m)) as (sg & sgs & -> & H1 & H2 & E); [done..|].
    right. exists m, (inl (e, m) :: sg), sgs. split_and!; [done|done|by constructor|done|]. exact E.
  - destruct Hx as (E32 & Hpos & Hc1). unfold lostEvents. cbn [listener_ entries_ lostEvents_ lastTimestampInMs_]. rewrite E32.
    destruct (IH (lost + n) Hpos Hc1) as [[He E]|(m & sg & sgs & -> & H0 & H1 & H2 & E)]; [by left|right].
    exists m, (inr n :: sg), sgs. split_and!; [done|done|by constructor|done|].
    rewrite E. cbn [losses foldr]. fold (losses sg). by rewrite Z.add_assoc.
Qed.

Lemma take_items_batched l w :
  countable 0 l -> exists bs, batched l bs /\
    listener_ (push adjustment (fold_left (fun p x => take_item x p) l (new_PollState w))) = record_batches bs w.
Proof.
  intros Hc. destruct (take_items l w 0 ltac:(done) Hc) as [[He E]|(m & sg & sgs & El & H0 & H1 & H2 & E)].
  - exists []. split; [by left|exact E].
  - exists (batch <$> (m, sg) :: sgs). split; [right; by exists m, sg, sgs|]. rewrite Z.add_0_l in E. exact E.
Qed.
End Spec.

Section Read.
Context {W : Type} `{MetricDataListener W}.

(** C37. A reading takes the next 60000 events of the ring, or all there are.
    The listener is given an entry for every end, among them, of a phase of
    interest that had begun, with the time since the last begin of that phase,
    and for every counter of interest, each once, in the order of the events.
    (Phases of domains that overlap are measured from the wrong begin, see
    [overlapping_domains_mix].)  The batches are the longest runs of entries of
    one millisecond, with the time of day that corresponds to it; a batch ends
    with the number of events whose loss was noticed before the next batch began,
    if any; if there is no entry at all, losses are dropped.  Events are at least
    a millisecond after the start of the clock, and an [int] counts the losses. *)
Theorem read_delivers_batches r (w : W) :
  cursor_ r = true -> names_right (phaseToEventState_ r) ->
  let events := take (Z.to_nat 60000) (unread r) in
  let l := items (phaseToEventState_ r) [] events in
  countable 0 l ->
  let '(n, r', w') := read_runtime_events r w in
  n = u32 (Z.of_nat (length events)) /\ unread r' = drop (Z.to_nat 60000) (unread r) /\
  names_right (phaseToEventState_ r') /\ follows (phaseToEventState_ r) events (phaseToEventState_ r') /\
  exists bs, batched (adjustment_in_ms r) l bs /\ w' = record_batches bs w.
Proof.
  intros Hc Hn events l Hl. unfold read_runtime_events. rewrite Hc.
  change (take MAX_EVENTS (unread r)) with events.
  destruct (on_events_items (adjustment_in_ms r) (phaseToEventState_ r) [] (phaseToEventState_ r) (new_PollState w) events Hn)
    as (states & -> & Hn' & Hf).
  { intros phase name E. unfold begun. simpl. destruct (find_phase phase _) as [[t name']|] eqn:Ef; [|done]. simpl.
    apply Hn in Ef. simpl in Ef. congruence. }
  destruct (take_items_batched (adjustment_in_ms r) l w Hl) as (bs & Hb & E).
  split; [done|]. split; [done|]. split; [exact Hn'|]. split; [exact Hf|]. exists bs. by split.
Qed.

(** The number of lost events is reported with the entries of the poll that
    noticed them; a poll that notices losses and has no entry to report drops it. *)
Theorem lost_events_unreported r n d (w : W) :
  cursor_ r = true -> unread r = [LostEvents d n] ->
  exists r', read_runtime_events r w = (1, r', w) /\ unread r' = [].
Proof.
  intros Hc Hu. unfold read_runtime_events. rewrite Hc, Hu.
  change (take MAX_EVENTS [LostEvents d n]) with [LostEvents d n]. eexists. split; [done|].
  change (drop MAX_EVENTS [LostEvents d n]) with (@nil ring_event). done.
Qed.

(** The constants are recorded by the first reading while the reader is
    enabled, and by no other; a reader whose prefix is disabled never counts as
    having emitted its constants. *)
Theorem constants_once env t reader r (w : W) :
  let '(n, (reader', r'), w') := read env t (reader, r) w in
  hasEmittedConstantMetrics_ reader' = hasEmittedConstantMetrics_ reader || enabled_ reader /\
  enabled_ reader' = enabled_ reader /\
  let first := enabled_ reader && negb (hasEmittedConstantMetrics_ reader) in
  let w0 := if first then recordEntries (constantMetrics env) t w else w in
  w' = if enabled_ reader then (read_runtime_events r w0).2 else w.
Proof.
  unfold read. destruct (enabled_ reader) eqn:Ee; [|by rewrite Ee, orb_false_r].
  destruct (hasEmittedConstantMetrics_ reader) eqn:Eh; cbn [negb andb].
  - destruct (read_runtime_events r w) as [[n r'] w']. by rewrite Eh, Ee.
  - by destruct (read_runtime_events r _) as [[n r'] w'].
Qed.
End Read.

(** ** A runtime with events *)

#[local] Instance batch_log : MetricDataListener (list (list MetricListenerEntry * Z)) := {
  recordEntries es t w := w ++ [(es, t)];
  recordMetricNotification k p w := w
}.
Definition ring_with (events : list ring_event) : runtime := mkRuntime Running true true 1000 [] events.
Definition two_collections : list ring_event :=
  [RuntimeBegin 0 2000000 EV_MINOR; LostEvents 0 3; RuntimeEnd 0 2500000 EV_MINOR; RuntimeCounter 0 2600000 EV_C_MINOR_PROMOTED 10;
   RuntimeCounter 0 4000000 EV_C_FORCE_MINOR_WEAK 1].

Lemma phase_state_is_last_begin_witness :
  find_phase EV_MINOR
    (fold_left (on_event 0) [RuntimeBegin 0 5 EV_MINOR; RuntimeBegin 1 6 EV_MINOR]
      ([], new_PollState ([] : list (list MetricListenerEntry * Z)))).1 =
  tracked EV_MINOR [RuntimeBegin 0 5 EV_MINOR; RuntimeBegin 1 6 EV_MINOR].
Proof. by apply (phase_state_is_last_begin 0 [RuntimeBegin 0 5 EV_MINOR; RuntimeBegin 1 6 EV_MINOR] []). Defined.

Lemma overlapping_domains_mix_witness :
  let '(states, p) := fold_left (on_event 0)
    [RuntimeBegin 0 1 EV_MINOR; RuntimeBegin 1 5 EV_MINOR; RuntimeEnd 0 7 EV_MINOR; RuntimeEnd 1 9 EV_MINOR]
    ([], new_PollState ([] : list (list MetricListenerEntry * Z))) in
  states = [] /\ listener_ p = [] /\
  entries_ p = [long_entry "ocaml.eventring.EV_MINOR" MetricUnit.NANOSECONDS (7 - 5)] /\
  7 - 5 <> 7 - 1 /\ 7 - 5 < 9 - 1.
Proof. apply (overlapping_domains_mix 0 0 1 1 5 7 9); lia. Defined.

Lemma read_delivers_batches_witness :
  let r := ring_with two_collections in
  let '(n, r', w') := read_runtime_events r [] in
  unread r' = [] /\
  exists bs, batched 1000 (items [] [] two_collections) bs /\ w' = record_batches bs [].
Proof.
  cbv zeta.
  assert (countable 0 (items [] [] two_collections)) as Hc.
  { split; [vm_compute; repeat constructor; discriminate|reflexivity]. }
  assert (names_right []) as Hn by (intros phase s; discriminate).
  pose proof (read_delivers_batches (ring_with two_collections) [] eq_refl Hn Hc) as Hr.
  destruct (read_runtime_events _ _) as [[n r'] w']. destruct Hr as (_ & Hu & _ & _ & Hb). split; [exact Hu|exact Hb].
Defined.

Lemma lost_events_unreported_witness :
  exists r', read_runtime_events (ring_with [LostEvents 0 3]) [] = (1, r', []) /\ unread r' = [].
Proof. by apply (lost_events_unreported (ring_with [LostEvents 0 3]) 3 0 []). Defined.

Example two_collections_read :
  (read_runtime_events (ring_with two_collections) []).2 =
    [([long_entry "ocaml.eventring.EV_MINOR" MetricUnit.NANOSECONDS 500000;
       long_entry "ocaml.eventring.EV_C_MINOR_PROMOTED" MetricUnit.BYTES 40;
       long_entry LOST_EVENTS_NAME MetricUnit.NONE 3], 1002);
     ([long_entry "ocaml.eventring.EV_C_FORCE_MINOR_WEAK" MetricUnit.EVENTS 1], 1004)].
Proof. vm_compute. reflexivity. Qed.
