(* ===== verification/Prometheus.v ===== *)
(** * The Prometheus exporter ([lib/prometheus_exporter.cpp])

    In this mode the listener of the queues adds up stack traces in a tree, one
    node for each path of program counters, and an HTTP server prints the tree and
    starts a new phase when it is scraped.  A node's children are kept in the
    order in which they were inserted; that of the hash table is unspecified. *)
From S2P Require Import Prelude CString Options MetricTypes InternalQueue CircularQueue SymbolTable.
From stdpp Require Import pretty.
#[local] Open Scope Z_scope.

(** ** The tree *)

Inductive ProfileNode := Node {
  locations : list Location;
  pcToNode : list (Z * ProfileNode);
  seenInPhase : bool;
  cpuCount : Z;
  wallclockCount : Z
}.

Definition count (isCpuSample : bool) (n : ProfileNode) : Z := if isCpuSample then cpuCount n else wallclockCount n.
(** [node->count(isCpuSample)++], of an [int]: past the largest it is undefined. *)
Definition add_count (isCpuSample : bool) (n : ProfileNode) : outcome ProfileNode :=
  if count isCpuSample n =? INT_MAX then Undefined
  else
    Ok (if isCpuSample then Node (locations n) (pcToNode n) (seenInPhase n) (cpuCount n + 1) (wallclockCount n)
        else Node (locations n) (pcToNode n) (seenInPhase n) (cpuCount n) (wallclockCount n + 1)).
Definition set_seen (b : bool) (n : ProfileNode) : ProfileNode :=
  Node (locations n) (pcToNode n) b (cpuCount n) (wallclockCount n).
Definition set_children (l : list (Z * ProfileNode)) (n : ProfileNode) : ProfileNode :=
  Node (locations n) l (seenInPhase n) (cpuCount n) (wallclockCount n).

(** [new ProfileNode()] starts with zeroes. *)
Definition new_ProfileNode (l : list Location) : ProfileNode := Node l [] false 0 0.
Definition reset (n : ProfileNode) : ProfileNode := Node (locations n) (pcToNode n) false 0 0.

(** The root as [prometheus_queue_listener] makes it. *)
Definition new_root : ProfileNode := reset (new_ProfileNode []).

Fixpoint end_phase_node (n : ProfileNode) : ProfileNode :=
  Node (locations n) (map (fun x => (x.1, end_phase_node x.2)) (pcToNode n)) false 0 0.

Fixpoint find_child (pc : Z) (l : list (Z * ProfileNode)) : option ProfileNode :=
  match l with
  | [] => None
  | (p, n) :: l => if p =? pc then Some n else find_child pc l
  end.
Fixpoint update_child (pc : Z) (n : ProfileNode) (l : list (Z * ProfileNode)) : list (Z * ProfileNode) :=
  match l with
  | [] => [(pc, n)]
  | (p, n') :: l => if p =? pc then (p, n) :: l else (p, n') :: update_child pc n l
  end.

(** ** The queue listener *)

(** The listener's state: the tree, the symbol tables, and the queues. *)
Record exporter := mkExporter { root : ProfileNode; e_symbols : symbols; e_queue : CircularQueue }.

Definition set_root n x : exporter := mkExporter n (e_symbols x) (e_queue x).

(** No callback but the one for errors, whose format string reads its last
    argument as the address of an [int]. *)
#[export] Instance exporter_symbols : SymbolListener unit := {
  onNewFile _ _ w := w;
  onNewFunction _ _ _ w := w;
  handleBtError _ _ _ := Undefined
}.

Section Record.
Context `{Backtrace}.

(** The loop over the frames, from the outermost one on. *)
Fixpoint record_path (isCpuSample : bool) (path : list CallFrame) (node : ProfileNode) (s : symbols)
    : outcome (ProfileNode * symbols) :=
  match path with
  | [] => n ← add_count isCpuSample node; Ok (n, s)
  | f :: path =>
      let pc := frame f in
      '(child, s) ← match find_child pc (pcToNode node) with
                    | Some n => Ok (n, s)
                    | None =>
                        '(l, (s, _)) ← lookup_locations pc (isForeign f) (s, tt);
                        Ok (new_ProfileNode l, s)
                    end;
      '(child, s) ← record_path isCpuSample path (set_seen true child) s;
      Ok (set_children (update_child pc child (pcToNode node)) node, s)
  end.

(** [frames[numFrames - 1]] down to [frames[3]], each in bounds. *)
Definition trace_path (t : CallTrace (list CallFrame)) : outcome (list CallFrame) :=
  if (num_frames t <=? Z.of_nat (length (frames t))) || (num_frames t <=? NUMBER_OF_SIGNAL_HANDLER_FRAMES)
  then Ok (rev (drop (Z.to_nat NUMBER_OF_SIGNAL_HANDLER_FRAMES) (take (Z.to_nat (num_frames t)) (frames t))))
  else Undefined.

(** The format string for a broken trace reads the number as an address. *)
Definition recordStackTrace (ts : timespec) (trace : CallTrace (list CallFrame)) (signum threadState time_tsc : Z)
    (x : exporter) : outcome exporter :=
  if num_frames trace <? 0 then Undefined
  else
    path ← trace_path trace;
    '(n, s) ← record_path (signum =? SIGPROF) path (root x) (e_symbols x);
    Ok (mkExporter n s (e_queue x)).

#[export] Instance exporter_listener : QueueListener exporter := {
  MetricTypes.recordStackTrace := recordStackTrace;
  recordThread _ _ x := Ok x;
  recordAllocation _ _ _ x := Ok x;
  recordNotification _ _ _ x := Ok x;
  recordMetricInformation _ x := Ok x;
  recordMetricSamples _ _ x := Ok x;
  recordConstantMetricsComplete x := Ok x
}.
End Record.

#[export] Program Instance exporter_queue : HasQueue exporter := {
  the_queue := e_queue;
  put_queue c x := mkExporter (root x) (e_symbols x) c
}.
Next Obligation. done. Qed.
Next Obligation. by intros []. Qed.
Next Obligation. done. Qed.

(** ** The server *)

Definition newline : string := String (Ascii.ascii_of_nat 10) EmptyString.
Definition quote : string := String (Ascii.ascii_of_nat 34) EmptyString.

Definition prefix_1 : string := "promfiler_cpu_profile{type=" +:+ quote.
Definition prefix_2 : string := quote +:+ ",signature=" +:+ quote.

Definition prefixEnd (segment : string) : string :=
  if is_empty segment then prefix_2 else quote +:+ ",segment=" +:+ quote +:+ segment +:+ prefix_2.
Definition rootCpuPrefix (segment : string) : string := prefix_1 +:+ "cpu" +:+ prefixEnd segment.
Definition rootWallclockPrefix (segment : string) : string := prefix_1 +:+ "wallclock" +:+ prefixEnd segment.

(** The text in front of each count of a node: one for every function at its
    program counter. *)
Fixpoint signatures (commonStr : string) (functions : list string) : list string :=
  match functions with
  | [] => []
  | f :: functions => (commonStr +:+ f) :: signatures (commonStr +:+ f) functions
  end.

Definition functions_of (is_root : bool) (n : ProfileNode) : list string :=
  if is_root then ["(root)"%string] else (fun l => "#" +:+ functionName l) <$> locations n.

Definition line_of (commonStr : string) (c : Z) : string := commonStr +:+ quote +:+ "} " +:+ pretty c +:+ newline.

(** The lines written; only the root is the root. *)
Fixpoint write_profile_node (is_root : bool) (prefix : string) (isCpuSample : bool) (n : ProfileNode) : list string :=
  if negb (seenInPhase n) then []
  else
    let s := signatures prefix (functions_of is_root n) in
    ((fun commonStr => line_of commonStr (count isCpuSample n)) <$> s) ++
    concat (map (fun x => write_profile_node false (List.last s prefix) isCpuSample x.2) (pcToNode n)).

Definition prefix_200 : string :=
  "HTTP/1.1 200 OK" +:+ newline +:+ "Content-Type: text/html; charset=utf-8" +:+ newline +:+ newline +:+
  "# HELP promfiler_cpu_profile CPU stack trace samples" +:+ newline +:+
  "# TYPE promfiler_cpu_profile gauge" +:+ newline.
Definition response_404 : string :=
  "HTTP/1.1 404 Not Found" +:+ newline +:+ "Content-Type: text/html; charset=utf-8" +:+ newline +:+ newline +:+
  "<html><body><i>Not Found!</i></body></html>".

(** What is written in reply to a request. *)
Definition handle_request (segment str : string) (x : exporter) : list string * exporter :=
  match CString.find str "GET /metrics HTTP/1.1" 0 with
  | Some _ =>
      (prefix_200 :: write_profile_node true (rootCpuPrefix segment) true (root x)
                  ++ write_profile_node true (rootWallclockPrefix segment) false (root x),
       set_root (set_seen true (end_phase_node (root x))) x)
  | None => ([response_404], x)
  end.

(** ** Binding *)

(** Asio: [None] for an address that cannot be parsed, which [from_string] then
    replaces by the unspecified address; and whether a port can be bound. *)
Class Binding := {
  from_string : string -> option string;
  can_bind : string -> Z -> bool
}.
Definition unspecified_address : string := "0.0.0.0".

(** A port is converted to an [unsigned short].  The error code tested is a
    fresh one. *)
Fixpoint try_ports `{Binding} (host : string) (ports : list Z) : option (string * Z) :=
  match ports with
  | [] => None
  | port :: ports =>
      let address := if is_empty host then unspecified_address else default unspecified_address (from_string host) in
      let port := port mod 2 ^ 16 in
      if can_bind address port then Some (address, port) else try_ports host ports
  end.

(** The acceptor, if one exists already, is left alone. *)
Definition bind_prometheus `{Binding} (configuration : ConfigurationOptions) (acceptor : option (string * Z))
    : bool * option (string * Z) :=
  match acceptor with
  | Some a => (false, Some a)
  | None =>
      match try_ports (prometheusHost configuration) (prometheusPorts configuration) with
      | Some a => (true, Some a)
      | None => (false, None)
      end
  end.
