(* ===== verification/PrometheusSpec.v ===== *)
(** * Counting stack traces and printing the counts *)
From S2P Require Import Prelude CString Options MetricTypes InternalQueue CircularQueue SymbolTable SymbolTableSpec Prometheus.
From stdpp Require Import pretty.
#[local] Open Scope Z_scope.

(** ** Paths in the tree *)

Fixpoint node_at (path : list Z) (n : ProfileNode) : option ProfileNode :=
  match path with
  | [] => Some n
  | pc :: path => match find_child pc (pcToNode n) with Some c => node_at path c | None => None end
  end.

Definition count_at (path : list Z) (isCpuSample : bool) (n : ProfileNode) : Z :=
  match node_at path n with Some n => count isCpuSample n | None => 0 end.

(** Every node on the way, the ends included, was seen in this phase. *)
Fixpoint visible (path : list Z) (n : ProfileNode) : bool :=
  seenInPhase n &&
  match path with
  | [] => true
  | pc :: path => match find_child pc (pcToNode n) with Some c => visible path c | None => false end
  end.

Lemma find_update_same pc n l : find_child pc (update_child pc n l) = Some n.
Proof.
  induction l as [|[p m] l IH]; simpl; [by rewrite Z.eqb_refl|].
  destruct (p =? pc) eqn:E; simpl; rewrite E; done.
Qed.

Lemma find_update_other pc pc' n l : pc <> pc' -> find_child pc' (update_child pc n l) = find_child pc' l.
Proof.
  intros Hne. induction l as [|[p m] l IH]; simpl; [by destruct (Z.eqb_spec pc pc')|].
  destruct (Z.eqb_spec p pc) as [->|Hp]; simpl; [by destruct (Z.eqb_spec pc pc')|].
  by destruct (p =? pc').
Qed.

Section Recording.
Context `{Backtrace}.

Definition exact_match (isCpuSample : bool) (path : list CallFrame) (q : list Z) (c : bool) : bool :=
  bool_decide (q = frame <$> path) && Bool.eqb c isCpuSample.

Lemma add_count_ok isCpuSample n :
  count isCpuSample n <> INT_MAX ->
  exists n', add_count isCpuSample n = Ok n' /\ locations n' = locations n /\ pcToNode n' = pcToNode n /\ seenInPhase n' = seenInPhase n /\
    forall c, count c n' = count c n + (if Bool.eqb c isCpuSample then 1 else 0).
Proof using Type.
  intros Hmax. unfold add_count. rewrite (proj2 (Z.eqb_neq _ _)) by done. eexists. split; [done|].
  destruct isCpuSample; split_and!; try done; intros []; simpl; lia.
Qed.

Lemma count_at_children q c n l :
  count_at q c (set_children l n) =
    match q with
    | [] => count c n
    | pc :: q => match find_child pc l with Some m => count_at q c m | None => 0 end
    end.
Proof using Type. destruct q as [|pc q]; [by destruct c|]. unfold count_at. simpl. by destruct (find_child pc l). Qed.

Lemma count_at_cons pc q c n :
  count_at (pc :: q) c n = match find_child pc (pcToNode n) with Some m => count_at q c m | None => 0 end.
Proof using Type. unfold count_at. simpl. by destruct (find_child pc _). Qed.

Lemma count_at_seen b q c n : count_at q c (set_seen b n) = count_at q c n.
Proof using Type. destruct q; [by destruct c|done]. Qed.

Lemma count_at_new q c l : count_at q c (new_ProfileNode l) = 0.
Proof using Type. destruct q; [by destruct c|done]. Qed.

(** What recording does to the tree: one count more, at the end of the path, and
    nothing else that counts; the path is seen and nothing is unseen. *)
Record recorded_at (isCpuSample : bool) (path : list CallFrame) (n n' : ProfileNode) : Prop := {
  recorded_count : forall q c,
    count_at q c n' = count_at q c n + (if exact_match isCpuSample path q c then 1 else 0);
  recorded_seen : seenInPhase n' = seenInPhase n;
  recorded_path : seenInPhase n = true -> visible (frame <$> path) n' = true;
  recorded_visible : forall q, visible q n = true -> visible q n' = true
}.

#[local] Instance any_world : PreOrder (fun _ _ : unit => True).
Proof using Type. by split. Qed.

Lemma child_found pc isForeign n s :
  quiet pc ->
  exists child s',
    match find_child pc (pcToNode n) with
    | Some m => Ok (m, s)
    | None => '(l, (s, _)) ← lookup_locations pc isForeign (s, tt); Ok (new_ProfileNode l, s)
    end = Ok (child, s') /\
    (find_child pc (pcToNode n) = Some child \/
     find_child pc (pcToNode n) = None /\ exists l, child = new_ProfileNode l).
Proof using Type.
  intros Hq. destruct (find_child pc (pcToNode n)) as [m|]; [by exists m, s; split; [|left]|].
  destruct (lookup_locations_frame (fun _ _ : unit => True) ltac:(done) ltac:(done) pc isForeign s tt Hq)
    as (l & s' & [] & -> & _).
  exists (new_ProfileNode l), s'. split; [done|]. right. split; [done|]. by exists l.
Qed.

Lemma record_path_spec isCpuSample path n s :
  Forall (fun f => quiet (frame f)) path -> count_at (frame <$> path) isCpuSample n <> INT_MAX ->
  exists n' s', record_path isCpuSample path n s = Ok (n', s') /\ recorded_at isCpuSample path n n'.
Proof using Type.
  intros Hq. revert n s. induction Hq as [|f path Hf Hq IH]; intros n s Hmax; cbn [record_path].
  - destruct (add_count_ok isCpuSample n Hmax) as (n' & -> & El & Ec & Es & En). cbn [mbind outcome_bind].
    exists n', s. split; [done|]. split.
    + intros [|pc q] c; unfold count_at, exact_match; simpl; [by rewrite En|]. rewrite Ec.
      destruct (find_child _ _); lia.
    + done.
    + intros E. simpl. by rewrite Es, E.
    + intros [|pc q]; simpl; by rewrite Es, ?Ec.
  - rewrite fmap_cons, count_at_cons in Hmax. destruct (child_found (frame f) (isForeign f) n s Hf) as (child & s1 & -> & Hchild).
    cbn [mbind outcome_bind].
    assert (count_at (frame <$> path) isCpuSample (set_seen true child) <> INT_MAX) as Hmax'.
    { rewrite count_at_seen. destruct Hchild as [E|[_ [l ->]]]; [by rewrite E in Hmax|by rewrite count_at_new]. }
    destruct (IH (set_seen true child) s1 Hmax') as (child' & s2 & -> & [Hc Hs Hp Hv]).
    cbn [mbind outcome_bind]. eexists _, s2. split; [done|]. split.
    + intros q c. rewrite count_at_children. destruct q as [|pc q]; [by unfold count_at, exact_match; simpl; lia|].
      rewrite count_at_cons. unfold exact_match. rewrite fmap_cons. destruct (decide (frame f = pc)) as [<-|Hne].
      * rewrite find_update_same, Hc, count_at_seen. unfold exact_match.
        assert (bool_decide (frame f :: q = frame f :: (frame <$> path)) = bool_decide (q = frame <$> path)) as ->.
        { apply bool_decide_ext. split; [by intros [=]|by intros ->]. }
        destruct Hchild as [->|[-> [l ->]]]; [done|]. by rewrite count_at_new.
      * rewrite find_update_other by done. rewrite (bool_decide_eq_false_2 (pc :: q = _)) by congruence. simpl. lia.
    + done.
    + intros E. simpl. rewrite E, find_update_same. simpl. by apply Hp.
    + intros [|pc q]; [done|]. simpl. rewrite !andb_true_iff. intros [-> Hvis]. split; [done|].
      destruct (decide (frame f = pc)) as [<-|Hne]; [|by rewrite find_update_other].
      rewrite find_update_same. destruct Hchild as [E|[E _]]; rewrite E in Hvis; [|done].
      apply Hv. clear -Hvis. destruct q; simpl in *; [done|]. by apply andb_true_iff in Hvis as [_ ->].
Qed.
End Recording.

(** ** Phases *)

Lemma find_child_map f pc l : find_child pc (map (fun x => (x.1, f x.2)) l) = f <$> find_child pc l.
Proof. induction l as [|[p n] l IH]; simpl; [done|]. by destruct (p =? pc). Qed.

Lemma count_at_end q c n : count_at q c (end_phase_node n) = 0.
Proof.
  revert n. induction q as [|pc q IH]; intros n.
  - unfold count_at. simpl. by destruct n, c.
  - rewrite count_at_cons. destruct n as [l ch s c1 c2]. cbn [end_phase_node pcToNode].
    rewrite find_child_map. destruct (find_child pc ch); simpl; [apply IH|done].
Qed.

(** The root counts as seen from the first scrape on. *)
Lemma scraped_root segment str x replies x' :
  CString.find str "GET /metrics HTTP/1.1" 0 <> None -> handle_request segment str x = (replies, x') ->
  seenInPhase (root x') = true /\ forall q c, count_at q c (root x') = 0.
Proof.
  unfold handle_request. destruct (CString.find _ _ _); [|done]. intros _ [= _ <-]. split; [done|].
  intros q c. simpl. by rewrite count_at_seen, count_at_end.
Qed.

(** ** Lines *)

(** The text in front of the count of the node at [path]. *)
Fixpoint signature (is_root : bool) (prefix : string) (path : list Z) (n : ProfileNode) : string :=
  let s := List.last (signatures prefix (functions_of is_root n)) prefix in
  match path with
  | [] => s
  | pc :: path => match find_child pc (pcToNode n) with Some c => signature false s path c | None => s end
  end.

Lemma find_child_in pc l n : find_child pc l = Some n -> exists p, (p, n) ∈ l.
Proof.
  induction l as [|[p m] l IH]; simpl; [done|]. destruct (p =? pc).
  - intros [= ->]. exists p. by left.
  - intros Hf. destruct (IH Hf) as [p' Hin]. exists p'. by right.
Qed.

Lemma last_in {A} (l : list A) d : l <> [] -> List.last l d ∈ l.
Proof. intros Hl. destruct (exists_last Hl) as (l' & a & ->). rewrite last_last. apply elem_of_app. right. by left. Qed.

Lemma signatures_nonempty prefix fs : fs <> [] -> signatures prefix fs <> [].
Proof. by destruct fs. Qed.

Lemma line_written is_root prefix path n m c :
  visible path n = true -> node_at path n = Some m -> functions_of (is_root && bool_decide (path = [])) m <> [] ->
  line_of (signature is_root prefix path n) (count c m) ∈ write_profile_node is_root prefix c n.
Proof.
  revert is_root prefix n. induction path as [|pc path IH]; intros is_root prefix [l ch s c1 c2] Hv Hm Hf;
    cbn [visible seenInPhase] in Hv; apply andb_true_iff in Hv as [-> Hv];
    cbn [write_profile_node seenInPhase negb pcToNode]; apply elem_of_app.
  - left. injection Hm as <-. rewrite andb_true_r in Hf. cbn [signature]. apply list_elem_of_fmap.
    eexists. split; [done|]. apply last_in, signatures_nonempty. exact Hf.
  - right. cbn [node_at pcToNode] in Hm, Hv. destruct (find_child pc ch) as [child|] eqn:E; [|done].
    cbn [signature pcToNode]. rewrite E. apply find_child_in in E as [p Hin].
    apply list_elem_of_In, in_concat. eexists. split; [|apply list_elem_of_In, IH; [exact Hv|exact Hm|]].
    + apply in_map_iff. exists (p, child). split; [done|]. by apply list_elem_of_In.
    + rewrite andb_false_r in Hf. exact Hf.
Qed.

Section Scraping.
Context `{Backtrace}.

(** The place in the tree that a trace counts at. *)
Definition place (t : CallTrace (list CallFrame)) : list Z :=
  frame <$> rev (drop 3 (take (Z.to_nat (num_frames t)) (frames t))).

(** Recording a trace whose frames are quiet never fails, short of a count that
    an [int] cannot hold. *)
Lemma recording_ends ts t sg st tsc x :
  NUMBER_OF_SIGNAL_HANDLER_FRAMES < num_frames t <= Z.of_nat (length (frames t)) ->
  Forall (fun f => quiet (frame f)) (frames t) -> count_at (place t) (sg =? SIGPROF) (root x) <> INT_MAX ->
  exists x', recordStackTrace ts t sg st tsc x = Ok x'.
Proof using Type.
  intros Hn Hq Hmax. unfold recordStackTrace, trace_path, NUMBER_OF_SIGNAL_HANDLER_FRAMES in *.
  rewrite (proj2 (Z.ltb_ge _ _)) by lia.
  rewrite (proj2 (Z.leb_le (num_frames t) (Z.of_nat (length (frames t))))) by lia. cbn [orb mbind outcome_bind].
  edestruct record_path_spec as (n' & s' & -> & _); [|exact Hmax|cbn [mbind outcome_bind]; by eexists].
  apply Forall_rev. by apply Forall_drop, Forall_take.
Qed.

(** What was recorded in a tree whose root was seen is in the next reply. *)
Lemma recorded_is_printed segment str cpu path (x x' : exporter) :
  seenInPhase (root x) = true -> recorded_at cpu path (root x) (root x') -> path <> [] ->
  CString.find str "GET /metrics HTTP/1.1" 0 <> None ->
  exists node, node_at (frame <$> path) (root x') = Some node /\
    (locations node <> [] ->
     line_of (signature true (if cpu then rootCpuPrefix segment else rootWallclockPrefix segment) (frame <$> path) (root x'))
       (count_at (frame <$> path) cpu (root x) + 1) ∈ (handle_request segment str x').1).
Proof using Type.
  intros Hroot [Hc Hs Hp Hv] Hne Hstr. specialize (Hp Hroot). set (n' := root x') in *.
  assert (exists node, node_at (frame <$> path) n' = Some node) as [node Hnode].
  { clear -Hp. clearbody n'. revert n' Hp. generalize (frame <$> path) as p. induction p as [|pc p IH]; intros n' Hp.
    - by exists n'.
    - simpl in *. apply andb_true_iff in Hp as [_ Hp]. destruct (find_child pc _); [by apply IH|done]. }
  exists node. split; [done|]. intros Hloc. unfold handle_request. destruct (CString.find _ _ _); [|done]. cbn [fst].
  assert (line_of (signature true (if cpu then rootCpuPrefix segment else rootWallclockPrefix segment) (frame <$> path) n')
    (count_at (frame <$> path) cpu (root x) + 1)
    ∈ write_profile_node true (if cpu then rootCpuPrefix segment else rootWallclockPrefix segment) cpu n') as Hline.
  { replace (count_at (frame <$> path) cpu (root x) + 1) with (count cpu node).
    - apply line_written; [exact Hp|done|]. rewrite bool_decide_eq_false_2 by (by destruct path).
      rewrite andb_false_r. simpl. by destruct (locations node).
    - specialize (Hc (frame <$> path) cpu). unfold count_at in Hc at 1. rewrite Hnode in Hc. rewrite Hc. f_equal.
      unfold exact_match. rewrite bool_decide_eq_true_2 by done. by rewrite eqb_reflx. }
  fold n'. apply elem_of_cons. right. apply elem_of_app. destruct cpu; [by left|by right].
Qed.

(** As long as the count is not the largest [int], a trace recorded after the first scrape adds one to the count at its own
    path, for its own kind of sample, and to no other count; the next reply has a
    line with that count and the functions along the path, unless nothing at all
    is known of its innermost function. *)
Theorem recorded_trace_is_printed segment str ts t sg st tsc x :
  seenInPhase (root x) = true -> NUMBER_OF_SIGNAL_HANDLER_FRAMES < num_frames t <= Z.of_nat (length (frames t)) ->
  Forall (fun f => quiet (frame f)) (frames t) -> CString.find str "GET /metrics HTTP/1.1" 0 <> None ->
  let cpu := sg =? SIGPROF in
  count_at (place t) cpu (root x) <> INT_MAX ->
  let prefix := if cpu then rootCpuPrefix segment else rootWallclockPrefix segment in
  exists x' path node,
    path = rev (drop 3 (take (Z.to_nat (num_frames t)) (frames t))) /\
    recordStackTrace ts t sg st tsc x = Ok x' /\
    (forall q c, count_at q c (root x') = count_at q c (root x) + (if exact_match cpu path q c then 1 else 0)) /\
    node_at (frame <$> path) (root x') = Some node /\
    (locations node <> [] ->
     line_of (signature true prefix (frame <$> path) (root x')) (count_at (frame <$> path) cpu (root x) + 1)
       ∈ (handle_request segment str x').1).
Proof.
  intros Hroot Hn Hq Hstr. cbn zeta. intros Hmax. unfold recordStackTrace, NUMBER_OF_SIGNAL_HANDLER_FRAMES in *.
  rewrite (proj2 (Z.ltb_ge _ _)) by lia. unfold trace_path.
  rewrite (proj2 (Z.leb_le (num_frames t) (Z.of_nat (length (frames t))))) by lia. cbn [orb mbind outcome_bind].
  change (Z.to_nat NUMBER_OF_SIGNAL_HANDLER_FRAMES) with 3%nat.
  set (path := rev (drop 3 (take (Z.to_nat (num_frames t)) (frames t)))).
  assert (Forall (fun f => quiet (frame f)) path) as Hpq.
  { apply Forall_rev. by apply Forall_drop, Forall_take. }
  destruct (record_path_spec (sg =? SIGPROF) path (root x) (e_symbols x) Hpq Hmax) as (n' & s' & -> & Hrec).
  cbn [mbind outcome_bind]. set (x' := mkExporter n' s' (e_queue x)).
  assert (path <> []) as Hne.
  { intros E. apply (f_equal length) in E. subst path. rewrite length_rev, length_drop, length_take in E. simpl in E. lia. }
  destruct (recorded_is_printed segment str (sg =? SIGPROF) path x x' Hroot Hrec Hne Hstr) as (node & Hnode & Hline).
  exists x', path, node. split; [done|]. split; [done|]. split; [apply Hrec|]. by split.
Qed.

(** Nothing recorded before the first scrape is ever printed: the root is
    not marked as seen, so the reply to the first scrape has no line, and the
    scrape resets the counts. *)
Theorem first_scrape_is_empty segment str ts t sg st tsc x x' :
  seenInPhase (root x) = false -> recordStackTrace ts t sg st tsc x = Ok x' ->
  CString.find str "GET /metrics HTTP/1.1" 0 <> None ->
  seenInPhase (root x') = false /\
  exists x'', handle_request segment str x' = ([prefix_200], x'') /\
    forall q c, count_at q c (root x'') = 0.
Proof.
  intros Hroot Hrec Hstr.
  assert (seenInPhase (root x') = false) as Hroot'.
  { unfold recordStackTrace in Hrec. destruct (num_frames t <? 0); [done|].
    destruct (trace_path t) as [path| | |]; try done. cbn [mbind outcome_bind] in Hrec.
    destruct (record_path _ _ _ _) as [[n s]| | |] eqn:E; try done. injection Hrec as <-. cbn [root].
    destruct path as [|f path]; cbn [record_path] in E.
    - unfold add_count in E. destruct (_ =? INT_MAX); [done|]. injection E as <- _. by destruct (sg =? SIGPROF).
    - destruct (match find_child _ _ with Some _ => _ | None => _ end) as [[child s1]| | |]; try done.
      cbn [mbind outcome_bind] in E. destruct (record_path _ path _ _) as [[child' s2]| | |]; try done.
      by injection E as <- _. }
  split; [done|].
  assert (forall prefix c, write_profile_node true prefix c (root x') = []) as Hw.
  { intros prefix c. destruct (root x') as [l ch s c1 c2]. simpl in Hroot'. by subst s. }
  destruct (handle_request segment str x') as [replies x''] eqn:E.
  destruct (scraped_root _ _ _ _ _ Hstr E) as [_ Hzero].
  exists x''. split; [|done]. unfold handle_request in E. destruct (CString.find _ _ _); [|done].
  rewrite !Hw in E. by injection E as <- _.
Qed.
End Scraping.

(** A host that is not an address is not reported: the server listens on
    every interface instead. *)
Theorem bad_host_binds_everywhere `{Binding} configuration port ports :
  prometheusHost configuration <> EmptyString -> from_string (prometheusHost configuration) = None ->
  prometheusPorts configuration = port :: ports -> can_bind unspecified_address (port mod 2 ^ 16) = true ->
  bind_prometheus configuration None = (true, Some (unspecified_address, port mod 2 ^ 16)).
Proof.
  intros Hne Hbad Hports Hcan. unfold bind_prometheus. rewrite Hports. cbn [try_ports].
  destruct (prometheusHost configuration) as [|c s] eqn:E; [done|]. cbn [is_empty].
  by rewrite Hbad; simpl; rewrite Hcan.
Qed.

(** ** A scraped program *)

#[local] Instance two_functions : Backtrace := {
  backtrace_pcinfo pc := [PcInfo (Some "a.ml"%string) 1 (Some (if pc =? 100 then "main"%string else "f"%string))];
  backtrace_syminfo pc := [];
  dladdr pc := None
}.

Definition scrape : string := "GET /metrics HTTP/1.1".
(** Recording and printing do not touch the rings. *)
Definition no_rings : CircularQueue :=
  mkCircularQueue (Queue 0 0 []) (Queue 0 0 []) (Queue 0 0 []) [] no_failures.
Definition empty_exporter (seen : bool) : exporter :=
  mkExporter (set_seen seen new_root) no_symbols no_rings.
(** [f] called from [main]. *)
Definition f_trace : CallTrace (list CallFrame) :=
  mkCallTrace 5 9 (replicate 3 (mkCallFrame true 1) ++ [mkCallFrame true 200; mkCallFrame true 100]).
Definition now_ : timespec := mkTimespec 0 0.

Lemma f_quiet : Forall (fun f => quiet (frame f)) (frames f_trace).
Proof. repeat constructor. Qed.

Lemma recorded_trace_is_printed_witness :
  exists x' path node,
    path = rev (drop 3 (take (Z.to_nat (num_frames f_trace)) (frames f_trace))) /\
    recordStackTrace now_ f_trace SIGPROF 0 0 (empty_exporter true) = Ok x' /\
    (forall q c, count_at q c (root x') =
       count_at q c (root (empty_exporter true)) + (if exact_match (SIGPROF =? SIGPROF) path q c then 1 else 0)) /\
    node_at (frame <$> path) (root x') = Some node /\
    (locations node <> [] ->
     line_of (signature true (if SIGPROF =? SIGPROF then rootCpuPrefix "s" else rootWallclockPrefix "s")
                (frame <$> path) (root x')) (count_at (frame <$> path) (SIGPROF =? SIGPROF) (root (empty_exporter true)) + 1)
       ∈ (handle_request "s" scrape x').1).
Proof.
  apply (recorded_trace_is_printed "s" scrape now_ f_trace SIGPROF 0 0 (empty_exporter true)).
  - reflexivity.
  - unfold NUMBER_OF_SIGNAL_HANDLER_FRAMES. simpl. lia.
  - exact f_quiet.
  - discriminate.
  - discriminate.
Defined.

Lemma first_scrape_is_empty_witness :
  exists x', recordStackTrace now_ f_trace SIGPROF 0 0 (empty_exporter false) = Ok x' /\
    exists x'', handle_request "s" scrape x' = ([prefix_200], x'') /\ forall q c, count_at q c (root x'') = 0.
Proof.
  destruct (recording_ends now_ f_trace SIGPROF 0 0 (empty_exporter false)) as [x' Hx'].
  - unfold NUMBER_OF_SIGNAL_HANDLER_FRAMES. simpl. lia.
  - exact f_quiet.
  - discriminate.
  - exists x'. split; [exact Hx'|].
    apply (first_scrape_is_empty "s" scrape now_ f_trace SIGPROF 0 0 (empty_exporter false) x'
             eq_refl Hx' ltac:(discriminate)).
Defined.

#[local] Instance no_names : Binding := { from_string _ := None; can_bind _ _ := true }.
Definition localhost : ConfigurationOptions :=
  mkOptions EmptyString EmptyString EmptyString 256 EmptyString EmptyString EmptyString EmptyString EmptyString EmptyString
    false false true "localhost" [9100] EmptyString 100 100.

Lemma bad_host_binds_everywhere_witness :
  bind_prometheus localhost None = (true, Some (unspecified_address, 9100)).
Proof. by apply (bad_host_binds_everywhere localhost 9100 []). Defined.

(** The lines of a tree in which [f] was interrupted once, called from [main]. *)
Example f_printed :
  let named s := mkLocation 1 1 "a.ml" s in
  let f := Node [named "f"%string] [] true 1 0 in
  let main := Node [named "main"%string] [(200, f)] true 0 0 in
  write_profile_node true "p:" true (Node [] [(100, main)] true 0 0) =
    [line_of "p:(root)" 0; line_of "p:(root)#main" 0; line_of "p:(root)#main#f" 1].
Proof. vm_compute. reflexivity. Qed.
