(* ===== verification/Profiler.v ===== *)
(** * The signal handler of the agent ([lib/profiler.cpp])

    [handle] walks the stack with [linkable_handle] and pushes the trace; it is
    what [SIGPROF] and [SIGALRM] run. *)
From S2P Require Import Prelude InternalQueue MetricTypes CircularQueue LinkableProfiler.

Section Handle.
Context {Context Cursor : Type} `{Unwinder Context Cursor}.
(** [unw_strerror] of libunwind. *)
Context (unw_strerror : Z -> string).

Definition failed_function (type : ErrorType) : string :=
  match type with
  | GET_CONTEXT_FAIL => "unw_getcontext"
  | INIT_LOCAL_FAIL => "unw_init_local"
  | STEP_FAIL => "unw_step"
  | SUCCESS => "Unknown"
  end.

Definition pushError (errorHolder : ErrorHolder) (queue : CircularQueue) : CircularQueue :=
  let functionName := failed_function (error_type errorHolder) in
  let errorName := unw_strerror (errorCode errorHolder) in
  (pushNotification NotificationCategory.USER_ERROR
    ("in linkable_handle for " +:+ functionName +:+ ": " +:+ errorName) queue).2.

(** What the handler reads from its surroundings: two values of the time stamp
    counter, the clock inside [pushStackTrace], the calling thread, and what the
    uninitialised array [frames] holds. *)
Record moment := mkMoment {
  start_ts : Z;
  stack_ts : Z;
  now : timespec;
  pthread_self : Z;
  garbage : list CallFrame
}.

Definition handle (signum : Z) (at_ : moment) (buffer : CircularQueue) : outcome CircularQueue :=
  if negb ((signum =? SIGPROF) || (signum =? SIGALRM)) then
    Ok (pushNotification_value NotificationCategory.USER_ERROR "Signal number out of range: " signum buffer).2
  else
    '(num_frames, frames, errorHolder) ← linkable_handle (garbage at_) (mkErrorHolder 0 SUCCESS);
    let is_error := negb (bool_decide (error_type errorHolder = SUCCESS)) in
    let buffer := if is_error then pushError errorHolder buffer else buffer in
    let trace := mkCallTrace (if is_error then -1 * num_frames else num_frames) (pthread_self at_) frames in
    '(enqueued, buffer) ←
      pushStackTrace (now at_) trace signum 0 (u64 (stack_ts at_ - start_ts at_)) buffer;
    Ok (if negb enqueued then
          set_failures
            (if signum =? SIGPROF then count_cputime_failure (failures buffer)
             else count_wallclock_failure (failures buffer)) buffer
        else buffer).
End Handle.
