(* ===== verification/ProfilerSpec.v ===== *)
(** * What a profiling signal leaves in the queues *)
From S2P Require Import Prelude InternalQueue MetricTypes CircularQueue CircularQueueSpec.
From S2P Require Import LinkableProfiler LinkableProfilerSpec Profiler.

Section HandleSpec.
Context {Context Cursor : Type} `{Unwinder Context Cursor}.
Context (unw_strerror : Z -> string) (max : nat).

Definition profiling_signal (signum : Z) : Prop := signum = SIGPROF \/ signum = SIGALRM.

(** The frames the walk yields, and how it ended: with the code of the first
    call of libunwind that failed, or well. *)
Definition walked : list CallFrame * ErrorHolder :=
  let '(ret, ucp) := unw_getcontext in
  if ret <? 0 then ([], mkErrorHolder ret GET_CONTEXT_FAIL)
  else
    let '(ret, cursor) := unw_init_local ucp in
    if ret <? 0 then ([], mkErrorHolder ret INIT_LOCAL_FAIL)
    else walk (Z.to_nat MAX_FRAMES) cursor (mkErrorHolder 0 SUCCESS).

(** Stacks whose return addresses are those the frame descriptors name; the
    other condition is the declaration of the array, [frames[MAX_FRAMES]]. *)
Definition walkable (at_ : moment) : Prop :=
  intact /\ length (garbage at_) = Z.to_nat MAX_FRAMES.

Lemma handle_walk at_ :
  walkable at_ ->
  linkable_handle (garbage at_) (mkErrorHolder 0 SUCCESS) =
    Ok (Z.of_nat (length walked.1), over walked.1 (garbage at_), walked.2).
Proof using Type.
  intros [Hintact Hlen]. pose proof (linkable_handle_intact (garbage at_) (mkErrorHolder 0 SUCCESS) Hintact Hlen) as Hw.
  unfold walked, linkable_handle in *. destruct unw_getcontext as [ret ucp]. cbn [fst snd] in *.
  destruct (Z.ltb_spec ret 0) as [_|Hret]; [done|].
  destruct (unw_init_local ucp) as [ret' cursor]. cbn [fst snd] in *.
  destruct (Z.ltb_spec ret' 0) as [_|Hret']; [done|].
  specialize (Hw Hret Hret'). by destruct (walk _ _ _).
Qed.

Definition walk_failed : bool := negb (bool_decide (error_type walked.2 = SUCCESS)).

(** The message of [pushError]. *)
Definition error_message (h : ErrorHolder) : string :=
  "in linkable_handle for " +:+ failed_function (error_type h) +:+ ": " +:+ unw_strerror (errorCode h).

(** What the queues hold once a failed walk was reported. *)
Definition reported (l : contents) : contents :=
  if walk_failed
  then append_if_room l (MainEvent (Notified NotificationCategory.USER_ERROR (error_message walked.2) 0))
  else l.

(** The sample pushed at a moment.  After a good walk it holds the frames walked,
    with zeros behind them; after a failed one it holds no frame, and its count is
    the negated number of frames the walk had got to. *)
Definition sample (signum : Z) (at_ : moment) : stack_item :=
  let n := Z.of_nat (length walked.1) in
  TraceTaken (now at_)
    (if walk_failed then mkCallTrace (- n) (pthread_self at_) (replicate max zero_frame)
     else mkCallTrace n (pthread_self at_) (padded max (length walked.1) walked.1))
    signum 0 (u64 (stack_ts at_ - start_ts at_)).

Lemma notification_holds c l k p v :
  holds max c l ->
  holds max (pushNotification_value k p v c).2 (append_if_room l (MainEvent (Notified k p v))) /\
  failures (pushNotification_value k p v c).2 = failures c.
Proof using Type.
  intros Hc. destruct (push_notification_spec max c l k p v Hc) as (c' & Hpush & Hres).
  injection Hpush as ->. unfold append_if_room. simpl in *. destruct (_ <? _); [done|].
  subst c'. by rewrite set_same_failures.
Qed.

Lemma over_walked (frames : list CallFrame) : take (length walked.1) (over walked.1 frames) = walked.1.
Proof using Type. unfold over. by rewrite take_app_length. Qed.

Lemma stored_sample (at_ : moment) :
  let n := Z.of_nat (length walked.1) in
  stored max (mkCallTrace (if walk_failed then -1 * n else n) (pthread_self at_) (over walked.1 (garbage at_))) =
    (if walk_failed then mkCallTrace (- n) (pthread_self at_) (replicate max zero_frame)
     else mkCallTrace n (pthread_self at_) (padded max (length walked.1) walked.1)).
Proof using Type.
  intros n. unfold stored. subst n. cbn [num_frames threadId frames]. destruct walk_failed.
  - rewrite padded_zero by lia. f_equal; lia.
  - rewrite Nat2Z.id. unfold padded. by rewrite over_walked, firstn_all.
Qed.

(** The handler is a push of the sample behind the report of a failed walk. *)
Lemma handle_pushes signum at_ c l :
  profiling_signal signum -> walkable at_ -> (walk_failed = false -> (length walked.1 <= max)%nat) -> holds max c l ->
  exists c1 c2, holds max c1 (reported l) /\ failures c1 = failures c /\
    handle unw_strerror signum at_ c =
      Ok (if has_room l (StackEvent (sample signum at_)) then c2
          else set_failures (if signum =? SIGPROF then count_cputime_failure (failures c2)
                             else count_wallclock_failure (failures c2)) c2) /\
    if has_room l (StackEvent (sample signum at_))
    then holds max c2 (append (reported l) (StackEvent (sample signum at_))) /\ failures c2 = failures c1
    else c2 = set_failures (failures c1) c1.
Proof using Type.
  intros Hsig Hwalk Hmax Hc. unfold handle.
  destruct (negb _) eqn:Esig.
  { destruct Hsig as [-> | ->]; done. }
  clear Esig. rewrite (handle_walk at_ Hwalk). cbn [mbind outcome_bind]. fold walk_failed.
  set (c1 := if walk_failed then pushError _ _ _ else c).
  assert (holds max c1 (reported l) /\ failures c1 = failures c) as [Hc1 Hf1].
  { subst c1. unfold reported. destruct walk_failed; [|done]. by apply notification_holds. }
  set (t := mkCallTrace (if walk_failed then _ else _) _ _).
  assert (fits max t) as Hfits.
  { unfold fits. subst t. cbn [num_frames frames]. unfold over. rewrite length_app.
    destruct walk_failed; lia. }
  destruct (push_trace_spec max c1 (reported l) (now at_) t signum 0
    (u64 (stack_ts at_ - start_ts at_)) Hc1 Hfits) as (c2 & Hpush & Hres).
  cbn [exec_push op_event count_refusal] in Hpush, Hres.
  assert (has_room (reported l) (StackEvent (sample signum at_)) = has_room l (StackEvent (sample signum at_))) as Hroom.
  { unfold reported, append_if_room. destruct walk_failed; [|done]. by destruct (has_room l (MainEvent _)). }
  unfold t in Hres. rewrite stored_sample in Hres. fold (sample signum at_) in Hres.
  change (has_room (reported l) (StackEvent _)) with (has_room (reported l) (StackEvent (sample signum at_))) in Hpush.
  rewrite Hroom in Hres, Hpush. rewrite Hpush. cbn [mbind outcome_bind].
  exists c1, c2. split_and!; [done|done| |exact Hres]. by destruct (has_room l _).
Qed.

(** More frames than a sample of the ring has room for. *)
Definition too_deep : bool := negb walk_failed && (max <? length walked.1)%nat.

Lemma has_room_sample l signum at_ :
  has_room l (StackEvent (sample signum at_)) = (Z.of_nat (length (stack_items l)) <? StackQueueSize).
Proof using Type. done. Qed.

Lemma handle_too_deep signum at_ c l :
  profiling_signal signum -> walkable at_ -> too_deep = true -> holds max c l ->
  handle unw_strerror signum at_ c =
    if has_room l (StackEvent (sample signum at_)) then Undefined
    else Ok (set_failures ((if signum =? SIGPROF then count_cputime_failure else count_wallclock_failure) (failures c)) c).
Proof using Type.
  intros Hsig Hwalk (Hok & Hmax)%andb_true_iff Hc. apply negb_true_iff in Hok. apply Nat.ltb_lt in Hmax.
  unfold handle. destruct (negb _) eqn:Esig; [by destruct Hsig as [-> | ->]|].
  rewrite (handle_walk at_ Hwalk). cbn [mbind outcome_bind]. fold walk_failed. rewrite Hok, has_room_sample.
  destruct (Z.ltb_spec (Z.of_nat (length (stack_items l))) StackQueueSize) as [Hroom|Hfull].
  - by rewrite (push_trace_overflow max c l) by (done || (cbn [num_frames]; lia)).
  - unfold pushStackTrace. rewrite (stack_full max c l Hc Hfull). cbn [mbind outcome_bind negb].
    by destruct (signum =? SIGPROF).
Qed.

(** C17. What a profiling signal does, whatever libunwind answers.  When the stack
    ring has room, one sample goes in: the frames walked after a walk that ended
    well; after a failed one, at whichever of the three calls of libunwind, no
    frame and the negated count, behind a notification that names the call and the
    error when the queue of events has room for it.  When the stack ring is full
    the failure counter of the signal goes up by one.  A good walk of more frames
    than the [maxFrameSize] of the ring, for which there is room, is undefined: it
    writes past the frame buffer.  The stack is one whose return addresses agree
    with the frame descriptors. *)
Theorem handle_records signum at_ c l :
  profiling_signal signum -> walkable at_ -> holds max c l ->
  if has_room l (StackEvent (sample signum at_)) && too_deep
  then handle unw_strerror signum at_ c = Undefined
  else exists c', handle unw_strerror signum at_ c = Ok c' /\
    if has_room l (StackEvent (sample signum at_))
    then holds max c' (append (reported l) (StackEvent (sample signum at_))) /\ failures c' = failures c
    else holds max c' (reported l) /\
         failures c' = (if signum =? SIGPROF then count_cputime_failure else count_wallclock_failure) (failures c).
Proof using Type.
  intros Hsig Hwalk Hc. destruct too_deep eqn:Edeep.
  - rewrite andb_true_r, (handle_too_deep signum at_ c l) by done. destruct (has_room l _) eqn:Eroom; [done|].
    eexists. split; [done|]. apply andb_true_iff in Edeep as [Hok%negb_true_iff _]. unfold reported. rewrite Hok.
    destruct Hc. by split.
  - rewrite andb_false_r.
    assert (walk_failed = false -> (length walked.1 <= max)%nat) as Hmax.
    { intros Hok. unfold too_deep in Edeep. rewrite Hok in Edeep. by apply Nat.ltb_ge in Edeep. }
    destruct (handle_pushes signum at_ c l Hsig Hwalk Hmax Hc) as (c1 & c2 & Hc1 & Hf1 & -> & Hres).
    eexists. split; [done|]. destruct (has_room l _).
    + destruct Hres as [Hres Hf2]. split; [done|congruence].
    + subst c2. destruct Hc1. split; [by split|]. simpl. rewrite Hf1. by destruct (signum =? SIGPROF).
Qed.

(** When the walk has more frames than the configured maximum the handler
    writes past the end of a frame buffer. *)
Theorem handle_overflows signum at_ c l :
  profiling_signal signum -> walkable at_ -> walk_failed = false -> (max < length walked.1)%nat ->
  holds max c l -> Z.of_nat (length (stack_items l)) < StackQueueSize ->
  handle unw_strerror signum at_ c = Undefined.
Proof using Type.
  intros Hsig Hwalk Hok Hmax Hc Hroom. assert (too_deep = true) as Hdeep by (unfold too_deep; rewrite Hok; by apply Nat.ltb_lt).
  rewrite (handle_too_deep signum at_ c l Hsig Hwalk Hdeep Hc), has_room_sample.
  by destruct (Z.ltb_spec (Z.of_nat (length (stack_items l))) StackQueueSize); [|lia].
Qed.
End HandleSpec.

Definition tick : moment := mkMoment 100 250 midnight 9 (unwritten 256).

Lemma chain_walkable : walkable (H := chain_stack 0 4) tick.
Proof.
  split; [|reflexivity]. intros pc sp retaddr pc' sp' E. simpl in E. destruct (pc <? 4); [|discriminate].
  destruct (Z.eqb_spec pc 0) as [->|]; congruence.
Qed.

Lemma handle_records_witness :
  exists c, handle (H := chain_stack 0 4) (fun _ => "error") SIGPROF tick (new_CircularQueue None 0 8) = Ok c /\
    holds 8 c (Contents [] [] [TraceTaken midnight
      (mkCallTrace 4 9 (mkCallFrame false 1 :: mkCallFrame false 2 :: mkCallFrame false 3 :: mkCallFrame false 4
                          :: replicate 4 zero_frame)) SIGPROF 0 150]).
Proof.
  destruct (handle_records (H := chain_stack 0 4) (fun _ => "error") 8 SIGPROF tick (new_CircularQueue None 0 8)
    (Contents [] [] []) (or_introl eq_refl) chain_walkable (qrep_new None 0 8))
    as (c & Hc & Hl & _).
  exists c. split; [exact Hc|exact Hl].
Defined.

Lemma handle_overflows_witness :
  handle (H := chain_stack 0 4) (fun _ => "error") SIGPROF tick (new_CircularQueue None 0 2) = Undefined.
Proof.
  apply (handle_overflows (H := chain_stack 0 4) (fun _ => "error") 2 SIGPROF tick _ (Contents [] [] []));
    [by left|exact chain_walkable|reflexivity|apply Nat.leb_le; reflexivity|exact (qrep_new None 0 2)|reflexivity].
Defined.
