(* ===== verification/Agent.v ===== *)
(** * The agent put together ([lib/profiler.cpp])

    The profiler owns one of each component and wires them to each other: the
    signal handler and the processor share the queues, the processor pops them
    into the log writer, the log writer and the protocol handler share the
    controller, and the controller calls back when a socket is connected.

    The log writer holds the queues and the controller, the controller the
    network, the metrics, the signal handler and the thread scanner; the protocol
    handler has the log writer as its listener and passes messages on to the
    controller.  What the system does between two steps (handlers that become
    ready, random numbers) is a list the model takes from. *)
From S2P Require Import Prelude MetricTypes InternalQueue CircularQueue LinkableProfiler Profiler Messages.
From S2P Require Import SignalHandler ProcScanner CollectorController SymbolTable LogWriter Varint ProtocolHandler.
From S2P Require Options Network Processor.

(** A handler the I/O service finds ready: the pending read has ended, the wait
    of a timer is over, or an operation was cancelled and its handler does
    nothing. *)
Inductive io_event :=
| ReadDone (bytes : list Z) (ec : error_code)
| SendTimerDone (millis : Z)
| ReceiveTimerDone
| AllocationTimerDone
| StatisticsTimerDone
| CancelledWait
| NothingReady.

Record profiler (N M : Type) := mkProfiler {
  protocolHandler : ProtocolHandler (logWriter N M);
  ready : list io_event;
  randomNumbers : list Z;
  running : bool
}.
Arguments mkProfiler {N M}.
Arguments protocolHandler {N M}.
Arguments ready {N M}.
Arguments randomNumbers {N M}.
Arguments running {N M}.

(** The metrics component beyond what the controller asks of it. *)
Class MetricsThread (M : Type) := {
  metrics_startThread : M -> M;
  metrics_on_fork : M -> M
}.

Section Lenses.
Context {N M : Type}.
Implicit Types (p : profiler N M) (w : logWriter N M) (a : agent N M).

Definition writer p : logWriter N M := listener_ (protocolHandler p).
Definition set_protocolHandler h p : profiler N M := mkProfiler h (ready p) (randomNumbers p) (running p).
Definition set_writer w p : profiler N M := set_protocolHandler (set_listener w (protocolHandler p)) p.
Definition set_ready l p : profiler N M := mkProfiler (protocolHandler p) l (randomNumbers p) (running p).
Definition set_randomNumbers l p : profiler N M := mkProfiler (protocolHandler p) (ready p) l (running p).
Definition set_running b p : profiler N M := mkProfiler (protocolHandler p) (ready p) (randomNumbers p) b.

Definition set_counters f a : agent N M :=
  mkAgent (controller a) (network a) (metrics a) (signalHandler a) (scanner a) f
    (threadIdDenials a) (cpu_errors a) (cpu_warnings a) (now a).

(** The failure counters are static members of the queue: the controller and the
    queue see the same ones. *)
Definition controller_view w : agent N M := set_counters (failures (buffer_ w)) (controller_ w).
Definition put_controller a w : logWriter N M :=
  LogWriter.set_buffer (set_failures (counters a) (buffer_ w)) (LogWriter.set_controller a w).
End Lenses.

(** The protocol handler calls the controller. *)
#[export] Instance writer_messages {N M} `{NetworkApi N} `{MetricsApi M} `{Kernel} :
    CollectorMessageListener (logWriter N M) := {
  on_terminate w := a ← on_terminate (controller_view w); Ok (put_controller a w);
  on_sample_rate r w := a ← on_sample_rate r (controller_view w); Ok (put_controller a w);
  on_heartbeat w := a ← on_heartbeat (controller_view w); Ok (put_controller a w);
  listener_isConnected w := listener_isConnected (controller_ w)
}.

#[export] Program Instance profiler_queue N M : HasQueue (profiler N M) := {
  the_queue p := buffer_ (writer p);
  put_queue c p := set_writer (LogWriter.set_buffer c (writer p)) p
}.
Next Obligation. done. Qed.
Next Obligation. by intros N M [[b s o r []] ? ? ?]. Qed.
Next Obligation. done. Qed.

Section Agent.
Context {N M : Type} `{NetworkApi N} `{MetricsApi M} `{!MetricsThread M} `{Kernel} `{Backtrace} `{ThreadNames}.
Context `{CollectorParser} {Context Cursor : Type} `{Unwinder Context Cursor}.
Context (unw_strerror : Z -> string) (cfg : settings).
(** The kernel's number of the processor thread. *)
Context (processor_tid : Z).
Local Abbreviation profiler := (profiler N M).
Local Abbreviation agent := (agent N M).
Implicit Types p : profiler.

(** Closing the socket ends the pending read; its handler then does nothing. *)
Definition settle p : profiler :=
  if network_isConnected (network (controller_ (writer p))) then p
  else set_protocolHandler (set_pending None (protocolHandler p)) p.

Definition on_writer (f : logWriter N M -> outcome (logWriter N M)) p : outcome profiler :=
  w ← f (writer p); Ok (settle (set_writer w p)).

Definition the_agent p : agent := controller_view (writer p).
Definition put_agent a p : profiler := settle (set_writer (put_controller a (writer p)) p).
Definition on_agent (f : agent -> agent) p : profiler := put_agent (f (the_agent p)) p.

(** ** Callbacks *)

Definition onSocketConnected p : profiler :=
  let p := set_protocolHandler (attemptRead (protocolHandler p)) p in
  set_writer (LogWriter.onSocketConnected (writer p)) p.

Definition recordAllocationTable p : profiler := settle (set_writer (LogWriter.recordAllocationTable (writer p)) p).

#[export] Instance profiler_listener : QueueListener profiler := {
  MetricTypes.recordStackTrace ts t sg st tsc := on_writer (MetricTypes.recordStackTrace ts t sg st tsc);
  MetricTypes.recordThread i n := on_writer (MetricTypes.recordThread i n);
  MetricTypes.recordAllocation n o s := on_writer (MetricTypes.recordAllocation n o s);
  MetricTypes.recordNotification k s v := on_writer (MetricTypes.recordNotification k s v);
  MetricTypes.recordMetricInformation i := on_writer (MetricTypes.recordMetricInformation i);
  MetricTypes.recordMetricSamples t l := on_writer (MetricTypes.recordMetricSamples t l);
  MetricTypes.recordConstantMetricsComplete := on_writer MetricTypes.recordConstantMetricsComplete
}.

(** ** Connecting

    As in the controller, whose connect handler reaches the other components. *)

Definition onSocketConnect p : profiler :=
  let p := on_agent (on_controller (fun c => set_backoff 0 (set_state SOCKET_CONNECTED c))) p in
  on_agent onSentHello (on_agent (sendHello cfg) (onSocketConnected p)).

Definition attemptConnect p : bool * profiler :=
  let '(connected, n) := network_connect (network (the_agent p)) in
  let p := on_agent (CollectorController.set_network n) p in
  if connected then (true, onSocketConnect p) else (false, p).

(** [dist(gen)] *)
Definition next_random p : Z * profiler :=
  match randomNumbers p with [] => (0, p) | r :: rs => (r, set_randomNumbers rs p) end.

Definition controller_poll p : bool * profiler :=
  match state_ (controller (the_agent p)) with
  | DISCONNECTED => let '(r, p) := next_random p in attemptConnect (on_agent (backoff r) p)
  | _ => (false, p)
  end.

Definition controller_onStart p : outcome profiler :=
  if isOn (the_agent p) && bool_decide (state_ (controller (the_agent p)) = SOCKET_CONNECTED)
  then Ok (onSocketConnect p)
  else a ← CollectorController.onStart cfg id (the_agent p); Ok (put_agent a p).

Definition controller_onEnd p : outcome profiler := a ← CollectorController.onEnd (the_agent p); Ok (put_agent a p).

(** ** The I/O service *)

Definition is_due (t : option Z) p : bool := match t with Some d => d <=? now (the_agent p) | None => false end.

(** A read without an error has transferred what it asked for. *)
Definition read_ends (r : read_request) (bytes : list Z) (ec : error_code) : bool :=
  match ec with
  | NoError => Z.of_nat (length bytes) =? read_length r
  | _ => Z.of_nat (length bytes) <=? read_length r
  end.

(** The handler of an event; [None] when it is not ready. *)
Definition handler_of (e : io_event) p : option (outcome profiler) :=
  let timers := controller (the_agent p) in
  match e with
  | ReadDone bytes ec =>
      r ← pending (protocolHandler p);
      if read_ends r bytes ec
      then Some (h ← complete_read bytes ec (protocolHandler p); Ok (settle (set_protocolHandler h p)))
      else None
  | SendTimerDone millis => if is_due (sendTimer_ timers) p then Some (Ok (on_agent (onSendTimer millis) p)) else None
  | ReceiveTimerDone => if is_due (receiveTimer_ timers) p then Some (Ok (on_agent onReceiveTimer p)) else None
  | AllocationTimerDone =>
      if is_due (allocationTimer_ timers) p
      then Some (Ok (on_agent scheduleAllocationTimer (recordAllocationTable p)))
      else None
  | StatisticsTimerDone =>
      if is_due (agentStatisticsTimer_ timers) p then Some (Ok (on_agent onAgentStatisticsTimer p)) else None
  | CancelledWait => Some (Ok p)
  | NothingReady => None
  end.

(** [poll_one] never fails here; an exception leaves it. *)
Definition poll_one (o : outcome profiler) : nat * bool * outcome profiler :=
  match o with
  | Ok p =>
      match ready p with
      | [] => (O, false, o)
      | e :: events =>
          let p := set_ready events p in
          match handler_of e p with Some o => (1%nat, false, o) | None => (O, false, Ok p) end
      end
  | _ => (O, true, o)
  end.

Definition network_poll p : outcome (bool * profiler) :=
  let '(worked, o) := Network.poll poll_one (Ok p) in p ← o; Ok (worked, p).

(** ** The processor *)

Definition profiler_processor : Processor.ProcessorApi profiler := {|
  Processor.on_processor_thread_start p :=
    on_agent (fun a => set_scanner (ProcScanner.on_processor_thread_start processor_tid (scanner a)) a) p;
  Processor.controller_onStart := controller_onStart;
  Processor.controller_onEnd := controller_onEnd;
  Processor.controller_isOn p := isOn (the_agent p);
  Processor.controller_isActive p := isActive (the_agent p);
  Processor.controller_poll p := Ok (controller_poll p);
  Processor.network_poll := network_poll;
  Processor.processorRunning := running;
  Processor.sleep_ms d p := on_agent (CollectorController.sleep_ms d) p
|}.

(** ** Signals *)

(** The mask keeps the processor thread itself from being interrupted. *)
Definition on_signal (signum : Z) (at_ : moment) p : outcome profiler :=
  c ← handle unw_strerror signum at_ (the_queue p); Ok (put_queue c p).

(** ** Starting, and starting again in a forked child *)

Definition start p : profiler :=
  let p := on_agent (fun a =>
    let h := (SetAction SIGPROF SIGALRM "bootstrapHandle" (signalHandler a)).2 in
    set_signalHandler (SetAction SIGALRM SIGPROF "bootstrapHandle" h).2 a) p in
  on_agent (fun a => set_metrics (metrics_startThread (metrics a)) a) (set_running true p).

(** The child's copy of [processorThread] is cleared, which nothing reads here. *)
Definition on_fork p : profiler :=
  let p := on_agent (fun a => set_scanner (reset_scan_threads (scanner a)) a) p in
  let p := on_agent CollectorController.on_fork p in
  let p := set_writer (LogWriter.onSocketConnected (writer p)) p in
  let p := on_agent (fun a => CollectorController.set_network (network_close (network a)) a) p in
  let p := on_agent (fun a => set_metrics (metrics_on_fork (metrics a)) a) p in
  start p.
End Agent.

(** ** Configuring

    The log files, the debug log and the Prometheus server are left out.
    [build]: what the build and the system provide. *)

Definition configured_settings (configuration : Options.ConfigurationOptions) (hostname ocamlVersion : string)
    (build : settings) : settings :=
  let agentId := Options.agentId configuration in
  mkSettings (Options.apiKey configuration) (if is_empty agentId then hostname else agentId) hostname
    (Options.applicationVersion configuration) ocamlVersion 1 (Options.prometheusEnabled configuration)
    (Options.prometheusProcessSampleRate configuration) (Options.prometheusElapsedSampleRate configuration)
    (AGENT_VERSION build) (GIT_STR build) (BUILD_TYPE build) (pid build) (tm_zone build) (tm_gmtoff build).

(** [gethostname]: [None] when it fails; the array it was given is then read
    uninitialised.  An array of negative length cannot be allocated.  [symbol0]
    and [tsc0] stand for the uninitialised members of the queues. *)
Definition configure {N M} (configuration : Options.ConfigurationOptions) (ocamlVersion : string)
    (gethostname : option string) (build : settings) (net : N) (met : M) (installed : gmap Z action)
    (symbol0 : option Z) (tsc0 : Z) (events : list io_event) (randoms : list Z) (time : Z)
    : outcome (settings * profiler N M) :=
  match gethostname with
  | None => Undefined
  | Some hostname =>
      let s := configured_settings configuration hostname ocamlVersion build in
      let isOn := negb (is_empty (Options.apiKey configuration)) || Options.prometheusEnabled configuration in
      if Options.maxFramesToCapture configuration <? 0 then Throws "bad_array_new_length"
      else
        let buffer := new_CircularQueue symbol0 tsc0 (Z.to_nat (Options.maxFramesToCapture configuration)) in
        let a := mkAgent (new_controller s isOn) net met (new_SignalHandler installed) (new_scanner ∅) no_failures 0 0 0 time in
        Ok (s, mkProfiler (new_ProtocolHandler (mkLogWriter buffer a no_symbols ∅ ∅ [])) events randoms false)
  end.
