(* ===== verification/AgentSpec.v ===== *)
(** * The agent as a whole

    Every step of the composed agent is a sequence of steps of its controller, so
    what holds of every reachable controller holds inside the agent. *)
From S2P Require Import Prelude MetricTypes InternalQueue CircularQueue CircularQueueSpec ListenerSim.
From S2P Require Import LinkableProfiler LinkableProfilerSpec Profiler ProfilerSpec Messages SignalHandler ProcScanner.
From S2P Require Import CollectorController CollectorControllerSpec SymbolTable SymbolTableSpec LogWriter LogWriterSpec.
From S2P Require Import Varint ProtocolHandler ProtocolHandlerSpec.
From S2P Require Import Processor ProcessorSpec.
From S2P Require Import Agent.
From S2P Require Network.

Section Spec.
Context {N M : Type} `{NetworkApi N} `{MetricsApi M} `{!MetricsThread M} `{Kernel} `{Backtrace} `{ThreadNames}.
Context `{CollectorParser} {Context Cursor : Type} `{Unwinder Context Cursor}.
Context (unw_strerror : Z -> string) (cfg : settings) (processor_tid : Z).
Local Abbreviation profiler := (profiler N M).
Local Abbreviation logWriter := (logWriter N M).
Local Abbreviation agent := (agent N M).
Local Abbreviation steps := (rtc (any_step cfg (@id agent) id)).
Implicit Types (p : profiler) (w : logWriter) (a : agent).

(** ** The controller inside the log writer *)

Definition writer_steps w w' : Prop := steps (controller_view w) (controller_view w').

#[local] Instance writer_steps_preorder : PreOrder writer_steps.
Proof using Type. split; [intros w; apply rtc_refl|]. intros w1 w2 w3 H12 H23. exact (rtc_trans _ _ _ H12 H23). Qed.

Lemma one_step o a a' : step cfg id id o a a' -> steps a a'.
Proof using Type. intros Hs. apply rtc_once. by exists o. Qed.

Lemma elsewhere a a' : controller a' = controller a -> CollectorController.now a' = CollectorController.now a -> steps a a'.
Proof using Type. intros Ec En. by apply (one_step Local), step_elsewhere. Qed.

Lemma onDisconnect_counters f a : set_counters f (onDisconnect a) = onDisconnect (set_counters f a).
Proof using Type.
  unfold onDisconnect. cbn. destruct (metricsOn_ (controller a)); [|done]. cbn.
  by destruct (metrics_thread_running (metrics a)).
Qed.

Lemma recordWithSize_counters f e a :
  set_counters f (CollectorController.recordWithSize e a) = CollectorController.recordWithSize e (set_counters f a).
Proof using Type.
  unfold CollectorController.recordWithSize. cbn. destruct (network_transmit e (network a)) as [[] n]; try done.
  by rewrite onDisconnect_counters.
Qed.

Lemma view_put a w : controller_view (put_controller a w) = a.
Proof using Type. by destruct a. Qed.

Lemma recordWithSize_steps e w : writer_steps w (recordWithSize e w).
Proof using Type.
  unfold writer_steps, controller_view. cbn [recordWithSize controller_ buffer_].
  rewrite recordWithSize_counters. by apply (one_step Local), step_send.
Qed.

Lemma threadName_steps id w name w' : threadName id w = Ok (name, w') -> writer_steps w w'.
Proof using Type.
  unfold threadName. destruct (threadIdToInformation w !! i32 id); [by intros [= _ <-]|].
  destruct (pthread_getname_np _ _) as [ret|]; intros E; apply bind_ok in E as (b & _ & [= _ <-]); [|by apply elsewhere].
  destruct (negb (ret =? ENOENT)); by apply elsewhere.
Qed.

Lemma lookup_frames_steps todo i fs isError out w out' w' :
  lookup_frames todo i fs isError out w = Ok (out', w') -> writer_steps w w'.
Proof using Type.
  revert i out w. induction todo as [|todo IH]; intros i out w; cbn [lookup_frames]; [by intros [= _ <-]|].
  intros E. apply bind_ok in E as (f & _ & E). apply bind_ok in E as ([l [s w1]] & E1 & E).
  apply IH in E. assert (writer_steps w w1) as Hw; [|etrans; [exact Hw|exact E]].
  by eapply (lookup_locations_ok writer_steps); [intros; apply recordWithSize_steps..| |exact E1].
Qed.

Lemma stash_steps k s w : writer_steps w (LogWriter.set_controller (stashNotification k s (controller_ w)) w).
Proof using Type. exact (one_step Local _ _ (step_stash cfg id id k s (controller_view w))). Qed.

Lemma deliver_steps e w w' : deliver_event e w = Ok w' -> writer_steps w w'.
Proof using Type.
  destruct e as [[k s v|i|t l|]|[n o s]|[ts t sg st tsc|i n]]; cbn.
  - unfold recordNotification. intros [= <-]. destruct (isConnected _); [apply recordWithSize_steps|apply stash_steps].
  - intros [= <-]. apply recordWithSize_steps.
  - intros [= <-]. apply recordWithSize_steps.
  - intros [= <-]. apply recordWithSize_steps.
  - intros [= <-]. by apply elsewhere.
  - unfold recordStackTrace. destruct (setSampleType sg w) as [type rate].
    intros E. apply bind_ok in E as ([name w1] & Hname%threadName_steps & E).
    apply bind_ok in E as ([entries w2] & E1 & [= <-]).
    etrans; [exact Hname|]. etrans; [by eapply lookup_frames_steps|]. apply recordWithSize_steps.
  - by intros [= <-].
Qed.

Lemma dispatch_steps envelope w w' : dispatch envelope w = Ok w' -> writer_steps w w'.
Proof using Type.
  unfold writer_steps. destruct envelope as [|r|time|]; cbn [dispatch on_terminate on_sample_rate on_heartbeat writer_messages agent_listener].
  - intros [= <-]. rewrite view_put. apply (one_step Collector), step_terminate.
  - intros E. apply bind_ok in E as (a & E & [= <-]). rewrite view_put.
    by apply (one_step Collector), (step_sample_rate _ _ _ r).
  - intros [= <-]. rewrite view_put. apply (one_step Collector), step_heartbeat.
  - by intros [= <-].
Qed.
(** ** Steps of the agent *)

(** What every reachable agent satisfies. *)
Record sane p : Prop := {
  sane_controller : good cfg (the_agent p);
  sane_buffer : length (ProtocolHandler.buffer (protocolHandler p)) = MAX_BUFFER_SIZE;
  sane_pending : pending (protocolHandler p) <> None -> network_isConnected (network (the_agent p)) = true;
  sane_random : Forall (fun r => 0 <= r <= RANDOMISATION_RANGE_IN_MS) (randomNumbers p)
}.

(** A sane agent takes steps of the controller and stays sane. *)
Definition advances p p' : Prop := sane p -> steps (the_agent p) (the_agent p') /\ sane p'.

#[local] Instance advances_preorder : PreOrder advances.
Proof using Type.
  split; [by intros p Hp; split; [apply rtc_refl|]|]. intros p1 p2 p3 A12 A23 Hp.
  destruct (A12 Hp) as [S12 Hp2], (A23 Hp2) as [S23 Hp3]. split; [exact (rtc_trans _ _ _ S12 S23)|done].
Qed.

Lemma id_handler : well_behaved_handler (N := N) (M := M) id.
Proof using Type. done. Qed.

Lemma steps_good a a' : good cfg a -> steps a a' -> good cfg a'.
Proof using Type.
  intros Ha Hs. induction Hs as [|a1 a2 a3 [o Hstep] _ IH]; [done|]. apply IH. by eapply step_good; [apply id_handler| |].
Qed.

Lemma advances_intro p p' :
  (sane p -> steps (the_agent p) (the_agent p')) ->
  length (ProtocolHandler.buffer (protocolHandler p')) = length (ProtocolHandler.buffer (protocolHandler p)) ->
  (sane p -> pending (protocolHandler p') <> None -> network_isConnected (network (the_agent p')) = true) ->
  randomNumbers p' = randomNumbers p ->
  advances p p'.
Proof using Type.
  intros Hs Hb Hc Hr Hp. specialize (Hs Hp). split; [done|]. pose proof Hp as [G B _ R].
  split; [by eapply steps_good|by rewrite Hb|by apply Hc|by rewrite Hr].
Qed.

Lemma settle_agent p : the_agent (settle p) = the_agent p.
Proof using Type. unfold settle. by destruct (network_isConnected _). Qed.

Lemma settle_pending p :
  pending (protocolHandler (settle p)) <> None -> network_isConnected (network (the_agent (settle p))) = true.
Proof using Type. rewrite settle_agent. unfold settle. by destruct (network_isConnected _) eqn:E. Qed.

Lemma settle_rest p :
  ProtocolHandler.buffer (protocolHandler (settle p)) = ProtocolHandler.buffer (protocolHandler p) /\
  randomNumbers (settle p) = randomNumbers p /\ ready (settle p) = ready p /\ running (settle p) = running p /\
  writer (settle p) = writer p.
Proof using Type. unfold settle. by destruct (network_isConnected _). Qed.

Lemma settle_advances p p' :
  (sane p -> steps (the_agent p) (the_agent p')) ->
  length (ProtocolHandler.buffer (protocolHandler p')) = length (ProtocolHandler.buffer (protocolHandler p)) ->
  randomNumbers p' = randomNumbers p -> advances p (settle p').
Proof using Type.
  intros Hs Hb Hr. destruct (settle_rest p') as (E1 & E2 & _). apply advances_intro.
  - intros Hp. rewrite settle_agent. by apply Hs.
  - by rewrite E1.
  - intros _. apply settle_pending.
  - by rewrite E2.
Qed.

Lemma the_agent_put a p : the_agent (put_agent a p) = a.
Proof using Type. unfold put_agent. rewrite settle_agent. by destruct a. Qed.

Lemma the_agent_on f p : the_agent (on_agent f p) = f (the_agent p).
Proof using Type. apply the_agent_put. Qed.

Lemma put_agent_advances a p : (sane p -> steps (the_agent p) a) -> advances p (put_agent a p).
Proof using Type. intros Ha. apply settle_advances; try done. by destruct a. Qed.

Lemma on_agent_elsewhere f p :
  (forall a, controller (f a) = controller a /\ CollectorController.now (f a) = CollectorController.now a) -> advances p (on_agent f p).
Proof using Type. intros Hf. apply put_agent_advances. intros _. destruct (Hf (the_agent p)). by apply elsewhere. Qed.

Lemma on_writer_advances f p p' :
  (forall w w', f w = Ok w' -> writer_steps w w') -> on_writer f p = Ok p' -> advances p p'.
Proof using Type.
  intros Hf E. unfold on_writer in E. apply bind_ok in E as (w & E & [= <-]).
  apply settle_advances; try done. intros _. by apply Hf.
Qed.

Lemma put_queue_advances c p : advances p (put_queue c p).
Proof using Type. apply advances_intro; try done; [intros _; by apply elsewhere|exact (sane_pending p)]. Qed.

Lemma deliver_advances e p p' : deliver_event e p = Ok p' -> advances p p'.
Proof using Type.
  intros E. assert (on_writer (deliver_event e) p = Ok p') as E' by (by destruct e as [[]|[]|[]]).
  by eapply on_writer_advances; [apply deliver_steps|].
Qed.
(** ** Connecting *)

Lemma the_agent_onSocketConnected p : the_agent (onSocketConnected p) = the_agent p.
Proof using Type.
  unfold onSocketConnected, attemptRead. by destruct (listener_isConnected _).
Qed.

Lemma the_agent_onSocketConnect p : the_agent (onSocketConnect cfg p) = CollectorController.onSocketConnect cfg id (the_agent p).
Proof using Type.
  unfold onSocketConnect. by rewrite !the_agent_on, the_agent_onSocketConnected, the_agent_on.
Qed.

Lemma the_agent_attemptConnect p :
  let '(connected, p') := attemptConnect cfg p in
  (connected, the_agent p') = CollectorController.attemptConnect cfg id (the_agent p).
Proof using Type.
  unfold attemptConnect, CollectorController.attemptConnect. destruct (network_connect _) as [[] n].
  - by rewrite the_agent_onSocketConnect, the_agent_on.
  - by rewrite the_agent_on.
Qed.

(** Polling is polling the controller alone, whose connect handler does nothing
    to it. *)
Lemma the_agent_poll p :
  let '(worked, p') := controller_poll cfg p in
  (worked, the_agent p') = poll cfg id (next_random p).1 (the_agent p).
Proof using Type.
  unfold controller_poll, poll. destruct (state_ (controller (the_agent p))) eqn:Es; try done.
  unfold next_random. destruct (randomNumbers p) as [|r rs]; cbn [fst].
  - pose proof (the_agent_attemptConnect (on_agent (backoff 0) p)) as E. by rewrite the_agent_on in E.
  - pose proof (the_agent_attemptConnect (on_agent (backoff r) (set_randomNumbers rs p))) as E.
    by rewrite the_agent_on in E.
Qed.

(** What connecting does besides. *)
Lemma onSocketConnected_buffer p :
  ProtocolHandler.buffer (protocolHandler (onSocketConnected p)) = ProtocolHandler.buffer (protocolHandler p) /\
  randomNumbers (onSocketConnected p) = randomNumbers p.
Proof using Type. unfold onSocketConnected, attemptRead. by destruct (listener_isConnected _). Qed.

Lemma on_agent_rest f p :
  ProtocolHandler.buffer (protocolHandler (on_agent f p)) = ProtocolHandler.buffer (protocolHandler p) /\
  randomNumbers (on_agent f p) = randomNumbers p.
Proof using Type. unfold on_agent, put_agent. by destruct (settle_rest (set_writer (put_controller (f (the_agent p)) (writer p)) p)) as (-> & -> & _). Qed.

Lemma on_agent_pending f p :
  pending (protocolHandler (on_agent f p)) <> None -> network_isConnected (network (the_agent (on_agent f p))) = true.
Proof using Type. apply settle_pending. Qed.

Lemma onSocketConnect_rest p :
  ProtocolHandler.buffer (protocolHandler (onSocketConnect cfg p)) = ProtocolHandler.buffer (protocolHandler p) /\
  randomNumbers (onSocketConnect cfg p) = randomNumbers p.
Proof using Type.
  unfold onSocketConnect. set (p1 := on_agent _ p). set (p2 := on_agent (sendHello cfg) _).
  destruct (on_agent_rest onSentHello p2) as [-> ->]. subst p2.
  destruct (on_agent_rest (sendHello cfg) (onSocketConnected p1)) as [-> ->].
  destruct (onSocketConnected_buffer p1) as [-> ->]. apply on_agent_rest.
Qed.

Lemma attemptConnect_rest p :
  let '(_, p') := attemptConnect cfg p in
  ProtocolHandler.buffer (protocolHandler p') = ProtocolHandler.buffer (protocolHandler p) /\
  randomNumbers p' = randomNumbers p /\
  (pending (protocolHandler p') <> None -> network_isConnected (network (the_agent p')) = true).
Proof using Type.
  unfold attemptConnect. destruct (network_connect _) as [[] n]; set (p1 := on_agent _ p);
    destruct (on_agent_rest (CollectorController.set_network n) p) as [E1 E2]; fold p1 in E1, E2.
  - destruct (onSocketConnect_rest p1) as [-> ->]. split_and!; [done|done|]. apply on_agent_pending.
  - split_and!; [done|done|]. apply on_agent_pending.
Qed.

Lemma poll_advances p : advances p (controller_poll cfg p).2.
Proof using Type.
  intros Hp. pose proof (the_agent_poll p) as E. pose proof Hp as [G B C R].
  assert (0 <= (next_random p).1 <= RANDOMISATION_RANGE_IN_MS) as Hr.
  { unfold next_random, RANDOMISATION_RANGE_IN_MS in *. destruct (randomNumbers p) as [|r rs]; [simpl; lia|].
    by apply Forall_cons_1 in R as [? _]. }
  destruct (controller_poll cfg p) as [worked p'] eqn:Epoll. cbn [snd].
  assert (steps (the_agent p) (the_agent p')) as Hs.
  { apply (f_equal snd) in E. cbn [snd] in E. rewrite E. by apply (one_step Local), step_poll. }
  split; [done|]. unfold controller_poll in Epoll.
  destruct (state_ (controller (the_agent p))); try (by injection Epoll as _ <-).
  unfold next_random in Epoll. destruct (randomNumbers p) as [|r rs] eqn:Er.
  - pose proof (attemptConnect_rest (on_agent (backoff 0) p)) as Hrest. rewrite Epoll in Hrest.
    destruct Hrest as (E1 & E2 & E3). destruct (on_agent_rest (backoff 0) p) as [F1 F2].
    split; [by eapply steps_good|by rewrite E1, F1|done|by rewrite E2, F2, Er].
  - pose proof (attemptConnect_rest (on_agent (backoff r) (set_randomNumbers rs p))) as Hrest. rewrite Epoll in Hrest.
    destruct Hrest as (E1 & E2 & E3). destruct (on_agent_rest (backoff r) (set_randomNumbers rs p)) as [F1 F2].
    split; [by eapply steps_good|by rewrite E1, F1|done|]. rewrite E2, F2. by apply Forall_cons_1 in R as [_ ?].
Qed.

Lemma onStart_advances p p' : controller_onStart cfg p = Ok p' -> advances p p'.
Proof using Type.
  intros E. unfold controller_onStart in E. destruct (isOn (the_agent p) && _) eqn:Es.
  - intros Hp. apply andb_true_iff in Es as [_ Es]. apply bool_decide_eq_true in Es.
    by destruct (sane_controller p Hp).
  - apply bind_ok in E as (a & E & [= <-]). apply put_agent_advances. intros _.
    by apply (one_step Local), step_start.
Qed.

Lemma onEnd_advances p p' : controller_onEnd p = Ok p' -> advances p p'.
Proof using Type.
  intros E. unfold controller_onEnd in E. apply bind_ok in E as (a & E & [= <-]). apply put_agent_advances. intros _.
  by apply (one_step Local), step_end.
Qed.
(** ** Handlers of the I/O service *)

Local Abbreviation handler := (ProtocolHandler.ProtocolHandler logWriter).

Lemma attemptRead_keeps (h : handler) :
  listener_ (attemptRead h) = listener_ h /\ ProtocolHandler.buffer (attemptRead h) = ProtocolHandler.buffer h.
Proof using Type. unfold attemptRead. by destruct (listener_isConnected _). Qed.

Lemma store_length dest bytes (b b' : list Z) : store dest bytes b = Ok b' -> length b' = length b.
Proof using Type.
  unfold store. destruct (Nat.leb_spec (dest + length bytes) (length b)); [|done]. intros [= <-].
  rewrite !length_app, length_take, length_drop. lia.
Qed.

Lemma onReadHeader_keeps ec (h h' : handler) :
  onReadHeader ec h = Ok h' -> listener_ h' = listener_ h /\ ProtocolHandler.buffer h' = ProtocolHandler.buffer h.
Proof using Type.
  unfold onReadHeader. destruct ec; try (by intros [= <-]). intros E. apply bind_ok in E as (v & _ & [= <-]).
  destruct v as [[size offset]|].
  - cbn zeta. by case_match.
  - by destruct (attemptRead_keeps (set_header (2 ^ 32 - 1) (offset h) h)) as [-> ->].
Qed.

Lemma onReadBody_keeps ec (h h' : handler) :
  onReadBody ec h = Ok h' ->
  writer_steps (listener_ h) (listener_ h') /\ ProtocolHandler.buffer h' = ProtocolHandler.buffer h.
Proof using Type.
  unfold onReadBody. destruct ec; try (intros [= <-]; destruct (attemptRead_keeps h) as [-> ->]; by split).
  intros E. apply bind_ok in E as (message & _ & E). apply bind_ok in E as (l & E & [= <-]).
  destruct (attemptRead_keeps (set_listener l h)) as [-> ->]. split; [|done]. cbn [listener_ set_listener].
  destruct (ParseFromArray message); [by eapply dispatch_steps|]. by injection E as <-.
Qed.

Lemma complete_read_keeps bytes ec (h h' : handler) :
  complete_read bytes ec h = Ok h' ->
  writer_steps (listener_ h) (listener_ h') /\
  length (ProtocolHandler.buffer h') = length (ProtocolHandler.buffer h).
Proof using Type.
  unfold complete_read. destruct (pending h) as [r|]; [|by intros [= <-]].
  intros E. apply bind_ok in E as (b & Eb & E). apply store_length in Eb.
  destruct (ProtocolHandler.handler r).
  - apply onReadHeader_keeps in E as [-> ->]. by split.
  - apply onReadBody_keeps in E as [Hs ->]. by split.
Qed.

Lemma due_spec t p : is_due t p = true -> due t (the_agent p).
Proof using Type. unfold is_due, due. destruct t as [d|]; [|done]. intros Hd%Z.leb_le. by exists d. Qed.

Lemma handler_advances e p p' : handler_of e p = Some (Ok p') -> advances p p'.
Proof using Type.
  unfold handler_of. destruct e as [bytes ec|millis| | | | |].
  - destruct (pending (protocolHandler p)); simpl; [|done]. destruct (read_ends _ _ _); [|done]. intros [= E].
    apply bind_ok in E as (h & E & [= <-]). apply complete_read_keeps in E as [Hs Hb].
    apply settle_advances; [|done..]. by intros _.
  - destruct (is_due _ p) eqn:Ed; [|done]. intros [= <-]. apply put_agent_advances. intros _.
    by apply (one_step Local), step_send_timer, due_spec.
  - destruct (is_due _ p) eqn:Ed; [|done]. intros [= <-]. apply put_agent_advances. intros _.
    by apply (one_step Local), step_receive_timer, due_spec.
  - destruct (is_due _ p) eqn:Ed; [|done]. intros _ Hp. apply due_spec in Ed as (d & Ed & _).
    pose proof (good_allocation _ _ (sane_controller p Hp)). congruence.
  - destruct (is_due _ p) eqn:Ed; [|done]. intros [= <-]. apply put_agent_advances. intros _.
    by apply (one_step Local), step_statistics_timer, due_spec.
  - by intros [= <-].
  - done.
Qed.

Lemma set_ready_advances l p : advances p (set_ready l p).
Proof using Type. apply advances_intro; try done. exact (sane_pending p). Qed.

(** What holds along every handler holds along a poll. *)
Section PollAlong.
Context (R : relation profiler) `{!PreOrder R}.
Context (R_ready : forall l p, R p (set_ready l p)) (R_handler : forall e p p', handler_of e p = Some (Ok p') -> R p p').

Lemma poll_one_along p n failed p' : poll_one (Ok p) = (n, failed, Ok p') -> R p p'.
Proof using PreOrder0 R_ready R_handler.
  unfold poll_one. destruct (ready p) as [|e events]; [by intros [= _ _ <-]|].
  destruct (handler_of e (set_ready events p)) as [o|] eqn:E.
  - intros [= _ _ ->]. etrans; [apply R_ready|]. by eapply R_handler.
  - intros [= _ _ <-]. apply R_ready.
Qed.

Lemma poll_loop_along i work p worked p' :
  Network.poll_loop poll_one i work (Ok p) = (worked, Ok p') -> R p p'.
Proof using PreOrder0 R_ready R_handler.
  revert work p. induction i as [|i IH]; intros work p; cbn [Network.poll_loop]; [by intros [= _ <-]|].
  destruct (poll_one (Ok p)) as [[n failed] o] eqn:E. destruct failed.
  - intros [= _ ->]. by eapply poll_one_along.
  - assert (forall j work o, (forall q, o <> Ok q) -> (Network.poll_loop poll_one j work o).2 = o) as Hbad.
    { intros [|j] work' o' Ho; [done|]. cbn [Network.poll_loop]. destruct o'; [by destruct (Ho a)|done..]. }
    destruct o as [q| | |what].
    + intros E'. etrans; [by eapply poll_one_along|]. by eapply IH.
    + intros E'. apply (f_equal snd) in E'. by rewrite Hbad in E'.
    + intros E'. apply (f_equal snd) in E'. by rewrite Hbad in E'.
    + intros E'. apply (f_equal snd) in E'. by rewrite Hbad in E'.
Qed.

Lemma network_poll_along p worked p' : network_poll p = Ok (worked, p') -> R p p'.
Proof using PreOrder0 R_ready R_handler.
  unfold network_poll, Network.poll. destruct (Network.poll_loop _ _ _ _) as [b o] eqn:E. intros E'.
  apply bind_ok in E' as (q & -> & [= _ <-]). by eapply poll_loop_along.
Qed.
End PollAlong.

(** ** Turns, signals, forks *)

#[local] Instance the_processor : ProcessorApi profiler := profiler_processor cfg processor_tid.

Lemma sleep_advances d p : 0 <= d -> advances p (Processor.sleep_ms d p).
Proof using Type. intros Hd. apply put_agent_advances. intros _. by apply (one_step Local), step_time. Qed.

(** A duration to sleep. *)
Definition duration (d : Z) : Prop := 0 <= d <= MAX_SLEEP_IN_MS.

(** What holds along the parts of a turn holds along the turn. *)
Lemma turn_along (R : relation profiler) `{!PreOrder R} d p d' p' :
  (forall q, R q (controller_poll cfg q).2) -> (forall l q, R q (set_ready l q)) ->
  (forall e q q', handler_of e q = Some (Ok q') -> R q q') -> (forall c q, R q (put_queue c q)) ->
  (forall e q q', deliver_event e q = Ok q' -> R q q') -> (forall n q, 0 <= n -> R q (Processor.sleep_ms n q)) ->
  duration d -> turn d p = Ok (d', p') -> R p p' /\ duration d'.
Proof using Type.
  intros R_poll R_ready R_handler R_put R_deliver R_sleep Hd E. unfold turn in E.
  apply bind_ok in E as ([worked p1] & E1 & E). apply bind_ok in E as ([polled p2] & E2 & E).
  apply bind_ok in E as ([active p3] & E3 & E).
  assert (R p p3) as Hadv.
  { etrans; [|etrans].
    - injection E1 as E1. pose proof (R_poll p) as Hpoll. rewrite E1 in Hpoll. exact Hpoll.
    - by eapply (network_poll_along R).
    - destruct (Processor.controller_isActive p2); [|by injection E3 as _ <-].
      apply bind_ok in E3 as ([i p4] & E4 & E3). injection E3 as _ <-.
      by eapply (pop_loop_along R); [apply R_put|apply R_deliver|]. }
  unfold duration, MAX_SLEEP_IN_MS in *. destruct (negb active && Processor.processorRunning p3); injection E as <- <-.
  - split; [etrans; [exact Hadv|apply R_sleep; lia]|]. pose proof (u64_range (d * 2)). lia.
  - split; [done|]. unfold MIN_SLEEP_IN_MS. lia.
Qed.

Lemma turn_advances d p d' p' : duration d -> turn d p = Ok (d', p') -> advances p p' /\ duration d'.
Proof using Type.
  apply (turn_along advances); auto using poll_advances, set_ready_advances, put_queue_advances, sleep_advances.
  - apply handler_advances.
  - apply deliver_advances.
Qed.

Lemma signal_advances signum at_ p p' : on_signal unw_strerror signum at_ p = Ok p' -> advances p p'.
Proof using Type. intros E. apply bind_ok in E as (c & _ & [= <-]). apply put_queue_advances. Qed.

Lemma set_running_advances b p : advances p (set_running b p).
Proof using Type. apply advances_intro; [intros _; by apply elsewhere|done|exact (sane_pending p)|done]. Qed.

Lemma clear_symbols_advances p : advances p (set_writer (LogWriter.onSocketConnected (writer p)) p).
Proof using Type. apply advances_intro; [intros _; by apply elsewhere|done|exact (sane_pending p)|done]. Qed.

Lemma then_steps f p q : advances p q -> (forall a, good cfg a -> steps a (f a)) -> advances p (on_agent f q).
Proof using Type. intros Hq Hf. etrans; [exact Hq|]. apply put_agent_advances. intros []. by apply Hf. Qed.

Lemma then_elsewhere f p q :
  advances p q ->
  (forall a, controller (f a) = controller a /\ CollectorController.now (f a) = CollectorController.now a) ->
  advances p (on_agent f q).
Proof using Type. intros Hq Hf. apply then_steps; [done|]. intros a _. destruct (Hf a). by apply elsewhere. Qed.

Lemma start_advances p q : advances p q -> advances p (start q).
Proof using Type.
  intros Hq. unfold start. apply then_elsewhere; [|done]. etrans; [|apply set_running_advances].
  by apply then_elsewhere.
Qed.

Lemma on_fork_advances p : advances p (on_fork p).
Proof using Type.
  apply start_advances. apply then_elsewhere; [|done]. apply then_elsewhere; [|done].
  etrans; [|apply clear_symbols_advances]. apply then_steps; [by apply then_elsewhere|].
  intros a _. by apply (one_step Local), step_fork.
Qed.

(** What may happen to the agent: a turn of the processor, its start and its
    end, a signal, a push by another thread, a fork, the passing of time, and
    whatever the system has ready for it. *)
Inductive agent_step p : profiler -> Prop :=
| agent_turn d d' p' : duration d -> turn d p = Ok (d', p') -> agent_step p p'
| agent_onStart p' :
    Processor.controller_onStart (Processor.on_processor_thread_start p) = Ok p' -> agent_step p p'
| agent_onEnd p' : Processor.controller_onEnd p = Ok p' -> agent_step p p'
| agent_signal signum at_ p' : on_signal unw_strerror signum at_ p = Ok p' -> agent_step p p'
| agent_push o enqueued c : exec_push o (the_queue p) = Ok (enqueued, c) -> agent_step p (put_queue c p)
| agent_start : agent_step p (start p)
| agent_fork : agent_step p (on_fork p)
| agent_time d : 0 <= d -> agent_step p (on_agent (CollectorController.sleep_ms d) p)
| agent_system events randoms :
    Forall (fun r => 0 <= r <= RANDOMISATION_RANGE_IN_MS) randoms ->
    agent_step p (set_ready events (set_randomNumbers randoms p)).

Lemma agent_step_advances p p' : agent_step p p' -> advances p p'.
Proof using Type.
  intros [d d' q Hd E|q E|q E|signum at_ q E|o b c _| | |d Hd|events randoms Hr].
  - by destruct (turn_advances d p d' q Hd E).
  - etrans; [|exact (onStart_advances _ _ E)]. by apply on_agent_elsewhere.
  - exact (onEnd_advances _ _ E).
  - by eapply signal_advances.
  - apply put_queue_advances.
  - by apply start_advances.
  - apply on_fork_advances.
  - by apply sleep_advances.
  - intros Hp. split; [by apply rtc_refl|]. destruct Hp. by split.
Qed.
(** C7. From its configuration on, whatever signals, messages, losses of the
    connection, timers, pushes and forks come, the controller inside the agent
    only takes the steps of its own transition system; so its backoff and its
    timers stay within their bounds, the read buffer keeps its size, and a read
    is pending on a connected socket only. *)
Theorem agent_stays_sane configuration version host build net met installed symbol0 tsc0 events randoms time p0 p :
  configure configuration version host build net met installed symbol0 tsc0 events randoms time = Ok (cfg, p0) ->
  Forall (fun r => 0 <= r <= RANDOMISATION_RANGE_IN_MS) randoms ->
  rtc agent_step p0 p ->
  steps (the_agent p0) (the_agent p) /\ sane p.
Proof using Type.
  unfold configure. destruct host as [hostname|]; [|done]. destruct (_ <? 0); [done|]. intros [= Es <-] Hr Hsteps.
  set (p0 := mkProfiler _ _ _ _) in *.
  assert (sane p0) as Hp0.
  { split; [by apply good_new|apply length_replicate|done|done]. }
  assert (forall q, rtc agent_step q p -> advances q p) as Hadv.
  { clear. intros q Hq. induction Hq as [|q1 q2 q3 Hstep _ IH]; [done|]. etrans; [by apply agent_step_advances|done]. }
  exact (Hadv p0 Hsteps Hp0).
Qed.
End Spec.

(** ** A configured agent whose collector is down *)

#[local] Existing Instance down_network.
#[local] Existing Instance no_metrics.
#[local] Existing Instance willing_kernel.
#[local] Existing Instance one_program.
#[local] Existing Instance one_thread.
#[local] Instance no_thread : MetricsThread unit := { metrics_startThread m := m; metrics_on_fork m := m }.
#[local] Instance no_messages : CollectorParser := { ParseFromArray _ := None }.

Definition some_options : Options.ConfigurationOptions :=
  Options.mkOptions EmptyString EmptyString EmptyString 8 "key" "agent" EmptyString EmptyString "1.0" EmptyString
    false false false EmptyString [] EmptyString 100 100.

Definition configured_profiler : profiler down unit :=
  mkProfiler (new_ProtocolHandler (mkLogWriter (new_CircularQueue None 0 8) (first_agent Down false) no_symbols ∅ ∅ []))
    [] [] false.

Lemma agent_stays_sane_witness :
  rtc (any_step (test_settings false) id id) (the_agent configured_profiler)
    (the_agent (on_agent (CollectorController.sleep_ms 5) configured_profiler)) /\
  sane (test_settings false) (on_agent (CollectorController.sleep_ms 5) configured_profiler).
Proof.
  apply (agent_stays_sane (H5 := chain_stack 0 4) (fun _ => "error"%string) (test_settings false) 7
    some_options "4.14.0" (Some "host"%string) (test_settings false) Down tt ∅ None 0 [] [] 0 configured_profiler).
  - reflexivity.
  - constructor.
  - apply rtc_once. by apply agent_time.
Defined.
