(* ===== verification/AgentFlowSpec.v ===== *)
(** * What passes through the agent

    A profiling signal becomes a sample at the collector, and the handshake
    brings the agent into operation. *)
From S2P Require Import Prelude MetricTypes InternalQueue CircularQueue CircularQueueSpec ListenerSim.
From S2P Require Import LinkableProfiler LinkableProfilerSpec Profiler ProfilerSpec Messages SignalHandler ProcScanner.
From S2P Require Import CollectorController CollectorControllerSpec SymbolTable SymbolTableSpec LogWriter LogWriterSpec.
From S2P Require Import Varint ProtocolHandler ProtocolHandlerSpec.
From S2P Require Import Processor ProcessorSpec.
From S2P Require Import Agent AgentSpec.
From S2P Require Network.

Section Flow.
Context {N M : Type} `{NetworkApi N} `{MetricsApi M} `{!MetricsThread M} `{Kernel} `{Backtrace} `{ThreadNames}.
Context `{CollectorParser} {Context Cursor : Type} `{Unwinder Context Cursor}.
Context (unw_strerror : Z -> string) (cfg : settings) (processor_tid : Z).
Local Abbreviation profiler := (profiler N M).
Local Abbreviation logWriter := (logWriter N M).
Implicit Types (p : profiler) (w : logWriter).
#[local] Instance flow_processor : ProcessorApi profiler := profiler_processor cfg processor_tid.

(** ** From the queues to the record *)

Lemma deliver_writer e p : deliver_event e p = on_writer (deliver_event e) p.
Proof using Type. by destruct e as [[]|[]|[]]. Qed.

Lemma writer_settle p : writer (settle p) = writer p.
Proof using Type. by destruct (settle_rest p) as (_ & _ & _ & _ & ->). Qed.

Lemma profiler_responsive : responsive (W := profiler) manageable.
Proof using Type.
  intros e p He. destruct (logWriter_responsive e (writer p) He) as (w & E & Hn).
  exists (settle (set_writer w p)). rewrite deliver_writer. unfold on_writer. rewrite E. split; [done|].
  cbn [the_queue profiler_queue]. by rewrite writer_settle.
Qed.

(** Envelopes other than samples, and nothing that changes what samples say. *)
Definition talks w w' : Prop :=
  exists l, posted l w w' /\ omap sample_in l = [] /\ symbols_ w' = symbols_ w /\
    forall sg, setSampleType sg w' = setSampleType sg w.

#[local] Instance talks_preorder : PreOrder talks.
Proof using Type.
  split; [by intros w; exists []; split; [by apply posted_nothing|]|].
  intros w1 w2 w3 (l & E1 & E2 & E3 & E4) (l' & F1 & F2 & F3 & F4). exists (l ++ l').
  rewrite omap_app, E2, F2, F3. split_and!; try done; [by eapply posted_app|]. intros sg. by rewrite F4.
Qed.

Lemma talks_queue c p : talks (writer p) (writer (put_queue c p)).
Proof using Type. exists []. split; [by apply posted_nothing|done]. Qed.

Lemma deliver_talks e p p' : trace_in e = None -> deliver_event e p = Ok p' -> talks (writer p) (writer p').
Proof using Type.
  intros He E. rewrite deliver_writer in E. unfold on_writer in E. apply bind_ok in E as (w' & E & [= <-]).
  destruct (deliver_other e (writer p) He) as (w1 & l & E1 & [F1 F2 _ F4 F5]). rewrite E1 in E. injection E as <-.
  rewrite writer_settle. by exists l.
Qed.

Lemma no_trace e : of_stack e = None -> trace_in e = None.
Proof using Type. by destruct e. Qed.

Lemma history_talks p es p' : delivered p es p' -> omap of_stack es = [] -> talks (writer p) (writer p').
Proof using Type.
  intros Hd. induction Hd as [|c es q Hd IH|e es q q' Hd IH E]; intros Hes.
  - reflexivity.
  - etrans; [by apply IH|apply talks_queue].
  - rewrite omap_app in Hes. apply app_eq_nil in Hes as [Hes He]. etrans; [by apply IH|].
    apply deliver_talks in E; [done|]. apply no_trace. simpl in He. by destruct (of_stack e).
Qed.

(** The one trace among the items becomes the one sample. *)
Lemma history_trace p es p' ts t sg st tsc :
  delivered p es p' -> omap of_stack es = [TraceTaken ts t sg st tsc] -> traceable t ->
  exists w1 w2 names ls, talks (writer p) w1 /\ traced ts t sg st names ls w1 w2 /\ talks w2 (writer p').
Proof using Type.
  intros Hd Hes Ht. revert Hes. induction Hd as [|c es q Hd IH|e es q q' Hd IH E]; intros Hes; [done|..].
  - destruct (IH Hes) as (w1 & w2 & names & ls & T1 & T2 & T3). exists w1, w2, names, ls.
    split_and!; [done|done|]. etrans; [exact T3|apply talks_queue].
  - rewrite omap_app in Hes. simpl in Hes. destruct (of_stack e) as [x|] eqn:Ex.
    + assert (omap of_stack es = [] /\ x = TraceTaken ts t sg st tsc) as [Hno ->].
      { destruct (omap of_stack es) as [|y l]; [by injection Hes|]. by destruct l. }
      destruct e as [| |s]; try done. injection Ex as ->.
      rewrite deliver_writer in E. unfold on_writer in E. apply bind_ok in E as (w' & E & [= <-]).
      destruct (recordStackTrace_traced ts t sg st tsc (writer q) Ht) as (name & w2 & w3 & names & ls & _ & _ & s & E' & Htr).
      cbn in E. rewrite E' in E. injection E as <-. rewrite writer_settle.
      exists (writer q), (recordWithSize (Sample s) w3), names, ls. split_and!; [by eapply history_talks|done|reflexivity].
    + rewrite app_nil_r in Hes. destruct (IH Hes) as (w1 & w2 & names & ls & T1 & T2 & T3).
      exists w1, w2, names, ls. split_and!; [done|done|]. etrans; [exact T3|].
      eapply deliver_talks; [by apply no_trace|exact E].
Qed.
(** ** From a signal to a sample *)

(** Nothing is ready at the I/O service. *)
Lemma idle_polls p i work : ready p = [] -> Network.poll_loop poll_one i work (Ok p) = ((0 <? work)%nat, Ok p).
Proof using Type.
  intros Hr. revert work. induction i as [|i IH]; intros work; [done|]. cbn [Network.poll_loop poll_one].
  rewrite Hr, IH. by rewrite Nat.add_0_r.
Qed.

Lemma idle_network p : ready p = [] -> network_poll p = Ok (false, p).
Proof using Type. intros Hr. unfold network_poll, Network.poll. by rewrite idle_polls. Qed.

Lemma connected_poll p : state_ (controller (the_agent p)) <> DISCONNECTED -> Agent.controller_poll cfg p = (false, p).
Proof using Type. intros Hs. unfold Agent.controller_poll. by destruct (state_ _). Qed.

(** With nothing else to do, a turn is the popping. *)
Lemma turn_pops d p i p' :
  state_ (controller (the_agent p)) = CONNECTED -> ready p = [] ->
  pop_loop MAX_POLLS 0 p = Ok (i, p') -> (0 < i)%nat -> turn d p = Ok (MIN_SLEEP_IN_MS, p').
Proof using Type.
  intros Hs Hr Hpop Hi. unfold turn. cbn [Processor.controller_poll flow_processor profiler_processor].
  rewrite connected_poll by (by rewrite Hs). cbn [mbind outcome_bind].
  assert (Processor.network_poll p = Ok (false, p)) as -> by (by apply idle_network).
  assert (Processor.controller_isActive p = true) as Ea.
  { cbn. unfold isActive, isConnected. by rewrite Hs. }
  cbn [mbind outcome_bind]. rewrite Ea, Hpop. cbn [mbind outcome_bind orb].
  by rewrite (proj2 (Nat.ltb_lt 0 i) Hi).
Qed.

(** A walk that reached the end of the stack. *)
Definition good_walk (at_ : moment) : Prop := walkable at_ /\ walk_failed = false.

Lemma sample_frames max signum at_ :
  walk_failed = false -> (length walked.1 <= max)%nat -> quiet_frames (drop 3 walked.1) ->
  exists t, sample max signum at_ = TraceTaken (Profiler.now at_) t signum 0 (u64 (stack_ts at_ - start_ts at_)) /\
    traceable t /\ looked_up t = drop 3 walked.1 /\ num_frames t = Z.of_nat (length walked.1) /\
    threadId t = pthread_self at_.
Proof using Type.
  intros Hok Hmax Hq. unfold sample. rewrite Hok. eexists. split; [done|]. cbn [num_frames threadId].
  assert (looked_up (mkCallTrace (Z.of_nat (length walked.1)) (pthread_self at_) (padded max (length walked.1) walked.1))
    = drop 3 walked.1) as El.
  { unfold looked_up, frame_count, padded. cbn [num_frames frames]. rewrite firstn_all.
    destruct (Nat.le_gt_cases 3 (length walked.1)) as [Hlong|Hshort].
    - rewrite drop_app_le by done. rewrite take_app_le by (rewrite length_drop; lia).
      apply take_ge. rewrite length_drop. lia.
    - replace (Z.to_nat (Z.abs (Z.of_nat (length walked.1)) - 3)) with O by lia. rewrite take_0.
      symmetry. apply drop_ge. lia. }
  split_and!; [|done|done|done]. split; [|by rewrite El].
  unfold in_array, frame_count, padded. cbn [num_frames frames]. rewrite firstn_all, length_app, length_replicate. lia.
Qed.

(** The handler leaves the trace as the only one in the queues. *)
Lemma signal_queued max signum at_ c l :
  profiling_signal signum -> good_walk at_ -> (length walked.1 <= max)%nat ->
  holds max c l -> alloc_items l = [] -> stack_items l = [] ->
  exists c' l', handle unw_strerror signum at_ c = Ok c' /\ holds max c' l' /\
    alloc_items l' = [] /\ stack_items l' = [sample max signum at_].
Proof using Type.
  intros Hsig [Hwalk Hok] Hmax Hl Ha Hs.
  assert (has_room l (StackEvent (sample max signum at_)) = true) as Hroom by (simpl; by rewrite Hs).
  destruct (handle_pushes unw_strerror max signum at_ c l Hsig Hwalk (fun _ => Hmax) Hl) as (c1 & c2 & _ & _ & Ec & Hc).
  rewrite Hroom in Ec, Hc. destruct Hc as [Hc _]. eexists c2, _. split; [exact Ec|]. split; [exact Hc|].
  unfold reported. rewrite Hok. simpl. by rewrite Hs.
Qed.

(** ** The handshake *)

Lemma settle_connected p : network_isConnected (network (the_agent p)) = true -> settle p = p.
Proof using Type. intros Hc. unfold settle. change (network (controller_ (writer p))) with (network (the_agent p)). by rewrite Hc. Qed.

(** The parts of the agent that sending and switching leave alone. *)
Record same_rest p p' : Prop := {
  rest_ready : ready p' = ready p;
  rest_running : running p' = running p;
  rest_buffer : ProtocolHandler.buffer (protocolHandler p') = ProtocolHandler.buffer (protocolHandler p);
  rest_recorded : recorded (writer p') = recorded (writer p);
  rest_queue : exists f, the_queue p' = set_failures f (the_queue p)
}.

#[local] Instance same_rest_preorder : PreOrder same_rest.
Proof using Type.
  split; [intros p; split; try done; exists (failures (the_queue p)); by rewrite set_same_failures|].
  intros p1 p2 p3 [A1 A2 A3 A4 [f A5]] [B1 B2 B3 B4 [g B5]]. split; try congruence. exists g. by rewrite B5, A5.
Qed.

Lemma on_agent_same f p : same_rest p (on_agent f p).
Proof using Type.
  unfold on_agent, put_agent. destruct (settle_rest (set_writer (put_controller (f (the_agent p)) (writer p)) p))
    as (E1 & E2 & E3 & E4 & E5).
  split; rewrite ?E1, ?E3, ?E4, ?E5; try done. exists (counters (f (the_agent p))).
  cbn [the_queue profiler_queue]. by rewrite E5.
Qed.

Lemma holds_failures max f c l : holds max c l -> holds max (set_failures f c) l.
Proof using Type. by intros []. Qed.

(** A reader that waits for a header. *)
Definition awaits_header p : Prop := pending (protocolHandler p) = Some (mkRead 0 5 OnReadHeader).

Lemma on_agent_awaits f p :
  awaits_header p -> network_isConnected (network (f (the_agent p))) = true -> awaits_header (on_agent f p).
Proof using Type.
  intros Hp Hc. unfold on_agent, put_agent, awaits_header. rewrite settle_connected; [exact Hp|]. by destruct (f (the_agent p)).
Qed.

Lemma onSocketConnected_same p : same_rest p (onSocketConnected p).
Proof using Type.
  destruct (onSocketConnected_buffer p) as [Eb _]. split; [..|exists (failures (the_queue p)); rewrite set_same_failures];
    try exact Eb; unfold onSocketConnected, attemptRead; by destruct (listener_isConnected _).
Qed.

Lemma onSocketConnected_awaits p : network_isConnected (network (the_agent p)) = true -> awaits_header (onSocketConnected p).
Proof using Type.
  intros Hc. unfold onSocketConnected, attemptRead, awaits_header. cbn [listener_isConnected writer_messages agent_listener].
  change (network (controller_ (listener_ (protocolHandler p)))) with (network (the_agent p)). by rewrite Hc.
Qed.

(** The hello of this agent. *)
Definition hello : AgentEnvelope :=
  Hello (apiKey_ cfg) (pid cfg)
    (mkContext (agentId_ cfg) (hostname_ cfg) (ocamlVersion_ cfg) (applicationVersion_ cfg)
      (AGENT_VERSION cfg) OCAML (processorCount cfg) (GIT_STR cfg) (BUILD_TYPE cfg) (tm_zone cfg) (tm_gmtoff cfg) PERS_OCAML).

Lemma backoff_rest r (a : agent N M) :
  network (backoff r a) = network a /\ exists b, controller (backoff r a) = set_backoff b (controller a).
Proof using Type. unfold backoff. destruct (_ =? _); (split; [done|]); by eexists. Qed.

Lemma next_random_same p : let '(_, p') := next_random p in the_agent p' = the_agent p /\ same_rest p p'.
Proof using Type.
  unfold next_random. destruct (randomNumbers p); (split; [done|]); [reflexivity|].
  split; try done. exists (failures (the_queue p)). by rewrite set_same_failures.
Qed.

(** The first half: connecting and the hello. *)
Lemma connects p :
  reliable (N := N) -> state_ (controller (the_agent p)) = DISCONNECTED ->
  exists p1, Agent.controller_poll cfg p = (true, p1) /\ same_rest p p1 /\ awaits_header p1 /\
    state_ (controller (the_agent p1)) = SENT_HELLO /\
    network (the_agent p1) = transmits [hello] (network_connect (network (the_agent p))).2 /\
    network_isConnected (network (the_agent p1)) = true /\
    notifications (controller (the_agent p1)) = notifications (controller (the_agent p)) /\
    allocationTimer_ (controller (the_agent p1)) = allocationTimer_ (controller (the_agent p)) /\
    processTimeStackSampleIntervalMillis_ (controller (the_agent p1)) =
      processTimeStackSampleIntervalMillis_ (controller (the_agent p)) /\
    elapsedTimeStackSampleIntervalMillis_ (controller (the_agent p1)) =
      elapsedTimeStackSampleIntervalMillis_ (controller (the_agent p)).
Proof using Type.
  intros Hrel Hs. unfold Agent.controller_poll. rewrite Hs. pose proof (next_random_same p) as Hnext.
  destruct (next_random p) as [r p0]. destruct Hnext as [Ea0 Hp0].
  set (q1 := on_agent (backoff r) p0). assert (the_agent q1 = backoff r (the_agent p)) as Ea1 by (unfold q1; by rewrite the_agent_on, Ea0).
  destruct (backoff_rest r (the_agent p)) as [Enet (b & Ectl)].
  unfold attemptConnect. rewrite Ea1, Enet. pose proof Hrel as [Hconn _].
  destruct (Hconn (network (the_agent p))) as [Eok Hup]. destruct (network_connect _) as [ok n]. cbn [fst snd] in Eok, Hup. subst ok.
  set (q2 := on_agent (CollectorController.set_network n) q1).
  assert (the_agent q2 = CollectorController.set_network n (backoff r (the_agent p))) as Ea2 by (unfold q2; by rewrite the_agent_on, Ea1).
  unfold onSocketConnect. set (q3 := on_agent _ q2). set (q4 := onSocketConnected q3). set (q5 := on_agent (sendHello cfg) q4).
  set (q6 := on_agent onSentHello q5).
  assert (the_agent q4 = on_controller (fun c => set_backoff 0 (set_state SOCKET_CONNECTED c)) (the_agent q2)) as Ea4.
  { unfold q4, q3. by rewrite the_agent_onSocketConnected, the_agent_on. }
  assert (network (the_agent q4) = n) as En4 by (by rewrite Ea4, Ea2).
  destruct (send_reliable hello (the_agent q4) Hrel) as [Esend Hsent]; [by rewrite En4|]. rewrite En4 in Esend, Hsent.
  assert (the_agent q5 = CollectorController.set_network (transmits [hello] n) (the_agent q4)) as Ea5
    by (unfold q5; rewrite the_agent_on; exact Esend).
  exists q6. assert (the_agent q6 = onSentHello (the_agent q5)) as Ea6 by apply the_agent_on.
  rewrite Ea6, Ea5, Ea4, Ea2. split; [done|]. split; [|split].
  - etrans; [exact Hp0|]. etrans; [apply (on_agent_same (backoff r))|]. etrans; [apply on_agent_same|].
    etrans; [apply on_agent_same|]. etrans; [apply onSocketConnected_same|]. etrans; apply on_agent_same.
  - apply on_agent_awaits; [apply on_agent_awaits; [apply onSocketConnected_awaits|]|].
    + rewrite <- (the_agent_onSocketConnected q3). fold q4. by rewrite En4.
    + change (sendHello cfg (the_agent q4)) with (CollectorController.recordWithSize hello (the_agent q4)). by rewrite Esend.
    + by rewrite Ea5.
  - simpl. rewrite Ectl. by split_and!.
Qed.
(** One read that ends as it should. *)
Lemma read_done p bytes events request h :
  Agent.ready p = ReadDone bytes NoError :: events ->
  pending (protocolHandler p) = Some request -> Z.of_nat (length bytes) = read_length request ->
  complete_read bytes NoError (protocolHandler p) = Ok h ->
  network_isConnected (network (controller_ (listener_ h))) = true ->
  poll_one (Ok p) = (1%nat, false, Ok (set_protocolHandler h (set_ready events p))).
Proof using Type.
  intros Hr Hp Hlen Hread Hc. unfold poll_one. rewrite Hr. unfold handler_of.
  cbn [protocolHandler set_ready]. rewrite Hp. cbn [option_bind mbind read_ends]. rewrite Hlen, Z.eqb_refl, Hread.
  cbn [mbind outcome_bind]. rewrite settle_connected; [done|exact Hc].
Qed.

Lemma poll_loop_step {W} (f : W -> nat * bool * W) i work x n y :
  f x = (n, false, y) -> Network.poll_loop f (S i) work x = Network.poll_loop f i (work + n) y.
Proof using Type. intros E. cbn [Network.poll_loop]. by rewrite E. Qed.

(** Two reads, and nothing else. *)
Lemma two_reads p p1 p2 :
  poll_one (Ok p) = (1%nat, false, Ok p1) -> poll_one (Ok p1) = (1%nat, false, Ok p2) -> Agent.ready p2 = [] ->
  network_poll p = Ok (true, p2).
Proof using Type.
  intros E1 E2 Hr. unfold network_poll, Network.poll, Network.MAX_POLLS.
  by rewrite (poll_loop_step _ _ _ _ _ _ E1), (poll_loop_step _ _ _ _ _ _ E2), idle_polls.
Qed.

(** The second half: the message is read and acted on. *)
Lemma first_message p m r e1 e2 :
  reliable (N := N) -> workable m -> ParseFromArray m = Some (SampleRateMessage r) -> timer_fits r ->
  state_ (controller (the_agent p)) = SENT_HELLO -> network_isConnected (network (the_agent p)) = true ->
  length (ProtocolHandler.buffer (protocolHandler p)) = MAX_BUFFER_SIZE -> awaits_header p ->
  e1 = take MAX_HEADER_SIZE (framed m) -> e2 = drop MAX_HEADER_SIZE (framed m) ->
  Agent.ready p = [ReadDone e1 NoError; ReadDone e2 NoError] ->
  exists p' a, network_poll p = Ok (true, p') /\ onSampleRate r (the_agent p) = Ok a /\ the_agent p' = a /\
    awaits_header p' /\ the_queue p' = set_failures (counters a) (the_queue p) /\ recorded (writer p') = recorded (writer p) /\
    running p' = running p.
Proof using Type.
  intros Hrel Hm Hparse Hfit Hs Hc Hb Hp -> -> Hr.
  destruct (first_sample_rate r (the_agent p) Hrel Hc Hs Hfit) as (a & Ea & _ & _ & _ & Hca & _).
  pose proof Hm as [_ Hlong _].
  destruct (header_step m [] (protocolHandler p)) as (h1 & E1 & Hreading);
    [by split|done|constructor|]. rewrite app_nil_r in E1, Hreading.
  destruct (body_step m [] (writer p) (put_controller a (writer p)) h1) as (h2 & E2 & [Hp2 Hb2 Hc2] & El2).
  { by rewrite app_nil_r. }
  { done. }
  { unfold receive. rewrite Hparse. cbn [dispatch on_sample_rate writer_messages agent_listener].
    change (controller_view (writer p)) with (the_agent p). by rewrite Ea. }
  { by destruct a. }
  set (p1 := set_protocolHandler h1 (set_ready [ReadDone (drop MAX_HEADER_SIZE (framed m)) NoError] p)).
  set (p2 := set_protocolHandler h2 (set_ready [] p1)).
  assert (poll_one (Ok p) = (1%nat, false, Ok p1)) as P1.
  { eapply read_done; [exact Hr|exact Hp| |exact E1|].
    - cbn [read_length]. rewrite take_5 by done. done.
    - by rewrite (reading_listener _ _ _ _ Hreading). }
  assert (poll_one (Ok p1) = (1%nat, false, Ok p2)) as P2.
  { eapply read_done; [done|exact (reading_pending _ _ _ _ Hreading)| |exact E2|exact Hc2].
    cbn [read_length]. rewrite length_drop. unfold MAX_HEADER_SIZE in *. lia. }
  assert (writer p2 = put_controller a (writer p)) as Ew by exact El2.
  exists p2, a. split_and!; [by eapply two_reads|exact Ea| |exact Hp2|..].
  - unfold the_agent. rewrite Ew. apply view_put.
  - cbn [the_queue profiler_queue]. by rewrite Ew.
  - by rewrite Ew.
  - done.
Qed.

(** C10. With a collector that answers, one turn of the processor takes a
    disconnected agent into operation: it connects, sends the hello and nothing
    before it, reads the sample rate message, whose length and bytes arrive in
    two pieces, sends the notifications it had stashed, takes over the intervals,
    starts its timers, and waits for the next message. *)
Theorem handshake max d p m r :
  reliable (N := N) -> workable m -> ParseFromArray m = Some (SampleRateMessage r) -> timer_fits r ->
  state_ (controller (the_agent p)) = DISCONNECTED ->
  length (ProtocolHandler.buffer (protocolHandler p)) = MAX_BUFFER_SIZE ->
  Agent.ready p = [ReadDone (take MAX_HEADER_SIZE (framed m)) NoError; ReadDone (drop MAX_HEADER_SIZE (framed m)) NoError] ->
  holds max (the_queue p) (Contents [] [] []) ->
  exists p', turn d p = Ok (MIN_SLEEP_IN_MS, p') /\
    let c := controller (the_agent p) in let c' := controller (the_agent p') in
    state_ c' = CONNECTED /\ awaits_header p' /\
    network (the_agent p') =
      transmits (hello :: (notification_of <$> notifications c)) (network_connect (network (the_agent p))).2 /\
    notifications c' = [] /\
    processTimeStackSampleIntervalMillis_ c' =
      new_rate (switch_process_time_profiling_on r) (process_time_stack_sample_rate_millis r)
        (processTimeStackSampleIntervalMillis_ c) /\
    elapsedTimeStackSampleIntervalMillis_ c' =
      new_rate (switch_elapsed_time_profiling_on r) (elapsed_time_stack_sample_rate_millis r)
        (elapsedTimeStackSampleIntervalMillis_ c) /\
    timers c' = (Some (CollectorController.now (the_agent p') + SEND_TIMEOUT_IN_MS),
      Some (CollectorController.now (the_agent p') + TIMEOUT_IN_MS), allocationTimer_ c,
      Some (CollectorController.now (the_agent p') + AGENT_STATISTICS_TIMEOUT_IN_MS)) /\
    recorded (writer p') = recorded (writer p).
Proof using Type.
  intros Hrel Hm Hparse Hfit Hs Hb Hr Hl.
  destruct (connects p Hrel Hs) as (p1 & E1 & [R1 R2 R3 R4 [f R5]] & Hp1 & S1 & N1 & C1 & T1 & A1 & I1 & J1).
  destruct (first_message p1 m r _ _ Hrel Hm Hparse Hfit S1 C1 ltac:(by rewrite R3) Hp1 eq_refl eq_refl ltac:(by rewrite R1))
    as (p2 & a & E2 & Ea & Ea2 & Hp2 & Eq2 & Er2 & _).
  destruct (first_sample_rate r (the_agent p1) Hrel C1 S1 Hfit) as (a' & Ea' & F1 & F2 & F3 & F4 & F5 & F6 & F7 & F8).
  rewrite Ea in Ea'. injection Ea' as <-.
  exists p2. split.
  - unfold turn. cbn [Processor.controller_poll flow_processor profiler_processor]. rewrite E1. cbn [mbind outcome_bind].
    assert (Processor.network_poll p1 = Ok (true, p2)) as -> by exact E2. cbn [mbind outcome_bind orb].
    assert (Processor.controller_isActive p2 = true) as ->.
    { cbn. unfold isActive, isConnected. by rewrite Ea2, F1. }
    unfold MAX_POLLS. cbn [pop_loop]. rewrite (pop_nothing max p2); [done|].
    rewrite Eq2, R5. by apply holds_failures, holds_failures.
  - cbv zeta. rewrite Ea2, F1, F2, F3, F5, F6, F7, F8, N1, T1, A1, I1, J1, Er2, R4. by split_and!.
Qed.
End Flow.

(** ** An agent with a collector that accepts everything *)

Record accepting := Accepting { up : bool; sent : list AgentEnvelope }.

#[local] Instance accepting_network : NetworkApi accepting := {
  network_isConnected := up;
  network_connect n := (true, Accepting true (sent n));
  network_transmit e n := (if up n then (Delivered, Accepting true (sent n ++ [e])) else (NotDelivered, n));
  network_close n := Accepting false (sent n)
}.

Lemma accepting_reliable : reliable (N := accepting).
Proof. split; [done|]. intros e [[] s] Hup; [|done]. by eexists. Qed.

Lemma offers_accepting es s : offers es (Accepting true s) = Accepting true (s ++ es).
Proof.
  revert s. induction es as [|e es IH]; intros s; [by rewrite app_nil_r|].
  change (offers es (Accepting true (s ++ [e])) = Accepting true (s ++ e :: es)). rewrite IH, <- app_assoc. done.
Qed.

#[local] Existing Instance no_metrics.
#[local] Existing Instance willing_kernel.
#[local] Existing Instance one_program.
#[local] Existing Instance one_thread.
#[local] Existing Instance no_thread.

(** Every body is read as the same message. *)
Definition twenty_ms : SampleRate := mkSampleRate 20 0 true false false false 0 false 0 false 0 [].
#[local] Instance one_message : CollectorParser := { ParseFromArray _ := Some (SampleRateMessage twenty_ms) }.

Definition ten_bytes : list Z := [1; 2; 3; 4; 5; 6; 7; 8; 9; 10].

Definition agent_in (s : State) (n : accepting) (pending_notifications : list (NotificationCategory.t * string)) :
    agent accepting unit :=
  on_controller (fun c => set_state s (set_notifications pending_notifications c)) (first_agent n false).

Definition profiler_with (a : agent accepting unit) (events : list io_event) : profiler accepting unit :=
  mkProfiler (new_ProtocolHandler (mkLogWriter (new_CircularQueue None 0 8) a no_symbols ∅ ∅ [])) events [] true.

Definition waiting_profiler : profiler accepting unit :=
  profiler_with (agent_in DISCONNECTED (Accepting false []) [(NotificationCategory.USER_ERROR, "early"%string)])
    [ReadDone (take MAX_HEADER_SIZE (framed ten_bytes)) NoError; ReadDone (drop MAX_HEADER_SIZE (framed ten_bytes)) NoError].

Definition connected_profiler : profiler accepting unit :=
  profiler_with (agent_in CONNECTED (Accepting true []) []) [].

#[local] Existing Instance flow_processor.

Lemma handshake_witness :
  exists p', turn (H1 := flow_processor (test_settings false) 7) 2 waiting_profiler = Ok (MIN_SLEEP_IN_MS, p') /\
    state_ (controller (the_agent p')) = CONNECTED /\
    network (the_agent p') =
      Accepting true [hello (test_settings false); Notification "early" NotificationCategory.USER_ERROR] /\
    processTimeStackSampleIntervalMillis_ (controller (the_agent p')) = 20.
Proof.
  destruct (handshake (test_settings false) 7 8 2 waiting_profiler ten_bytes twenty_ms)
    as (p' & E & Es & _ & En & _ & Ep & _).
  - exact accepting_reliable.
  - split; [repeat constructor; lia|apply Nat.leb_le; reflexivity|apply Nat.leb_le; reflexivity].
  - reflexivity.
  - unfold timer_fits, INT_MIN, INT_MAX. split; apply Z.leb_le; reflexivity.
  - reflexivity.
  - apply length_replicate.
  - reflexivity.
  - exact (qrep_new None 0 8).
  - exists p'. split; [exact E|]. split; [exact Es|]. split; [exact En|exact Ep].
Defined.

