(* ===== verification/AgentWireSpec.v ===== *)
(** * The conversation of the agent with the collector

    Around a network component the proof keeps a log of the connections it made
    and of the envelopes it was given.  Whatever happens to the agent, every
    connection starts with a hello, and what the collector has to know in order
    to read an envelope was offered to the same connection before it. *)
From S2P Require Import Prelude CString Options MetricTypes InternalQueue CircularQueue CircularQueueSpec ListenerSim.
From S2P Require Import LinkableProfiler LinkableProfilerSpec Profiler ProfilerSpec Messages SignalHandler ProcScanner.
From S2P Require Import CollectorController CollectorControllerSpec SymbolTable Utf8 LogWriter LogWriterSpec.
From S2P Require Import Varint ProtocolHandler ProtocolHandlerSpec.
From S2P Require Import Processor ProcessorSpec Agent AgentSpec AgentFlowSpec.
From S2P Require Network NetworkSpec Delimited.
#[local] Open Scope Z_scope.

(** ** The log *)

Inductive wire_event := Opened | Offered (e : AgentEnvelope) (d : delivery).

Record wire (N : Type) := Wire { under : N; log : list wire_event }.
Arguments Wire {N}.
Arguments under {N}.
Arguments log {N}.

#[local] Instance wire_api {N} `{NetworkApi N} : NetworkApi (wire N) := {
  network_isConnected n := network_isConnected (under n);
  network_connect n :=
    let '(connected, u) := network_connect (under n) in
    (connected, Wire u (if connected then log n ++ [Opened] else log n));
  network_transmit e n := let '(d, u) := network_transmit e (under n) in (d, Wire u (log n ++ [Offered e d]));
  network_close n := Wire (network_close (under n)) (log n)
}.

(** What was offered to the connection made last. *)
Fixpoint offered_since (sent : list AgentEnvelope) (l : list wire_event) : list AgentEnvelope :=
  match l with
  | [] => sent
  | Opened :: l => offered_since [] l
  | Offered e _ :: l => offered_since (sent ++ [e]) l
  end.
Definition offered (l : list wire_event) : list AgentEnvelope := offered_since [] l.

Definition method_offered (sent : list AgentEnvelope) (id : Z) : Prop :=
  exists name file, MethodInformation id name file ∈ sent.
Definition module_offered (sent : list AgentEnvelope) (id : Z) : Prop :=
  id = 0 \/ exists name path, ModuleInformation id name path ∈ sent.

(** What may follow what was offered before. *)
Definition allowed (sent : list AgentEnvelope) (e : AgentEnvelope) : Prop :=
  match e with
  | Hello _ _ _ => False
  | Sample s => Forall (fun f => method_offered sent (methodId f)) (compressedFrames s)
  | MethodInformation _ _ file => module_offered sent file
  | _ => True
  end.

Inductive conversation : list wire_event -> Prop :=
| conversation_nil : conversation []
| conversation_open l key process context d :
    conversation l -> conversation (l ++ [Opened; Offered (Hello key process context) d])
| conversation_say l e d :
    conversation l -> allowed (offered l) e -> conversation (l ++ [Offered e d]).

Lemma offered_since_app sent l l' : offered_since sent (l ++ l') = offered_since (offered_since sent l) l'.
Proof. revert sent. induction l as [|[|e d] l IH]; intros sent; [done|apply IH..]. Qed.

Lemma offered_say l e d : offered (l ++ [Offered e d]) = offered l ++ [e].
Proof. unfold offered. by rewrite offered_since_app. Qed.

Lemma offered_open l e d : offered (l ++ [Opened; Offered e d]) = [e].
Proof. unfold offered. by rewrite offered_since_app. Qed.

Lemma module_offered_mono sent sent' id : sent ⊆ sent' -> module_offered sent id -> module_offered sent' id.
Proof. intros Hs [->|(n & p & Hi)]; [by left|right]. exists n, p. by apply Hs. Qed.

Lemma method_offered_mono sent sent' id : sent ⊆ sent' -> method_offered sent id -> method_offered sent' id.
Proof. intros Hs (n & f & Hi). exists n, f. by apply Hs. Qed.

(** Envelopes that are allowed at any time. *)
Definition plain (e : AgentEnvelope) : bool :=
  match e with Hello _ _ _ | Sample _ | MethodInformation _ _ _ => false | _ => true end.

Lemma plain_allowed e sent : plain e = true -> allowed sent e.
Proof. by destruct e. Qed.

Lemma earlier (l : list AgentEnvelope) e : l ⊆ l ++ [e].
Proof. intros x Hx. apply elem_of_app. by left. Qed.

Lemma latest (l : list AgentEnvelope) e : e ∈ l ++ [e].
Proof. apply elem_of_app. right. by apply list_elem_of_singleton. Qed.

#[local] Hint Resolve earlier latest : core.

Lemma speak_on l es :
  conversation l -> Forall (fun e => exists x d, e = Offered x d /\ plain x = true) es ->
  conversation (l ++ es) /\ offered l ⊆ offered (l ++ es).
Proof.
  intros Hc Hes. revert l Hc. induction Hes as [|e es He _ IH]; intros l Hc; [by rewrite app_nil_r|].
  destruct He as (x & d & -> & Hx).
  rewrite cons_middle, app_assoc. destruct (IH (l ++ [Offered x d])) as [Hc' Hl].
  - by apply conversation_say; [|apply plain_allowed].
  - split; [done|]. etrans; [|exact Hl]. rewrite offered_say. apply earlier.
Qed.

Section Wire.
Context {N M : Type} `{NetworkApi N} `{MetricsApi M} `{!MetricsThread M} `{Kernel} `{Backtrace} `{ThreadNames}.
Context `{CollectorParser} {Context Cursor : Type} `{Unwinder Context Cursor}.
Context (unw_strerror : Z -> string) (cfg : settings) (processor_tid : Z).
(** What the network component keeps of itself. *)
Context (V : N -> Prop).
Context (V_connect : forall n, V n -> V (network_connect n).2) (V_close : forall n, V n -> V (network_close n)).
Context (V_transmit : forall e n, V n -> V (network_transmit e n).2).
Local Abbreviation profiler := (profiler (wire N) M).
Local Abbreviation logWriter := (logWriter (wire N) M).
Local Abbreviation agent := (agent (wire N) M).
Implicit Types (p : profiler) (w : logWriter) (a : agent) (s : symbols).

(** ** What one component after the other adds to the log *)

Definition kept (n n' : wire N) : Prop := V (under n) -> V (under n').

(** Nothing but plain envelopes. *)
Inductive says (n n' : wire N) : Prop :=
| Says es (Hes : Forall (fun e => exists x d, e = Offered x d /\ plain x = true) es)
    (Hlog : log n' = log n ++ es) (Hkept : kept n n').

Lemma says_same n n' : log n' = log n -> kept n n' -> says n n'.
Proof using Type. intros E K. apply (Says _ _ []); [constructor|by rewrite app_nil_r|done]. Qed.

#[local] Instance says_preorder : PreOrder says.
Proof using Type.
  split; [intros n; by apply says_same; [|intros ?]|]. intros n1 n2 n3 [l1 F1 E1 K1] [l2 F2 E2 K2]. apply (Says _ _ (l1 ++ l2)).
  - by apply Forall_app.
  - by rewrite E2, E1, app_assoc.
  - intros Hv. by apply K2, K1.
Qed.

Definition agent_says a a' : Prop := says (network a) (network a').
#[local] Instance agent_says_preorder : PreOrder agent_says.
Proof using Type. split; [intros a; by unfold agent_says|]. intros a1 a2 a3 S12 S23. unfold agent_says in *. by etrans. Qed.

Lemma same_says a a' : network a' = network a -> agent_says a a'.
Proof using Type. unfold agent_says. by intros ->. Qed.

Lemma close_says a : agent_says a (CollectorController.set_network (network_close (network a)) a).
Proof using V_close. apply says_same; [done|]. exact (V_close (under (network a))). Qed.

Lemma onDisconnect_quiet a :
  log (network (onDisconnect a)) = log (network a) /\ kept (network a) (network (onDisconnect a)).
Proof using V_close.
  unfold onDisconnect. cbn [CollectorController.set_network network].
  assert (forall n, n = network a ->
    log (network_close n) = log (network a) /\ kept (network a) (network_close n)) as Hn.
  { intros n ->. split; [done|]. exact (V_close (under (network a))). }
  apply Hn. cbn. destruct (metricsOn_ _); [|done]. by destruct (metrics_thread_running _).
Qed.

Lemma onDisconnect_says a : agent_says a (onDisconnect a).
Proof using V_close. by apply says_same; apply onDisconnect_quiet. Qed.

(** What any envelope adds. *)
Lemma recordWithSize_log e a :
  let a' := CollectorController.recordWithSize e a in
  (exists d, log (network a') = log (network a) ++ [Offered e d]) /\ kept (network a) (network a').
Proof using V_close V_transmit.
  cbn zeta. unfold CollectorController.recordWithSize. cbn [network_transmit wire_api].
  pose proof (V_transmit e (under (network a))) as Hv.
  destruct (network_transmit e (under (network a))) as [d u]. cbn [snd] in Hv.
  destruct d; [split; [by eexists|exact Hv]..|].
  set (a1 := CollectorController.set_network _ a). destruct (onDisconnect_quiet a1) as [E K].
  split; [rewrite E; by eexists|]. intros Ha. by apply K, Hv.
Qed.

Lemma recordWithSize_says e a : plain e = true -> agent_says a (CollectorController.recordWithSize e a).
Proof using V_close V_transmit.
  intros He. destruct (recordWithSize_log e a) as [[d E] K]. apply (Says _ _ [Offered e d]); [|done..].
  constructor; [by exists e, d|constructor].
Qed.

(** ** The controller *)

Lemma startProfiling_says process elapsed bp be a a' :
  startProfiling process elapsed bp be a = Ok a' -> agent_says a a'.
Proof using Type.
  unfold startProfiling. intros E. apply bind_ok in E as (a1 & E1 & [= <-]). apply same_says.
  assert (network a1 = network a) as <-; [|by repeat case_match].
  destruct bp; [|destruct (isProcessProfiling _)]; [destruct (negb _)|..];
    [|by injection E1 as <-| |by injection E1 as <-]; by apply bind_ok in E1 as ([] & _ & [= <-]).
Qed.

Lemma sendStashedNotifications_says a : agent_says a (sendStashedNotifications a).
Proof using V_close V_transmit.
  unfold sendStashedNotifications. cbn zeta. generalize (notifications (controller a)). intros l.
  unfold agent_says. cbn [on_controller network]. revert a. induction l as [|[k s] l IH]; intros a; [done|].
  cbn [fold_left]. etrans; [|apply IH]. by apply recordWithSize_says.
Qed.

Lemma onFirstSampleRate_says a : agent_says a (onFirstSampleRate a).
Proof using V_close V_transmit. exact (sendStashedNotifications_says (on_controller (set_state CONNECTED) a)). Qed.

Lemma onSampleRate_says r a a' : onSampleRate r a = Ok a' -> agent_says a a'.
Proof using V_close V_transmit.
  unfold onSampleRate. intros E. apply bind_ok in E as (a1 & E1 & [= <-]).
  etrans; [by eapply startProfiling_says|]. cbn zeta. set (a2 := on_controller _ _).
  etrans; [by apply (same_says a1 a2); subst a2; repeat case_match|].
  destruct (bool_decide _); [|done]. exact (onFirstSampleRate_says a2).
Qed.

Lemma onEnd_says a a' : CollectorController.onEnd a = Ok a' -> agent_says a a'.
Proof using V_close.
  unfold CollectorController.onEnd. intros E. apply bind_ok in E as ([b h] & _ & [= <-]).
  exact (onDisconnect_says (set_signalHandler h a)).
Qed.

(** ** The log writer *)

Definition wire_of w : wire N := network (controller_ w).
Definition sent w : list AgentEnvelope := offered (log (wire_of w)).

Definition location_offered (l : list AgentEnvelope) (x : Location) : Prop := method_offered l (i64 (l_methodId x)).

(** Whatever the tables hold was offered. *)
Record told (l : list AgentEnvelope) s : Prop := {
  told_functions : map_Forall (fun _ id => method_offered l (i64 id)) (knownMethodToIds_ s);
  told_files : map_Forall (fun _ id => module_offered l (i64 id)) (knownFileToIds_ s);
  told_addresses : map_Forall (fun _ x => Forall (location_offered l) x) (knownAddrToLocations_ s)
}.

Record speaks s w : Prop := {
  speaks_conversation : conversation (log (wire_of w));
  speaks_told : told (sent w) s;
  speaks_network : V (under (wire_of w))
}.

Lemma told_mono l l' s : l ⊆ l' -> told l s -> told l' s.
Proof using Type.
  intros Hl [F Fi A]. split.
  - intros n id Hn. exact (method_offered_mono _ _ _ Hl (F n id Hn)).
  - intros n id Hn. exact (module_offered_mono _ _ _ Hl (Fi n id Hn)).
  - intros pc x Hx. eapply Forall_impl; [|exact (A pc x Hx)]. intros y. by apply method_offered_mono.
Qed.

Lemma says_speaks s w w' : says (wire_of w) (wire_of w') -> speaks s w -> speaks s w' /\ sent w ⊆ sent w'.
Proof using Type.
  intros [es Hes E K] [C T Hv]. destruct (speak_on _ es C Hes) as [C' Hl]. unfold sent. rewrite <- E in *.
  split; [|done]. split; [done|exact (told_mono _ _ s Hl T)|by apply K].
Qed.

Lemma offer e s w :
  speaks s w -> allowed (sent w) e ->
  speaks s (LogWriter.recordWithSize e w) /\ sent (LogWriter.recordWithSize e w) = sent w ++ [e].
Proof using V_close V_transmit.
  intros [C T Hv] He. destruct (recordWithSize_log e (controller_ w)) as [[d E] K].
  assert (sent (LogWriter.recordWithSize e w) = sent w ++ [e]) as Es.
  { unfold sent, wire_of. cbn [LogWriter.recordWithSize controller_]. rewrite E. apply offered_say. }
  split; [|done]. split.
  - unfold wire_of. cbn [LogWriter.recordWithSize controller_]. rewrite E. by apply conversation_say.
  - rewrite Es. by eapply told_mono; [apply earlier|].
  - by apply K.
Qed.

(** A lookup has added to the log and the tables, and to the locations found so
    far. *)
Record looks (l : list AgentEnvelope) s w : Prop := {
  looks_speaks : speaks s w;
  looks_current : Forall (location_offered (sent w)) (currentLocations_ s);
  looks_sent : l ⊆ sent w
}.

Lemma looks_more e l s s' w :
  looks l s w -> allowed (sent w) e -> currentLocations_ s' = currentLocations_ s ->
  told (sent w ++ [e]) s' -> looks l s' (LogWriter.recordWithSize e w).
Proof using V_close V_transmit.
  intros [S C L] He Ec Ht. destruct (offer e s w S He) as [[S1 S2 S3] E]. split.
  - split; [done|by rewrite E|done].
  - rewrite Ec, E. eapply Forall_impl; [|exact C]. intros x. by apply method_offered_mono.
  - rewrite E. by etrans; [exact L|].
Qed.

Lemma recordFile_looks name l s w :
  looks l s w ->
  let '(id, (s', w')) := recordFile name (s, w) in looks l s' w' /\ module_offered (sent w') (i64 id).
Proof using V_close V_transmit.
  intros HL. pose proof (looks_speaks _ _ _ HL) as S. unfold recordFile.
  destruct (knownFileToIds_ s !! name) as [id|] eqn:E; [split; [done|exact (told_files _ _ (speaks_told _ _ S) name id E)]|].
  set (e := ModuleInformation (i64 (nextId_ s)) name EmptyString).
  assert (module_offered (sent w ++ [e]) (i64 (nextId_ s))) as Hm.
  { right. exists name, EmptyString. apply latest. }
  change (SymbolTable.onNewFile _ _ w) with (LogWriter.recordWithSize e w).
  split; [|by rewrite (proj2 (offer e s w S I))].
  apply (looks_more e l s); [done..|]. destruct (told_mono _ (sent w ++ [e]) s (earlier _ _) (speaks_told _ _ S)).
  split; [done| |done]. by apply map_Forall_insert_2.
Qed.

Lemma recordFunction_looks name fileId l s w :
  looks l s w -> module_offered (sent w) (i64 fileId) ->
  let '(id, (s', w')) := recordFunction name fileId (s, w) in looks l s' w' /\ method_offered (sent w') (i64 id).
Proof using V_close V_transmit.
  intros HL Hf. pose proof (looks_speaks _ _ _ HL) as S. unfold recordFunction.
  destruct (knownMethodToIds_ s !! name) as [id|] eqn:E; [split; [done|exact (told_functions _ _ (speaks_told _ _ S) name id E)]|].
  set (e := MethodInformation (i64 (nextId_ s)) name (i64 fileId)).
  assert (method_offered (sent w ++ [e]) (i64 (nextId_ s))) as Hm.
  { exists name, (i64 fileId). apply latest. }
  change (SymbolTable.onNewFunction _ _ _ w) with (LogWriter.recordWithSize e w).
  split; [|by rewrite (proj2 (offer e s w S Hf))].
  apply (looks_more e l s); [done..|]. destruct (told_mono _ (sent w ++ [e]) s (earlier _ _) (speaks_told _ _ S)).
  split; [|done..]. by apply map_Forall_insert_2.
Qed.

Lemma set_current_looks l s w current name :
  looks l s w -> Forall (location_offered (sent w)) current -> looks l (set_current current name s) w.
Proof using Type. by intros [[? [] ?] ? ?] Hc. Qed.

(** A file number that may be used, after a look at the tables. *)
Definition numbers (l : list AgentEnvelope) (id : Z) (sw : symbols * logWriter) : Prop :=
  looks l sw.1 sw.2 /\ module_offered (sent sw.2) (i64 id).

Lemma recordFile_numbers name l sw : looks l sw.1 sw.2 -> numbers l (recordFile name sw).1 (recordFile name sw).2.
Proof using V_close V_transmit.
  destruct sw as [s w]. intros HL. pose proof (recordFile_looks name l s w HL) as Hr.
  by destruct (recordFile name (s, w)) as [id [s1 w1]].
Qed.

Lemma handlePcInfo_looks pc file line name l sw :
  looks l sw.1 sw.2 -> let sw' := handlePcInfo pc file line name sw in looks l sw'.1 sw'.2.
Proof using V_close V_transmit.
  intros HL. cbn zeta. unfold handlePcInfo.
  set (first := match file with Some f => (f, recordFile f sw) | None => (EmptyString, (0, sw)) end).
  assert (numbers l first.2.1 first.2.2) as F1.
  { subst first. destruct file; [by apply recordFile_numbers|]. split; [done|by left]. }
  destruct first as [f1 [id1 sw1]]. cbn [fst snd] in F1.
  set (n1 := if is_empty (default EmptyString name) && _ then _ else _). clearbody n1.
  set (second := if is_empty n1 || (id1 =? 0) then _ else _).
  assert (numbers l second.2.2.1 second.2.2.2) as F2.
  { subst second. destruct (is_empty n1 || _); [|done]. destruct (dladdr pc) as [[dn [df|]]|]; [|done|done].
    destruct (id1 =? 0); [|done]. by apply recordFile_numbers, F1. }
  clearbody second. destruct second as [n2 [f2 [id2 [s2 w2]]]]. cbn [fst snd] in F2. destruct F2 as [HL2 Hid2].
  cbn beta iota zeta. set (n3 := if is_empty n2 then _ else n2). clearbody n3.
  pose proof (recordFunction_looks n3 id2 l s2 w2 HL2 Hid2) as Hr.
  destruct (recordFunction n3 id2 (s2, w2)) as [id3 [s3 w3]]. destruct Hr as [HL3 Hid3].
  apply set_current_looks; [done|]. apply Forall_app. split; [by destruct HL3|by constructor].
Qed.

Lemma on_pc_events_looks pc es l s w s' w' :
  looks l s w -> on_pc_events pc es (s, w) = Ok (s', w') -> looks l s' w'.
Proof using V_close V_transmit.
  revert s w. induction es as [|[file line name|m n] es IH]; intros s w HL; cbn [on_pc_events]; [by intros [= <- <-]| |done].
  pose proof (handlePcInfo_looks pc file line name l (s, w) HL) as Hi. destruct (handlePcInfo _ _ _ _ _) as [s1 w1].
  by apply IH.
Qed.

Lemma on_sym_events_looks es l s w s' w' :
  looks l s w -> on_sym_events es (s, w) = Ok (s', w') -> looks l s' w'.
Proof using Type.
  revert s w. induction es as [|[[name|]|m n] es IH]; intros s w HL; cbn [on_sym_events]; [by intros [= <- <-]|..|done].
  - intros E. apply bind_ok in E as ([s1 w1] & E1 & E). apply IH in E; [done|]. unfold handleSyminfo in E1.
    destruct (String.prefix _ _); [apply bind_ok in E1 as (pretty & _ & [= <- <-])|injection E1 as <- <-];
      apply set_current_looks; by destruct HL.
  - by apply IH.
Qed.

Lemma lookup_locations_offers pc isForeign s w locations s' w' :
  speaks s w -> lookup_locations pc isForeign (s, w) = Ok (locations, (s', w')) ->
  speaks s' w' /\ Forall (location_offered (sent w')) locations /\ sent w ⊆ sent w'.
Proof using V_close V_transmit.
  intros S. unfold lookup_locations. destruct (knownAddrToLocations_ s !! pc) as [x|] eqn:Ea.
  { intros [= <- <- <-]. split; [done|]. split; [|done]. exact (told_addresses _ _ (speaks_told _ _ S) pc x Ea). }
  assert (looks (sent w) (set_current [] EmptyString s) w) as HL by (by destruct S as [? [] ?]).
  intros E. apply bind_ok in E as ([s1 w1] & E1 & E). apply bind_ok in E as ([s2 w2] & E2 & [= <- <- <-]).
  assert (looks (sent w) s1 w1) as HL1.
  { destruct (negb isForeign); [by eapply on_sym_events_looks|by injection E1 as <- <-]. }
  destruct (on_pc_events_looks _ _ _ _ _ _ _ HL1 E2) as [[C [F Fi A] Hv] L P]. split_and!; [|done..].
  split; [done|split; [done..|]|done]. by apply map_Forall_insert_2.
Qed.

Definition entry_offered (l : list AgentEnvelope) (e : CompressedFrameEntry) : Prop := method_offered l (methodId e).

Lemma lookup_frames_offers todo i fs isError out w out' w' :
  lookup_frames todo i fs isError out w = Ok (out', w') ->
  speaks (symbols_ w) w -> Forall (entry_offered (sent w)) out ->
  speaks (symbols_ w') w' /\ Forall (entry_offered (sent w')) out'.
Proof using V_close V_transmit.
  revert i out w. induction todo as [|todo IH]; intros i out w; cbn [lookup_frames]; [by intros [= <- <-]|].
  intros E S Ho. apply bind_ok in E as (f & _ & E). apply bind_ok in E as ([l [s w1]] & E1 & E).
  destruct (lookup_locations_offers _ _ _ _ _ _ _ S E1) as (S1 & Hl & Hs).
  apply IH in E; [done|by destruct S1|]. change (sent (set_symbols s w1)) with (sent w1).
  rewrite addFrames_entries. apply Forall_app. split.
  - eapply Forall_impl; [|exact Ho]. intros x. by apply method_offered_mono.
  - destruct isError; [constructor|]. apply Forall_fmap. eapply Forall_impl; [|exact Hl]. done.
Qed.

Definition speaking w : Prop := speaks (symbols_ w) w.

Lemma speaking_same w w' : symbols_ w' = symbols_ w -> wire_of w' = wire_of w -> speaking w -> speaking w'.
Proof using Type. intros Es Ew [C T Hv]. unfold speaking. rewrite Es. by split; unfold sent; rewrite Ew. Qed.

Lemma speaking_says w w' : symbols_ w' = symbols_ w -> agent_says (controller_ w) (controller_ w') -> speaking w -> speaking w'.
Proof using Type. intros Es Ha S. unfold speaking. rewrite Es. by apply (says_speaks _ w). Qed.

Lemma recordWithSize_speaking e w : allowed (sent w) e -> speaking w -> speaking (LogWriter.recordWithSize e w).
Proof using V_close V_transmit. intros He S. by apply (offer e (symbols_ w) w S He). Qed.

Lemma threadName_same id w name w' :
  threadName id w = Ok (name, w') -> symbols_ w' = symbols_ w /\ wire_of w' = wire_of w.
Proof using Type.
  unfold threadName. destruct (threadIdToInformation w !! i32 id); [by intros [= _ <-]|].
  destruct (pthread_getname_np _ _) as [ret|]; intros E; apply bind_ok in E as (b & _ & [= _ <-]); [|done].
  by destruct (negb (ret =? ENOENT)).
Qed.

(** A sample has names for its frames. *)
Lemma recordStackTrace_speaking ts t signum state tsc w w' :
  LogWriter.recordStackTrace ts t signum state tsc w = Ok w' -> speaking w -> speaking w'.
Proof using V_close V_transmit.
  unfold LogWriter.recordStackTrace. destruct (setSampleType signum w) as [type rate]. intros E S.
  apply bind_ok in E as ([name w1] & Hname & E). apply threadName_same in Hname as [Es Ew].
  apply bind_ok in E as ([entries w2] & E1 & [= <-]).
  apply (speaking_same _ w1 Es Ew) in S. apply lookup_frames_offers in E1 as [S2 He]; [|done|constructor].
  by apply recordWithSize_speaking.
Qed.

Lemma deliver_speaking e w w' : deliver_event e w = Ok w' -> speaking w -> speaking w'.
Proof using V_close V_transmit.
  destruct e as [[k s v|i|t l|]|[n o s]|[ts t sg st tsc|i n]]; cbn.
  - unfold recordNotification. intros [= <-]. destruct (isConnected _); [by apply recordWithSize_speaking|by apply speaking_same].
  - intros [= <-]. by apply recordWithSize_speaking.
  - intros [= <-]. by apply recordWithSize_speaking.
  - intros [= <-]. by apply recordWithSize_speaking.
  - intros [= <-]. by apply speaking_same.
  - apply recordStackTrace_speaking.
  - by intros [= <-].
Qed.

Lemma put_controller_speaking a w : agent_says (controller_view w) a -> speaking w -> speaking (put_controller a w).
Proof using Type. intros Ha. by apply speaking_says. Qed.

Lemma dispatch_speaking envelope w w' : dispatch envelope w = Ok w' -> speaking w -> speaking w'.
Proof using V_close V_transmit.
  destruct envelope as [|r|time|]; cbn [dispatch on_terminate on_sample_rate on_heartbeat writer_messages agent_listener].
  - intros [= <-]. by apply put_controller_speaking, same_says.
  - intros E. apply bind_ok in E as (a & E & [= <-]). apply put_controller_speaking. by eapply onSampleRate_says.
  - intros [= <-]. by apply put_controller_speaking, same_says.
  - by intros [= <-].
Qed.

(** ** The agent *)

Definition talks p : Prop := speaking (writer p).

Lemma settle_talks p : talks p -> talks (settle p).
Proof using Type. unfold talks. by destruct (settle_rest p) as (_ & _ & _ & _ & ->). Qed.

Lemma put_agent_talks a p : agent_says (the_agent p) a -> talks p -> talks (put_agent a p).
Proof using Type. intros Ha Hp. apply settle_talks. by apply put_controller_speaking. Qed.

Lemma on_agent_talks f p : (forall a, agent_says a (f a)) -> talks p -> talks (on_agent f p).
Proof using Type. intros Hf. by apply put_agent_talks. Qed.

(** What does not concern the network. *)
Lemma on_agent_elsewhere_talks f p : (forall a, network (f a) = network a) -> talks p -> talks (on_agent f p).
Proof using Type. intros Hf. apply on_agent_talks. intros a. by apply same_says. Qed.

Lemma on_writer_talks f p p' :
  (forall w w', f w = Ok w' -> speaking w -> speaking w') -> on_writer f p = Ok p' -> talks p -> talks p'.
Proof using Type.
  intros Hf E Hp. unfold on_writer in E. apply bind_ok in E as (w & E & [= <-]). apply settle_talks. by eapply Hf.
Qed.

Lemma put_queue_talks c p : talks p -> talks (put_queue c p).
Proof using Type. by apply speaking_same. Qed.

Lemma delivery_talks e p p' : deliver_event e p = Ok p' -> talks p -> talks p'.
Proof using V_close V_transmit.
  intros E. assert (on_writer (deliver_event e) p = Ok p') as E' by (by destruct e as [[]|[]|[]]).
  eapply on_writer_talks; [|exact E']. apply deliver_speaking.
Qed.

(** ** Connecting *)

Lemma onSocketConnect_symbols p : symbols_ (writer (onSocketConnect cfg p)) = clear_symbols (symbols_ (writer p)).
Proof using Type.
  unfold onSocketConnect, on_agent, put_agent, settle, onSocketConnected, attemptRead. by repeat case_match.
Qed.

Lemma network_writer p : wire_of (writer p) = network (the_agent p).
Proof using Type. done. Qed.

(** A connection begins with the hello, and nothing is known to it. *)
Lemma attemptConnect_talks p : talks p -> talks (attemptConnect cfg p).2.
Proof using V_connect V_close V_transmit.
  intros [C T Hv]. unfold attemptConnect. rewrite network_writer in *. cbn [network_connect wire_api].
  set (n := network (the_agent p)) in *. pose proof (V_connect (under n) Hv) as Hu.
  destruct (network_connect (under n)) as [[] u]; cbn [snd] in *.
  2: { apply put_agent_talks; [|done]. by apply says_same; [|intros ?]. }
  set (p1 := on_agent _ p).
  assert (network (the_agent p1) = Wire u (log n ++ [Opened])) as E1 by (subst p1; by rewrite the_agent_on).
  set (a := on_controller (fun c => set_backoff 0 (set_state SOCKET_CONNECTED c)) (the_agent p1)).
  assert (wire_of (writer (onSocketConnect cfg p1)) = network (CollectorController.recordWithSize (hello cfg) a)) as Ew
    by (by rewrite network_writer, the_agent_onSocketConnect).
  destruct (recordWithSize_log (hello cfg) a) as [[d E2] K].
  change (network a) with (network (the_agent p1)) in E2, K. rewrite E1 in E2, K.
  rewrite <- Ew in *. cbn [log] in E2. rewrite <- app_assoc in E2. unfold talks, speaking. rewrite onSocketConnect_symbols. split.
  - rewrite E2. by apply conversation_open.
  - split; apply map_Forall_empty.
  - by apply K.
Qed.

Lemma backoff_says r a : agent_says a (backoff r a).
Proof using Type. apply same_says. unfold backoff. by destruct (_ =? 0). Qed.

Lemma controller_poll_talks p : talks p -> talks (controller_poll cfg p).2.
Proof using V_connect V_close V_transmit.
  intros Hp. unfold controller_poll. destruct (state_ (controller (the_agent p))); try done.
  unfold next_random. destruct (randomNumbers p) as [|r rs]; apply attemptConnect_talks, on_agent_talks;
    auto using backoff_says.
Qed.

(** ** Handlers *)

Local Abbreviation handler := (ProtocolHandler.ProtocolHandler logWriter).

Lemma complete_read_speaking bytes ec (h h' : handler) :
  complete_read bytes ec h = Ok h' -> speaking (listener_ h) -> speaking (listener_ h').
Proof using V_close V_transmit.
  unfold complete_read. destruct (pending h) as [r|]; [|by intros [= <-]].
  intros E Hs. apply bind_ok in E as (b & _ & E). destruct (ProtocolHandler.handler r).
  { apply onReadHeader_keeps in E as [-> _]. exact Hs. }
  unfold onReadBody in E. set (h1 := ProtocolHandler.set_pending None _) in E.
  destruct ec; try (injection E as <-; destruct (attemptRead_keeps h1) as [-> _]; exact Hs).
  apply bind_ok in E as (message & _ & E). apply bind_ok in E as (l & E & [= <-]).
  destruct (attemptRead_keeps (set_listener l h1)) as [-> _]. cbn [listener_ set_listener].
  destruct (ParseFromArray message); [by eapply dispatch_speaking|]. by injection E as <-.
Qed.

Lemma handler_talks e p p' : handler_of e p = Some (Ok p') -> talks p -> talks p'.
Proof using V_close V_transmit.
  unfold handler_of. intros E Hp. destruct e as [bytes ec|millis| | | | |].
  - destruct (pending (protocolHandler p)); simpl in E; [|done]. destruct (read_ends _ _ _); [|done].
    injection E as E. apply bind_ok in E as (h & E & [= <-]). apply settle_talks. by eapply complete_read_speaking.
  - destruct (is_due _ p); [|done]. injection E as <-. apply on_agent_talks; [|done].
    intros a. exact (recordWithSize_says (Heartbeat millis) a eq_refl).
  - destruct (is_due _ p); [|done]. injection E as <-. apply on_agent_talks; [|done]. exact onDisconnect_says.
  - destruct (is_due _ p); [|done]. injection E as <-. apply on_agent_elsewhere_talks; [done|]. apply settle_talks.
    
    apply (speaking_same (LogWriter.recordWithSize
      (AllocationTable 0 (allocation_rows (allocationsTable (writer p)))) (writer p))); [done..|].
    by apply recordWithSize_speaking.
  - destruct (is_due _ p); [|done]. injection E as <-. apply on_agent_talks; [|done].
    intros a. exact (recordWithSize_says (Statistics _) a eq_refl).
  - by injection E as <-.
  - done.
Qed.

(** ** Steps *)

Definition stays p p' : Prop := talks p -> talks p'.
#[local] Instance stays_preorder : PreOrder stays.
Proof using Type. split; [intros p; by unfold stays|]. unfold stays. auto. Qed.

#[local] Instance wire_processor : ProcessorApi profiler := profiler_processor cfg processor_tid.

Lemma turn_talks d p d' p' : duration d -> turn d p = Ok (d', p') -> talks p -> talks p'.
Proof using V_connect V_close V_transmit.
  intros Hd E. assert (stays p p' /\ duration d') as [Hs _]; [|exact Hs].
  apply (turn_along cfg processor_tid stays d); [..|exact Hd|exact E].
  - exact controller_poll_talks.
  - intros l q Hq. exact Hq.
  - exact handler_talks.
  - exact put_queue_talks.
  - exact delivery_talks.
  - intros n q _ Hq. by apply (on_agent_elsewhere_talks (CollectorController.sleep_ms n) q).
Qed.

Lemma start_talks p : talks p -> talks (start p).
Proof using Type. intros Hp. apply on_agent_elsewhere_talks; [done|]. by apply (on_agent_elsewhere_talks _ p). Qed.

Lemma on_fork_talks p : talks p -> talks (on_fork p).
Proof using V_close.
  intros Hp. apply start_talks, on_agent_elsewhere_talks; [done|]. apply on_agent_talks; [apply close_says|].
  assert (forall q, talks q -> talks (set_writer (LogWriter.onSocketConnected (writer q)) q)) as Hclear.
  { intros q [C _ Hv]. split; [done| |done]. split; apply map_Forall_empty. }
  apply Hclear, on_agent_elsewhere_talks; [done|]. by apply on_agent_elsewhere_talks.
Qed.

Lemma onStart_talks p p' : sane cfg p -> controller_onStart cfg p = Ok p' -> talks p -> talks p'.
Proof using Type.
  intros Hg E. unfold controller_onStart in E. destruct (isOn (the_agent p) && _) eqn:Es.
  - apply andb_true_iff in Es as [_ Es]. apply bool_decide_eq_true in Es. by destruct (good_socket _ _ (sane_controller cfg p Hg)).
  - apply bind_ok in E as (a & E & [= <-]). apply put_agent_talks. unfold CollectorController.onStart in E.
    rewrite Es in E. destruct (bool_decide (_ = PROMETHEUS_MODE)); [exact (startProfiling_says _ _ _ _ _ _ E)|by injection E as <-].
Qed.

Lemma agent_step_talks p p' :
  agent_step unw_strerror cfg processor_tid p p' -> sane cfg p -> talks p -> talks p'.
Proof using V_connect V_close V_transmit.
  intros [d d' q Hd E|q E|q E|signum at_ q E|o b c _| | |d Hd|events randoms Hr] Hg Hp.
  - by eapply turn_talks.
  - eapply onStart_talks; [|exact E|by apply on_agent_elsewhere_talks].
    by apply (on_agent_elsewhere cfg (fun a => set_scanner (ProcScanner.on_processor_thread_start processor_tid (scanner a)) a)).
  - apply bind_ok in E as (a & E & [= <-]). apply put_agent_talks; [by apply onEnd_says|done].
  - apply bind_ok in E as (c & _ & [= <-]). by apply put_queue_talks.
  - by apply put_queue_talks.
  - by apply start_talks.
  - by apply on_fork_talks.
  - by apply on_agent_elsewhere_talks.
  - done.
Qed.

Lemma agent_steps_talk p p' :
  rtc (agent_step unw_strerror cfg processor_tid) p p' -> sane cfg p -> talks p -> talks p'.
Proof using V_connect V_close V_transmit.
  intros Hs. induction Hs as [|p1 p2 p3 Hstep _ IH]; [done|]. intros Hg Hp.
  apply IH; [|by eapply agent_step_talks]. by apply (agent_step_advances unw_strerror cfg processor_tid p1 p2).
Qed.

(** A configured agent whose network component has its own invariant. *)
Lemma configured_talks configuration version host build u met installed symbol0 tsc0 events randoms time p0 :
  V u -> Forall (fun r => 0 <= r <= RANDOMISATION_RANGE_IN_MS) randoms ->
  configure configuration version host build (Wire u []) met installed symbol0 tsc0 events randoms time = Ok (cfg, p0) ->
  sane cfg p0 /\ talks p0.
Proof using Type.
  intros Hu Hr. unfold configure. destruct host as [hostname|]; [|done]. destruct (_ <? 0); [done|]. intros [= Es <-].
  split; [split; [by apply good_new|apply length_replicate|done|done]|].
  split; [apply conversation_nil| |done]. split; apply map_Forall_empty.
Qed.
End Wire.

(** ** With the network of the agent *)

Section Collector.
Context `{Network.Asio, Delimited.Serializable AgentEnvelope} (prometheus : bool).
#[local] Instance asio_network : NetworkApi Network.Network := Network.Network_api prometheus.
Context {M : Type} `{MetricsApi M} `{!MetricsThread M} `{Kernel} `{Backtrace} `{ThreadNames}.
Context `{CollectorParser} {Context Cursor : Type} `{Unwinder Context Cursor}.
Context (unw_strerror : Z -> string) (cfg : settings) (processor_tid : Z).

(** C8. Whatever signals, messages, losses of the connection, timers, pushes and
    forks come, the agent's network gets a well-formed conversation: every
    connection starts with a hello, which occurs nowhere else; every function
    number of a sample, and every file number of a function, was given to the
    network on the same connection before; and a network that counts as
    connected has an open socket. *)
Theorem agent_conversation configuration version host build met installed symbol0 tsc0 events randoms time p0 p :
  configure configuration version host build (Wire Network.new_Network []) met installed symbol0 tsc0 events randoms time
    = Ok (cfg, p0) ->
  Forall (fun r => 0 <= r <= RANDOMISATION_RANGE_IN_MS) randoms ->
  rtc (agent_step unw_strerror cfg processor_tid) p0 p ->
  conversation (log (network (the_agent p))) /\ NetworkSpec.valid (under (network (the_agent p))).
Proof using Type.
  intros E Hr Hs. assert (NetworkSpec.valid Network.new_Network) as Hn by (by split).
  destruct (configured_talks cfg NetworkSpec.valid _ _ _ _ _ _ _ _ _ _ _ _ _ Hn Hr E) as [Hg Ht].
  assert (forall e n, NetworkSpec.valid n -> NetworkSpec.valid (network_transmit e n).2) as Hsend
    by (intros e n; apply NetworkSpec.send_valid).
  assert (forall n, NetworkSpec.valid n -> NetworkSpec.valid (network_connect n).2) as Hconnect
    by (intros n; apply NetworkSpec.connect_valid).
  assert (forall n, NetworkSpec.valid n -> NetworkSpec.valid (network_close n)) as Hclose.
  { intros n Hv. apply NetworkSpec.close_valid; [by apply NetworkSpec.valid_socket|apply Hv]. }
  destruct (agent_steps_talk unw_strerror cfg processor_tid NetworkSpec.valid
    Hconnect Hclose Hsend p0 p Hs Hg Ht) as [C _ Hv].
  by split.
Qed.
End Collector.


(** ** A run *)

#[local] Existing Instance no_metrics.
#[local] Existing Instance willing_kernel.
#[local] Existing Instance one_program.
#[local] Existing Instance one_thread.
#[local] Existing Instance no_thread.
#[local] Existing Instance one_message.
#[local] Existing Instance NetworkSpec.kinds.

Definition open_peer : Network.Asio := {|
  Network.async_resolve _ := Network.mkResult 5 0;
  Network.async_connect _ := Network.mkResult 20 0;
  Network.handshake _ := Network.mkResult 30 0;
  Network.open_after_handshake _ := true;
  Network.async_write _ _ := Network.mkResult 10 0
|}.
#[local] Existing Instance open_peer.
#[local] Instance quick_network : NetworkApi Network.Network := Network.Network_api false.

Definition arrivals : list io_event :=
  [ReadDone (take MAX_HEADER_SIZE (framed ten_bytes)) NoError; ReadDone (drop MAX_HEADER_SIZE (framed ten_bytes)) NoError].

#[local] Instance run_processor : ProcessorApi (profiler (wire Network.Network) unit) :=
  profiler_processor (test_settings false) 7.

Definition fresh_profiler : profiler (wire Network.Network) unit :=
  mkProfiler (new_ProtocolHandler (mkLogWriter (new_CircularQueue None 0 8)
    (mkAgent (new_controller (test_settings false) true) (Wire Network.new_Network []) tt (new_SignalHandler ∅)
      (new_scanner ∅) no_failures 0 0 0 0) no_symbols ∅ ∅ [])) arrivals [] false.

(** The state after a turn. *)
Definition turned (o : outcome (Z * profiler (wire Network.Network) unit)) : profiler (wire Network.Network) unit :=
  match o with Ok (_, p) => p | _ => fresh_profiler end.
Definition next_nap (o : outcome (Z * profiler (wire Network.Network) unit)) : option Z :=
  match o with Ok (d, _) => Some d | _ => None end.

Lemma turned_ok o d : next_nap o = Some d -> o = Ok (d, turned o).
Proof. destruct o as [[? ?]| | |]; simpl; [by intros [= ->]|done..]. Qed.

(** Connected, and in operation. *)
Definition operating : profiler (wire Network.Network) unit := turned (turn 2 fresh_profiler).
(** Later, when the wait for sending is over. *)
Definition waited : profiler (wire Network.Network) unit :=
  set_ready [SendTimerDone 3] (set_randomNumbers [] (on_agent (CollectorController.sleep_ms 2500) operating)).
Definition alive : profiler (wire Network.Network) unit := turned (turn 2 waited).

Lemma agent_conversation_witness :
  log (network (the_agent alive)) =
    [Opened; Offered (hello (test_settings false)) Delivered; Offered (Heartbeat 3) Delivered] /\
  conversation (log (network (the_agent alive))) /\ NetworkSpec.valid (under (network (the_agent alive))).
Proof.
  split; [reflexivity|].
  apply (agent_conversation false (H6 := chain_stack 0 4) (fun _ => "error"%string) (test_settings false) 7
    some_options "4.14.0" (Some "host"%string) (test_settings false) tt ∅ None 0 arrivals [] 0 fresh_profiler).
  - reflexivity.
  - constructor.
  - apply (rtc_l _ _ operating); [apply (agent_turn _ _ _ _ 2 2); [by split|by apply turned_ok]|].
    apply (rtc_l _ _ (on_agent (CollectorController.sleep_ms 2500) operating)); [by apply agent_time|].
    apply (rtc_l _ _ waited); [by apply agent_system|].
    apply rtc_once, (agent_turn _ _ _ _ 2 2); [by split|by apply turned_ok].
Defined.
