(* ===== verification/EventsDisabled.v ===== *)
(** * Metrics of an OCaml without runtime events ([lib/events.disabled.cpp])

    Before OCaml 5 the runtime has no ring of events.  The build then links these
    stubs, and the same [event_ring_reader.cpp] over them. *)
From S2P Require Import Prelude MetricTypes CircularQueue EventRing Metrics.
#[local] Open Scope Z_scope.

Definition has_runtime_events : bool := false.
Definition enable_runtime_events (wasEnabled enable : bool) : bool := false.
Definition read_runtime_events {W} (listener : W) : Z * W := (0, listener).
Definition disable_runtime_events : unit := tt.

(** ** The reader over the stubs *)

Definition updateEntryPrefixes (disabledPrefixes : list string) (reader : EventRingReader) : EventRingReader :=
  mkEventRingReader
    (enable_runtime_events (EventRing.enabled_ reader) (negb (isPrefixDisabled EVENT_RING_NAME disabledPrefixes)))
    (hasEmittedConstantMetrics_ reader).

Definition new_EventRingReader (disabledPrefixes : list string) : EventRingReader :=
  updateEntryPrefixes disabledPrefixes (mkEventRingReader false false).

(** As in the other build, but for the value of the first entry. *)
Definition constantMetrics (env : ocaml_environment) : list MetricListenerEntry :=
  mkMetricListenerEntry ENABLED_NAME MetricVariability.CONSTANT MetricUnit.NONE
    (mkMetricData MetricDataType.LONG EmptyString (if has_runtime_events then 1 else 0))
  :: tail (EventRing.constantMetrics env).

Definition read {W} `{MetricDataListener W} (env : ocaml_environment) (timestampInMs : Z) (reader : EventRingReader)
    (listener : W) : Z * EventRingReader * W :=
  if EventRing.enabled_ reader then
    let '(events, reader, listener) :=
      if negb (hasEmittedConstantMetrics_ reader) then
        (1, mkEventRingReader (EventRing.enabled_ reader) true,
         recordEntries (constantMetrics env) timestampInMs listener)
      else (0, reader, listener) in
    let '(n, listener) := read_runtime_events listener in
    (u32 (events + n), reader, listener)
  else (0, reader, listener).

#[export] Instance disabled_source (env : ocaml_environment) : MetricSource EventRingReader := {
  source_new := new_EventRingReader;
  source_updateEntryPrefixes := updateEntryPrefixes;
  source_read t r l := read env t r l;
  source_hasEmittedConstantMetrics := hasEmittedConstantMetrics_
}.

(** ** The metrics component over this reader *)

Section Disabled.
Context {C : Type} `{MetricSource C} (env : ocaml_environment).
Local Abbreviation Metrics := (Metrics C EventRingReader).
Implicit Types m : Metrics.
#[local] Existing Instance disabled_source.

(** What the two threads do to the component. *)
Inductive call m : Metrics -> Prop :=
| call_enable disabledPrefixes m' : Metrics.enable (H0 := disabled_source env) disabledPrefixes m = Ok m' -> call m m'
| call_disable m' : Metrics.disable m = Ok m' -> call m m'
| call_rate r : call m (Metrics.setSampleRate r m)
| call_duration m' : sendDurationMetricId m = Ok m' -> call m m'
| call_read t b m' : read_readers (H0 := disabled_source env) t m = Ok (b, m') -> call m m'
| call_queue c : call m (with_listener (with_queue c (metricListener m)) m).

(** No reader has reported its constants, and none will. *)
Record waiting m : Prop := {
  waiting_reader r : eventRingReader_ m = Some r -> r = mkEventRingReader false false;
  waiting_constants : Metrics.enabled_ m = true -> needsToSendConstantMetrics m = true
}.

Lemma call_waiting m m' : call m m' -> waiting m -> waiting m'.
Proof using Type.
  intros Hc [Hr Hn]. destruct Hc as [ps m' E|m' E|r|m' E|t b m' E|c].
  - unfold Metrics.enable in E. destruct (negb (Metrics.enabled_ m)) eqn:Ee.
    + injection E as <-. split; [|done]. by intros r [= <-].
    + apply negb_false_iff in Ee. apply bind_ok in E as (cpu & _ & E). apply bind_ok in E as (ring & Er & [= <-]).
      split; [|by intros _; apply Hn]. unfold in_bounds in Er. destruct (eventRingReader_ m) as [r|]; [|done].
      injection Er as <-. intros r' [= <-]. by rewrite (Hr r eq_refl).
  - unfold Metrics.disable in E. destruct (Metrics.enabled_ m); [apply bind_ok in E as (? & _ & E)|];
      apply ok_inj in E as <-; by split.
  - by split.
  - unfold sendDurationMetricId in E. destruct (mustSendDurationMetric m); [|by apply ok_inj in E as <-; split].
    destruct (pushMetricInformation _ _) as [[] c]; [|done]. apply ok_inj in E as <-. by split.
  - unfold read_readers in E. destruct (Metrics.enabled_ m) eqn:Ee; [|apply ok_inj in E; injection E as _ <-; split; [done|congruence]].
    apply bind_ok in E as (cpu & _ & E). destruct (source_read t cpu (metricListener m)) as [[n1 cpu'] l1].
    apply bind_ok in E as (ring & Er & E). unfold in_bounds in Er. destruct (eventRingReader_ m) as [r|]; [|done].
    apply ok_inj in Er as <-. rewrite (Hr r eq_refl), (Hn eq_refl) in E. cbn [source_read source_hasEmittedConstantMetrics
      disabled_source read EventRing.enabled_ hasEmittedConstantMetrics_] in E. rewrite andb_false_r in E. cbn [andb] in E.
    apply ok_inj in E. injection E as _ <-. split; [by intros r' [= <-]|done].
  - by split.
Qed.

(** Without runtime events the agent never tells the collector that all
    constant metrics have been sent, however often it reads: the reader of the
    ring is never enabled, so it never reports its constants, among them the one
    that says that there is no ring. *)
Theorem constants_never_complete queue m :
  rtc call (new_Metrics queue) m -> Metrics.enabled_ m = true ->
  needsToSendConstantMetrics m = true /\
  (forall r, eventRingReader_ m = Some r -> hasEmittedConstantMetrics_ r = false).
Proof using Type.
  intros Hs. assert (waiting (new_Metrics queue)) as H0 by by split.
  assert (waiting m) as [Hr Hn].
  { clear - Hs H0. induction Hs as [|m1 m2 m3 Hc _ IH]; [done|]. by apply IH, (call_waiting m1). }
  intros He. split; [by apply Hn|]. by intros r ->%Hr.
Qed.
End Disabled.

(** ** A component whose other reader has reported its constants *)

#[local] Instance ready_source : MetricSource unit := {
  source_new _ := tt;
  source_updateEntryPrefixes _ r := r;
  source_read _ r l := (0, r, l);
  source_hasEmittedConstantMetrics _ := true
}.

Definition ocaml_4 : ocaml_environment := mkOCamlEnvironment None None "4.14.0".
Definition nothing_queued : CircularQueue := new_CircularQueue None 0 8.
Definition enabled_metrics : Metrics unit EventRingReader :=
  mkMetrics true true DEFAULT_METRICS_SAMPLE_RATE_MILLIS (Some (new_EventRingReader [])) (Some tt) true
    (mkListener nothing_queued ∅ []).

Lemma constants_never_complete_witness : needsToSendConstantMetrics enabled_metrics = true.
Proof.
  apply (constants_never_complete ocaml_4 nothing_queued enabled_metrics); [|reflexivity].
  apply (rtc_l _ _ enabled_metrics); [by apply (call_enable _ _ [])|].
  apply rtc_once. by apply (call_read _ _ 5 false).
Defined.
