(* ===== verification/Startup.v ===== *)
(** * Starting, forking and the text logs ([lib/lib_opsian.cpp], [lib/debug_logger.cpp],
    [lib/globals.cpp.in], the logs of [lib/profiler.cpp])

    The OCaml side calls [start_opsian_native] once; [pthread_atfork] calls back
    around every fork.  A text log is a stream over a file: it has a position,
    and two streams over one file overwrite each other.  Every message ends with
    a flush, so the buffer of a stream is left out, and so are the lines that the
    parser and the components write. *)
From S2P Require Import Prelude CString Options MetricTypes CircularQueue Messages.
From S2P Require Import SignalHandler ProcScanner CollectorController SymbolTable LogWriter ProtocolHandler Agent.
From Stdlib Require Import Ascii.
From stdpp Require Import pretty.
#[local] Open Scope Z_scope.

Definition newline : string := String (ascii_of_nat 10) EmptyString.
Definition zero : ascii := ascii_of_nat 0.

Fixpoint zeros (n : nat) : string := match n with O => EmptyString | S n => String zero (zeros n) end.

(** What the system answers: which files can be opened for writing, and the time
    as text at the n-th reading of the clock. *)
Class TextSystem := {
  can_open : string -> bool;
  formatted_time : nat -> string
}.

Record world := mkWorld { files : gmap string string; cerr : string; readings : nat }.

Section Logs.
Context `{TextSystem}.

(** [std::ofstream]; what is written to one that could not be opened is lost. *)
Record ofstream := mkOfstream { path : string; is_open : bool; position : nat }.

(** [open (path, std::ios::out | std::ios::trunc)] *)
Definition ofstream_open (path : string) (w : world) : ofstream * world :=
  if can_open path then (mkOfstream path true 0, mkWorld (<[path := EmptyString]> (files w)) (cerr w) (readings w))
  else (mkOfstream path false 0, w).

(** A write behind the end leaves zeros between. *)
Definition overwrite (content : string) (pos : nat) (text : string) : string :=
  take_string pos content +:+ zeros (pos - String.length content) +:+ text +:+ skip (pos + String.length text) content.

Definition ofstream_put (text : string) (s : ofstream) (w : world) : ofstream * world :=
  if is_open s then
    (mkOfstream (path s) true (position s + String.length text),
     mkWorld (<[path s := overwrite (default EmptyString (files w !! path s)) (position s) text]> (files w))
       (cerr w) (readings w))
  else (s, w).

(** [putFormattedTime]: the text, and that the clock was read. *)
Definition putFormattedTime (w : world) : string * world :=
  (formatted_time (readings w), mkWorld (files w) (cerr w) (S (readings w))).

(** ** The debug log *)

Record DebugLogger := mkDebugLogger { stream_ : option ofstream; logger_apiKey_ : string }.

Definition debug_open (path : string) (key : string) (w : world) : DebugLogger * world :=
  if is_empty path then (mkDebugLogger None key, w)
  else let '(s, w) := ofstream_open path w in (mkDebugLogger (Some s) key, w).

Definition new_DebugLogger (path apiKey : string) (w : world) : DebugLogger * world := debug_open path apiKey w.

Definition isEnabled (l : DebugLogger) : bool := match stream_ l with Some _ => true | None => false end.

Definition debug_put (text : string) (l : DebugLogger) (w : world) : DebugLogger * world :=
  match stream_ l with
  | Some s => let '(s, w) := ofstream_put text s w in (mkDebugLogger (Some s) (logger_apiKey_ l), w)
  | None => (l, w)
  end.

(** [<< endl]: a blank, the time and the end of the line. *)
Definition debug_endl (l : DebugLogger) (w : world) : DebugLogger * world :=
  match stream_ l with
  | Some s =>
      let '(s, w) := ofstream_put " " s w in
      let '(time, w) := putFormattedTime w in
      let '(s, w) := ofstream_put time s w in
      let '(s, w) := ofstream_put newline s w in
      (mkDebugLogger (Some s) (logger_apiKey_ l), w)
  | None => (l, w)
  end.

(** [<< text << ... << endl] *)
Fixpoint debug_line (texts : list string) (l : DebugLogger) (w : world) : DebugLogger * world :=
  match texts with
  | [] => debug_endl l w
  | text :: texts => let '(l, w) := debug_put text l w in debug_line texts l w
  end.

Definition writeLogStart (build : settings) (pid : Z) (l : DebugLogger) (w : world) : DebugLogger * world :=
  debug_line
    ["git: "; GIT_STR build; ", AGENT_VERSION: "; pretty (AGENT_VERSION build); ", PID: "; pretty pid;
     ", API KEY: "; logger_apiKey_ l]%string l w.

Definition debug_on_fork (build : settings) (pid : Z) (path : string) (l : DebugLogger) (w : world)
    : DebugLogger * world :=
  let '(l, w) := debug_open path (logger_apiKey_ l) w in writeLogStart build pid l w.

(** ** The error log *)

Inductive ostream := Cerr | ErrorFile (s : ofstream).

Record logs := mkLogs { log_world : world; debugLogger_ : option DebugLogger; ERROR_FILE : ostream }.

Definition error_put (text : string) (l : logs) : logs :=
  match ERROR_FILE l with
  | Cerr =>
      let w := log_world l in mkLogs (mkWorld (files w) (cerr w +:+ text) (readings w)) (debugLogger_ l) Cerr
  | ErrorFile s => let '(s, w) := ofstream_put text s (log_world l) in mkLogs w (debugLogger_ l) (ErrorFile s)
  end.

(** [sprintf (buffer, format, arg)] with a [va_list] in the place of the first
    argument: a conversion reads the list as if it were the argument. *)
Fixpoint sprintf_va_list (format : string) : outcome string :=
  match format with
  | EmptyString => Ok EmptyString
  | String c s =>
      if Ascii.eqb c "%" then
        match s with
        | String c' s => if Ascii.eqb c' "%" then t ← sprintf_va_list s; Ok (String c t) else Undefined
        | EmptyString => Undefined
        end
      else t ← sprintf_va_list s; Ok (String c t)
  end.

Definition ERROR_BUFFER_SIZE : nat := 500.

Definition on_debug (f : DebugLogger -> world -> DebugLogger * world) (l : logs) : logs :=
  match debugLogger_ l with
  | Some d => let '(d, w) := f d (log_world l) in mkLogs w (Some d) (ERROR_FILE l)
  | None => l
  end.

Definition logError (build : settings) (format : string) (l : logs) : outcome logs :=
  let l := error_put (" Err: ")
    (let l := error_put "Opsian (" l in
     let l := error_put (GIT_STR build) l in
     let l := error_put ") @ " l in
     let '(time, w) := putFormattedTime (log_world l) in
     error_put time (mkLogs w (debugLogger_ l) (ERROR_FILE l))) in
  buffer ← sprintf_va_list format;
  if (ERROR_BUFFER_SIZE <=? String.length buffer)%nat then Undefined
  else
    let l := error_put newline (error_put buffer l) in
    Ok (on_debug (debug_line [buffer]) l).
End Logs.

(** ** The start *)

(** The text in front of the first zero, and zeros for the rest: [strncpy] into an
    array of one more than the size. *)
Fixpoint until_zero (s : string) : string :=
  match s with
  | EmptyString => EmptyString
  | String c s => if Ascii.eqb c zero then EmptyString else String c (until_zero s)
  end.
Definition copy (source : string) : string :=
  until_zero source +:+ zeros (String.length source - String.length (until_zero source)).

Definition ON_PREM_HOST_DEFAULT : string := "N".

(** The process with the variables of the library. *)
Record program (N M : Type) := mkProgram {
  the_process : process;
  OPTIONS : option string;
  CONFIGURATION : option ConfigurationOptions;
  prof : option (settings * profiler N M);
  fork_callbacks : bool;
  the_logs : logs
}.
Arguments mkProgram {N M}.
Arguments the_process {N M}.
Arguments OPTIONS {N M}.
Arguments CONFIGURATION {N M}.
Arguments prof {N M}.
Arguments fork_callbacks {N M}.
Arguments the_logs {N M}.

(** What a new process finds: [getpid], and nothing set up. *)
Definition new_program {N M} (pid : Z) (w : world) : program N M :=
  mkProgram (mkProcess EmptyString EmptyString pid) None None None false (mkLogs w None Cerr).

Section Start.
Context {N M : Type} `{NetworkApi N} `{MetricsApi M} `{!MetricsThread M} `{Kernel} `{TextSystem}.
(** What the build, the system and the environment provide. *)
Context (build : settings) (gethostname : option string) (net : N) (met : M) (installed : gmap Z action).
Context (symbol0 : option Z) (tsc0 : Z) (events : list io_event) (randoms : list Z) (time : Z).
Local Abbreviation program := (program N M).
Implicit Types p : program.

(** [FileOutputStream] over the log file; nothing is opened without a name. *)
Definition open_log_file (c : ConfigurationOptions) (l : logs) : outcome logs :=
  if is_empty (logFilePath c) then Ok l
  else if can_open (logFilePath c) then
    let w := log_world l in
    Ok (mkLogs (mkWorld (<[logFilePath c := EmptyString]> (files w)) (cerr w) (readings w)) (debugLogger_ l)
          (ERROR_FILE l))
  else logError build "ERROR: Failed to open file %s for writing %d
" l.

Definition report_key (c : ConfigurationOptions) (l : logs) : outcome logs :=
  if negb (Options.prometheusEnabled c) && is_empty (apiKey c)
  then logError build "ERROR: no api key set for the profiling agent
" l
  else Ok l.

(** The logs that [Profiler::configure] opens and writes. *)
Definition configure_logs (pid : Z) (c : ConfigurationOptions) (l : logs) : outcome logs :=
  let '(d, w) := new_DebugLogger (debugLogPath c) (apiKey c) (log_world l) in
  let '(d, w) := writeLogStart build pid d w in
  let l := mkLogs w (Some d) (ERROR_FILE l) in
  let l :=
    if Options.prometheusEnabled c
    then on_debug (debug_line (["Prometheus Enabled: "%string; prometheusHost c] ++
                     concat ((fun port => [":"%string; pretty port]) <$> prometheusPorts c))) l
    else l in
  l ← open_log_file c l;
  l ← report_key c l;
  match gethostname with
  | Some _ => Ok l
  | None =>
      l ← logError build "Unable to lookup hostname" l;
      Ok (on_debug (debug_line ["Result from hostname lookup failure"; "-1"]%string) l)
  end.

(** The host name becomes the agent's identifier in the options themselves. *)
Definition default_agentId (c : ConfigurationOptions) : ConfigurationOptions :=
  match gethostname with
  | Some hostname => if is_empty (agentId c) then set_text OAgentId hostname c else c
  | None => c
  end.

Definition new_Profiler (pid : Z) (c : ConfigurationOptions) (ocamlVersion : string) (l : logs)
    : outcome ((settings * profiler N M) * logs) :=
  l ← configure_logs pid c l;
  r ← configure c ocamlVersion gethostname build net met installed symbol0 tsc0 events randoms time;
  Ok (r, l).

(** [environment]: the value of [OPSIAN_OPTS]. *)
Definition start_opsian_native (ocaml_version ocaml_executable_name ocaml_argv0 : string) (environment : option string) p
    : outcome program :=
  let proc := mkProcess (copy ocaml_executable_name) (copy ocaml_argv0) (getpid (the_process p)) in
  match environment with
  | None =>
      l ← logError build "Please set the environment variable 'OPSIAN_OPTS' in order to use Opsian
" (the_logs p);
      Ok (mkProgram proc None (CONFIGURATION p) (prof p) (fork_callbacks p) l)
  | Some options =>
      c ← setup_configuration proc options (default_options ON_PREM_HOST_DEFAULT);
      let l := the_logs p in
      let l :=
        if is_empty (errorLogPath c) then l
        else let '(s, w) := ofstream_open (errorLogPath c) (log_world l) in mkLogs w (debugLogger_ l) (ErrorFile s) in
      '((s, a), l) ← new_Profiler (getpid proc) c ocaml_version l;
      Ok (mkProgram proc (Some options) (Some (default_agentId c)) (Some (s, start a)) true l)
  end.

(** ** Forking *)

(** Asio is told in each of the three callbacks. *)
Definition prepare_fork p : program := p.

Definition set_logs l p : program :=
  mkProgram (the_process p) (OPTIONS p) (CONFIGURATION p) (prof p) (fork_callbacks p) l.

Definition parent_fork p : program :=
  set_logs (on_debug (debug_line ["parent_fork "; pretty (getpid (the_process p))]%string) (the_logs p)) p.

(** In the child, a copy of the parent with a number of its own.  The callbacks
    are registered once everything is set up. *)
Definition child_fork (child : Z) p : outcome program :=
  match OPTIONS p, CONFIGURATION p, prof p with
  | Some options, Some configuration, Some (s, a) =>
      let proc := mkProcess (OCAML_EXE_NAME (the_process p)) (OCAML_ARGV0 (the_process p)) child in
      c ← setup_configuration proc options configuration;
      let l := on_debug (debug_on_fork build child (debugLogPath c)) (the_logs p) in
      let l := on_debug (debug_line ["child_fork "; pretty child]%string) l in
      Ok (mkProgram proc (Some options) (Some c) (Some (s, Agent.on_fork a)) (fork_callbacks p) l)
  | _, _, _ => Undefined
  end.
End Start.
