(* ===== verification/StartupSpec.v ===== *)
(** * What starting and forking do to the options, the logs and the agent *)
From S2P Require Import Prelude CString Options OptionsSpec MetricTypes CircularQueue Messages.
From S2P Require Import SignalHandler ProcScanner CollectorController CollectorControllerSpec SymbolTable LogWriter ProtocolHandler Agent Startup.
From Stdlib Require Import Ascii.
From stdpp Require Import pretty.
#[local] Open Scope Z_scope.

(** ** Options that are read a second time *)

(** A field of the options, and what a step of the parser does to it. *)
Definition settles {A} (f : ConfigurationOptions -> A) (op : ConfigurationOptions -> outcome ConfigurationOptions) : Prop :=
  (exists v, forall c c', op c = Ok c' -> f c' = v) \/ (forall c c', op c = Ok c' -> f c' = f c).

(** Whether a step succeeds does not depend on the options so far. *)
Definition uniform (op : ConfigurationOptions -> outcome ConfigurationOptions) : Prop :=
  forall c1 c2 c1', op c1 = Ok c1' -> exists c2', op c2 = Ok c2'.

Lemma settles_then {A} (f : ConfigurationOptions -> A) op1 op2 :
  settles f op1 -> settles f op2 -> settles f (fun c => c ← op1 c; op2 c).
Proof.
  intros H1 [[v H2]|H2]; [left; exists v|destruct H1 as [[v H1]|H1]; [left; exists v|right]];
    intros c c' E; apply bind_ok in E as (d & E1 & E2).
  - by eapply H2.
  - rewrite (H2 _ _ E2). by eapply H1.
  - rewrite (H2 _ _ E2). by apply H1.
Qed.

Lemma uniform_then op1 op2 : uniform op1 -> uniform op2 -> uniform (fun c => c ← op1 c; op2 c).
Proof.
  intros H1 H2 c1 c2 c1' E. apply bind_ok in E as (d & E1 & E2).
  destruct (H1 c1 c2 d E1) as [d2 ->]. cbn [mbind outcome_bind]. by eapply H2.
Qed.

(** The fields beside the list of ports. *)
Inductive field : forall A, (ConfigurationOptions -> A) -> Prop :=
| f_log : field string logFilePath | f_host : field string host | f_port : field string Options.port
| f_frames : field Z maxFramesToCapture | f_key : field string apiKey | f_agent : field string agentId
| f_debug : field string debugLogPath | f_error : field string errorLogPath
| f_version : field string applicationVersion | f_certificate : field string customCertificateFile
| f_onPrem : field bool onPremHost | f_corruption : field bool logCorruption
| f_prometheusHost : field string prometheusHost | f_segment : field string prometheusSegment
| f_process : field Z Options.prometheusProcessSampleRate | f_elapsed : field Z Options.prometheusElapsedSampleRate.

Lemma set_option_uniform o value len : uniform (set_option o value len).
Proof. intros c1 c2 c1' E. destruct o; cbn in *; try (by eexists); destruct (assign_range value len); try done; by eexists. Qed.

Lemma set_option_settles o value len A (f : ConfigurationOptions -> A) : field A f -> settles f (set_option o value len).
Proof.
  unfold settles, set_option. intros Hf.
  destruct (assign_range value len) as [v| | |]; destruct Hf; destruct o; cbn;
    first [right; intros c c' E; by first [discriminate E|injection E as <-]
          |left; eexists; intros c c' E; injection E as <-; cbn; reflexivity].
Qed.

(** The ports a step adds. *)
Definition adds_ports (op : ConfigurationOptions -> outcome ConfigurationOptions) : Prop :=
  exists l, forall c c', op c = Ok c' -> prometheusPorts c' = prometheusPorts c ++ l.

Lemma adds_ports_then op1 op2 : adds_ports op1 -> adds_ports op2 -> adds_ports (fun c => c ← op1 c; op2 c).
Proof.
  intros [l1 H1] [l2 H2]. exists (l1 ++ l2). intros c c' E. apply bind_ok in E as (d & E1 & E2).
  by rewrite (H2 _ _ E2), (H1 _ _ E1), app_assoc.
Qed.

Lemma set_option_ports o value len : adds_ports (set_option o value len).
Proof.
  unfold adds_ports, set_option. destruct (assign_range value len) as [v| | |]; destruct o; cbn;
    first [exists []; intros c c' E; rewrite app_nil_r; by first [discriminate E|injection E as <-]
          |eexists; intros c c' E; injection E as <-; cbn; reflexivity].
Qed.

(** A step of the parser, whatever it is. *)
Record reads (op : ConfigurationOptions -> outcome ConfigurationOptions) : Prop := {
  reads_uniform : uniform op;
  reads_settles A f : field A f -> settles f op;
  reads_ports : adds_ports op
}.

Lemma reads_nothing : reads Ok.
Proof.
  split; [intros c1 c2 c1' _; by exists c2| |exists []; intros c c' [= <-]; by rewrite app_nil_r].
  intros A f _. right. by intros c c' [= <-].
Qed.

Lemma reads_undefined : reads (fun _ => Undefined).
Proof. split; [by intros c1 c2 c1'|by right|by exists []]. Qed.

Lemma reads_then op1 op2 : reads op1 -> reads op2 -> reads (fun c => c ← op1 c; op2 c).
Proof.
  intros [U1 S1 P1] [U2 S2 P2]. split; [by apply uniform_then| |by apply adds_ports_then].
  intros A f Hf. by apply settles_then; [apply S1|apply S2].
Qed.

Lemma parse_key_reads key next : reads (parse_key key next).
Proof.
  unfold parse_key. destruct (strchr key "="); [|apply reads_undefined].
  destruct (lookup_name key option_names); [|apply reads_undefined].
  split; [apply set_option_uniform| |apply set_option_ports]. intros A f. apply set_option_settles.
Qed.

Lemma parse_loop_reads fuel key : reads (parse_loop fuel key).
Proof.
  revert key. induction fuel as [|fuel IH]; intros key.
  - split; [by intros c1 c2 c1'|by right|by exists []].
  - cbn [parse_loop]. apply (reads_then (parse_key key (strchr key ","))); [apply parse_key_reads|].
    destruct (strchr key ","); [apply IH|apply reads_nothing].
Qed.

Lemma parseArguments_reads options : reads (parseArguments options).
Proof. apply parse_loop_reads. Qed.

(** ** The substitutions, as a function of each field *)

Definition last_name (name : string) : string := replace_all "." "_" O (after_last "/" name).

Definition expand (p : process) (value : string) : string :=
  replace_all "£{PID}" (last_name (pretty (getpid p))) O
    (replace_all "£{ARGV_0}" (last_name (OCAML_ARGV0 p)) O
      (replace_all "£{EXE_NAME}" (last_name (OCAML_EXE_NAME p)) O value)).

Definition on_texts (g : string -> string) (c : ConfigurationOptions) : ConfigurationOptions :=
  mkOptions (g (logFilePath c)) (host c) (Options.port c) (maxFramesToCapture c) (apiKey c) (g (agentId c))
    (g (debugLogPath c)) (g (errorLogPath c)) (applicationVersion c) (g (customCertificateFile c))
    (onPremHost c) (logCorruption c) (Options.prometheusEnabled c) (prometheusHost c) (prometheusPorts c)
    (g (prometheusSegment c)) (Options.prometheusProcessSampleRate c) (Options.prometheusElapsedSampleRate c).

Lemma substitutePath_texts name variable c :
  variable <> EmptyString ->
  substitutePath name variable c = Ok (on_texts (replace_all variable (last_name name) O) c).
Proof.
  intros Hv. unfold substitutePath. rewrite substitute_option_replaces_all by done. cbn [mbind outcome_bind].
  by rewrite !substitute_option_replaces_all.
Qed.

Lemma substitute_options_texts p c : substitute_options p c = Ok (on_texts (expand p) c).
Proof.
  unfold substitute_options. rewrite substitutePath_texts by done. cbn [mbind outcome_bind].
  rewrite substitutePath_texts by done. cbn [mbind outcome_bind]. by rewrite substitutePath_texts.
Qed.

Definition finish (c : ConfigurationOptions) : ConfigurationOptions :=
  set_others (maxFramesToCapture c) (onPremHost c) (logCorruption c)
    (match prometheusPorts c with [] => false | _ => true end) (prometheusPorts c)
    (Options.prometheusProcessSampleRate c) (Options.prometheusElapsedSampleRate c) c.

Lemma setup_configuration_texts p options c :
  setup_configuration p options c = (d ← parseArguments options c; Ok (finish (on_texts (expand p) d))).
Proof.
  unfold setup_configuration. destruct (parseArguments options c) as [d| | |]; [|done..]. cbn [mbind outcome_bind].
  by rewrite substitute_options_texts.
Qed.

(** The options without the two fields a second reading may change. *)
Definition forget (c : ConfigurationOptions) : ConfigurationOptions :=
  mkOptions (logFilePath c) (host c) (Options.port c) (maxFramesToCapture c) (apiKey c) EmptyString
    (debugLogPath c) (errorLogPath c) (applicationVersion c) (customCertificateFile c)
    (onPremHost c) (logCorruption c) (Options.prometheusEnabled c) (prometheusHost c) []
    (prometheusSegment c) (Options.prometheusProcessSampleRate c) (Options.prometheusElapsedSampleRate c).

(** Options that were set up once, by whatever process, read again. *)
Lemma setup_again p1 p2 options c1 c1' :
  setup_configuration p1 options (default_options ON_PREM_HOST_DEFAULT) = Ok c1 -> forget c1' = forget c1 ->
  prometheusPorts c1' = prometheusPorts c1 ->
  exists c2 fresh,
    setup_configuration p2 options c1' = Ok c2 /\
    setup_configuration p2 options (default_options ON_PREM_HOST_DEFAULT) = Ok fresh /\
    forget c2 = forget fresh /\ prometheusPorts c2 = prometheusPorts fresh ++ prometheusPorts fresh /\
    (agentId fresh <> EmptyString -> agentId c2 = agentId fresh).
Proof.
  intros E1 Ef Ep. rewrite !setup_configuration_texts in *. apply bind_ok in E1 as (d0 & E0 & E1%ok_inj).
  destruct (parseArguments_reads options) as [U S [l P]].
  destruct (U _ c1' d0 E0) as [d2 E2]. rewrite E0, E2. cbn [mbind outcome_bind].
  eexists _, _. split; [done|]. split; [done|].
  set (c0 := default_options ON_PREM_HOST_DEFAULT) in *.
  assert (forall A f, field A f -> (f d0 = f c0 -> f c1' = f d0) -> f d2 = f d0) as Hf.
  { intros A f Hf E. destruct (S A f Hf) as [[v Hv]|Hk]; [by rewrite (Hv _ _ E0), (Hv _ _ E2)|].
    rewrite (Hk _ _ E2). by apply E, Hk. }
  pose proof (P _ _ E0) as P0. pose proof (P _ _ E2) as P2. change (prometheusPorts c0) with ([] : list Z) in P0.
  assert (prometheusPorts c1' = prometheusPorts d0) as Ep' by (by rewrite Ep, <- E1).
  rewrite Ep' in P2. cbn [app] in P0. rewrite P0 in P2.
  assert (forall A (f : ConfigurationOptions -> A), f (forget c1') = f (forget (finish (on_texts (expand p1) d0)))) as Hc
    by (intros A f; by rewrite Ef, E1).
  assert (forall f, field string f -> f c0 = EmptyString -> f c1' = expand p1 (f d0) -> f d2 = f d0) as Ht.
  { intros f Hf' Hz E. apply Hf; [done|]. intros E'. by rewrite E, E', Hz. }
  split; [|split; [cbn; by rewrite P0, P2|]].
  - unfold forget, finish. cbn. rewrite P0, P2.
    rewrite (Ht logFilePath f_log eq_refl (Hc _ logFilePath)), (Ht errorLogPath f_error eq_refl (Hc _ errorLogPath)),
      (Ht debugLogPath f_debug eq_refl (Hc _ debugLogPath)), (Ht customCertificateFile f_certificate eq_refl (Hc _ customCertificateFile)),
      (Ht prometheusSegment f_segment eq_refl (Hc _ prometheusSegment)),
      (Hf _ host f_host (fun _ => Hc _ host)), (Hf _ Options.port f_port (fun _ => Hc _ Options.port)),
      (Hf _ maxFramesToCapture f_frames (fun _ => Hc _ maxFramesToCapture)), (Hf _ apiKey f_key (fun _ => Hc _ apiKey)),
      (Hf _ applicationVersion f_version (fun _ => Hc _ applicationVersion)),
      (Hf _ onPremHost f_onPrem (fun _ => Hc _ onPremHost)), (Hf _ logCorruption f_corruption (fun _ => Hc _ logCorruption)),
      (Hf _ prometheusHost f_prometheusHost (fun _ => Hc _ prometheusHost)),
      (Hf _ _ f_process (fun _ => Hc _ Options.prometheusProcessSampleRate)),
      (Hf _ _ f_elapsed (fun _ => Hc _ Options.prometheusElapsedSampleRate)).
    by destruct l.
  - cbn. intros Ha. f_equal. destruct (S _ agentId f_agent) as [[v Hv]|Hk]; [by rewrite (Hv _ _ E0), (Hv _ _ E2)|].
    by rewrite (Hk _ _ E0) in Ha.
Qed.

(** ** Text at the end of a file *)

Lemma app_string_nil (a : string) : a +:+ EmptyString = a.
Proof. induction a as [|c a IH]; [done|]. by rewrite string_app_cons, IH. Qed.

Section Logs.
Context `{TextSystem} (build : settings).

Lemma take_whole s : take_string (String.length s) s = s.
Proof using Type. induction s as [|c s IH]; [done|]. cbn. by rewrite IH. Qed.

Lemma skip_whole n s : skip (String.length s + n) s = EmptyString.
Proof using Type. induction s as [|c s IH]; [by destruct n|exact IH]. Qed.

Lemma overwrite_end content text : overwrite content (String.length content) text = content +:+ text.
Proof using Type.
  unfold overwrite. rewrite take_whole, Nat.sub_diag, skip_whole. cbn [zeros]. f_equal.
  by rewrite string_app_nil, app_string_nil.
Qed.

(** The stream of the log is open and behind its text. *)
Definition logged (path content : string) (l : DebugLogger) (w : world) : Prop :=
  stream_ l = Some (mkOfstream path true (String.length content)) /\ files w !! path = Some content.

Lemma put_end path content text w :
  files w !! path = Some content ->
  exists w', ofstream_put text (mkOfstream path true (String.length content)) w =
      (mkOfstream path true (String.length (content +:+ text)), w') /\
    files w' !! path = Some (content +:+ text) /\ readings w' = readings w.
Proof using Type.
  intros Hw. unfold ofstream_put. cbn [is_open position Startup.path]. rewrite Hw. cbn [default].
  rewrite overwrite_end, <- length_app_string. eexists. split; [done|]. split; [apply lookup_insert_eq|done].
Qed.

Fixpoint together (texts : list string) : string :=
  match texts with [] => EmptyString | text :: texts => text +:+ together texts end.

Definition line_of (texts : list string) (time : string) : string := together texts +:+ " " +:+ time +:+ newline.

Lemma debug_line_end path content texts l w :
  logged path content l w ->
  exists l' w', debug_line texts l w = (l', w') /\ logged path (content +:+ line_of texts (formatted_time (readings w))) l' w' /\
    logger_apiKey_ l' = logger_apiKey_ l /\ readings w' = S (readings w).
Proof using Type.
  revert content l w. induction texts as [|text texts IH]; intros content l w [Hl Hw]; cbn [debug_line].
  - unfold debug_endl. rewrite Hl. destruct (put_end path content " " w Hw) as (w1 & -> & Hw1 & R1).
    cbn [putFormattedTime]. rewrite R1.
    destruct (put_end path (content +:+ " ") (formatted_time (readings w))
      (mkWorld (files w1) (cerr w1) (S (readings w))) Hw1) as (w2 & -> & Hw2 & R2).
    destruct (put_end path _ newline w2 Hw2) as (w3 & -> & Hw3 & R3).
    eexists _, w3. split; [done|]. unfold logged, line_of. cbn [together stream_ logger_apiKey_].
    rewrite string_app_nil, !app_assoc_string in *. split; [done|]. split; [done|]. by rewrite R3, R2.
  - unfold debug_put. rewrite Hl. destruct (put_end path content text w Hw) as (w1 & -> & Hw1 & R1).
    destruct (IH (content +:+ text) (mkDebugLogger (Some (mkOfstream path true (String.length (content +:+ text)))) (logger_apiKey_ l)) w1)
      as (l' & w' & -> & Hl' & E & R'); [done|].
    exists l', w'. split; [done|]. rewrite R1 in *. unfold line_of in *. cbn [together].
    by rewrite !app_assoc_string in *.
Qed.

Definition start_texts (pid : Z) (key : string) : list string :=
  ["git: "; GIT_STR build; ", AGENT_VERSION: "; pretty (AGENT_VERSION build); ", PID: "; pretty pid; ", API KEY: "; key]%string.

(** Reopening empties the file, whoever else has it open. *)
Lemma debug_on_fork_end pid path l w :
  path <> EmptyString -> can_open path = true ->
  exists l' w', debug_on_fork build pid path l w = (l', w') /\
    logged path (line_of (start_texts pid (logger_apiKey_ l)) (formatted_time (readings w))) l' w' /\
    logger_apiKey_ l' = logger_apiKey_ l /\ readings w' = S (readings w).
Proof using Type.
  intros Hp Ho. unfold debug_on_fork, debug_open, ofstream_open. destruct path as [|c path]; [done|]. cbn [is_empty].
  rewrite Ho. cbn [fst snd]. unfold writeLogStart. cbn [logger_apiKey_]. set (p := String c path).
  destruct (debug_line_end p EmptyString (start_texts pid (logger_apiKey_ l))
    (mkDebugLogger (Some (mkOfstream p true 0)) (logger_apiKey_ l)) (mkWorld (<[p := EmptyString]> (files w)) (cerr w) (readings w)))
    as (l' & w' & E & Hl & Hk & R).
  - split; [done|apply lookup_insert_eq].
  - exists l', w'. by rewrite string_app_nil in Hl.
Qed.

Lemma on_debug_some f l d d' w' :
  debugLogger_ l = Some d -> f d (log_world l) = (d', w') -> on_debug f l = mkLogs w' (Some d') (ERROR_FILE l).
Proof using Type. intros Hd E. unfold on_debug. by rewrite Hd, E. Qed.

(** An error message without conversions is written. *)
Lemma logError_plain format text l :
  sprintf_va_list format = Ok text -> (String.length text < ERROR_BUFFER_SIZE)%nat -> exists l', logError build format l = Ok l'.
Proof using Type.
  intros E Hl. unfold logError. destruct (putFormattedTime _) as [time w]. rewrite E. cbn [mbind outcome_bind].
  destruct (Nat.leb_spec ERROR_BUFFER_SIZE (String.length text)); [lia|]. by eexists.
Qed.
End Logs.

(** ** The whole library *)

Section Program.
Context {N M : Type} `{NetworkApi N} `{MetricsApi M} `{!MetricsThread M} `{Kernel} `{TextSystem}.
Context (build : settings) (gethostname : option string) (net : N) (met : M) (installed : gmap Z action).
Context (symbol0 : option Z) (tsc0 : Z) (events : list io_event) (randoms : list Z) (time : Z).
Local Abbreviation program := (program N M).
Local Abbreviation start_native := (start_opsian_native build gethostname net met installed symbol0 tsc0 events randoms time).
Implicit Types p : program.

(** Without [OPSIAN_OPTS] the library says so in the error log and does
    nothing else: no options, no agent, no thread, no callback. *)
Theorem start_without_options version exe argv0 pid w :
  exists p, start_native version exe argv0 None (new_program pid w) = Ok p /\
    OPTIONS p = None /\ CONFIGURATION p = None /\ prof p = None /\ fork_callbacks p = false /\
    files (log_world (the_logs p)) = files w /\
    cerr (log_world (the_logs p)) = cerr w +:+ "Opsian (" +:+ GIT_STR build +:+ ") @ " +:+ formatted_time (readings w) +:+
      " Err: Please set the environment variable 'OPSIAN_OPTS' in order to use Opsian" +:+ newline +:+ newline.
Proof using Type.
  eexists. split; [reflexivity|]. do 5 (split; [done|]). cbn. by rewrite !app_assoc_string.
Qed.

Lemma start_running (a : profiler N M) : running (start a) = true.
Proof using Type. unfold start, on_agent, put_agent, settle. by repeat case_match. Qed.

Lemma start_isOn (a : profiler N M) : isOn (the_agent (start a)) = isOn (the_agent a).
Proof using Type. unfold start, on_agent, put_agent, settle. by repeat case_match. Qed.

(** What the constructor needs. *)
Definition can_start (c : ConfigurationOptions) : Prop :=
  (logFilePath c = EmptyString \/ can_open (logFilePath c) = true) /\ gethostname <> None /\ 0 <= maxFramesToCapture c.

Lemma is_empty_spec s : is_empty s = true <-> s = EmptyString.
Proof using Type. by destruct s. Qed.

Lemma open_log_file_ok c l :
  logFilePath c = EmptyString \/ can_open (logFilePath c) = true -> exists l', open_log_file build c l = Ok l'.
Proof using Type.
  intros Hlog. unfold open_log_file. destruct (is_empty (logFilePath c)) eqn:E; [by eexists|].
  destruct Hlog as [Hz| ->]; [|by eexists]. apply is_empty_spec in Hz. congruence.
Qed.

Lemma open_log_file_refuses c l l' :
  open_log_file build c l = Ok l' -> logFilePath c = EmptyString \/ can_open (logFilePath c) = true.
Proof using Type.
  unfold open_log_file. destruct (is_empty (logFilePath c)) eqn:E; [left; by apply is_empty_spec|].
  destruct (can_open (logFilePath c)); [by right|]. unfold logError. by destruct (putFormattedTime _).
Qed.

Lemma report_key_ok c l : exists l', report_key build c l = Ok l'.
Proof using Type.
  unfold report_key. destruct (negb _ && _); [|by eexists].
  eapply logError_plain; [reflexivity|apply Nat.ltb_lt; reflexivity].
Qed.

Lemma configure_logs_ok pid c l :
  logFilePath c = EmptyString \/ can_open (logFilePath c) = true -> gethostname <> None ->
  exists l', configure_logs build gethostname pid c l = Ok l'.
Proof using Type.
  intros Hlog Hhost. unfold configure_logs. destruct (new_DebugLogger _ _ _) as [d w].
  destruct (writeLogStart _ _ _ _) as [d1 w1]. set (l1 := if Options.prometheusEnabled c then _ else _).
  destruct (open_log_file_ok c l1 Hlog) as [l2 ->]. cbn [mbind outcome_bind].
  destruct (report_key_ok c l2) as [l3 ->]. cbn [mbind outcome_bind]. destruct gethostname; [by eexists|done].
Qed.

Lemma configure_logs_refuses pid c l l' :
  configure_logs build gethostname pid c l = Ok l' -> logFilePath c = EmptyString \/ can_open (logFilePath c) = true.
Proof using Type.
  unfold configure_logs. destruct (new_DebugLogger _ _ _) as [d w]. destruct (writeLogStart _ _ _ _) as [d1 w1].
  intros E. apply bind_ok in E as (l2 & E & _). by eapply open_log_file_refuses.
Qed.

Lemma starts version exe argv0 options p c :
  let proc := mkProcess (copy exe) (copy argv0) (getpid (the_process p)) in
  setup_configuration proc options (default_options ON_PREM_HOST_DEFAULT) = Ok c -> can_start c -> exists s a l,
    start_native version exe argv0 (Some options) p =
      Ok (mkProgram proc (Some options) (Some (default_agentId gethostname c)) (Some (s, start a)) true l) /\
    running (start a) = true /\
    isOn (the_agent (start a)) = negb (is_empty (apiKey c)) || Options.prometheusEnabled c /\
    agentId_ s = agentId (default_agentId gethostname c).
Proof using Type.
  cbn zeta. intros Ec (Hlog & Hhost & Hframes). set (proc := mkProcess _ _ _) in *.
  unfold start_opsian_native. fold proc. rewrite Ec. cbn [mbind outcome_bind].
  set (l0 := if is_empty (errorLogPath c) then _ else _). unfold new_Profiler.
  destruct (configure_logs_ok (getpid proc) c l0 Hlog Hhost) as [l1 ->]. cbn [mbind outcome_bind].
  unfold configure, default_agentId. destruct gethostname as [hostname|]; [|done].
  destruct (Z.ltb_spec (maxFramesToCapture c) 0); [lia|]. cbn [mbind outcome_bind].
  eexists _, _, _. split; [reflexivity|]. split; [apply start_running|]. split; [by rewrite start_isOn|].
  cbn [agentId_ configured_settings]. by destruct (is_empty (agentId c)).
Qed.

(** With options that are read, the library starts exactly if the log file
    can be opened, the host has a name and the number of frames is not negative:
    then the callbacks for forks are registered, the agent is configured with
    these options and running, and it is on exactly if it has a key or serves
    Prometheus.  If not, the start does not return normally: the message for a
    log file that cannot be opened is itself undefined, the host name is used
    uninitialised, and a negative number of frames is thrown. *)
Theorem start_outcome version exe argv0 options p c :
  let proc := mkProcess (copy exe) (copy argv0) (getpid (the_process p)) in
  setup_configuration proc options (default_options ON_PREM_HOST_DEFAULT) = Ok c ->
  (can_start c -> exists s a l,
    start_native version exe argv0 (Some options) p =
      Ok (mkProgram proc (Some options) (Some (default_agentId gethostname c)) (Some (s, start a)) true l) /\
    running (start a) = true /\
    isOn (the_agent (start a)) = negb (is_empty (apiKey c)) || Options.prometheusEnabled c /\
    agentId_ s = agentId (default_agentId gethostname c)) /\
  (~ can_start c -> forall p', start_native version exe argv0 (Some options) p <> Ok p').
Proof using Type.
  cbn zeta. intros Ec. split; [intros Hc; by apply starts|].
  intros Hn p' E. apply Hn. unfold can_start. unfold start_opsian_native in E. set (proc := mkProcess _ _ _) in *.
  rewrite Ec in E. cbn [mbind outcome_bind] in E.
  apply bind_ok in E as ([[s a] l] & E & _). unfold new_Profiler in E. apply bind_ok in E as (l1 & El & E).
  apply configure_logs_refuses in El. apply bind_ok in E as (r & E & _). unfold configure in E.
  destruct gethostname; [|done]. destruct (Z.ltb_spec (maxFramesToCapture c) 0); [done|].
  split; [done|split; [done|lia]].
Qed.

Lemma default_agentId_same c :
  forget (default_agentId gethostname c) = forget c /\ prometheusPorts (default_agentId gethostname c) = prometheusPorts c.
Proof using Type. unfold default_agentId. destruct gethostname; [|done]. by destruct (is_empty (agentId c)). Qed.

Lemma started_program version exe argv0 options p p1 :
  start_native version exe argv0 (Some options) p = Ok p1 ->
  exists c s a l,
    setup_configuration (the_process p1) options (default_options ON_PREM_HOST_DEFAULT) = Ok c /\
    p1 = mkProgram (mkProcess (copy exe) (copy argv0) (getpid (the_process p))) (Some options)
           (Some (default_agentId gethostname c)) (Some (s, start a)) true l.
Proof using Type.
  unfold start_opsian_native. intros E. apply bind_ok in E as (c & Ec & E). apply bind_ok in E as ([[s a] l] & _ & [= <-]).
  by exists c, s, a, l.
Qed.

(** C40. A forked child reads the options again, over those of its parent.  It gets
    what a process started with its own number would get: the same host, paths,
    keys and rates, with its own number in them, and not its parent's.  Only the
    list of ports is there twice, and an identifier that the options do not give
    is the one of the parent. *)
Theorem child_reads_options_afresh version exe argv0 options p p1 child :
  start_native version exe argv0 (Some options) p = Ok p1 ->
  exists p2 c fresh,
    child_fork build child p1 = Ok p2 /\ CONFIGURATION p2 = Some c /\
    the_process p2 = mkProcess (copy exe) (copy argv0) child /\
    setup_configuration (the_process p2) options (default_options ON_PREM_HOST_DEFAULT) = Ok fresh /\
    forget c = forget fresh /\
    prometheusPorts c = prometheusPorts fresh ++ prometheusPorts fresh /\
    (agentId fresh <> EmptyString -> agentId c = agentId fresh).
Proof using Type.
  intros E. apply started_program in E as (c & s & a & l & Ec & ->). cbn [the_process] in Ec.
  destruct (default_agentId_same c) as [Ef Ep].
  destruct (setup_again _ (mkProcess (copy exe) (copy argv0) child) options c _ Ec Ef Ep)
    as (c2 & fresh & E2 & Efresh & Hf & Hp & Ha).
  unfold child_fork. cbn [OPTIONS CONFIGURATION prof the_process OCAML_EXE_NAME OCAML_ARGV0]. rewrite E2.
  cbn [mbind outcome_bind]. by eexists _, c2, fresh.
Qed.

(** A child opens the debug log of its options anew: whatever the file held,
    the lines of its parent among it if the path is the same for both, is lost,
    and the file starts with the lines of the child. *)
Theorem child_truncates_debug_log p child p2 d c :
  debugLogger_ (the_logs p) = Some d ->
  child_fork build child p = Ok p2 -> CONFIGURATION p2 = Some c ->
  debugLogPath c <> EmptyString -> can_open (debugLogPath c) = true ->
  let n := readings (log_world (the_logs p)) in
  files (log_world (the_logs p2)) !! debugLogPath c =
    Some (line_of (start_texts build child (logger_apiKey_ d)) (formatted_time n) +:+
          line_of ["child_fork "; pretty child]%string (formatted_time (S n))).
Proof using Type.
  intros Hd E Ec Hp Ho. cbn zeta. unfold child_fork in E.
  destruct (OPTIONS p) as [options|]; [|done]. destruct (CONFIGURATION p) as [c0|]; [|done].
  destruct (prof p) as [[s a]|]; [|done]. apply bind_ok in E as (c' & _ & E%ok_inj).
  subst p2. cbn [CONFIGURATION] in Ec. apply (inj Some) in Ec as ->. cbn [the_logs].
  destruct (debug_on_fork_end build child (debugLogPath c) d (log_world (the_logs p)) Hp Ho) as (d1 & w1 & E1 & Hl1 & _ & R1).
  rewrite (on_debug_some _ _ _ _ _ Hd E1).
  destruct (debug_line_end _ _ ["child_fork "; pretty child]%string d1 w1 Hl1) as (d2 & w2 & E2 & [_ Hw2] & _).
  rewrite (on_debug_some (debug_line _) (mkLogs w1 (Some d1) (ERROR_FILE (the_logs p))) d1 d2 w2 eq_refl E2). cbn [log_world]. by rewrite Hw2, R1.
Qed.
End Program.

(** ** A process that starts and forks *)

#[local] Existing Instance down_network.
#[local] Existing Instance no_metrics.
#[local] Existing Instance willing_kernel.
#[local] Instance no_thread : MetricsThread unit := { metrics_startThread m := m; metrics_on_fork m := m }.
#[local] Instance any_file : TextSystem := { can_open _ := true; formatted_time _ := "now"%string }.

Definition some_settings : settings := test_settings false.
Definition some_text : string := "apiKey=k,debugLogPath=debug-£{PID}.log".
Definition before_start : program down unit := new_program 7 (mkWorld ∅ EmptyString 0).
Definition start_here : option string -> program down unit -> outcome (program down unit) :=
  start_opsian_native some_settings (Some "host"%string) Down tt ∅ None 0 [] [] 0 "4.14.0" "a/b.exe" "b.exe".

Definition read_options : ConfigurationOptions :=
  mkOptions EmptyString DEFAULT_HOST DEFAULT_PORT MAX_FRAMES "k" EmptyString "debug-7.log" EmptyString EmptyString
    EmptyString false false false EmptyString [] EmptyString 100 100.

Lemma options_read :
  setup_configuration (mkProcess "a/b.exe" "b.exe" 7) some_text (default_options ON_PREM_HOST_DEFAULT) = Ok read_options.
Proof. vm_compute. reflexivity. Qed.

Lemma start_outcome_witness :
  exists p s a, start_here (Some some_text) before_start = Ok p /\ prof p = Some (s, start a) /\
    running (start a) = true /\ isOn (the_agent (start a)) = true.
Proof.
  destruct (start_outcome some_settings (Some "host"%string) Down tt ∅ None 0 [] [] 0 "4.14.0" "a/b.exe" "b.exe"
    some_text before_start read_options options_read) as [Hstart _].
  destruct Hstart as (s & a & l & E & Hr & Hon & _).
  - split; [by left|]. split; [done|]. unfold read_options, MAX_FRAMES. cbn. lia.
  - eexists _, s, a. split; [exact E|]. split; [done|]. split; [exact Hr|]. by rewrite Hon.
Defined.

Lemma child_reads_options_afresh_witness :
  exists p1 p c, start_here (Some some_text) before_start = Ok p1 /\ child_fork some_settings 8 p1 = Ok p /\
    CONFIGURATION p = Some c /\ debugLogPath c = "debug-8.log"%string /\ apiKey c = "k"%string.
Proof.
  destruct (starts some_settings (Some "host"%string) Down tt ∅ None 0 [] [] 0 "4.14.0" "a/b.exe" "b.exe"
    some_text before_start read_options options_read) as (s & a & l & E1 & _).
  { split; [by left|]. split; [done|]. unfold read_options, MAX_FRAMES. cbn. lia. }
  destruct (child_reads_options_afresh some_settings (Some "host"%string) Down tt ∅ None 0 [] [] 0 "4.14.0"
    "a/b.exe" "b.exe" some_text before_start _ 8 E1) as (p & c & fresh & E & Ec & Ep & Ef & Hf & _).
  eexists _, p, c. split; [exact E1|]. split; [exact E|]. split; [exact Ec|].
  assert (fresh = on_texts (fun s => if String.eqb s "debug-7.log" then "debug-8.log"%string else s) read_options) as ->.
  { apply ok_inj. rewrite <- Ef, Ep. vm_compute. reflexivity. }
  split; [exact (f_equal debugLogPath Hf)|exact (f_equal apiKey Hf)].
Defined.

(** The options name the same file in every process. *)
Definition one_log : string := "debugLogPath=debug.log".
Definition one_log_read : ConfigurationOptions :=
  mkOptions EmptyString DEFAULT_HOST DEFAULT_PORT MAX_FRAMES EmptyString EmptyString "debug.log" EmptyString EmptyString
    EmptyString false false false EmptyString [] EmptyString 100 100.
Definition sharing : program down unit :=
  mkProgram (mkProcess "b.exe" "b.exe" 7) (Some one_log) (Some one_log_read)
    (Some (some_settings, mkProfiler (new_ProtocolHandler
       (mkLogWriter (new_CircularQueue None 0 8) (first_agent Down false) no_symbols ∅ ∅ [])) [] [] true)) true
    (mkLogs (mkWorld {["debug.log"%string := "lines of the parent"%string]} EmptyString 3)
       (Some (mkDebugLogger (Some (mkOfstream "debug.log" true 19)) "k")) Cerr).

Lemma one_log_again :
  setup_configuration (mkProcess "b.exe" "b.exe" 8) one_log one_log_read = Ok one_log_read.
Proof. vm_compute. reflexivity. Qed.

Lemma child_truncates_debug_log_witness :
  exists p, child_fork some_settings 8 sharing = Ok p /\
    files (log_world (the_logs p)) !! "debug.log"%string =
      Some ("git: git, AGENT_VERSION: 1, PID: 8, API KEY: k now" +:+ newline +:+ "child_fork 8 now" +:+ newline)%string.
Proof.
  assert (exists p, child_fork some_settings 8 sharing = Ok p /\ CONFIGURATION p = Some one_log_read) as (p & E & Ec).
  { unfold child_fork. cbn [OPTIONS CONFIGURATION prof sharing the_process OCAML_EXE_NAME OCAML_ARGV0].
    rewrite one_log_again. by eexists. }
  exists p. split; [exact E|].
  refine (eq_trans (child_truncates_debug_log some_settings sharing 8 p _ one_log_read eq_refl E Ec _ eq_refl) _);
    [discriminate|vm_compute; reflexivity].
Defined.
