(* ===== verification/PrometheusAgent.v ===== *)
(** * The agent in Prometheus mode ([lib/profiler.cpp], [lib/prometheus_exporter.cpp])

    The components are those of [Agent.v]; the processor pops the queues into the
    tree of the exporter in the place of the log writer, and the I/O service also
    runs the handlers of the HTTP server.  The exporter and the log writer share the
    static symbol tables.  What is printed to a client is kept, one list of lines for
    each request; that a write fails is only logged, and left out. *)
From S2P Require Import Prelude CString Options MetricTypes InternalQueue CircularQueue LinkableProfiler Profiler Messages.
From S2P Require Import SignalHandler ProcScanner CollectorController SymbolTable LogWriter Varint ProtocolHandler.
From S2P Require Import Prometheus Agent.
From S2P Require Network Processor.

(** The error of an asynchronous read, as far as the handler tells them apart. *)
Inductive read_error := ReadOk | ReadEof | ReadFailed.

(** A connection was accepted, or failed to be; a session has read something. *)
Inductive http_event :=
| Accepted (ec : bool)
| SomeRead (request : string) (ec : read_error).

(** [sessions]: how many sessions wait for their request. *)
Record promAgent (N M : Type) := mkPromAgent {
  inner : profiler N M;
  prom_root : ProfileNode;
  acceptor_ : option (string * Z);
  sessions : nat;
  prom_ready : list (io_event + http_event);
  responses : list (list string)
}.
Arguments mkPromAgent {N M}.
Arguments inner {N M}.
Arguments prom_root {N M}.
Arguments acceptor_ {N M}.
Arguments sessions {N M}.
Arguments prom_ready {N M}.
Arguments responses {N M}.

Section Lenses.
Context {N M : Type}.
Implicit Types (q : promAgent N M).

Definition set_inner p q : promAgent N M := mkPromAgent p (prom_root q) (acceptor_ q) (sessions q) (prom_ready q) (responses q).
Definition set_prom_ready l q : promAgent N M := mkPromAgent (inner q) (prom_root q) (acceptor_ q) (sessions q) l (responses q).
Definition set_sessions n q : promAgent N M := mkPromAgent (inner q) (prom_root q) (acceptor_ q) n (prom_ready q) (responses q).

(** The tree, with the symbols and the queues it is used with. *)
Definition exporter_of q : exporter :=
  mkExporter (prom_root q) (symbols_ (writer (inner q))) (buffer_ (writer (inner q))).
Definition put_exporter (x : exporter) q : promAgent N M :=
  mkPromAgent (set_writer (LogWriter.set_symbols (e_symbols x) (writer (inner q))) (inner q)) (root x) (acceptor_ q) (sessions q)
    (prom_ready q) (responses q).
End Lenses.

#[export] Program Instance prom_queue N M : HasQueue (promAgent N M) := {
  the_queue q := the_queue (inner q);
  put_queue c q := set_inner (put_queue c (inner q)) q
}.
Next Obligation. done. Qed.
Next Obligation. intros N M [p r a s l k]. cbn. unfold set_inner. simpl. f_equal. exact (put_queue_the p). Qed.
Next Obligation. done. Qed.

Section PrometheusAgent.
Context {N M : Type} `{NetworkApi N} `{MetricsApi M} `{!MetricsThread M} `{Kernel} `{Backtrace} `{ThreadNames}.
Context `{CollectorParser} {Context Cursor : Type} `{Unwinder Context Cursor}.
Context (unw_strerror : Z -> string) (cfg : settings) (processor_tid : Z) (segment : string).
Local Abbreviation prom := (promAgent N M).
Implicit Types q : prom.

#[export] Instance prom_listener : QueueListener prom := {
  MetricTypes.recordStackTrace ts t sg st tsc q :=
    x ← Prometheus.recordStackTrace ts t sg st tsc (exporter_of q); Ok (put_exporter x q);
  recordThread _ _ q := Ok q;
  recordAllocation _ _ _ q := Ok q;
  recordNotification _ _ _ q := Ok q;
  recordMetricInformation _ q := Ok q;
  recordMetricSamples _ _ q := Ok q;
  recordConstantMetricsComplete q := Ok q
}.

(** ** The server *)

(** The handler of [do_read]; the session ends with it. *)
Definition on_request (request : string) (ec : read_error) q : prom :=
  let q := set_sessions (pred (sessions q)) q in
  match ec with
  | ReadFailed => q
  | ReadOk | ReadEof =>
      let '(reply, x) := handle_request segment request (exporter_of q) in
      mkPromAgent (inner q) (root x) (acceptor_ q) (sessions q) (prom_ready q) (responses q ++ [reply])
  end.

(** The handler of [do_accept], which waits for the next connection in any case. *)
Definition on_accept (ec : bool) q : prom := if ec then q else set_sessions (S (sessions q)) q.

Definition http_handler_of (e : http_event) q : option (outcome prom) :=
  match e with
  | Accepted ec => match acceptor_ q with Some _ => Some (Ok (on_accept ec q)) | None => None end
  | SomeRead request ec =>
      if (0 <? sessions q)%nat && (Z.of_nat (String.length request) <=? 1024) then Some (Ok (on_request request ec q)) else None
  end.

(** ** The I/O service and the processor *)

Definition prom_handler_of (e : io_event + http_event) q : option (outcome prom) :=
  match e with
  | inl e => match handler_of e (inner q) with Some o => Some (p ← o; Ok (set_inner p q)) | None => None end
  | inr e => http_handler_of e q
  end.

Definition prom_poll_one (o : outcome prom) : nat * bool * outcome prom :=
  match o with
  | Ok q =>
      match prom_ready q with
      | [] => (O, false, o)
      | e :: events =>
          let q := set_prom_ready events q in
          match prom_handler_of e q with Some o => (1%nat, false, o) | None => (O, false, Ok q) end
      end
  | _ => (O, true, o)
  end.

Definition prom_network_poll q : outcome (bool * prom) :=
  let '(worked, o) := Network.poll prom_poll_one (Ok q) in q ← o; Ok (worked, q).

(** A call of the agent without the exporter. *)
Definition on_inner {A} (f : profiler N M -> outcome (A * profiler N M)) q : outcome (A * prom) :=
  '(a, p) ← f (inner q); Ok (a, set_inner p q).
Definition on_inner_ (f : profiler N M -> outcome (profiler N M)) q : outcome prom :=
  p ← f (inner q); Ok (set_inner p q).

Definition prom_processor : Processor.ProcessorApi prom := {|
  Processor.on_processor_thread_start q :=
    set_inner (on_agent (fun a => set_scanner (ProcScanner.on_processor_thread_start processor_tid (scanner a)) a) (inner q)) q;
  Processor.controller_onStart := on_inner_ (controller_onStart cfg);
  Processor.controller_onEnd := on_inner_ controller_onEnd;
  Processor.controller_isOn q := isOn (the_agent (inner q));
  Processor.controller_isActive q := isActive (the_agent (inner q));
  Processor.controller_poll := on_inner (fun p => Ok (controller_poll cfg p));
  Processor.network_poll := prom_network_poll;
  Processor.processorRunning q := running (inner q);
  Processor.sleep_ms d q := set_inner (on_agent (CollectorController.sleep_ms d) (inner q)) q
|}.

Definition prom_on_signal (signum : Z) (at_ : moment) q : outcome prom := on_inner_ (on_signal unw_strerror signum at_) q.
Definition prom_start q : prom := set_inner (start (inner q)) q.

(** The child keeps the tree, the server and its sessions. *)
Definition prom_on_fork q : prom := set_inner (on_fork (inner q)) q.
End PrometheusAgent.

(** ** Configuring

    Binding comes before the queues are made; a host or port that cannot be had
    leaves the agent without a server. *)
Definition prom_configure {N M} `{Binding} (configuration : ConfigurationOptions) (ocamlVersion : string)
    (gethostname : option string) (build : settings) (net : N) (met : M) (installed : gmap Z action)
    (symbol0 : option Z) (tsc0 : Z) (events : list (io_event + http_event)) (randoms : list Z) (time : Z)
    : outcome (settings * promAgent N M) :=
  '(s, p) ← Agent.configure configuration ocamlVersion gethostname build net met installed symbol0 tsc0 [] randoms time;
  Ok (s, mkPromAgent p new_root (bind_prometheus configuration None).2 O events []).
