(* ===== verification/PrometheusAgentSpec.v ===== *)
(** * From a signal to a scrape *)
From S2P Require Import Prelude CString Options MetricTypes InternalQueue CircularQueue CircularQueueSpec ListenerSim.
From S2P Require Import LinkableProfiler LinkableProfilerSpec Profiler ProfilerSpec Messages SignalHandler ProcScanner.
From S2P Require Import CollectorController CollectorControllerSpec SymbolTable SymbolTableSpec LogWriter LogWriterSpec.
From S2P Require Import Varint ProtocolHandler Processor ProcessorSpec Prometheus PrometheusSpec.
From S2P Require Import Agent AgentSpec AgentFlowSpec PrometheusAgent.
From S2P Require Network.
#[local] Open Scope Z_scope.

Section Flow.
Context {N M : Type} `{NetworkApi N} `{MetricsApi M} `{!MetricsThread M} `{Kernel} `{Backtrace} `{ThreadNames}.
Context `{CollectorParser} {Context Cursor : Type} `{Unwinder Context Cursor}.
Context (unw_strerror : Z -> string) (cfg : settings) (processor_tid : Z) (segment : string).
Local Abbreviation prom := (promAgent N M).
Implicit Types q : prom.
#[local] Instance flow_prom : ProcessorApi prom := prom_processor cfg processor_tid segment.

(** ** Popping into the tree *)

(** The exporter has no use for a broken trace. *)
Definition printable (e : event) : Prop :=
  match e with StackEvent (TraceTaken _ t _ _ _) => 0 <= num_frames t /\ traceable t | _ => True end.

Lemma trace_path_traceable t : 0 <= num_frames t -> traceable t -> trace_path t = Ok (rev (looked_up t)).
Proof using Type.
  intros Hn [Hin _]. unfold trace_path, looked_up, in_array, frame_count in *. rewrite Z.abs_eq in * by done.
  rewrite (proj2 (Z.leb_le _ _)) by done. cbn [orb]. do 2 f_equal. rewrite skipn_firstn_comm. f_equal.
  change (Z.to_nat NUMBER_OF_SIGNAL_HANDLER_FRAMES) with 3%nat. lia.
Qed.

(** The place of a trace in the tree has room for one more. *)
Definition countable_at (t : CallTrace (list CallFrame)) (sg : Z) (n : ProfileNode) : Prop :=
  count_at (frame <$> rev (looked_up t)) (sg =? SIGPROF) n <> INT_MAX.

(** A trace is one more count in the tree. *)
Lemma exporter_records ts t sg st tsc (x : exporter) : 0 <= num_frames t -> traceable t -> countable_at t sg (root x) ->
  exists x', Prometheus.recordStackTrace ts t sg st tsc x = Ok x' /\ e_queue x' = e_queue x /\
    recorded_at (sg =? SIGPROF) (rev (looked_up t)) (root x) (root x').
Proof using Type.
  intros Hn Ht Hmax. unfold Prometheus.recordStackTrace. rewrite (proj2 (Z.ltb_ge _ _)), trace_path_traceable by done. cbn [mbind outcome_bind].
  destruct (record_path_spec (sg =? SIGPROF) (rev (looked_up t)) (root x) (e_symbols x)) as (n & s & -> & Hr).
  { apply Forall_rev. apply Ht. }
  { exact Hmax. }
  by eexists.
Qed.

(** What popping does not touch. *)
Record same_server q q' : Prop := {
  same_prom_ready : prom_ready q' = prom_ready q;
  same_sessions : sessions q' = sessions q;
  same_responses : responses q' = responses q;
  same_controller : controller (the_agent (inner q')) = controller (the_agent (inner q))
}.

#[local] Instance same_server_preorder : PreOrder same_server.
Proof using Type. split; [by split|]. intros q1 q2 q3 [] []. split; congruence. Qed.

Lemma put_same c q : same_server q (put_queue c q) /\ prom_root (put_queue c q) = prom_root q.
Proof using Type. split; [split; reflexivity|reflexivity]. Qed.

Lemma prom_trace q ts t sg st tsc : 0 <= num_frames t -> traceable t -> countable_at t sg (prom_root q) ->
  exists q', deliver_event (StackEvent (TraceTaken ts t sg st tsc)) q = Ok q' /\ same_server q q' /\
    recorded_at (sg =? SIGPROF) (rev (looked_up t)) (prom_root q) (prom_root q').
Proof using Type.
  intros Hn Ht Hmax. destruct (exporter_records ts t sg st tsc (exporter_of q) Hn Ht Hmax) as (x & E & Eq & Hr).
  exists (put_exporter x q). cbn [deliver_event MetricTypes.recordStackTrace prom_listener]. rewrite E.
  split; [done|]. split; [split; reflexivity|exact Hr].
Qed.

Lemma prom_other e q : trace_in e = None -> deliver_event e q = Ok q.
Proof using Type. by destruct e as [[]|[]|[]]. Qed.

(** The exporter pushes nothing at all. *)
Lemma prom_gentle : gentle (W := prom) printable.
Proof using Type.
  intros e q q' _ E. assert (the_queue q' = the_queue q) as ->; [|constructor].
  destruct (trace_in e) eqn:Et; [|rewrite prom_other in E by done; by injection E as <-].
  destruct e as [| |[ts t sg st tsc|]]; try done.
  cbn [deliver_event MetricTypes.recordStackTrace prom_listener] in E.
  destruct (Prometheus.recordStackTrace _ _ _ _ _ _) as [x| | |]; [|done..]. by injection E as <-.
Qed.

Lemma careful_step e (v : careful prom) q' :
  c_failed v = false -> deliver_event e (c_state v) = Ok q' ->
  c_failed (careful_deliver e v) = false /\ c_state (careful_deliver e v) = q'.
Proof using Type. intros Hv E. unfold careful_deliver. by rewrite Hv, E. Qed.

Lemma handed_quiet q es (v : careful prom) : handed q es v -> omap of_stack es = [] ->
  c_failed v = false /\ same_server q (c_state v) /\ prom_root (c_state v) = prom_root q.
Proof using Type.
  intros Hd. induction Hd as [|c es v Hd IH|e es v Hd IH]; intros Hes; [done|..].
  - destruct (IH Hes) as (Hv & Hs & Hr). destruct (put_same c (c_state v)) as [Hs' Hr']. split; [done|]. split; [by etrans|by rewrite <- Hr].
  - rewrite omap_app in Hes. apply app_eq_nil in Hes as [Hes He]. destruct (IH Hes) as (Hv & Hs & Hr).
    assert (deliver_event e (c_state v) = Ok (c_state v)) as E.
    { apply prom_other, no_trace. simpl in He. by destruct (of_stack e). }
    destruct (careful_step e v _ Hv E) as [? ->]. done.
Qed.

Lemma handed_counts q es (v : careful prom) ts t sg st tsc :
  handed q es v -> omap of_stack es = [TraceTaken ts t sg st tsc] ->
  0 <= num_frames t -> traceable t -> countable_at t sg (prom_root q) ->
  c_failed v = false /\ same_server q (c_state v) /\
  recorded_at (sg =? SIGPROF) (rev (looked_up t)) (prom_root q) (prom_root (c_state v)).
Proof using Type.
  intros Hd Hes Hn Ht Hmax. revert Hes. induction Hd as [|c es v Hd IH|e es v Hd IH]; intros Hes; [done|..].
  - destruct (IH Hes) as (Hv & Hs & Hr). destruct (put_same c (c_state v)) as [Hs' Hr']. split; [done|]. split; [by etrans|exact Hr].
  - rewrite omap_app in Hes. simpl in Hes. destruct (of_stack e) as [x|] eqn:Ex.
    + assert (omap of_stack es = [] /\ x = TraceTaken ts t sg st tsc) as [Hno ->].
      { destruct (omap of_stack es) as [|y l]; [by injection Hes|]. by destruct l. }
      destruct e as [| |s]; try done. injection Ex as ->. destruct (handed_quiet q es v Hd Hno) as (Hv & Hs & Hroot).
      rewrite <- Hroot in Hmax. destruct (prom_trace (c_state v) ts t sg st tsc Hn Ht Hmax) as (v1 & E1 & Hs1 & Hr1).
      destruct (careful_step _ v _ Hv E1) as [? ->]. rewrite <- Hroot. split; [done|]. split; [by etrans|done].
    + rewrite app_nil_r in Hes. destruct (IH Hes) as (Hv & Hs & Hr).
      assert (deliver_event e (c_state v) = Ok (c_state v)) as E by (by apply prom_other, no_trace).
      destruct (careful_step e v _ Hv E) as [? ->]. done.
Qed.

(** ** A turn of the processor *)

Lemma prom_idle q i work : prom_ready q = [] -> Network.poll_loop (prom_poll_one segment) i work (Ok q) = ((0 <? work)%nat, Ok q).
Proof using Type.
  intros Hr. revert work. induction i as [|i IH]; intros work; [done|]. cbn [Network.poll_loop prom_poll_one].
  rewrite Hr, IH. by rewrite Nat.add_0_r.
Qed.

Definition in_prometheus_mode q : Prop := state_ (controller (the_agent (inner q))) = PROMETHEUS_MODE.

Lemma prom_turn d q polled q1 i q2 :
  in_prometheus_mode q -> prom_network_poll segment q = Ok (polled, q1) -> in_prometheus_mode q1 ->
  pop_loop MAX_POLLS 0 q1 = Ok (i, q2) -> polled || (0 <? i)%nat = true -> turn d q = Ok (MIN_SLEEP_IN_MS, q2).
Proof using Type.
  intros Hm Hp Hm1 Hpop Hwork. unfold turn, in_prometheus_mode in *. cbn [Processor.controller_poll flow_prom prom_processor].
  unfold on_inner. rewrite connected_poll by (by rewrite Hm). cbn [mbind outcome_bind].
  replace (set_inner (inner q) q) with q by (by destruct q).
  assert (Processor.network_poll q = Ok (polled, q1)) as -> by exact Hp. cbn [mbind outcome_bind].
  assert (Processor.controller_isActive q1 = true) as ->.
  { cbn. unfold isActive. by rewrite Hm1, orb_true_r. }
  rewrite Hpop. cbn [mbind outcome_bind orb]. by rewrite Hwork.
Qed.

Lemma no_work q : prom_ready q = [] -> prom_network_poll segment q = Ok (false, q).
Proof using Type. intros Hr. unfold prom_network_poll, Network.poll. by rewrite prom_idle. Qed.

(** The request of one waiting session. *)
Lemma one_request request ec q :
  (0 < sessions q)%nat -> Z.of_nat (String.length request) <= 1024 ->
  prom_ready q = [inr (SomeRead request ec)] ->
  prom_network_poll segment q = Ok (true, on_request segment request ec (set_prom_ready [] q)).
Proof using Type.
  intros Hs Hl Hr.
  assert (prom_poll_one segment (Ok q) = (1%nat, false, Ok (on_request segment request ec (set_prom_ready [] q)))) as E.
  { unfold prom_poll_one. rewrite Hr. cbn [prom_handler_of http_handler_of sessions set_prom_ready].
    by rewrite (proj2 (Nat.ltb_lt _ _) Hs), (proj2 (Z.leb_le _ _) Hl). }
  unfold prom_network_poll, Network.poll, Network.MAX_POLLS. rewrite (poll_loop_step _ _ _ _ _ _ E), prom_idle; [done|].
  destruct ec; cbn [on_request]; [..|done]; by destruct (handle_request _ _ _).
Qed.

(** The turn that answers one waiting session. *)
Lemma scrape_turn max d request q l :
  in_prometheus_mode q -> (0 < sessions q)%nat -> Z.of_nat (String.length request) <= 1024 ->
  prom_ready q = [inr (SomeRead request ReadOk)] ->
  holds max (the_queue q) l -> alloc_items l = [] -> stack_items l = [] ->
  exists q', turn d q = Ok (MIN_SLEEP_IN_MS, q') /\
    responses q' = responses q ++ [(handle_request segment request (exporter_of q)).1] /\
    prom_root q' = root (handle_request segment request (exporter_of q)).2.
Proof using Type.
  intros Hm Hs Hlen Hr Hl Ha Hst. pose proof (one_request request ReadOk q Hs Hlen Hr) as Epoll.
  set (q1 := on_request segment request ReadOk (set_prom_ready [] q)) in *.
  assert (inner q1 = inner q /\ responses q1 = responses q ++ [(handle_request segment request (exporter_of q)).1] /\
    prom_root q1 = root (handle_request segment request (exporter_of q)).2) as (Ei & Er & Eroot).
  { unfold q1, on_request. change (exporter_of (set_sessions _ (set_prom_ready [] q))) with (exporter_of q).
    by destruct (handle_request segment request (exporter_of q)). }
  assert (the_queue q1 = the_queue q) as Eq by (cbn [the_queue prom_queue]; by rewrite Ei).
  destruct (pop_loop_handed max printable MAX_POLLS 0 q1 l) as (i & v & es & l2 & Hd & Eloop & _ & _ & _ & Es & _).
  { apply prom_gentle. }
  { done. }
  { by rewrite Eq. }
  { by rewrite Ha. }
  { by rewrite Hst. }
  rewrite Hst, take_nil in Es. destruct (handed_quiet q1 es v Hd Es) as (Hv & Hsame & Hroot).
  exists (c_state v). split; [|by rewrite (same_responses _ _ Hsame), Hroot, Er, Eroot].
  apply (prom_turn d q true q1 i (c_state v)); [done|exact Epoll| |exact (Eloop Hv)|done].
  unfold in_prometheus_mode in *. by rewrite Ei.
Qed.

End Flow.

(** ** An agent that was scraped once, with a second session open *)

#[local] Existing Instance accepting_network.
#[local] Existing Instance no_metrics.
#[local] Existing Instance willing_kernel.
#[local] Existing Instance one_program.
#[local] Existing Instance one_thread.
#[local] Existing Instance no_thread.
#[local] Existing Instance one_message.
#[local] Existing Instance flow_prom.

Definition scraped_agent : promAgent accepting unit :=
  mkPromAgent (profiler_with (first_agent (Accepting false []) true) []) (set_seen true new_root)
    (Some ("127.0.0.1"%string, 9090)) 1 [] [].

