(* ===== verification/MetricsAgent.v ===== *)
(** * The agent with its metrics thread ([lib/profiler.cpp], [lib/metrics.cpp])

    The metrics component of the agent is the one of [Metrics.v], with the thread
    of [MetricsDuty.v].  Queues, thread scanner and metrics are shared: the thread
    works on the agent's queues and scanner, and its own copies of them are not
    used.  The controller's calls may come between any two steps of the thread.
    The component is an [outcome], so that a call that fails would stay visible. *)
From S2P Require Import Prelude MetricTypes InternalQueue CircularQueue SignalHandler ProcScanner Messages.
From S2P Require Import CollectorController SymbolTable LogWriter ProtocolHandler Agent Metrics MetricsDuty.

Section Component.
Context {C R : Type} `{MetricSource C} `{MetricSource R}.
Implicit Types o : outcome (duty C R).

#[export] Instance duty_metrics : MetricsApi (outcome (duty C R)) := {
  metrics_setSampleRate sampleRateMillis o := d ← o; serve_request (SetSampleRate sampleRateMillis) d;
  metrics_enable disabledPrefixes o := d ← o; serve_request (Enable disabledPrefixes) d;
  metrics_disable o := d ← o; serve_request Disable d;
  metrics_thread_running o := match o with Ok d => running_ d | _ => false end
}.

(** A new thread has not come to its loop yet. *)
Definition startThread (d : duty C R) : duty C R := mkDuty ThreadEnded (component d) (scanner_ d) true (slept d).

#[export] Instance duty_thread : MetricsThread (outcome (duty C R)) := {
  metrics_startThread o := d ← o; Ok (startThread d);
  metrics_on_fork o := d ← o; Ok (set_component (on_fork (component d)) d)
}.
End Component.

Section MetricsAgent.
Context {N C R : Type} `{MetricSource C} `{MetricSource R} `{TimerKernel}.
Local Abbreviation component_state := (outcome (duty C R)).
Local Abbreviation profiler := (profiler N component_state).
Local Abbreviation agent := (agent N component_state).
Implicit Types (p : profiler) (a : agent) (d : duty C R).

(** What the thread sees, and what it leaves. *)
Definition thread_view p : outcome (duty C R) :=
  d ← metrics (the_agent p);
  let m := component d in
  Ok (mkDuty (phase_ d) (with_listener (with_queue (the_queue p) (metricListener m)) m) (scanner (the_agent p))
        (running_ d) (slept d)).

Definition put_thread d p `{NetworkApi N} : profiler :=
  put_queue (queue_ (metricListener (component d)))
    (on_agent (fun a => set_scanner (scanner_ d) (set_metrics (Ok d) a)) p).

Definition on_thread `{NetworkApi N} (f : duty C R -> outcome (duty C R)) p : outcome profiler :=
  d ← thread_view p; d ← f d; Ok (put_thread d p).

Definition metrics_step `{NetworkApi N} (clock : timespec) (task : option (list string)) : profiler -> outcome profiler :=
  on_thread (thread_step clock task).
Definition metrics_enter `{NetworkApi N} (tid : Z) (task : option (list string)) : profiler -> outcome profiler :=
  on_thread (fun d => Ok (thread_enter tid task d)).
Definition metrics_exit `{NetworkApi N} : profiler -> outcome profiler := on_thread (fun d => Ok (onMetricsExit d)).
End MetricsAgent.

(** The component as [Profiler::configure] makes it. *)
Definition idle_duty {C R} (queue : CircularQueue) : duty C R :=
  mkDuty ThreadEnded (new_Metrics queue) (new_scanner ∅) false 0.
