(* ===== verification/MetricsAgentSpec.v ===== *)
(** * The metrics thread inside the agent *)
From S2P Require Import Prelude CString Options MetricTypes InternalQueue InternalQueueSpec CircularQueue CircularQueueSpec ListenerSim.
From S2P Require Import LinkableProfiler LinkableProfilerSpec Profiler ProfilerSpec Messages SignalHandler ProcScanner.
From S2P Require Import CollectorController CollectorControllerSpec SymbolTable SymbolTableSpec LogWriter LogWriterSpec.
From S2P Require Import Varint ProtocolHandler ProtocolHandlerSpec Processor ProcessorSpec.
From S2P Require Import Metrics MetricsSpec MetricsDuty MetricsDutySpec Agent AgentSpec AgentFlowSpec MetricsAgent.
From S2P Require Network.
#[local] Open Scope Z_scope.

Section Spec.
Context {N C R : Type} `{NetworkApi N} `{MetricSource C} `{MetricSource R} `{TimerKernel} `{Kernel} `{Backtrace} `{ThreadNames}.
Context `{CollectorParser} {Context Cursor : Type} `{Unwinder Context Cursor}.
Context (unw_strerror : Z -> string) (cfg : settings) (processor_tid : Z).
Local Abbreviation component_state := (outcome (duty C R)).
Local Abbreviation profiler := (profiler N component_state).
Local Abbreviation logWriter := (logWriter N component_state).
Local Abbreviation agent := (agent N component_state).
Implicit Types (p : profiler) (w : logWriter) (a : agent).

(** ** What the controller relies on *)

(** No call of the component has failed, its readers are there when it uses
    them, and it collects when the controller believes that it does. *)
Definition intact a : Prop :=
  exists d, metrics a = Ok d /\ readers_exist (component d) /\
    (metricsOn_ (controller a) = true -> enabled_ (component d) = true).

Definition keeps a a' : Prop := intact a -> intact a'.
#[local] Instance keeps_preorder : PreOrder keeps.
Proof using Type. split; [intros a; by unfold keeps|]. unfold keeps. auto. Qed.

Lemma same_keeps a a' : metrics a' = metrics a -> metricsOn_ (controller a') = metricsOn_ (controller a) -> keeps a a'.
Proof using Type. intros E1 E2 (d & Ed & Hd & Hon). exists d. by rewrite E1, E2. Qed.

Lemma disabled_component d : readers_exist (component d) ->
  exists d', metrics_disable (Ok d : component_state) = Ok d' /\ readers_exist (component d').
Proof using Type. intros Hd. exact (serve_request_sound Disable d Hd). Qed.

Lemma enabled_component prefixes d : readers_exist (component d) ->
  exists d', metrics_enable prefixes (Ok d : component_state) = Ok d' /\ readers_exist (component d') /\ enabled_ (component d') = true.
Proof using Type.
  intros Hd. cbn. destruct (enable_sound prefixes (component d) Hd) as (m & E & Hm). rewrite E. cbn [mbind outcome_bind].
  eexists. split; [done|]. split; [done|]. cbn [component set_component]. unfold enable in E.
  destruct (negb _); [by injection E as <-|].
  apply bind_ok in E as (? & _ & E). by apply bind_ok in E as (? & _ & [= <-]).
Qed.

Lemma onDisconnect_keeps a : keeps a (onDisconnect a).
Proof using Type.
  intros (d & Ed & Hd & Hon). unfold onDisconnect. cbn zeta. destruct (disabled_component d Hd) as (d' & E' & Hd').
  cbn [on_controller controller set_timers set_state metricsOn_ metrics CollectorController.set_network]. rewrite Ed.
  destruct (metricsOn_ (controller a)) eqn:Eon; cbn [metrics_thread_running duty_metrics].
  - destruct (running_ d).
    + exists d'. rewrite E'. by split_and!.
    + exists d. by split_and!.
  - exists d. split_and!; try done. cbn. by rewrite Eon.
Qed.

Lemma recordWithSize_keeps e a : keeps a (CollectorController.recordWithSize e a).
Proof using Type.
  unfold CollectorController.recordWithSize. destruct (network_transmit e (network a)) as [[] n]; try by apply same_keeps.
  etrans; [|apply (onDisconnect_keeps (CollectorController.set_network n a))]. by apply same_keeps.
Qed.

Lemma startProfiling_same process elapsed bp be a a' : startProfiling process elapsed bp be a = Ok a' ->
  metrics a' = metrics a /\ metricsOn_ (controller a') = metricsOn_ (controller a).
Proof using Type.
  unfold startProfiling. intros E. apply bind_ok in E as (a1 & E1 & [= <-]).
  assert (metrics a1 = metrics a /\ metricsOn_ (controller a1) = metricsOn_ (controller a)) as [<- <-].
  { destruct bp; [|destruct (isProcessProfiling _)]; [destruct (negb _)|..];
      [|by injection E1 as <-| |by injection E1 as <-]; by apply bind_ok in E1 as ([] & _ & [= <-]). }
  by repeat case_match.
Qed.

Lemma sendStashedNotifications_keeps a : keeps a (sendStashedNotifications a).
Proof using Type.
  unfold sendStashedNotifications. cbn zeta. generalize (notifications (controller a)). intros l.
  match goal with |- keeps _ (on_controller _ ?b) => etrans; [|by apply (same_keeps b)] end. revert a. induction l as [|[k s] l IH]; intros a; [reflexivity|].
  cbn [fold_left]. etrans; [|apply IH]. apply recordWithSize_keeps.
Qed.

Lemma onFirstSampleRate_keeps a : keeps a (onFirstSampleRate a).
Proof using Type.
  unfold onFirstSampleRate. cbn zeta. set (a1 := on_controller (set_state CONNECTED) a).
  etrans; [by apply (same_keeps a a1)|]. etrans; [apply (sendStashedNotifications_keeps a1)|]. by apply same_keeps.
Qed.

(** The collector's wish, before anything is sent. *)
Lemma switched_keeps r a b1 b2 :
  let a1 :=
    if switch_metrics_on r then
      let a := if negb (metrics_sample_rate_millis r =? DONT_CHANGE_SAMPLE_RATE)
               then set_metrics (metrics_setSampleRate (metrics_sample_rate_millis r) (metrics a)) a else a in
      set_metrics (metrics_enable (metrics_prefixes r) (metrics a)) a
    else set_metrics (metrics_disable (metrics a)) a in
  keeps a (on_controller (set_switches b1 b2 (switch_metrics_on r)) a1).
Proof using Type.
  cbn zeta. intros (d & Ed & Hd & _). destruct (switch_metrics_on r).
  - assert (exists d1, metrics (if negb (metrics_sample_rate_millis r =? DONT_CHANGE_SAMPLE_RATE)
        then set_metrics (metrics_setSampleRate (metrics_sample_rate_millis r) (metrics a)) a else a) = Ok d1 /\
        readers_exist (component d1)) as (d1 & E1 & Hd1).
    { destruct (negb _); [|by exists d]. cbn [metrics set_metrics]. rewrite Ed.
      exact (serve_request_sound (SetSampleRate (metrics_sample_rate_millis r)) d Hd). }
    destruct (enabled_component (metrics_prefixes r) d1 Hd1) as (d2 & E2 & Hd2 & Hon).
    exists d2. cbn [metrics on_controller set_metrics controller]. rewrite E1. by split_and!.
  - destruct (disabled_component d Hd) as (d' & E' & Hd'). exists d'. cbn [metrics on_controller set_metrics controller].
    rewrite Ed. by split_and!.
Qed.

Lemma onSampleRate_keeps r a a' : onSampleRate r a = Ok a' -> keeps a a'.
Proof using Type.
  unfold onSampleRate. intros E. apply bind_ok in E as (a1 & E1 & [= <-]).
  apply startProfiling_same in E1 as [E1 E2]. etrans; [by apply (same_keeps a a1)|].
  set (a2 := on_controller _ _). etrans; [apply (switched_keeps r a1 (thread_state_on r) (switch_memory_profiling_on r))|]. fold a2.
  etrans; [|by apply (same_keeps (if bool_decide (state_ (controller a2) = SENT_HELLO) then onFirstSampleRate a2 else a2))].
  destruct (bool_decide _); [apply onFirstSampleRate_keeps|done].
Qed.

Lemma onEnd_keeps a a' : CollectorController.onEnd a = Ok a' -> keeps a a'.
Proof using Type.
  unfold CollectorController.onEnd. intros E. apply bind_ok in E as ([b h] & _ & [= <-]).
  etrans; [|apply (onDisconnect_keeps (set_signalHandler h a))]. by apply same_keeps.
Qed.

(** ** The log writer *)

Definition writer_keeps w w' : Prop := keeps (controller_ w) (controller_ w').
#[local] Instance writer_keeps_preorder : PreOrder writer_keeps.
Proof using Type.
  split; [intros w; by unfold writer_keeps|]. intros w1 w2 w3 H12 H23. unfold writer_keeps in *. by etrans.
Qed.

Lemma write_keeps e w : writer_keeps w (LogWriter.recordWithSize e w).
Proof using Type. exact (recordWithSize_keeps e (controller_ w)). Qed.

Lemma threadName_keeps id w name w' : threadName id w = Ok (name, w') -> writer_keeps w w'.
Proof using Type.
  unfold threadName. destruct (threadIdToInformation w !! i32 id); [by intros [= _ <-]|].
  destruct (pthread_getname_np _ _) as [ret|]; intros E; apply bind_ok in E as (b & _ & [= _ <-]);
    [destruct (negb (ret =? ENOENT))|]; by apply same_keeps.
Qed.

Lemma lookup_frames_keeps todo i fs isError out w out' w' :
  lookup_frames todo i fs isError out w = Ok (out', w') -> writer_keeps w w'.
Proof using Type.
  revert i out w. induction todo as [|todo IH]; intros i out w; cbn [lookup_frames]; [by intros [= _ <-]|].
  intros E. apply bind_ok in E as (f & _ & E). apply bind_ok in E as ([l [s w1]] & E1 & E).
  apply IH in E. etrans; [|exact E].
  assert (writer_keeps w w1) as Hw; [|exact Hw].
  by eapply (lookup_locations_ok writer_keeps); [intros; apply write_keeps..| |exact E1].
Qed.

Lemma deliver_keeps e w w' : deliver_event e w = Ok w' -> writer_keeps w w'.
Proof using Type.
  destruct e as [[k s v|i|t l|]|[n o s]|[ts t sg st tsc|i n]]; cbn.
  - unfold recordNotification. intros [= <-]. destruct (isConnected _); [apply write_keeps|by apply same_keeps].
  - intros [= <-]. apply write_keeps.
  - intros [= <-]. apply write_keeps.
  - intros [= <-]. apply write_keeps.
  - intros [= <-]. by apply same_keeps.
  - unfold LogWriter.recordStackTrace. destruct (setSampleType sg w) as [type rate]. intros E.
    apply bind_ok in E as ([name w1] & Hname & E). apply bind_ok in E as ([entries w2] & E1 & [= <-]).
    etrans; [by eapply threadName_keeps|]. etrans; [by eapply lookup_frames_keeps|]. apply write_keeps.
  - by intros [= <-].
Qed.

Lemma dispatch_keeps envelope w w' : dispatch envelope w = Ok w' -> writer_keeps w w'.
Proof using Type.
  destruct envelope as [|r|time|]; cbn [dispatch on_terminate on_sample_rate on_heartbeat writer_messages agent_listener].
  - intros [= <-]. by apply same_keeps.
  - intros E. apply bind_ok in E as (a & E & [= <-]). exact (onSampleRate_keeps r (controller_view w) a E).
  - intros [= <-]. by apply same_keeps.
  - by intros [= <-].
Qed.

(** ** The agent *)

Definition profiler_keeps p p' : Prop := keeps (the_agent p) (the_agent p').
#[local] Instance profiler_keeps_preorder : PreOrder profiler_keeps.
Proof using Type.
  split; [intros p; by unfold profiler_keeps|]. intros p1 p2 p3 H12 H23. unfold profiler_keeps in *. by etrans.
Qed.

Lemma settle_keeps p : profiler_keeps p (settle p).
Proof using Type. unfold profiler_keeps. by rewrite settle_agent. Qed.

Lemma on_agent_keeps f p : (forall a, keeps a (f a)) -> profiler_keeps p (on_agent f p).
Proof using Type. intros Hf. unfold profiler_keeps. rewrite the_agent_on. apply Hf. Qed.

Lemma put_agent_keeps a p : keeps (the_agent p) a -> profiler_keeps p (put_agent a p).
Proof using Type. unfold profiler_keeps. by rewrite the_agent_put. Qed.

(** What does not concern the metrics. *)
Lemma on_agent_same_keeps f p :
  (forall a, metrics (f a) = metrics a /\ metricsOn_ (controller (f a)) = metricsOn_ (controller a)) ->
  profiler_keeps p (on_agent f p).
Proof using Type. intros Hf. apply on_agent_keeps. intros a. by apply same_keeps; apply Hf. Qed.

Lemma delivery_keeps e p p' : deliver_event e p = Ok p' -> profiler_keeps p p'.
Proof using Type.
  intros E. assert (on_writer (deliver_event e) p = Ok p') as E' by (by destruct e as [[]|[]|[]]).
  unfold on_writer in E'. apply bind_ok in E' as (w & Ew & [= <-]). etrans; [|apply settle_keeps].
  exact (deliver_keeps e (writer p) w Ew).
Qed.

Lemma connect_keeps a : keeps a (CollectorController.onSocketConnect cfg id a).
Proof using Type.
  unfold CollectorController.onSocketConnect. cbn [id]. set (a1 := on_controller _ a).
  etrans; [by apply (same_keeps a a1)|]. etrans; [apply (recordWithSize_keeps (hello cfg) a1)|].
  by apply same_keeps.
Qed.

Lemma poll_keeps p : profiler_keeps p (Agent.controller_poll cfg p).2.
Proof using Type.
  unfold profiler_keeps. pose proof (the_agent_poll cfg p) as E. destruct (Agent.controller_poll cfg p) as [worked p'].
  apply (f_equal snd) in E. cbn [snd] in *. rewrite E. unfold poll. destruct (state_ _); try done.
  unfold CollectorController.attemptConnect. set (a1 := backoff _ _).
  assert (keeps (the_agent p) a1) as H01.
  { apply same_keeps; subst a1; unfold backoff; by destruct (_ =? 0). }
  etrans; [exact H01|]. destruct (network_connect (network a1)) as [[] n]; cbn [snd].
  - etrans; [by apply (same_keeps a1 (CollectorController.set_network n a1))|]. apply connect_keeps.
  - by apply same_keeps.
Qed.

Local Abbreviation handler := (ProtocolHandler.ProtocolHandler logWriter).

Lemma complete_read_writer bytes ec (h h' : handler) :
  complete_read bytes ec h = Ok h' -> writer_keeps (listener_ h) (listener_ h').
Proof using Type.
  unfold complete_read. destruct (pending h) as [r|]; [|by intros [= <-]].
  intros E. apply bind_ok in E as (b & _ & E). destruct (ProtocolHandler.handler r).
  { by apply onReadHeader_keeps in E as [-> _]. }
  unfold onReadBody in E. set (h1 := ProtocolHandler.set_pending None _) in E.
  destruct ec; try (injection E as <-; by destruct (attemptRead_keeps h1) as [-> _]).
  apply bind_ok in E as (message & _ & E). apply bind_ok in E as (l & E & [= <-]).
  destruct (attemptRead_keeps (set_listener l h1)) as [-> _]. cbn [listener_ set_listener].
  destruct (ParseFromArray message); [by eapply dispatch_keeps|]. by injection E as <-.
Qed.

Lemma handler_keeps e p p' : handler_of e p = Some (Ok p') -> profiler_keeps p p'.
Proof using Type.
  unfold handler_of. intros E. destruct e as [bytes ec|millis| | | | |].
  - destruct (pending (protocolHandler p)); simpl in E; [|done]. destruct (read_ends _ _ _); [|done].
    injection E as E. apply bind_ok in E as (h & E & [= <-]). etrans; [|apply settle_keeps].
    exact (complete_read_writer _ _ _ _ E).
  - destruct (is_due _ p); [|done]. injection E as <-. apply on_agent_keeps.
    intros a. etrans; [apply (recordWithSize_keeps (Heartbeat millis))|]. by apply same_keeps.
  - destruct (is_due _ p); [|done]. injection E as <-. apply on_agent_keeps.
    intros a. etrans; [apply onDisconnect_keeps|]. by apply same_keeps.
  - destruct (is_due _ p); [|done]. injection E as <-.
    etrans; [|apply (on_agent_same_keeps scheduleAllocationTimer (recordAllocationTable p)); done].
    etrans; [|apply settle_keeps].
    exact (write_keeps (AllocationTable 0 (allocation_rows (allocationsTable (writer p)))) (writer p)).
  - destruct (is_due _ p); [|done]. injection E as <-. apply on_agent_keeps.
    intros a. etrans; [apply (recordWithSize_keeps (Statistics (agent_statistics a)))|]. by apply same_keeps.
  - by injection E as <-.
  - done.
Qed.

#[local] Instance spec_processor : ProcessorApi profiler := profiler_processor cfg processor_tid.

Lemma turn_keeps d p d' p' : duration d -> turn d p = Ok (d', p') -> profiler_keeps p p'.
Proof using Type.
  intros Hd E. assert (profiler_keeps p p' /\ duration d') as [Hs _]; [|exact Hs].
  apply (turn_along cfg processor_tid profiler_keeps d); [..|exact Hd|exact E].
  - exact poll_keeps.
  - intros l q. by apply same_keeps.
  - exact handler_keeps.
  - intros c q. by apply same_keeps.
  - exact delivery_keeps.
  - intros n q _. by apply (on_agent_same_keeps (CollectorController.sleep_ms n) q).
Qed.

Lemma start_keeps p : profiler_keeps p (start p).
Proof using Type.
  unfold start. etrans; [|apply (on_agent_keeps (fun a => set_metrics (metrics_startThread (metrics a)) a))].
  - etrans; [|by apply same_keeps]. by apply (on_agent_same_keeps _ p).
  - intros a (d & Ed & Hd & Hon). exists (startThread d). cbn. rewrite Ed. by split_and!.
Qed.

Lemma on_fork_keeps p : profiler_keeps p (on_fork p).
Proof using Type.
  unfold on_fork. etrans; [|apply start_keeps]. set (p1 := on_agent (fun a => set_scanner _ a) p).
  etrans; [by apply (on_agent_same_keeps (fun a => set_scanner (reset_scan_threads (scanner a)) a) p)|]. fold p1.
  unfold profiler_keeps. rewrite !the_agent_on. set (p2 := on_agent CollectorController.on_fork p1).
  change (the_agent (set_writer (LogWriter.onSocketConnected (writer p2)) p2)) with (the_agent p2).
  subst p2. rewrite the_agent_on. intros (d & Ed & Hd & _). exists (set_component (Metrics.on_fork (component d)) d).
  split; [|by split]. change (metrics_on_fork (metrics (the_agent p1)) = Ok (set_component (Metrics.on_fork (component d)) d)).
  by rewrite Ed.
Qed.

Lemma agent_step_keeps p p' :
  agent_step unw_strerror cfg processor_tid p p' -> sane cfg p -> profiler_keeps p p'.
Proof using Type.
  intros [d d' q Hd E|q E|q E|signum at_ q E|o b c _| | |d Hd|events randoms Hr] Hg.
  - by eapply turn_keeps.
  - etrans; [by apply (on_agent_same_keeps (fun a => set_scanner (ProcScanner.on_processor_thread_start processor_tid (scanner a)) a) p)|].
    change (Processor.controller_onStart (Processor.on_processor_thread_start p)) with
      (controller_onStart cfg (on_agent (fun a => set_scanner (ProcScanner.on_processor_thread_start processor_tid (scanner a)) a) p)) in E.
    set (p1 := on_agent _ p) in *. unfold controller_onStart in E. destruct (isOn (the_agent p1) && _) eqn:Es.
    + injection E as <-. unfold profiler_keeps. rewrite the_agent_onSocketConnect. apply connect_keeps.
    + apply bind_ok in E as (a & E & [= <-]). apply put_agent_keeps. unfold CollectorController.onStart in E. rewrite Es in E.
      destruct (bool_decide (_ = PROMETHEUS_MODE)); [|by injection E as <-].
      apply startProfiling_same in E as [E1 E2]. by apply same_keeps.
  - apply bind_ok in E as (a & E & [= <-]). apply put_agent_keeps. by apply onEnd_keeps.
  - apply bind_ok in E as (c & _ & [= <-]). by apply same_keeps.
  - by apply same_keeps.
  - apply start_keeps.
  - apply on_fork_keeps.
  - by apply (on_agent_same_keeps (CollectorController.sleep_ms d) p).
  - by apply same_keeps.
Qed.

(** ** The thread *)

#[local] Existing Instance advances_preorder.

Lemma put_thread_agent d p : the_agent (put_thread d p) =
  set_counters (failures (queue_ (metricListener (component d)))) (set_scanner (scanner_ d) (set_metrics (Ok d) (the_agent p))).
Proof using Type. 
  unfold put_thread. change (the_agent (put_queue ?c ?q)) with (set_counters (failures c) (the_agent q)). by rewrite the_agent_on.
Qed.

Lemma thread_view_ok d p : metrics (the_agent p) = Ok d ->
  exists d', thread_view p = Ok d' /\ readers_exist (component d') = readers_exist (component d) /\
    Metrics.enabled_ (component d') = Metrics.enabled_ (component d).
Proof using Type. intros E. unfold thread_view. rewrite E. by eexists. Qed.

Lemma on_thread_advances f p p' : on_thread f p = Ok p' -> advances cfg p p'.
Proof using Type.
  intros E. unfold on_thread in E. apply bind_ok in E as (d & _ & E). apply bind_ok in E as (d' & _ & [= <-]).
  unfold put_thread. etrans; [|apply put_queue_advances].
  by apply (on_agent_elsewhere cfg (fun a => set_scanner (scanner_ d') (set_metrics (Ok d') a)) p).
Qed.

(** A part of the thread that leaves the component in order. *)
Lemma on_thread_keeps f p :
  (forall d, readers_exist (component d) -> exists d', f d = Ok d' /\ readers_exist (component d') /\
    Metrics.enabled_ (component d') = Metrics.enabled_ (component d)) ->
  intact (the_agent p) -> exists p', on_thread f p = Ok p' /\ intact (the_agent p').
Proof using Type.
  intros Hf (d & Ed & Hd & Hon). destruct (thread_view_ok d p Ed) as (d1 & E1 & Er1 & Ee1).
  destruct (Hf d1 ltac:(by rewrite Er1)) as (d2 & E2 & Hd2 & Ee2). exists (put_thread d2 p).
  unfold on_thread. rewrite E1. cbn [mbind outcome_bind]. rewrite E2. split; [done|]. exists d2. rewrite put_thread_agent.
  split; [done|]. split; [done|]. intros H'. rewrite Ee2, Ee1. by apply Hon.
Qed.

Lemma metrics_step_keeps clock task p :
  intact (the_agent p) -> exists p', metrics_step clock task p = Ok p' /\ intact (the_agent p').
Proof using Type.
  apply on_thread_keeps. intros d Hd. destruct (thread_step_sound clock task d Hd) as (d' & E & Hd'). exists d'.
  split; [done|]. split; [done|]. by eapply thread_step_enabled.
Qed.

Lemma metrics_enter_keeps tid task p :
  intact (the_agent p) -> exists p', metrics_enter tid task p = Ok p' /\ intact (the_agent p').
Proof using Type. apply on_thread_keeps. intros d Hd. by eexists. Qed.

Lemma metrics_exit_keeps p : intact (the_agent p) -> exists p', metrics_exit p = Ok p' /\ intact (the_agent p').
Proof using Type. apply on_thread_keeps. intros d Hd. by eexists. Qed.

(** What happens to the agent, now with its metrics thread: its steps, those of the
    thread, which enters its loop after a start, and the exit handler. *)
Inductive system_step p : profiler -> Prop :=
| system_agent p' : agent_step unw_strerror cfg processor_tid p p' -> system_step p p'
| system_thread clock task p' : metrics_step clock task p = Ok p' -> system_step p p'
| system_enter tid task p' : metrics_enter tid task p = Ok p' -> system_step p p'
| system_exit p' : metrics_exit p = Ok p' -> system_step p p'.

Lemma system_step_advances p p' : system_step p p' -> advances cfg p p'.
Proof using Type.
  intros [q Hs|clock task q E|tid task q E|q E]; [by apply (agent_step_advances unw_strerror cfg processor_tid)|..];
    by eapply on_thread_advances.
Qed.

Lemma system_step_keeps p p' : system_step p p' -> sane cfg p -> profiler_keeps p p'.
Proof using Type.
  intros [q Hs|clock task q E|tid task q E|q E] Hp; [by apply agent_step_keeps|..]; intros Hi.
  - destruct (metrics_step_keeps clock task p Hi) as (q' & E' & Hq). rewrite E in E'. by injection E' as ->.
  - destruct (metrics_enter_keeps tid task p Hi) as (q' & E' & Hq). rewrite E in E'. by injection E' as ->.
  - destruct (metrics_exit_keeps p Hi) as (q' & E' & Hq). rewrite E in E'. by injection E' as ->.
Qed.

(** C11. With the metrics thread running inside the agent, the theorems about the
    agent stay true: the controller only takes the steps of its own transition
    system, and the agent stays sane.  However the controller's calls, signals,
    forks and the end of the program fall between the steps of the thread, no call
    of the component fails, the thread can always take its next step, no reader is
    used that is not there, and the component is enabled whenever the controller
    believes that it collects metrics. *)
Theorem metrics_thread_fits_in configuration version host build net queue installed symbol0 tsc0 events randoms time p0 p :
  configure configuration version host build net (Ok (idle_duty queue)) installed symbol0 tsc0 events randoms time = Ok (cfg, p0) ->
  Forall (fun r => 0 <= r <= RANDOMISATION_RANGE_IN_MS) randoms ->
  rtc system_step p0 p ->
  rtc (any_step cfg (@id agent) id) (the_agent p0) (the_agent p) /\ sane cfg p /\ intact (the_agent p) /\
  (forall clock task, exists p', metrics_step clock task p = Ok p').
Proof using Type.
  intros E Hr Hsteps. assert (sane cfg p0 /\ intact (the_agent p0)) as [Hs0 Hi0].
  { unfold configure in E. destruct host as [hostname|]; [|done]. destruct (_ <? 0); [done|]. injection E as Es <-.
    split; [split; [by apply good_new|apply length_replicate|done|done]|]. by exists (idle_duty queue). }
  assert (advances cfg p0 p /\ (sane cfg p0 -> profiler_keeps p0 p)) as [Hadv Hkeeps].
  { clear E Hr Hs0 Hi0. induction Hsteps as [|p1 p2 p3 Hstep _ [IH1 IH2]]; [done|].
    pose proof (system_step_advances p1 p2 Hstep) as A12. split; [by etrans|].
    intros Hp1. etrans; [by apply system_step_keeps|]. apply IH2. by apply A12. }
  destruct (Hadv Hs0) as [Hsteps' Hs]. specialize (Hkeeps Hs0 Hi0). split_and!; [done..|].
  intros clock task. destruct (metrics_step_keeps clock task p Hkeeps) as (p' & E' & _). by exists p'.
Qed.

(** ** From a reading to the collector *)

(** A reader that has [entries] to report, or nothing. *)
Definition reports {S} `{MetricSource S} (t : Z) (s s' : S) (entries : list MetricListenerEntry) : Prop :=
  forall l, exists n, source_read t s l = (n, s', listener_recordEntries entries t l).
Definition has_nothing {S} `{MetricSource S} (t : Z) (s s' : S) : Prop := forall l, source_read t s l = (0, s', l).

(** The thread has the component read its sources. *)
Record reads (t : Z) (entries : list MetricListenerEntry) (m : Metrics C R) : Prop := {
  reads_enabled : Metrics.enabled_ m = true;
  reads_cpu : exists cpu cpu', cpudataReader_ m = Some cpu /\ reports t cpu cpu' entries;
  reads_ring : exists ring ring', eventRingReader_ m = Some ring /\ has_nothing t ring ring';
  reads_names : numbered (metricNameToId (metricListener m))
}.

Lemma read_pushes max t entries m c :
  reads t entries m -> holds max (queue_ (metricListener m)) c ->
  let l := metricListener m in
  Z.of_nat (base.size (metricNameToId l) + length entries + length (retryEntries_ l)) < 2 ^ 32 ->
  exists m' infos accepted rejected new extra,
    read_readers t m = Ok (false, m') /\
    records max t l c entries (listener_recordEntries entries t l) infos accepted rejected new /\
    metricNameToId (metricListener m') = metricNameToId (listener_recordEntries entries t l) /\
    let c1 := append_if_room (Contents (main_items c ++ (InformationSent <$> infos)) (alloc_items c) (stack_items c))
                (MainEvent (SamplesSent t new)) in
    holds max (queue_ (metricListener m')) (Contents (main_items c1 ++ extra) (alloc_items c1) (stack_items c1)).
Proof using Type.
  intros [He (cpu & cpu' & Ec & Hc) (ring & ring' & Er & Hn) Hnum] Hq l Hsize. unfold read_readers. rewrite He, Ec, Er.
  cbn [in_bounds mbind outcome_bind]. destruct (Hc (metricListener m)) as [n ->]. cbn [in_bounds mbind outcome_bind]. rewrite Hn. fold l.
  destruct (recordEntries_spec max entries t l c Hq Hnum Hsize) as (infos & accepted & rejected & new & Hrec).
  pose proof (records_queue _ _ _ _ _ _ _ _ _ _ Hrec) as Hl. set (l1 := listener_recordEntries entries t l) in *.
  set (c1 := append_if_room _ _) in *.
  assert (exists needs l2 extra,
    (if needsToSendConstantMetrics m then
       if source_hasEmittedConstantMetrics cpu' && source_hasEmittedConstantMetrics ring' && noRemainingConstantsToSend l1
       then let '(pushed, c) := pushConstantMetricsComplete (queue_ l1) in (negb pushed, with_queue c l1) else (true, l1)
     else (false, l1)) = (needs, l2) /\ metricNameToId l2 = metricNameToId l1 /\
    holds max (queue_ l2) (Contents (main_items c1 ++ extra) (alloc_items c1) (stack_items c1))) as (needs & l2 & extra & -> & En & Hl2).
  { assert (holds max (queue_ l1) (Contents (main_items c1 ++ []) (alloc_items c1) (stack_items c1))) as Hnone.
    { rewrite app_nil_r. by destruct c1. }
    destruct (needsToSendConstantMetrics m); [|by exists false, l1, []]. destruct (_ && _ && _); [|by exists true, l1, []].
    destruct (push_complete_spec max (queue_ l1) c1 Hl) as (c' & Hpush & Hres).
    cbn [exec_push op_event count_refusal] in Hpush, Hres. injection Hpush as ->.
    destruct (has_room c1 (MainEvent ConstantsComplete)) eqn:Eroom; cbn [has_room] in Eroom |- *; rewrite Eroom.
    - destruct Hres as [Hres _]. exists false, (with_queue c' l1), [ConstantsComplete].
      split; [done|]. split; [done|]. by destruct c1.
    - exists true, (with_queue c' l1), []. split; [done|]. split; [done|]. subst c'.
      exact (holds_set_failures max _ (queue_ l1) _ Hnone). }
  eexists _, infos, accepted, rejected, new, extra. split; [done|]. by split_and!.
Qed.

(** What is sent for an item of the main ring, if it is one of the metrics. *)
Definition answers (e : event) (l : list AgentEnvelope) : Prop :=
  match e with
  | MainEvent (InformationSent i) => exists x, l = [x] /\ announces_metric i x
  | MainEvent (SamplesSent t s) => exists x, l = [x] /\ carries_samples t s x
  | _ => True
  end.

Lemma delivery_answers e p p' : trace_in e = None -> deliver_event e p = Ok p' ->
  exists l, posted l (writer p) (writer p') /\ answers e l.
Proof using Type.
  intros He E. rewrite deliver_writer in E. unfold on_writer in E. apply bind_ok in E as (w' & E & [= <-]).
  rewrite writer_settle. assert (manageable e) as Hm by by destruct e as [|?|[]].
  destruct (deliver_handled e (writer p) Hm) as (w1 & l & E1 & [Hp Hh]). rewrite E1 in E. injection E as <-.
  exists l. split; [done|]. by destruct e as [[]|[]|[]].
Qed.

Lemma history_answers p es p' : delivered p es p' -> omap of_stack es = [] ->
  exists ls, posted (concat ls) (writer p) (writer p') /\ Forall2 answers es ls.
Proof using Type.
  intros Hd. induction Hd as [|c es q Hd IH|e es q q' Hd IH E]; intros Hes.
  - exists []. split; [by apply posted_nothing|done].
  - destruct (IH Hes) as (ls & [] & Hans). exists ls. by split.
  - rewrite omap_app in Hes. apply app_eq_nil in Hes as [Hes He]. destruct (IH Hes) as (ls & Hls & Hans).
    apply delivery_answers in E as (l & Hl & Ha).
    + exists (ls ++ [l]). rewrite concat_app. simpl. rewrite app_nil_r. split; [by eapply posted_app|].
      apply Forall2_app; [done|]. by constructor.
    + apply no_trace. simpl in He. by destruct (of_stack e).
Qed.

(** Nothing but items of the main ring. *)
Lemma main_only es : omap of_alloc es = [] -> omap of_stack es = [] -> es = MainEvent <$> omap of_main es.
Proof using Type. induction es as [|[m|a|s] es IH]; simpl; intros Ha Hs; try done. f_equal. by apply IH. Qed.

Lemma answers_information infos : forall ls, Forall2 answers (MainEvent <$> (InformationSent <$> infos)) ls ->
  Forall2 announces_metric infos (concat ls).
Proof using Type.
  induction infos as [|i infos IH]; intros ls Hls; inversion Hls as [|? ? ? ? Hi Hrest]; subst; [constructor|].
  destruct Hi as (x & -> & Hx). simpl. constructor; [done|by apply IH].
Qed.

(** The first items popped are the oldest. *)
Lemma drained_prefix todo es c c' first extra :
  main_items c = first ++ extra -> (length first <= todo)%nat -> drains_main todo es c c' ->
  exists rest, omap of_main es = first ++ rest.
Proof using Type.
  intros Ec Hlen [[m E] Hmin]. rewrite Ec, <- app_assoc in E. rewrite Ec, length_app in Hmin.
  assert (length first <= length (omap of_main es))%nat as Hle by lia.
  exists (drop (length first) (omap of_main es)). rewrite <- (take_drop (length first) (omap of_main es)) at 1. f_equal.
  apply (f_equal (take (length first))) in E. rewrite take_app_length, take_app_le in E by done. done.
Qed.

Lemma put_thread_rest d p : Agent.ready (put_thread d p) = Agent.ready p /\ posted [] (writer p) (writer (put_thread d p)).
Proof using Type.
  unfold put_thread. set (f := fun a => set_scanner (scanner_ d) (set_metrics (Ok d) a)).
  destruct (on_agent_same f p) as [E1 _ _ E2 _]. split; [exact E1|]. apply posted_nothing; [exact E2|].
  destruct (settle_rest (set_writer (put_controller (f (the_agent p)) (writer p)) p)) as (_ & _ & _ & _ & Ew).
  change (network (controller_ (writer (settle (set_writer (put_controller (f (the_agent p)) (writer p)) p)))) = network (controller_ (writer p))).
  by rewrite Ew.
Qed.

End Spec.

(** ** An agent with a reader that reports one constant *)

#[local] Existing Instance accepting_network.
#[local] Existing Instance willing_kernel.
#[local] Existing Instance one_program.
#[local] Existing Instance one_thread.
#[local] Existing Instance no_messages.
#[local] Existing Instance no_timers.

#[local] Instance one_constant : MetricSource unit := {
  source_new _ := tt;
  source_updateEntryPrefixes _ r := r;
  source_read t r l := (1, r, listener_recordEntries [cpu_model] t l);
  source_hasEmittedConstantMetrics _ := true
}.
#[local] Instance quiet_ring : MetricSource bool := {
  source_new _ := false;
  source_updateEntryPrefixes _ r := r;
  source_read t r l := (0, r, l);
  source_hasEmittedConstantMetrics _ := false
}.

Definition agent_with (s : State) (n : accepting) (m : duty unit bool) : agent accepting (outcome (duty unit bool)) :=
  mkAgent (set_state s (new_controller (test_settings false) true)) n (Ok m) (new_SignalHandler ∅) (new_scanner ∅) no_failures 0 0 0 0.

Definition system_with (s : State) (n : accepting) (running : bool) (m : duty unit bool) : profiler accepting (outcome (duty unit bool)) :=
  mkProfiler (new_ProtocolHandler (mkLogWriter (new_CircularQueue None 0 8) (agent_with s n m) no_symbols ∅ ∅ [])) [] [] running.

Definition no_queue : CircularQueue := new_CircularQueue None 0 8.
Definition fresh_system := system_with DISCONNECTED (Accepting false []) false (idle_duty no_queue).

(** Started, and its thread has come to its loop. *)
Lemma metrics_thread_fits_in_witness :
  exists p, metrics_enter 9 None (start fresh_system) = Ok p /\
    sane (test_settings false) p /\ intact (the_agent p) /\ exists p', metrics_step midnight None p = Ok p'.
Proof.
  destruct (metrics_enter 9 None (start fresh_system)) as [p| | |] eqn:E; [|discriminate..]. exists p. split; [reflexivity|].
  destruct (metrics_thread_fits_in (H7 := chain_stack 0 4) (fun _ => "error"%string) (test_settings false) 7
    some_options "4.14.0" (Some "host"%string) (test_settings false) (Accepting false []) no_queue ∅ None 0 [] [] 0
    fresh_system p) as (_ & Hs & Hi & Hstep).
  - reflexivity.
  - constructor.
  - eapply rtc_l; [apply system_agent; exact (agent_start _ _ _ fresh_system)|].
    apply rtc_once. exact (system_enter _ _ _ _ 9 None p E).
  - split; [exact Hs|]. split; [exact Hi|]. exact (Hstep midnight None).
Defined.

Definition reading_duty : duty unit bool :=
  mkDuty (Reading midnight) (mkMetrics false true 1000 (Some false) (Some tt) true (mkListener no_queue ∅ [])) (new_scanner ∅) true 0.
Definition reading_system := system_with CONNECTED (Accepting true []) true reading_duty.

